(** * Dalvik native support services: shallow embedding and verification

    Three units of the Dalvik tree are embedded here:

    - [vm/Debugger.c]: the VM side of the JDWP debugger bridge
      (module [Debugger]);
    - [libcore/xml/.../org_apache_harmony_xml_ExpatParser.cpp]: the bridge
      between Expat callbacks and the Java parser object (module [Expat]);
    - [libdex/DexSwapVerify.c]: byte swapping and structural verification
      of DEX files (module [Dex]).

    Conventions.  C integers are [Z]; a [u4] is kept in [0, 2^32) and the
    wrap-around of every [u4] operation is written out.  C strings are
    [string]s without the terminating NUL.  Pointers into the mapped DEX
    file are byte offsets from [fileStart]; [NULL] is [None]. *)

From Stdlib Require Import ZArith List Lia Bool String Ascii.
From stdpp Require Import base list.
From coqutil Require Import Z.bitblast Byte Word.LittleEndianList.

Local Open Scope Z_scope.

(* ===================================================================== *)
(** * Part I: the embedding                                               *)
(* ===================================================================== *)

(** ** C string primitives used by the sources *)

Module CString.

Definition uchar (c : ascii) : Z := Z.of_nat (nat_of_ascii c).

(** [strcmp]: difference of the first pair of differing bytes, the end of
    a string counting as byte 0. *)
Fixpoint strcmp (a b : string) : Z :=
  match a, b with
  | EmptyString, EmptyString => 0
  | EmptyString, String d _ => 0 - uchar d
  | String c _, EmptyString => uchar c
  | String c a', String d b' =>
      if Ascii.eqb c d then strcmp a' b' else uchar c - uchar d
  end.

(** [strncmp]: as [strcmp], over at most [n] bytes. *)
Fixpoint strncmp (a b : string) (n : nat) : Z :=
  match n with
  | O => 0
  | S n' =>
      match a, b with
      | EmptyString, EmptyString => 0
      | EmptyString, String d _ => 0 - uchar d
      | String c _, EmptyString => uchar c
      | String c a', String d b' =>
          if Ascii.eqb c d then strncmp a' b' n' else uchar c - uchar d
      end
  end.

Fixpoint strlen (s : string) : Z :=
  match s with
  | EmptyString => 0
  | String _ s' => 1 + strlen s'
  end.

(** [strrchr s c]: the index of the last occurrence of [c] in [s], as the
    offset of the returned pointer from [s]; [None] for [NULL]. *)
Fixpoint strrchr (s : string) (c : ascii) : option Z :=
  match s with
  | EmptyString => None
  | String d s' =>
      match strrchr s' c with
      | Some i => Some (1 + i)
      | None => if Ascii.eqb d c then Some 0 else None
      end
  end.

(** [s + n] for a pointer [s] into a string. *)
Fixpoint advance (s : string) (n : nat) : string :=
  match n, s with
  | O, _ => s
  | S n', String _ s' => advance s' n'
  | S _, EmptyString => EmptyString
  end.

End CString.

(* --------------------------------------------------------------------- *)
(** ** vm/Debugger.c                                                      *)
(* --------------------------------------------------------------------- *)

Module Debugger.
Import CString.

(** *** Local-variable slots (the Eclipse workaround) *)

Definition kSlot0Sub : Z := 1000.

Record Method := {
  registersSize : Z;   (* u2 *)
  insSize : Z;         (* u2 *)
  accessFlags : Z
}.

(** The stack save area reached from a frame pointer holds the frame's
    method; a frame is modelled by that method. *)
Record StackSaveArea := { method : Method }.

Definition tweakSlot (slot : Z) (name : string) : Z :=
  let newSlot := slot in
  if strcmp name "this"%string =? 0 then 0
  else if slot =? 0 then kSlot0Sub
  else newSlot.

Definition untweakSlot (slot : Z) (saveArea : StackSaveArea) : Z :=
  let newSlot := slot in
  if slot =? kSlot0Sub then 0
  else if slot =? 0 then
    let method := method saveArea in
    registersSize method - insSize method
  else newSlot.

(** *** Class information *)

(** Class states of the VM ([ClassStatus] in the VM's object header, which
    is not part of the sources at hand; the names are those the VM uses). *)
Inductive ClassStatus :=
| CLASS_ERROR | CLASS_NOTREADY | CLASS_LOADED | CLASS_PREPARED
| CLASS_RESOLVED | CLASS_VERIFYING | CLASS_VERIFIED
| CLASS_INITIALIZING | CLASS_INITIALIZED.

Definition ClassStatus_eqb (a b : ClassStatus) : bool :=
  match a, b with
  | CLASS_ERROR, CLASS_ERROR | CLASS_NOTREADY, CLASS_NOTREADY
  | CLASS_LOADED, CLASS_LOADED | CLASS_PREPARED, CLASS_PREPARED
  | CLASS_RESOLVED, CLASS_RESOLVED | CLASS_VERIFYING, CLASS_VERIFYING
  | CLASS_VERIFIED, CLASS_VERIFIED
  | CLASS_INITIALIZING, CLASS_INITIALIZING
  | CLASS_INITIALIZED, CLASS_INITIALIZED => true
  | _, _ => false
  end.

(** JDWP class status bits and type tags (JDWP constants). *)
Definition CS_VERIFIED : Z := 1.
Definition CS_PREPARED : Z := 2.
Definition CS_INITIALIZED : Z := 4.
Definition CS_ERROR : Z := 8.

Definition TT_CLASS : Z := 1.
Definition TT_INTERFACE : Z := 2.
Definition TT_ARRAY : Z := 3.

Record ClassObject := {
  descriptor : string;
  status : ClassStatus;
  isInterface : bool      (* dvmIsInterfaceClass *)
}.

(** [clazz->descriptor[0] == '['] *)
Definition descriptorStartsWithBracket (d : string) : bool :=
  match d with
  | String c _ => Ascii.eqb c "["%char
  | EmptyString => false
  end.

(** The out-parameters [*pTypeTag] and [*pStatus], as a pair. *)
Definition dvmDbgGetClassInfo (clazz : ClassObject) : Z * Z :=
  if descriptorStartsWithBracket (descriptor clazz) then
    (TT_ARRAY, Z.lor CS_VERIFIED CS_PREPARED)
  else
    let pStatus :=
      if ClassStatus_eqb (status clazz) CLASS_ERROR then CS_ERROR
      else Z.lor (Z.lor CS_VERIFIED CS_PREPARED) CS_INITIALIZED in
    let pTypeTag := if isInterface clazz then TT_INTERFACE else TT_CLASS in
    (pTypeTag, pStatus).

(** What the class states mean for a debugger: a class has passed
    verification once its state is [CLASS_VERIFIED] or later.  This is the
    reading of "its actual verified status" that the statement about
    [dvmDbgGetClassInfo] is compared against. *)
Definition classIsVerified (s : ClassStatus) : bool :=
  match s with
  | CLASS_VERIFIED | CLASS_INITIALIZING | CLASS_INITIALIZED => true
  | _ => false
  end.

(** *** Method invocation in a suspended thread *)

Inductive JdwpError :=
| ERR_NONE
| ERR_INVALID_THREAD
| ERR_THREAD_SUSPENDED
| ERR_OTHER (code : Z).

Record DebugInvokeReq := {
  ready : bool;
  invokeNeeded : bool;
  obj : Z;
  thread : Z;
  clazz : Z;
  method_ : Z;
  numArgs : Z;
  argArray : list Z;
  options : Z;
  err : JdwpError;
  resultTag : Z;
  resultValue : Z;
  exceptObj : Z
}.

Record Thread := {
  threadId : Z;
  threadObj : Z;           (* Object*, 0 for NULL *)
  suspendCount : Z;
  invokeReq : DebugInvokeReq
}.

(** [gDvm.threadList], a NULL-terminated chain of [Thread]s. *)
Definition ThreadList := list Thread.

(** [(Object* )(u4) id] and its siblings. *)
Definition objectIdToObject (id : Z) : Z := id mod 2 ^ 32.
Definition refTypeIdToClassObject (id : Z) : Z := id mod 2 ^ 32.
Definition methodIdToMethod (refTypeId id : Z) : Z := id mod 2 ^ 32.

(** The position of the first thread whose [threadObj] is the one asked
    for; [None] when the scan reaches the end of the list. *)
Fixpoint threadObjToThread (threadList : ThreadList) (obj : Z) : option nat :=
  match threadList with
  | [] => None
  | t :: rest =>
      if threadObj t =? obj then Some O
      else option_map S (threadObjToThread rest obj)
  end.

Definition postRequest (r : DebugInvokeReq)
    (obj_ thread_ clazz_ meth_ numArgs_ : Z) (argArray_ : list Z)
    (options_ : Z) : DebugInvokeReq :=
  {| ready := ready r;
     invokeNeeded := true;
     obj := obj_;
     thread := thread_;
     clazz := clazz_;
     method_ := meth_;
     numArgs := numArgs_;
     argArray := argArray_;
     options := options_;
     err := err r;
     resultTag := resultTag r;
     resultValue := resultValue r;
     exceptObj := exceptObj r |}.

Definition setInvokeReq (t : Thread) (r : DebugInvokeReq) : Thread :=
  {| threadId := threadId t;
     threadObj := threadObj t;
     suspendCount := suspendCount t;
     invokeReq := r |}.

Definition isTagPrimitive (tag : Z) : bool :=
  existsb (Z.eqb tag) [66; 67; 70; 68; 73; 74; 83; 86; 90].

(** Everything between posting the request and reading the result back
    happens in other threads: the target thread is resumed, runs the
    method, clears [invokeNeeded] and suspends itself again.  That part
    of the world is a parameter: [runTargetThread] maps the thread list
    with the request posted to the thread list found when the JDWP thread
    wakes up.  [objectToObjectId] registers an object and yields its
    id. *)
Class VM := {
  runTargetThread : ThreadList -> nat -> ThreadList;
  objectToObjectId : Z -> Z
}.

Section Invoke.
Context `{VM}.

(** The result: the error code, the out-parameters
    [(resultTag, resultValue, exceptObj)] when they are written, and the
    thread list as the call leaves it. *)
Definition dvmDbgInvokeMethod (threadList : ThreadList)
    (threadId_ objectId classId methodId numArgs_ : Z)
    (argArray_ : list Z) (options_ : Z)
  : JdwpError * option (Z * Z * Z) * ThreadList :=
  let threadObj_ := objectIdToObject threadId_ in
  match threadObjToThread threadList threadObj_ with
  | None => (ERR_INVALID_THREAD, None, threadList)
  | Some i =>
      match threadList !! i with
      | None => (ERR_INVALID_THREAD, None, threadList)
      | Some targetThread =>
          if negb (ready (invokeReq targetThread)) then
            (ERR_INVALID_THREAD, None, threadList)
          else if suspendCount targetThread >? 1 then
            (ERR_THREAD_SUSPENDED, None, threadList)
          else
            let req :=
              postRequest (invokeReq targetThread)
                (objectIdToObject objectId) threadObj_
                (refTypeIdToClassObject classId)
                (methodIdToMethod classId methodId)
                numArgs_ argArray_ options_ in
            let posted := <[i := setInvokeReq targetThread req]> threadList in
            let after := runTargetThread posted i in
            match after !! i with
            | None => (ERR_INVALID_THREAD, None, after)
            | Some t =>
                let r := invokeReq t in
                let value :=
                  if isTagPrimitive (resultTag r) then resultValue r
                  else objectToObjectId (resultValue r) in
                (err r, Some (resultTag r, value, exceptObj r), after)
            end
      end
  end.
End Invoke.

End Debugger.

(* --------------------------------------------------------------------- *)
(** ** libcore/xml: org_apache_harmony_xml_ExpatParser.cpp                *)
(* --------------------------------------------------------------------- *)

Module Expat.
Import CString.

(** A [jstring] is a JNI reference; 0 is [NULL]. *)
Abbreviation jstring := Z.

Definition BUCKET_COUNT : Z := 128.

(** ** Interned strings *)

Record InternedString := {
  interned : jstring;
  bytes : string;
  hash : Z
}.

(** The C [int] that a value wraps to. *)
Definition wrapInt (z : Z) : Z := (z + 2 ^ 31) mod 2 ^ 32 - 2 ^ 31.

(** Whether plain [char] is signed is the compiler's choice (it is on
    x86 and is not on ARM); [*s] in an [int] expression has the value of
    that type. *)
Class CharType := { charIsSigned : bool }.

Definition charValue `{CharType} (c : ascii) : Z :=
  if charIsSigned && (128 <=? uchar c) then uchar c - 256 else uchar c.

Fixpoint hashLoop `{CharType} (s : string) (hash_ : Z) : Z :=
  match s with
  | EmptyString => hash_
  | String c s' => hashLoop s' (wrapInt (hash_ * 31 + charValue c))
  end.

Definition hashString `{CharType} (s : string) : Z := hashLoop s 0.

(** The handle of the first entry with the given hash and bytes, whatever
    it is; 0, which is NULL, when there is none. *)
Fixpoint findInternedString (bucket : list InternedString) (s : string)
    (hash_ : Z) : jstring :=
  match bucket with
  | [] => 0
  | current :: rest =>
      if negb (hash current =? hash_) then findInternedString rest s hash_
      else if strcmp s (bytes current) =? 0 then interned current
      else findInternedString rest s hash_
  end.

(** ** The name stack *)

Record StringStack := {
  array : list jstring;
  capacity : Z;
  size : Z
}.

(** The Java-side events: the listener methods the handlers call. *)
Inductive Event :=
| StartElementEvent (uri localName qName : jstring)
    (attributes : list string) (count : Z)
| EndElementEvent (uri localName qName : jstring).

Record ParsingContext := {
  exceptionPending : bool;          (* env->ExceptionCheck() *)
  attributes : option (list string);
  attributeCount : Z;
  processNamespaces : bool;
  stringStack : StringStack;
  internedStrings : list (list InternedString);   (* BUCKET_COUNT buckets *)
  calls : list Event                (* listener calls made so far *)
}.

Definition withStack (c : ParsingContext) (s : StringStack) : ParsingContext :=
  {| exceptionPending := exceptionPending c;
     attributes := attributes c;
     attributeCount := attributeCount c;
     processNamespaces := processNamespaces c;
     stringStack := s;
     internedStrings := internedStrings c;
     calls := calls c |}.

Definition withBuckets (c : ParsingContext)
    (b : list (list InternedString)) : ParsingContext :=
  {| exceptionPending := exceptionPending c;
     attributes := attributes c;
     attributeCount := attributeCount c;
     processNamespaces := processNamespaces c;
     stringStack := stringStack c;
     internedStrings := b;
     calls := calls c |}.

Definition withAttributes (c : ParsingContext)
    (a : option (list string)) (n : Z) : ParsingContext :=
  {| exceptionPending := exceptionPending c;
     attributes := a;
     attributeCount := n;
     processNamespaces := processNamespaces c;
     stringStack := stringStack c;
     internedStrings := internedStrings c;
     calls := calls c |}.

(** [realloc] to [newCapacity] slots: the old slots, then fresh ones. *)
Definition realloc (a : list jstring) (newCapacity : Z) : list jstring :=
  a ++ replicate (Z.to_nat newCapacity - length a) 0.

Definition stringStackPush (parsingContext : ParsingContext) (s : jstring)
    : ParsingContext :=
  let stack := stringStack parsingContext in
  let stack :=
    if size stack =? capacity stack then
      let newCapacity := capacity stack * 2 in
      {| array := realloc (array stack) newCapacity;
         capacity := newCapacity;
         size := size stack |}
    else stack in
  withStack parsingContext
    {| array := <[Z.to_nat (size stack) := s]> (array stack);
       capacity := capacity stack;
       size := size stack + 1 |}.

Definition stringStackPop (parsingContext : ParsingContext)
    : jstring * ParsingContext :=
  let stack := stringStack parsingContext in
  if size stack =? 0 then (0, parsingContext)
  else
    let size' := size stack - 1 in
    (default 0 (array stack !! Z.to_nat size'),
     withStack parsingContext
       {| array := array stack; capacity := capacity stack; size := size' |}).

Definition newStringStack : StringStack :=
  {| array := replicate 10 0; capacity := 10; size := 0 |}.

(** ** Element and attribute names *)

(** [mLocalName] is [None] when it is NULL: [init] leaves it so for a
    name without any token. *)
Record ExpatElementName := {
  mUri : string;
  mLocalName : option string;
  mPrefix : string
}.

(** [strtok_r] over the delimiter '|': the non-empty pieces of the name. *)
Fixpoint tokens (s : string) (cur : string) : list string :=
  match s with
  | EmptyString =>
      match cur with EmptyString => [] | _ => [cur] end
  | String c s' =>
      if Ascii.eqb c "|"%char then
        match cur with
        | EmptyString => tokens s' EmptyString
        | _ => cur :: tokens s' EmptyString
        end
      else tokens s' (cur ++ String c EmptyString)%string
  end.

(** [ExpatElementName::init] *)
Definition init (s : string) : ExpatElementName :=
  match tokens s EmptyString with
  | a :: b :: c :: _ =>
      (* input of the form "uri|localName|prefix" *)
      {| mUri := a; mLocalName := Some b; mPrefix := c |}
  | [a; b] =>
      (* input of the form "uri|localName" *)
      {| mUri := a; mLocalName := Some b; mPrefix := EmptyString |}
  | [a] =>
      (* input of the form "localName" *)
      {| mUri := EmptyString; mLocalName := Some a; mPrefix := EmptyString |}
  | [] =>
      {| mUri := EmptyString; mLocalName := None; mPrefix := EmptyString |}
  end.

(** [None] where the source hands a NULL pointer to [strcmp]. *)
Definition matches (e : ExpatElementName) (uri localName : string)
    : option bool :=
  if strcmp uri (mUri e) =? 0 then
    match mLocalName e with
    | Some l => Some (strcmp localName l =? 0)
    | None => None
    end
  else Some false.

Definition prefixIsEmpty (e : ExpatElementName) : bool :=
  match mPrefix e with EmptyString => true | _ => false end.

Definition matchesQName (e : ExpatElementName) (qName : string)
    : option bool :=
  let lastColon := strrchr qName ":"%char in
  (* Compare local names only if either:
      - the input qualified name doesn't have a colon (like "h1")
      - this element doesn't have a prefix. *)
  match lastColon with
  | None =>
      match mLocalName e with
      | Some l => Some (strcmp qName l =? 0)
      | None => None
      end
  | Some lastColon =>
      if prefixIsEmpty e then
        match mLocalName e with
        | Some l => Some (strcmp qName l =? 0)
        | None => None
        end
      else
        (* Otherwise compare both prefix and local name *)
        let prefixLength := lastColon in
        if (strlen (mPrefix e) =? prefixLength)
           && (strncmp qName (mPrefix e) (Z.to_nat prefixLength) =? 0)
        then
          match mLocalName e with
          | Some l =>
              Some (strcmp (advance qName (Z.to_nat (lastColon + 1))) l =? 0)
          | None => None
          end
        else Some false
  end.

(** The JNI side that the handlers call into: creating and interning a
    Java string yields its global reference; a call of a listener method
    may leave an exception pending; [emptyString] is the unit's global
    reference to the empty string. *)
Class Java := {
  jniIntern : string -> jstring;
  listenerThrows : Event -> bool;
  emptyString : jstring
}.

(** What fails during one call of [internString].  [wrapperFails]:
    [newInternedString] returns NULL, because its [malloc] or [strdup]
    failed or one of its JNI calls left an exception pending.
    [bucketFails]: [newInternedStringBucket] or
    [expandInternedStringBucket] returns NULL, because its [malloc] or
    [realloc] failed. *)
Record Allocation := {
  wrapperFails : bool;
  bucketFails : bool
}.

Definition allSucceed : Allocation :=
  {| wrapperFails := false; bucketFails := false |}.

Section Handlers.
Context `{CharType} `{Java}.

(** [None] is the NULL returned on failure, with an exception pending. *)
Definition newInternedString (a : Allocation) (bytes_ : string) (hash_ : Z)
    : option InternedString :=
  if wrapperFails a then None
  else
    (* Create a global reference to the interned string. *)
    Some {| interned := jniIntern bytes_; bytes := bytes_; hash := hash_ |}.

Definition newInternedStringBucket (a : Allocation) (entry : InternedString)
    : option (list InternedString) :=
  if bucketFails a then None else Some [entry].

Definition expandInternedStringBucket (a : Allocation)
    (existingBucket : list InternedString) (entry : InternedString)
    : option (list InternedString) :=
  if bucketFails a then None else Some (existingBucket ++ [entry]).

(** [internString], on the context's buckets.  [None] is a NULL
    argument, 0 a NULL result, and the empty list the NULL of a bucket
    that was not allocated yet.  The third component of the result says
    whether the call leaves an exception pending. *)
Definition internString (a : Allocation)
    (buckets : list (list InternedString)) (s : option string)
    : jstring * list (list InternedString) * bool :=
  match s with
  | None => (0, buckets, false)
  | Some s =>
      let hash_ := hashString s in
      let bucketIndex := Z.to_nat (Z.land hash_ (BUCKET_COUNT - 1)) in
      let bucket := default [] (buckets !! bucketIndex) in
      match bucket with
      | _ :: _ =>
          (* We have a bucket already. Look for the given string. *)
          let found := findInternedString bucket s hash_ in
          if negb (found =? 0) then
            (* We found it! *)
            (found, buckets, false)
          else
            (* We didn't find it. Create a new entry. *)
            match newInternedString a s hash_ with
            | None => (0, buckets, true)
            | Some internedString =>
                (* Expand the bucket. *)
                match expandInternedStringBucket a bucket internedString with
                | None => (0, buckets, true)
                | Some bucket =>
                    (interned internedString,
                     <[bucketIndex := bucket]> buckets, false)
                end
            end
      | [] =>
          (* We don't even have a bucket yet. Create an entry. *)
          match newInternedString a s hash_ with
          | None => (0, buckets, true)
          | Some internedString =>
              (* Create a new bucket with one entry. *)
              match newInternedStringBucket a internedString with
              | None => (0, buckets, true)
              | Some bucket =>
                  (interned internedString,
                   <[bucketIndex := bucket]> buckets, false)
              end
          end
      end
  end.

(** The handlers are followed on the runs in which every allocation
    succeeds and no JNI call made while interning throws: the handle and
    the cache that [internString] then gives. *)
Definition interning (buckets : list (list InternedString))
    (s : option string) : jstring * list (list InternedString) :=
  fst (internString allSucceed buckets s).

Definition uri (e : ExpatElementName) buckets :=
  interning buckets (Some (mUri e)).

Definition localName (e : ExpatElementName) buckets :=
  interning buckets (mLocalName e).

Definition qName (e : ExpatElementName) buckets :=
  if prefixIsEmpty e then localName e buckets
  else
    (* return prefix + ":" + localName *)
    match mLocalName e with
    | Some l => interning buckets (Some (mPrefix e ++ ":" ++ l)%string)
    | None => (0, buckets)
    end.

(** [env->CallVoidMethod(javaParser, method, ...)] *)
Definition callListener (c : ParsingContext) (ev : Event) : ParsingContext :=
  {| exceptionPending := listenerThrows ev;
     attributes := attributes c;
     attributeCount := attributeCount c;
     processNamespaces := processNamespaces c;
     stringStack := stringStack c;
     internedStrings := internedStrings c;
     calls := calls c ++ [ev] |}.

(** The strings of an element, in the order [startElement] asks for
    them. *)
Definition elementStrings (namespaces : bool)
    (buckets : list (list InternedString)) (e : ExpatElementName)
    : jstring * jstring * jstring * list (list InternedString) :=
  let '(uri_, buckets) :=
    if namespaces then uri e buckets else (emptyString, buckets) in
  let '(localName_, buckets) :=
    if namespaces then localName e buckets else (emptyString, buckets) in
  let '(qName_, buckets) := qName e buckets in
  (uri_, localName_, qName_, buckets).

(** [attrs] is the array of alternating names and values, without its
    terminating NULL. *)
Definition startElement (c : ParsingContext) (elementName : string)
    (attrs : list string) : ParsingContext :=
  (* Bail out if a previously called handler threw an exception. *)
  if exceptionPending c then c
  else
    (* Count the number of attributes. *)
    let count := Z.of_nat (length attrs) / 2 in
    (* Make the attributes available for the duration of this call. *)
    let c := withAttributes c (Some attrs) count in
    let e := init elementName in
    let '(uri_, localName_, qName_, buckets) :=
      elementStrings (processNamespaces c) (internedStrings c) e in
    let c := withBuckets c buckets in
    let c := stringStackPush c qName_ in
    let c := stringStackPush c uri_ in
    let c := stringStackPush c localName_ in
    let c :=
      callListener c (StartElementEvent uri_ localName_ qName_ attrs count) in
    withAttributes c None (-1).

Definition endElement (c : ParsingContext) (elementName : string)
    : ParsingContext :=
  (* Bail out if a previously called handler threw an exception. *)
  if exceptionPending c then c
  else
    let '(localName_, c) := stringStackPop c in
    let '(uri_, c) := stringStackPop c in
    let '(qName_, c) := stringStackPop c in
    callListener c (EndElementEvent uri_ localName_ qName_).

(** What Expat does with a document: the callbacks it makes. *)
Inductive Callback :=
| StartCb (elementName : string) (attrs : list string)
| EndCb (elementName : string).

Definition handle (c : ParsingContext) (cb : Callback) : ParsingContext :=
  match cb with
  | StartCb e attrs => startElement c e attrs
  | EndCb e => endElement c e
  end.

Definition run (cbs : list Callback) (c : ParsingContext) : ParsingContext :=
  fold_left handle cbs c.

(** The shape of a well-formed document: a sequence of elements, each
    with its content.  [Nest e attrs inside after] is the element [e]
    with content [inside], followed by the siblings [after]. *)
Inductive Nesting :=
| Flat
| Nest (elementName : string) (attrs : list string)
    (inside after : Nesting).

Fixpoint callbacks (n : Nesting) : list Callback :=
  match n with
  | Flat => []
  | Nest e attrs inside after =>
      StartCb e attrs :: callbacks inside ++ EndCb e :: callbacks after
  end.

(** The listener calls a document is meant to produce: every element's
    end event carries the strings that its own start event carried.
    The interning cache is threaded through. *)
Fixpoint expectedCalls (namespaces : bool) (n : Nesting)
    (buckets : list (list InternedString))
    : list Event * list (list InternedString) :=
  match n with
  | Flat => ([], buckets)
  | Nest e attrs inside after =>
      let '(uri_, localName_, qName_, buckets) :=
        elementStrings namespaces buckets (init e) in
      let '(evs1, buckets) := expectedCalls namespaces inside buckets in
      let '(evs2, buckets) := expectedCalls namespaces after buckets in
      (StartElementEvent uri_ localName_ qName_ attrs
         (Z.of_nat (length attrs) / 2)
         :: evs1 ++ EndElementEvent uri_ localName_ qName_ :: evs2,
       buckets)
  end.

(** The stack as a list, bottom first, and its representation
    invariant. *)
Definition stackContents (c : ParsingContext) : list jstring :=
  take (Z.to_nat (size (stringStack c))) (array (stringStack c)).

Definition stackOk (c : ParsingContext) : Prop :=
  0 <= size (stringStack c) <= capacity (stringStack c)
  /\ 0 < capacity (stringStack c)
  /\ Z.of_nat (length (array (stringStack c))) = capacity (stringStack c).
End Handlers.

Definition newParsingContext (namespaces : bool) : ParsingContext :=
  {| exceptionPending := false;
     attributes := None;
     attributeCount := -1;
     processNamespaces := namespaces;
     stringStack := newStringStack;
     internedStrings := replicate (Z.to_nat BUCKET_COUNT) [];
     calls := [] |}.

End Expat.

(* --------------------------------------------------------------------- *)
(** ** libdex/DexSwapVerify.c                                             *)
(* --------------------------------------------------------------------- *)

Module Dex.

(** *** What the unit takes from outside

    [DexFile.h], [DexDataMap.h], [Leb128.h] and zlib are not among the
    sources.  Their constants are parameters of the development; the
    record layouts follow the DEX format. *)

(** The host's byte order, fixed by [__BYTE_ORDER] when the unit is
    compiled. *)
Class Host := { bigEndian : bool }.

(** The item types a map can list. *)
Inductive MapType :=
| kDexTypeHeaderItem | kDexTypeStringIdItem | kDexTypeTypeIdItem
| kDexTypeProtoIdItem | kDexTypeFieldIdItem | kDexTypeMethodIdItem
| kDexTypeClassDefItem | kDexTypeMapList | kDexTypeTypeList
| kDexTypeAnnotationSetRefList | kDexTypeAnnotationSetItem
| kDexTypeClassDataItem | kDexTypeCodeItem | kDexTypeStringDataItem
| kDexTypeDebugInfoItem | kDexTypeAnnotationItem
| kDexTypeEncodedArrayItem | kDexTypeAnnotationsDirectoryItem.

Definition allMapTypes : list MapType :=
  [ kDexTypeHeaderItem; kDexTypeStringIdItem; kDexTypeTypeIdItem;
    kDexTypeProtoIdItem; kDexTypeFieldIdItem; kDexTypeMethodIdItem;
    kDexTypeClassDefItem; kDexTypeMapList; kDexTypeTypeList;
    kDexTypeAnnotationSetRefList; kDexTypeAnnotationSetItem;
    kDexTypeClassDataItem; kDexTypeCodeItem; kDexTypeStringDataItem;
    kDexTypeDebugInfoItem; kDexTypeAnnotationItem;
    kDexTypeEncodedArrayItem; kDexTypeAnnotationsDirectoryItem ].

(** The constants of [DexFile.h]: the magic number and version, the
    endianness tag, the length of the header's signature, and the code of
    each item type. *)
Class DexFormat := {
  DEX_MAGIC : list byte;
  DEX_MAGIC_VERS : list byte;
  kDexEndianConstant : Z;
  kSHA1DigestLen : nat;
  typeCode : MapType -> Z
}.

(** *** Integers *)

Definition u2 (z : Z) : Z := z mod 2 ^ 16.
Definition u4 (z : Z) : Z := z mod 2 ^ 32.
(** [(int) v] for a [u4] value *)
Definition toInt (v : Z) : Z := if v <? 2 ^ 31 then v else v - 2 ^ 32.

Definition endianSwapU2 (value : Z) : Z :=
  u2 (Z.lor (Z.shiftr value 8) (Z.shiftl value 8)).

Definition endianSwapU4 (value : Z) : Z :=
  (* ABCD --> CDAB --> DCBA *)
  let value := Z.lor (Z.shiftr value 16) (u4 (Z.shiftl value 16)) in
  Z.lor (Z.shiftr (Z.land value 4278255360) 8)
        (Z.land (u4 (Z.shiftl value 8)) 4278255360).

(** *** The verifier's state *)

(** Diagnostics: one per message the unit logs before it gives up. *)
Inductive Diag :=
| BadMagic | BadVersion | BadLength | BadChecksum
| BadOffsetRange | UnexpectedEndianTag | SmallHeaderSize | NoMapFound
| OutOfOrderMapItem | MapItemAfterEndOfFile | TooManyDataItems
| UnknownMapItemType | DuplicateMapSection
| MapMissingHeader | MapMissingMapList | MapMissingStringIds
| MapMissingTypeIds | MapMissingProtoIds | MapMissingFieldIds
| MapMissingMethodIds | MapMissingClassDefs | DataMapAllocFailed
| MultipleHeaderItems | HeaderNotAtStart | MultipleMapListItems
| MapNotAtHeaderOffset
| NonZeroPadding | ItemEndsOutOfBounds
| BogusSectionOffset | BogusSectionSize
| BogusDataSubsectionOffset | OutOfBoundsDataSubsectionEnd
| NonZeroSectionPadding | SectionOverlap
| NonZeroCodePadding | BogusHandlersSize | InvalidHandlersSize
| BogusSize | InvalidSize | BogusTypeIdx | BadIndex | BogusAddr
| InvalidAddr | BogusCatchAllAddr | InvalidCatchAllAddr
| NoHandlerEnd | OutOfOrderTry | InvalidStartAddr | BogusHandlerOffset
| InvalidInsnCount
| BogusUtf16Size | StringBeyondEndOfFile | StringShorter
| IllegalStartByte | IllegalContinuationByte | IllegalRepresentation
| StringLonger
| OtherItemFailure (code : Z).

(** The tracking map of data items: [(offset, type)] in visiting order. *)
Record DexDataMap := {
  max : Z;
  entries : list (Z * Z)
}.

Record CheckState := {
  pHeader : option Z;
  fileLen : Z;
  pDataMap : option DexDataMap;
  pDexFile : bool;
  previousItem : option Z
}.

(** The mapped file, the verifier's state, and -- as instrumentation that
    no field of the source corresponds to -- the pointers handed to item
    visitors so far, latest last. *)
Record World := {
  image : list byte;
  state : CheckState;
  visited : list Z
}.

(** A call returns a value, or gives up after a diagnostic (returning
    [false], [NULL] or 0), or leaves the mapped file (undefined
    behaviour).  A rejection carries the world as the call left it. *)
Inductive Res (A : Type) :=
| Ok (a : A) (w : World)
| Reject (d : Diag) (w : World)
| Undefined.
Arguments Ok {A} a w.
Arguments Reject {A} d w.
Arguments Undefined {A}.

Definition M (A : Type) := World -> Res A.

Definition ret {A} (a : A) : M A := fun w => Ok a w.
Definition bind {A B} (c : M A) (k : A -> M B) : M B :=
  fun w =>
    match c w with
    | Ok a w' => k a w'
    | Reject d w' => Reject d w'
    | Undefined => Undefined
    end.
Definition reject {A} (d : Diag) : M A := fun w => Reject d w.
Definition undefined {A} : M A := fun _ => Undefined.

Notation "x <~ c ;; k" := (bind c (fun x => k))
  (at level 100, c at next level, right associativity).
Notation "c ;;; k" := (bind c (fun _ => k))
  (at level 100, right associativity).
Notation "'let*' pat <~ c ;; k" :=
  (bind c (fun x => match x with pat => k end))
  (at level 100, pat pattern, c at next level, right associativity).

(** Run [c], then apply [f] to the world whether [c] succeeded or gave
    up: code that follows an [okay &&] chain unconditionally. *)
Definition onExit {A} (f : World -> World) (c : M A) : M A :=
  fun w =>
    match c w with
    | Ok a w' => Ok a (f w')
    | Reject d w' => Reject d (f w')
    | Undefined => Undefined
    end.

(** [if (cond) { LOG(d); return false; }] *)
Definition failIf (cond : bool) (d : Diag) : M unit :=
  if cond then reject d else ret tt.

Definition getState : M CheckState := fun w => Ok (state w) w.
Definition setState (s : CheckState) : M unit :=
  fun w => Ok tt {| image := image w; state := s; visited := visited w |}.
Definition noteVisit (ptr : Z) : M unit :=
  fun w => Ok tt {| image := image w; state := state w;
                    visited := visited w ++ [ptr] |}.

(** *** The mapped file *)

Definition getBytes (m : list byte) (off n : Z) : option (list byte) :=
  if (0 <=? off) && (0 <=? n) && (off + n <=? Z.of_nat (length m))
  then Some (take (Z.to_nat n) (drop (Z.to_nat off) m))
  else None.

Definition putBytes (m : list byte) (off : Z) (bs : list byte) : list byte :=
  take (Z.to_nat off) m ++ bs ++ drop (Z.to_nat off + length bs) m.

Definition readBytes (off n : Z) : M (list byte) :=
  fun w =>
    match getBytes (image w) off n with
    | Some bs => Ok bs w
    | None => Undefined
    end.

Definition writeBytes (off : Z) (bs : list byte) : M unit :=
  fun w =>
    match getBytes (image w) off (Z.of_nat (length bs)) with
    | Some _ =>
        Ok tt {| image := putBytes (image w) off bs;
                 state := state w; visited := visited w |}
    | None => Undefined
    end.

Section WithHost.
Context `{Host}.

(** A value as the host reads it from, and writes it to, memory. *)
Definition hostValue (bs : list byte) : Z :=
  if bigEndian then le_combine (rev bs) else le_combine bs.

Definition hostBytes (n : nat) (v : Z) : list byte :=
  if bigEndian then rev (le_split n v) else le_split n v.

Definition load1 (off : Z) : M Z :=
  bs <~ readBytes off 1;; ret (le_combine bs).
Definition load2 (off : Z) : M Z :=
  bs <~ readBytes off 2;; ret (hostValue bs).
Definition load4 (off : Z) : M Z :=
  bs <~ readBytes off 4;; ret (hostValue bs).
Definition store2 (off v : Z) : M unit := writeBytes off (hostBytes 2 v).
Definition store4 (off v : Z) : M unit := writeBytes off (hostBytes 4 v).

Definition SWAP2 (value : Z) : Z :=
  if bigEndian then endianSwapU2 value else value.
Definition SWAP4 (value : Z) : Z :=
  if bigEndian then endianSwapU4 value else value.

Definition SWAP_FIELD2 (field : Z) : M unit :=
  v <~ load2 field;; store2 field (SWAP2 v).
Definition SWAP_FIELD4 (field : Z) : M unit :=
  v <~ load4 field;; store4 field (SWAP4 v).
Definition SWAP_OFFSET4 (field : Z) : M unit := SWAP_FIELD4 field.
End WithHost.

(** The value the file format gives a field: little-endian. *)
Definition fileValue (m : list byte) (off n : Z) : option Z :=
  option_map le_combine (getBytes m off n).

(** *** Pointer checks *)

(** [checkPtrRange]; pointers are offsets from [fileStart], so
    [fileStart] is 0 and [fileEnd] is [fileLen]. *)
Definition checkPtrRange (st : CheckState) (start end_ : Z) : bool :=
  negb ((start <? 0) || (start >? fileLen st)
        || (end_ <? start) || (end_ >? fileLen st)).

Definition CHECK_PTR_RANGE (start end_ : Z) : M unit :=
  st <~ getState;;
  failIf (negb (checkPtrRange st start end_)) BadOffsetRange.

(** [filePointer] maps a [u4] offset to a pointer. *)
Definition CHECK_OFFSET_RANGE (start end_ : Z) : M unit :=
  CHECK_PTR_RANGE start end_.

(** [safe_mul] on two [u4]s: false when the product overflows. *)
Definition safe_mul (a b : Z) : bool := a * b <? 2 ^ 32.

Definition CHECK_LIST_SIZE (ptr count elemSize : Z) : M unit :=
  let start := ptr in
  let end_ := start + u4 (count * elemSize) in
  st <~ getState;;
  failIf (negb (safe_mul count elemSize)
          || negb (checkPtrRange st start end_)) BadOffsetRange.

Definition CHECK_INDEX (field limit : Z) : M unit :=
  failIf (field >=? limit) BadIndex.


(** *** The header *)

Fixpoint memcmp_eq (a b : list byte) : bool :=
  match a, b with
  | [], [] => true
  | x :: a', y :: b' => Byte.eqb x y && memcmp_eq a' b'
  | _, _ => false
  end.

(** zlib's [adler32]; [None] is [Z_NULL], for which it returns the
    initial value. *)
Definition adler32 (adler : Z) (buf : option (list byte)) : Z :=
  match buf with
  | None => 1
  | Some bs =>
      let step (ab : Z * Z) (c : byte) :=
        let a := (fst ab + byte.unsigned c) mod 65521 in
        (a, (snd ab + a) mod 65521) in
      let ab :=
        fold_left step bs
          (Z.land adler 65535, Z.land (Z.shiftr adler 16) 65535) in
      Z.lor (Z.shiftl (snd ab) 16) (fst ab)
  end.

Section WithFormat.
Context `{Host} `{DexFormat}.

(** [DexHeader]: magic[8], checksum, signature[kSHA1DigestLen], then
    twenty [u4] fields. *)
Definition sigLen : Z := Z.of_nat kSHA1DigestLen.
Definition off_checksum : Z := 8.
Definition off_fileSize : Z := 12 + sigLen.
Definition off_headerSize : Z := 16 + sigLen.
Definition off_endianTag : Z := 20 + sigLen.
Definition off_linkSize : Z := 24 + sigLen.
Definition off_linkOff : Z := 28 + sigLen.
Definition off_mapOff : Z := 32 + sigLen.
Definition off_stringIdsSize : Z := 36 + sigLen.
Definition off_stringIdsOff : Z := 40 + sigLen.
Definition off_typeIdsSize : Z := 44 + sigLen.
Definition off_typeIdsOff : Z := 48 + sigLen.
Definition off_protoIdsSize : Z := 52 + sigLen.
Definition off_protoIdsOff : Z := 56 + sigLen.
Definition off_fieldIdsSize : Z := 60 + sigLen.
Definition off_fieldIdsOff : Z := 64 + sigLen.
Definition off_methodIdsSize : Z := 68 + sigLen.
Definition off_methodIdsOff : Z := 72 + sigLen.
Definition off_classDefsSize : Z := 76 + sigLen.
Definition off_classDefsOff : Z := 80 + sigLen.
Definition off_dataSize : Z := 84 + sigLen.
Definition off_dataOff : Z := 88 + sigLen.
Definition sizeofDexHeader : Z := 92 + sigLen.

(** [state->pHeader->field] *)
Definition headerField (fieldOff : Z) : M Z :=
  st <~ getState;;
  match pHeader st with
  | Some p => load4 (p + fieldOff)
  | None => undefined
  end.

Definition swapDexHeader (pHeader : Z) : M unit :=
  CHECK_PTR_RANGE pHeader (pHeader + sizeofDexHeader);;;
  (* magic is ok *)
  SWAP_FIELD4 (pHeader + off_checksum);;;
  (* signature is ok *)
  SWAP_FIELD4 (pHeader + off_fileSize);;;
  SWAP_FIELD4 (pHeader + off_headerSize);;;
  SWAP_FIELD4 (pHeader + off_endianTag);;;
  SWAP_FIELD4 (pHeader + off_linkSize);;;
  SWAP_OFFSET4 (pHeader + off_linkOff);;;
  SWAP_OFFSET4 (pHeader + off_mapOff);;;
  SWAP_FIELD4 (pHeader + off_stringIdsSize);;;
  SWAP_OFFSET4 (pHeader + off_stringIdsOff);;;
  SWAP_FIELD4 (pHeader + off_typeIdsSize);;;
  SWAP_OFFSET4 (pHeader + off_typeIdsOff);;;
  SWAP_FIELD4 (pHeader + off_fieldIdsSize);;;
  SWAP_OFFSET4 (pHeader + off_fieldIdsOff);;;
  SWAP_FIELD4 (pHeader + off_methodIdsSize);;;
  SWAP_OFFSET4 (pHeader + off_methodIdsOff);;;
  SWAP_FIELD4 (pHeader + off_protoIdsSize);;;
  SWAP_OFFSET4 (pHeader + off_protoIdsOff);;;
  SWAP_FIELD4 (pHeader + off_classDefsSize);;;
  SWAP_OFFSET4 (pHeader + off_classDefsOff);;;
  SWAP_FIELD4 (pHeader + off_dataSize);;;
  SWAP_OFFSET4 (pHeader + off_dataOff);;;
  endianTag <~ load4 (pHeader + off_endianTag);;
  failIf (negb (endianTag =? kDexEndianConstant)) UnexpectedEndianTag;;;
  linkOff <~ load4 (pHeader + off_linkOff);;
  linkSize <~ load4 (pHeader + off_linkSize);;
  let linkEnd := u4 (linkOff + linkSize) in
  dataOff <~ load4 (pHeader + off_dataOff);;
  dataSize <~ load4 (pHeader + off_dataSize);;
  let dataEnd := u4 (dataOff + dataSize) in
  CHECK_OFFSET_RANGE linkOff linkEnd;;;
  CHECK_OFFSET_RANGE dataOff dataEnd.

Definition checkHeaderSection (sectionOffset sectionCount : Z) : M Z :=
  failIf (negb (sectionCount =? 1)) MultipleHeaderItems;;;
  failIf (negb (sectionOffset =? 0)) HeaderNotAtStart;;;
  load4 (0 + off_headerSize).

(** *** The map *)

Definition decodeType (mapType : Z) : option MapType :=
  List.find (fun t => typeCode t =? mapType) allMapTypes.

Definition bitIndex (t : MapType) : Z :=
  match t with
  | kDexTypeHeaderItem => 0
  | kDexTypeStringIdItem => 1
  | kDexTypeTypeIdItem => 2
  | kDexTypeProtoIdItem => 3
  | kDexTypeFieldIdItem => 4
  | kDexTypeMethodIdItem => 5
  | kDexTypeClassDefItem => 6
  | kDexTypeMapList => 7
  | kDexTypeTypeList => 8
  | kDexTypeAnnotationSetRefList => 9
  | kDexTypeAnnotationSetItem => 10
  | kDexTypeClassDataItem => 11
  | kDexTypeCodeItem => 12
  | kDexTypeStringDataItem => 13
  | kDexTypeDebugInfoItem => 14
  | kDexTypeAnnotationItem => 15
  | kDexTypeEncodedArrayItem => 16
  | kDexTypeAnnotationsDirectoryItem => 17
  end.

(** 0 stands for the [default] case, which logs "Unknown map item
    type". *)
Definition mapTypeToBitMask (mapType : Z) : Z :=
  match decodeType mapType with
  | Some t => Z.shiftl 1 (bitIndex t)
  | None => 0
  end.

Definition isDataSectionType (mapType : Z) : bool :=
  match decodeType mapType with
  | Some kDexTypeHeaderItem
  | Some kDexTypeStringIdItem
  | Some kDexTypeTypeIdItem
  | Some kDexTypeProtoIdItem
  | Some kDexTypeFieldIdItem
  | Some kDexTypeMethodIdItem
  | Some kDexTypeClassDefItem => false
  | _ => true
  end.

(** [DexMapItem]: type (u2), unused (u2), size (u4), offset (u4);
    [DexMapList]: size (u4), then the items. *)
Definition sizeofDexMapItem : Z := 12.

(** The swaps at the head of the loop body of [swapMap]. *)
Definition swapMapItem (item : Z) : M unit :=
  SWAP_FIELD2 (item + 0);;;
  SWAP_FIELD2 (item + 2);;;
  SWAP_FIELD4 (item + 4);;;
  SWAP_OFFSET4 (item + 8).

Fixpoint swapMapLoop (count : nat) (item : Z)
    (dataItemCount dataItemsLeft usedBits : Z) (first : bool)
    (lastOffset : Z) : M (Z * Z) :=
  match count with
  | O => ret (usedBits, dataItemCount)
  | S count' =>
      swapMapItem item;;;
      offset <~ load4 (item + 8);;
      failIf (negb first && (lastOffset >=? offset)) OutOfOrderMapItem;;;
      fileSize <~ headerField off_fileSize;;
      failIf (offset >=? fileSize) MapItemAfterEndOfFile;;;
      type <~ load2 (item + 0);;
      let* (dataItemsLeft, dataItemCount) <~
        (if isDataSectionType type then
           icount <~ load4 (item + 4);;
           failIf (icount >? dataItemsLeft) TooManyDataItems;;;
           ret (u4 (dataItemsLeft - icount), u4 (dataItemCount + icount))
         else ret (dataItemsLeft, dataItemCount));;
      let bit := mapTypeToBitMask type in
      failIf (bit =? 0) UnknownMapItemType;;;
      failIf (negb (Z.land usedBits bit =? 0)) DuplicateMapSection;;;
      swapMapLoop count' (item + sizeofDexMapItem) dataItemCount
        dataItemsLeft (Z.lor usedBits bit) false offset
  end.

(** [(usedBits & mapTypeToBitMask(type)) == 0 && (off != 0 || size != 0)] *)
Definition missingSection (usedBits : Z) (t : MapType)
    (offField sizeField : Z) (d : Diag) : M unit :=
  off <~ headerField offField;;
  size <~ headerField sizeField;;
  failIf ((Z.land usedBits (mapTypeToBitMask (typeCode t)) =? 0)
          && (negb (off =? 0) || negb (size =? 0))) d.
End WithFormat.

(** What the unit calls that is defined elsewhere, and the item visitors
    that the statements below do not look into. *)
Definition ItemVisitorFunction := Z -> M Z.

Class Environment := {
  dexDataMapAlloc : Z -> option DexDataMap;
  swapStringIdItem : ItemVisitorFunction;
  swapTypeIdItem : ItemVisitorFunction;
  swapProtoIdItem : ItemVisitorFunction;
  swapFieldIdItem : ItemVisitorFunction;
  swapMethodIdItem : ItemVisitorFunction;
  swapClassDefItem : ItemVisitorFunction;
  swapTypeList : ItemVisitorFunction;
  swapAnnotationSetRefList : ItemVisitorFunction;
  swapAnnotationSetItem : ItemVisitorFunction;
  intraVerifyClassDataItem : ItemVisitorFunction;
  intraVerifyDebugInfoItem : ItemVisitorFunction;
  intraVerifyAnnotationItem : ItemVisitorFunction;
  intraVerifyEncodedArrayItem : ItemVisitorFunction;
  swapAnnotationsDirectoryItem : ItemVisitorFunction;
  crossVerifyEverything : Z -> M unit
}.

Section WithEnvironment.
Context `{Host} `{DexFormat} `{Environment}.

Definition swapMap (pMap : Z) : M unit :=
  let item := pMap + 4 in
  let dataItemCount := 0 in
  dataItemsLeft <~ headerField off_dataSize;;
  let usedBits := 0 in
  let first := true in
  let lastOffset := 0 in
  SWAP_FIELD4 pMap;;;
  count <~ load4 pMap;;
  CHECK_LIST_SIZE item count sizeofDexMapItem;;;
  let* (usedBits, dataItemCount) <~
    swapMapLoop (Z.to_nat count) item dataItemCount dataItemsLeft
      usedBits first lastOffset;;
  failIf (Z.land usedBits (mapTypeToBitMask (typeCode kDexTypeHeaderItem))
          =? 0) MapMissingHeader;;;
  failIf (Z.land usedBits (mapTypeToBitMask (typeCode kDexTypeMapList))
          =? 0) MapMissingMapList;;;
  missingSection usedBits kDexTypeStringIdItem off_stringIdsOff
    off_stringIdsSize MapMissingStringIds;;;
  missingSection usedBits kDexTypeTypeIdItem off_typeIdsOff
    off_typeIdsSize MapMissingTypeIds;;;
  missingSection usedBits kDexTypeProtoIdItem off_protoIdsOff
    off_protoIdsSize MapMissingProtoIds;;;
  missingSection usedBits kDexTypeFieldIdItem off_fieldIdsOff
    off_fieldIdsSize MapMissingFieldIds;;;
  missingSection usedBits kDexTypeMethodIdItem off_methodIdsOff
    off_methodIdsSize MapMissingMethodIds;;;
  missingSection usedBits kDexTypeClassDefItem off_classDefsOff
    off_classDefsSize MapMissingClassDefs;;;
  st <~ getState;;
  match dexDataMapAlloc dataItemCount with
  | None =>
      setState {| pHeader := pHeader st; fileLen := fileLen st;
                  pDataMap := None; pDexFile := pDexFile st;
                  previousItem := previousItem st |};;;
      reject DataMapAllocFailed
  | Some map =>
      setState {| pHeader := pHeader st; fileLen := fileLen st;
                  pDataMap := Some map; pDexFile := pDexFile st;
                  previousItem := previousItem st |}
  end.

Definition checkMapSection (sectionOffset sectionCount : Z) : M Z :=
  failIf (negb (sectionCount =? 1)) MultipleMapListItems;;;
  mapOff <~ headerField off_mapOff;;
  failIf (negb (sectionOffset =? mapOff)) MapNotAtHeaderOffset;;;
  size <~ load4 sectionOffset;;
  ret (u4 (sectionOffset + 4 + u4 (size * sizeofDexMapItem))).
End WithEnvironment.


(** *** LEB128 *)

Section WithItems.
Context `{Host} `{DexFormat} `{Environment}.

(** Modelled from the spec: [Leb128.h] is not among the sources.  The
    readers follow the standard LEB128 definitions -- 7 payload bits per
    byte, the high bit marking a continuation, the signed variant
    sign-extending from the last emitted bit -- over at most five bytes,
    the fifth taken whole.  [readLeb128 n ptr shift result] reads up to
    [n + 1] more bytes and returns the value, the pointer past the
    encoding, and the number of bytes read. *)
Fixpoint readLeb128 (n : nat) (ptr shift result : Z) (used : Z)
    : M (Z * Z * Z) :=
  cur <~ load1 ptr;;
  match n with
  | O => ret (Z.lor result (Z.shiftl cur shift), ptr + 1, used + 1)
  | S n' =>
      let result := Z.lor result (Z.shiftl (Z.land cur 127) shift) in
      if cur >? 127 then readLeb128 n' (ptr + 1) (shift + 7) result (used + 1)
      else ret (result, ptr + 1, used + 1)
  end.

(** Modelled from the spec: the verifying readers also report whether the
    encoding stayed within [limit] and, when five bytes long, had no
    stray high bits.  The result is [(value, next pointer, okay)]. *)
Definition lebOkay (ptr next limit used : Z) : M bool :=
  if used =? 5 then
    last <~ load1 (ptr + 4);;
    ret (negb ((next >? limit) || (last >? 15)))
  else ret (negb (next >? limit)).

Definition readAndVerifyUnsignedLeb128 (ptr limit : Z) : M (Z * Z * bool) :=
  let* (result, next, used) <~ readLeb128 4 ptr 0 0 0;;
  okay <~ lebOkay ptr next limit used;;
  ret (u4 result, next, okay).

Definition readAndVerifySignedLeb128 (ptr limit : Z) : M (Z * Z * bool) :=
  let* (result, next, used) <~ readLeb128 4 ptr 0 0 0;;
  okay <~ lebOkay ptr next limit used;;
  let value :=
    if used =? 5 then toInt (u4 result)
    else if Z.testbit result (7 * used - 1) then result - 2 ^ (7 * used)
    else result in
  ret (value, next, okay).

(** *** string_data_item *)

(** One pass of the loop body: the pointer past the unit that starts at
    [data]. *)
Definition stringUnit (utf16Size data : Z) : M Z :=
  st <~ getState;;
  failIf (data >=? fileLen st) StringBeyondEndOfFile;;;
  byte1 <~ load1 data;;
  let data := data + 1 in
  (* Switch on the high four bits. *)
  match Z.shiftr byte1 4 with
  | 0 =>
      (* Special case of bit pattern 0xxx. *)
      failIf (byte1 =? 0) StringShorter;;;
      ret data
  | 1 | 2 | 3 | 4 | 5 | 6 | 7 =>
      (* Bit pattern 0xxx. No need for any extra bytes or checks. *)
      ret data
  | 8 | 9 | 10 | 11 | 15 =>
      (* Bit pattern 10xx or 1111, which are illegal start bytes. *)
      reject IllegalStartByte
  | 14 =>
      (* Bit pattern 1110, so there are two additional bytes. *)
      byte2 <~ load1 data;;
      let data := data + 1 in
      failIf (negb (Z.land byte2 192 =? 128)) IllegalContinuationByte;;;
      byte3 <~ load1 data;;
      let data := data + 1 in
      failIf (negb (Z.land byte3 192 =? 128)) IllegalContinuationByte;;;
      let value :=
        u2 (Z.lor (Z.lor (Z.shiftl (Z.land byte1 15) 12)
                         (Z.shiftl (Z.land byte2 63) 6))
                  (Z.land byte3 63)) in
      failIf (value <? 2048) IllegalRepresentation;;;
      ret data
  | 12 | 13 =>
      (* Bit pattern 110x, so there is one additional byte. *)
      byte2 <~ load1 data;;
      let data := data + 1 in
      failIf (negb (Z.land byte2 192 =? 128)) IllegalContinuationByte;;;
      let value :=
        u2 (Z.lor (Z.shiftl (Z.land byte1 31) 6) (Z.land byte2 63)) in
      failIf (negb (value =? 0) && (value <? 128)) IllegalRepresentation;;;
      ret data
  | _ => ret data
  end.

Fixpoint stringUnits (n : nat) (utf16Size data : Z) : M Z :=
  match n with
  | O => ret data
  | S n' =>
      data <~ stringUnit utf16Size data;;
      stringUnits n' utf16Size data
  end.

Definition intraVerifyStringDataItem (ptr : Z) : M Z :=
  st <~ getState;;
  let fileEnd := fileLen st in
  let data := ptr in
  let* (utf16Size, data, okay) <~ readAndVerifyUnsignedLeb128 data fileEnd;;
  failIf (negb okay) BogusUtf16Size;;;
  data <~ stringUnits (Z.to_nat utf16Size) utf16Size data;;
  last <~ load1 data;;
  let data := data + 1 in
  failIf (negb (last =? 0)) StringLonger;;;
  ret data.

(** *** code_item *)

(** [DexCode]: registersSize, insSize, outsSize, triesSize (u2 each),
    debugInfoOff, insnsSize (u4 each), then the instructions, two bytes
    each; [sizeof(DexCode)] is 20.  [DexTry]: startAddr (u4), insnCount
    (u2), handlerOff (u2). *)
Definition sizeofDexCode : Z := 20.
Definition sizeofDexTry : Z := 8.
Definition code_triesSize (code : Z) : M Z := load2 (code + 6).
Definition code_insnsSize (code : Z) : M Z := load4 (code + 12).
Definition code_insns (code : Z) : Z := code + 16.

(** [dexGetTries]: the tries follow the instructions, at the next
    four-byte boundary (the file is mapped at one). *)
Definition dexGetTries (code : Z) : M Z :=
  insnsSize <~ code_insnsSize code;;
  let insnsEnd := code_insns code + 2 * insnsSize in
  ret (if negb (Z.land insnsEnd 3 =? 0) then insnsEnd + 2 else insnsEnd).

(** [dexGetCatchHandlerData]: the handler list follows the tries. *)
Definition dexGetCatchHandlerData (code : Z) : M Z :=
  pTries <~ dexGetTries code;;
  triesSize <~ code_triesSize code;;
  ret (pTries + sizeofDexTry * triesSize).

(** The [while (size-- > 0)] loop over the typed catches of a handler. *)
Fixpoint typedCatches (size : nat) (code ptr fileEnd : Z) : M Z :=
  match size with
  | O => ret ptr
  | S size' =>
      let* (typeIdx, ptr, okay) <~ readAndVerifyUnsignedLeb128 ptr fileEnd;;
      failIf (negb okay) BogusTypeIdx;;;
      typeIdsSize <~ headerField off_typeIdsSize;;
      CHECK_INDEX typeIdx typeIdsSize;;;
      let* (addr, ptr, okay) <~ readAndVerifyUnsignedLeb128 ptr fileEnd;;
      failIf (negb okay) BogusAddr;;;
      insnsSize <~ code_insnsSize code;;
      failIf (addr >=? insnsSize) InvalidAddr;;;
      typedCatches size' code ptr fileEnd
  end.

(** One handler: from its offset to the offset of the next. *)
Definition oneHandler (code handlersBase offset fileEnd : Z) : M Z :=
  let ptr := handlersBase + offset in
  let* (size, ptr, okay) <~ readAndVerifySignedLeb128 ptr fileEnd;;
  failIf (negb okay) BogusSize;;;
  failIf ((size <? -65536) || (size >? 65536)) InvalidSize;;;
  let catchAll := size <=? 0 in
  let size := if catchAll then - size else size in
  ptr <~ typedCatches (Z.to_nat size) code ptr fileEnd;;
  ptr <~ (if catchAll then
            let* (addr, ptr, okay) <~ readAndVerifyUnsignedLeb128 ptr fileEnd;;
            failIf (negb okay) BogusCatchAllAddr;;;
            insnsSize <~ code_insnsSize code;;
            failIf (addr >=? insnsSize) InvalidCatchAllAddr;;;
            ret ptr
          else ret ptr);;
  ret (u4 (ptr - handlersBase)).

Fixpoint handlersLoop (n : nat) (code handlersBase offset fileEnd : Z)
    (handlerOffs : list Z) : M (Z * list Z) :=
  match n with
  | O => ret (offset, handlerOffs)
  | S n' =>
      next <~ oneHandler code handlersBase offset fileEnd;;
      handlersLoop n' code handlersBase next fileEnd (handlerOffs ++ [offset])
  end.

(** The result is the end offset and the filled [handlerOffs] array. *)
Definition setHandlerOffsAndVerify (code firstOffset handlersSize : Z)
    : M (Z * list Z) :=
  st <~ getState;;
  let fileEnd := fileLen st in
  handlersBase <~ dexGetCatchHandlerData code;;
  handlersLoop (Z.to_nat handlersSize) code handlersBase firstOffset
    fileEnd [].

(** The swaps at the head of the loop body over the tries. *)
Definition swapTry (tries : Z) : M unit :=
  SWAP_FIELD4 (tries + 0);;;
  SWAP_FIELD2 (tries + 4);;;
  SWAP_FIELD2 (tries + 6).

Fixpoint triesLoop (count : nat) (code tries lastEnd : Z)
    (handlerOffs : list Z) : M unit :=
  match count with
  | O => ret tt
  | S count' =>
      swapTry tries;;;
      startAddr <~ load4 (tries + 0);;
      failIf (startAddr <? lastEnd) OutOfOrderTry;;;
      insnsSize <~ code_insnsSize code;;
      failIf (startAddr >=? insnsSize) InvalidStartAddr;;;
      handlerOff <~ load2 (tries + 6);;
      failIf (negb (existsb (Z.eqb handlerOff) handlerOffs))
        BogusHandlerOffset;;;
      insnCount <~ load2 (tries + 4);;
      let lastEnd := u4 (startAddr + insnCount) in
      insnsSize <~ code_insnsSize code;;
      failIf (lastEnd >? insnsSize) InvalidInsnCount;;;
      triesLoop count' code (tries + sizeofDexTry) lastEnd handlerOffs
  end.

Definition swapTriesAndCatches (code : Z) : M Z :=
  encodedHandlers <~ dexGetCatchHandlerData code;;
  let encodedPtr := encodedHandlers in
  st <~ getState;;
  let* (handlersSize, encodedPtr, okay) <~
    readAndVerifyUnsignedLeb128 encodedPtr (fileLen st);;
  failIf (negb okay) BogusHandlersSize;;;
  failIf ((handlersSize =? 0) || (handlersSize >=? 65536))
    InvalidHandlersSize;;;
  let* (endOffset, handlerOffs) <~
    setHandlerOffsAndVerify code (u4 (encodedPtr - encodedHandlers))
      handlersSize;;
  failIf (endOffset =? 0) NoHandlerEnd;;;
  tries <~ dexGetTries code;;
  count <~ code_triesSize code;;
  CHECK_LIST_SIZE tries count sizeofDexTry;;;
  triesLoop (Z.to_nat count) code tries 0 handlerOffs;;;
  ret (encodedHandlers + endOffset).

Fixpoint swapInsns (count : nat) (insns : Z) : M Z :=
  match count with
  | O => ret insns
  | S count' => SWAP_FIELD2 insns;;; swapInsns count' (insns + 2)
  end.

Definition swapCodeItem (ptr : Z) : M Z :=
  let item := ptr in
  CHECK_PTR_RANGE item (item + sizeofDexCode);;;
  SWAP_FIELD2 (item + 0);;;
  SWAP_FIELD2 (item + 2);;;
  SWAP_FIELD2 (item + 4);;;
  SWAP_FIELD2 (item + 6);;;
  SWAP_OFFSET4 (item + 8);;;
  SWAP_FIELD4 (item + 12);;;
  count <~ code_insnsSize item;;
  let insns := code_insns item in
  CHECK_LIST_SIZE insns count 2;;;
  insns <~ swapInsns (Z.to_nat count) insns;;
  triesSize <~ code_triesSize item;;
  if triesSize =? 0 then ret insns
  else
    (if negb (Z.land (u4 insns) 3 =? 0) then
       (* Four-byte alignment for the tries. Verify the spacer is a 0. *)
       spacer <~ load2 insns;;
       failIf (negb (spacer =? 0)) NonZeroCodePadding
     else ret tt);;;
    swapTriesAndCatches item.
End WithItems.


(** *** Iterating over sections *)

Definition withDataMap (st : CheckState) (m : option DexDataMap) : CheckState :=
  {| pHeader := pHeader st; fileLen := fileLen st; pDataMap := m;
     pDexFile := pDexFile st; previousItem := previousItem st |}.

Definition withPreviousItem (st : CheckState) (p : option Z) : CheckState :=
  {| pHeader := pHeader st; fileLen := fileLen st; pDataMap := pDataMap st;
     pDexFile := pDexFile st; previousItem := p |}.

(** [dexDataMapAdd] records the item; the call site has no result to
    look at. *)
Definition dexDataMapAdd (offset mapType : Z) : M unit :=
  st <~ getState;;
  match pDataMap st with
  | None => undefined
  | Some m =>
      setState (withDataMap st
        (Some {| max := max m; entries := entries m ++ [(offset, mapType)] |}))
  end.

Definition setPreviousItem (p : option Z) : M unit :=
  st <~ getState;; setState (withPreviousItem st p).

Section WithSections.
Context `{Host} `{DexFormat} `{Environment}.

(** [while (offset < newOffset)]: the [n] bytes from [ptr] on are 0. *)
Fixpoint checkPadding (n : nat) (ptr : Z) (d : Diag) : M unit :=
  match n with
  | O => ret tt
  | S n' =>
      b <~ load1 ptr;;
      failIf (negb (b =? 0)) d;;;
      checkPadding n' (ptr + 1) d
  end.

Definition alignUp (offset alignmentMask : Z) : Z :=
  Z.land (u4 (offset + alignmentMask)) (u4 (Z.lnot alignmentMask)).

(** The body of the [for] loop: one item, from the offset where the
    previous one ended to the offset where this one ends. *)
Definition iterateItem (offset : Z) (func : ItemVisitorFunction)
    (alignmentMask mapType : Z) : M Z :=
  let newOffset := alignUp offset alignmentMask in
  let ptr := newOffset in
  offset <~
    (if offset <? newOffset then
       CHECK_OFFSET_RANGE offset newOffset;;;
       checkPadding (Z.to_nat (newOffset - offset)) offset NonZeroPadding;;;
       ret newOffset
     else ret offset);;
  noteVisit ptr;;;
  newPtr <~ func ptr;;
  let newOffset := u4 newPtr in
  st <~ getState;;
  failIf (newOffset >? fileLen st) ItemEndsOutOfBounds;;;
  (if mapType >=? 0 then dexDataMapAdd offset mapType else ret tt);;;
  setPreviousItem (Some ptr);;;
  ret newOffset.

Fixpoint iterateLoop (count : nat) (offset : Z)
    (func : ItemVisitorFunction) (alignmentMask mapType : Z) : M Z :=
  match count with
  | O => ret offset
  | S count' =>
      offset <~ iterateItem offset func alignmentMask mapType;;
      iterateLoop count' offset func alignmentMask mapType
  end.

(** The result is [*nextOffset]. *)
Definition iterateSectionWithOptionalUpdate (offset count : Z)
    (func : ItemVisitorFunction) (alignment mapType : Z) : M Z :=
  let alignmentMask := u4 (alignment - 1) in
  setPreviousItem None;;;
  iterateLoop (Z.to_nat count) offset func alignmentMask mapType.

Definition iterateSection (offset count : Z) (func : ItemVisitorFunction)
    (alignment : Z) : M Z :=
  iterateSectionWithOptionalUpdate offset count func alignment (-1).

Definition checkBoundsAndIterateSection
    (offset count expectedOffset expectedCount : Z)
    (func : ItemVisitorFunction) (alignment : Z) : M Z :=
  failIf (negb (offset =? expectedOffset)) BogusSectionOffset;;;
  failIf (negb (count =? expectedCount)) BogusSectionSize;;;
  iterateSection offset count func alignment.

Definition iterateDataSection (offset count : Z)
    (func : ItemVisitorFunction) (alignment mapType : Z) : M Z :=
  dataStart <~ headerField off_dataOff;;
  dataSize <~ headerField off_dataSize;;
  let dataEnd := u4 (dataStart + dataSize) in
  failIf ((offset <? dataStart) || (offset >=? dataEnd))
    BogusDataSubsectionOffset;;;
  nextOffset <~
    iterateSectionWithOptionalUpdate offset count func alignment mapType;;
  failIf (nextOffset >? dataEnd) OutOfBoundsDataSubsectionEnd;;;
  ret nextOffset.

(** The [switch] of [swapEverythingButHeaderAndMap]: the section of one
    map item; the result is the new [lastOffset]. *)
Definition swapSection (type sectionOffset sectionCount : Z) : M Z :=
  let indexSection offField sizeField func :=
    expectedOffset <~ headerField offField;;
    expectedCount <~ headerField sizeField;;
    checkBoundsAndIterateSection sectionOffset sectionCount
      expectedOffset expectedCount func 4 in
  let dataSection func alignment :=
    iterateDataSection sectionOffset sectionCount func alignment type in
  match decodeType type with
  | Some kDexTypeHeaderItem =>
      checkHeaderSection sectionOffset sectionCount
  | Some kDexTypeStringIdItem =>
      indexSection off_stringIdsOff off_stringIdsSize swapStringIdItem
  | Some kDexTypeTypeIdItem =>
      indexSection off_typeIdsOff off_typeIdsSize swapTypeIdItem
  | Some kDexTypeProtoIdItem =>
      indexSection off_protoIdsOff off_protoIdsSize swapProtoIdItem
  | Some kDexTypeFieldIdItem =>
      indexSection off_fieldIdsOff off_fieldIdsSize swapFieldIdItem
  | Some kDexTypeMethodIdItem =>
      indexSection off_methodIdsOff off_methodIdsSize swapMethodIdItem
  | Some kDexTypeClassDefItem =>
      indexSection off_classDefsOff off_classDefsSize swapClassDefItem
  | Some kDexTypeMapList =>
      checkMapSection sectionOffset sectionCount
  | Some kDexTypeTypeList => dataSection swapTypeList 4
  | Some kDexTypeAnnotationSetRefList =>
      dataSection swapAnnotationSetRefList 4
  | Some kDexTypeAnnotationSetItem => dataSection swapAnnotationSetItem 4
  | Some kDexTypeClassDataItem => dataSection intraVerifyClassDataItem 1
  | Some kDexTypeCodeItem => dataSection swapCodeItem 4
  | Some kDexTypeStringDataItem => dataSection intraVerifyStringDataItem 1
  | Some kDexTypeDebugInfoItem => dataSection intraVerifyDebugInfoItem 1
  | Some kDexTypeAnnotationItem => dataSection intraVerifyAnnotationItem 1
  | Some kDexTypeEncodedArrayItem =>
      dataSection intraVerifyEncodedArrayItem 1
  | Some kDexTypeAnnotationsDirectoryItem =>
      dataSection swapAnnotationsDirectoryItem 4
  | None => reject UnknownMapItemType
  end.

Fixpoint sectionsLoop (count : nat) (item lastOffset : Z) : M unit :=
  match count with
  | O => ret tt
  | S count' =>
      sectionOffset <~ load4 (item + 8);;
      sectionCount <~ load4 (item + 4);;
      type <~ load2 (item + 0);;
      (if lastOffset <? sectionOffset then
         CHECK_OFFSET_RANGE lastOffset sectionOffset;;;
         checkPadding (Z.to_nat (sectionOffset - lastOffset)) lastOffset
           NonZeroSectionPadding
       else failIf (lastOffset >? sectionOffset) SectionOverlap);;;
      lastOffset <~ swapSection type sectionOffset sectionCount;;
      sectionsLoop count' (item + sizeofDexMapItem) lastOffset
  end.

Definition swapEverythingButHeaderAndMap (pMap : Z) : M unit :=
  let item := pMap + 4 in
  let lastOffset := 0 in
  count <~ load4 pMap;;
  sectionsLoop (Z.to_nat count) item lastOffset.

(** *** The entry point *)

Definition initialState : CheckState :=
  {| pHeader := None; fileLen := 0; pDataMap := None; pDexFile := false;
     previousItem := None |}.

(** The magic number, then the version. *)
Definition checkMagic (pHeader : Z) : M unit :=
  magic <~ readBytes pHeader 4;;
  failIf (negb (memcmp_eq magic (take 4 DEX_MAGIC))) BadMagic;;;
  vers <~ readBytes (pHeader + 4) 4;;
  failIf (negb (memcmp_eq vers (take 4 DEX_MAGIC_VERS))) BadVersion.

Definition checkLength (pHeader len : Z) : M unit :=
  fileSize <~ load4 (pHeader + off_fileSize);;
  let expectedLen := toInt (SWAP4 fileSize) in
  failIf (len <? expectedLen) BadLength.

Definition checkChecksum (pHeader : Z) : M unit :=
  let adler := adler32 0 None in
  let nonSum := 8 + 4 in
  fileSize <~ load4 (pHeader + off_fileSize);;
  let storedFileSize := SWAP4 fileSize in
  checksum <~ load4 (pHeader + off_checksum);;
  let expectedChecksum := SWAP4 checksum in
  buf <~ readBytes (pHeader + nonSum) (u4 (storedFileSize - nonSum));;
  let adler := adler32 adler (Some buf) in
  failIf (negb (adler =? expectedChecksum)) BadChecksum.

Definition checkHeaderSize (pHeader : Z) : M unit :=
  headerSize <~ load4 (pHeader + off_headerSize);;
  failIf (headerSize <? sizeofDexHeader) SmallHeaderSize.

Definition setDexFile (w : World) : World :=
  {| image := image w;
     state := {| pHeader := pHeader (state w); fileLen := fileLen (state w);
                 pDataMap := pDataMap (state w); pDexFile := true;
                 previousItem := previousItem (state w) |};
     visited := visited w |}.

(** [dexDataMapFree] at the end of the call. *)
Definition freeDataMap (w : World) : World :=
  {| image := image w; state := withDataMap (state w) None;
     visited := visited w |}.

(** The steps of [dexFixByteOrdering] up to and including the check of
    the header size. *)
Definition verifyHeader (pHeader len : Z) : M unit :=
  checkMagic pHeader;;;
  checkLength pHeader len;;;
  checkChecksum pHeader;;;
  setState {| pHeader := None; fileLen := u4 len; pDataMap := None;
              pDexFile := false; previousItem := None |};;;
  swapDexHeader pHeader;;;
  st <~ getState;;
  setState {| pHeader := Some pHeader; fileLen := fileLen st;
              pDataMap := pDataMap st; pDexFile := pDexFile st;
              previousItem := previousItem st |};;;
  checkHeaderSize pHeader.

(** The map, and through it everything else. *)
Definition verifyThroughMap (pHeader : Z) : M unit :=
  mapOff <~ load4 (pHeader + off_mapOff);;
  if negb (mapOff =? 0) then
    let pDexMap := pHeader + mapOff in
    onExit setDexFile
      (swapMap pDexMap;;; swapEverythingButHeaderAndMap pDexMap);;;
    crossVerifyEverything pDexMap
  else reject NoMapFound.

(** [dexFixByteOrdering(addr, len)]: [Ok] is the result 0, a rejection
    a non-zero result; either carries the buffer as the call leaves
    it. *)
Definition dexFixByteOrdering (addr : list byte) (len : Z) : Res unit :=
  let pHeader := 0 in
  onExit freeDataMap (verifyHeader pHeader len;;; verifyThroughMap pHeader)
    {| image := addr; state := initialState; visited := [] |}.
End WithSections.

End Dex.

(* --------------------------------------------------------------------- *)
(** ** libdex/DexSwapVerify.c: item visitors and helpers                  *)
(* --------------------------------------------------------------------- *)

Module DexItems.
Import CString Dex.

(** More of what the unit takes from outside: [kDexNoIndex] and the
    access flags of [DexFile.h], and the parts of [DexFile.h],
    [DexProto.h] and [DexClass.h] that look into the string table. *)
Class DexConstants := {
  kDexNoIndex : Z;
  ACC_PRIVATE : Z;
  ACC_STATIC : Z;
  ACC_SYNCHRONIZED : Z;
  ACC_NATIVE : Z;
  ACC_ABSTRACT : Z;
  ACC_CONSTRUCTOR : Z;
  ACC_FIELD_MASK : Z;
  ACC_METHOD_MASK : Z
}.

Class DexStrings := {
  dexStringById : World -> Z -> string;
  dexStringByTypeIdx : World -> Z -> string;
  dexIsClassDescriptor : string -> bool;
  dexIsFieldDescriptor : string -> bool;
  dexIsReferenceDescriptor : string -> bool;
  dexIsValidMemberName : string -> bool
}.

(** Messages of the functions below, as codes of [OtherItemFailure]. *)
Definition OutOfOrderFieldIdx : Diag := OtherItemFailure 1.
Definition OutOfOrderMethodIdx : Diag := OtherItemFailure 2.
Definition InvalidClassDescriptor : Diag := OtherItemFailure 3.
Definition InvalidTypeDescriptor : Diag := OtherItemFailure 4.
Definition InvalidName : Diag := OtherItemFailure 5.
Definition OutOfOrderFieldIds : Diag := OtherItemFailure 6.
Definition OutOfOrderMethodIds : Diag := OtherItemFailure 7.
Definition FieldInWrongList : Diag := OtherItemFailure 8.
Definition BogusFieldAccessFlags : Diag := OtherItemFailure 9.
Definition MethodInWrongList : Diag := OtherItemFailure 10.
Definition BogusMethodAccessFlags : Diag := OtherItemFailure 11.
Definition UnexpectedZeroCodeOff : Diag := OtherItemFailure 12.
Definition UnexpectedNonZeroCodeOff : Diag := OtherItemFailure 13.
Definition TroubleWithStaticFields : Diag := OtherItemFailure 14.
Definition TroubleWithInstanceFields : Diag := OtherItemFailure 15.
Definition TroubleWithDirectMethods : Diag := OtherItemFailure 16.
Definition TroubleWithVirtualMethods : Diag := OtherItemFailure 17.

(** *** The set of defined classes *)

(** [setDefinedClassBit] on the array [pDefinedClassBits]: the former
    value of the bit and the array with the bit set; [None] when the
    element lies beyond the array. *)
Definition setDefinedClassBit (pDefinedClassBits : list Z) (typeIdx : Z)
    : option (bool * list Z) :=
  let arrayIdx := Z.shiftr typeIdx 5 in
  let bit := u4 (Z.shiftl 1 (Z.land typeIdx 31)) in
  match pDefinedClassBits !! Z.to_nat arrayIdx with
  | None => None
  | Some element =>
      let result := negb (Z.land element bit =? 0) in
      Some (result,
            <[Z.to_nat arrayIdx := Z.lor element bit]> pDefinedClassBits)
  end.

Section WithFormat.
Context `{Host} `{DexFormat} `{DexConstants} `{DexStrings}.

(** Divide typeIdsSize by 32 (0x20), rounding up. *)
Definition calcDefinedClassBitsSize : M Z :=
  typeIdsSize <~ headerField off_typeIdsSize;;
  ret (Z.shiftr (u4 (typeIdsSize + 31)) 5).

(** *** Indices *)

Definition SWAP_INDEX2 (field limitField : Z) : M unit :=
  SWAP_FIELD2 field;;;
  v <~ load2 field;;
  limit <~ headerField limitField;;
  CHECK_INDEX v limit.

Definition SWAP_INDEX4 (field limitField : Z) : M unit :=
  SWAP_FIELD4 field;;;
  v <~ load4 field;;
  limit <~ headerField limitField;;
  CHECK_INDEX v limit.

Definition CHECK_INDEX_OR_NOINDEX (field limit : Z) : M unit :=
  failIf (negb (field =? kDexNoIndex) && (field >=? limit)) BadIndex.

Definition SWAP_INDEX4_OR_NOINDEX (field limitField : Z) : M unit :=
  SWAP_FIELD4 field;;;
  v <~ load4 field;;
  limit <~ headerField limitField;;
  CHECK_INDEX_OR_NOINDEX v limit.

(** *** The items of the index tables

    [DexStringId]: stringDataOff (u4).  [DexTypeId]: descriptorIdx (u4).
    [DexProtoId]: shortyIdx, returnTypeIdx, parametersOff (u4 each).
    [DexFieldId]: classIdx, typeIdx (u2 each), nameIdx (u4).
    [DexMethodId]: classIdx, protoIdx (u2 each), nameIdx (u4).
    [DexClassDef]: classIdx, accessFlags, superclassIdx, interfacesOff,
    sourceFileIdx, annotationsOff, classDataOff, staticValuesOff (u4
    each). *)
Definition swapStringIdItem (ptr : Z) : M Z :=
  let item := ptr in
  CHECK_PTR_RANGE item (item + 4);;;
  SWAP_OFFSET4 (item + 0);;;
  ret (item + 4).

Definition swapTypeIdItem (ptr : Z) : M Z :=
  let item := ptr in
  CHECK_PTR_RANGE item (item + 4);;;
  SWAP_INDEX4 (item + 0) off_stringIdsSize;;;
  ret (item + 4).

Definition swapProtoIdItem (ptr : Z) : M Z :=
  let item := ptr in
  CHECK_PTR_RANGE item (item + 12);;;
  SWAP_INDEX4 (item + 0) off_stringIdsSize;;;
  SWAP_INDEX4 (item + 4) off_typeIdsSize;;;
  SWAP_OFFSET4 (item + 8);;;
  ret (item + 12).

Definition swapFieldIdItem (ptr : Z) : M Z :=
  let item := ptr in
  CHECK_PTR_RANGE item (item + 8);;;
  SWAP_INDEX2 (item + 0) off_typeIdsSize;;;
  SWAP_INDEX2 (item + 2) off_typeIdsSize;;;
  SWAP_INDEX4 (item + 4) off_stringIdsSize;;;
  ret (item + 8).

Definition swapMethodIdItem (ptr : Z) : M Z :=
  let item := ptr in
  CHECK_PTR_RANGE item (item + 8);;;
  SWAP_INDEX2 (item + 0) off_typeIdsSize;;;
  SWAP_INDEX2 (item + 2) off_protoIdsSize;;;
  SWAP_INDEX4 (item + 4) off_stringIdsSize;;;
  ret (item + 8).

Definition swapClassDefItem (ptr : Z) : M Z :=
  let item := ptr in
  CHECK_PTR_RANGE item (item + 32);;;
  SWAP_INDEX4 (item + 0) off_typeIdsSize;;;
  SWAP_FIELD4 (item + 4);;;
  SWAP_INDEX4_OR_NOINDEX (item + 8) off_typeIdsSize;;;
  SWAP_OFFSET4 (item + 12);;;
  SWAP_INDEX4_OR_NOINDEX (item + 16) off_stringIdsSize;;;
  SWAP_OFFSET4 (item + 20);;;
  SWAP_OFFSET4 (item + 24);;;
  ret (item + 32).

(** *** Ordering of field ids and method ids *)

(** The comparison of [crossVerifyFieldIdItem] and
    [crossVerifyMethodIdItem] with the previous item: [bogus] at the
    end.  The third component is the type index of a field id, the
    proto index of a method id. *)
Definition outOfOrder (class0 name0 third0 class1 name1 third1 : Z) : bool :=
  let done := false in
  let bogus := false in
  let '(bogus, done) :=
    if class0 >? class1 then (true, true)
    else if class0 <? class1 then (bogus, true)
    else (bogus, done) in
  let '(bogus, done) :=
    if negb done then
      if name0 >? name1 then (true, true)
      else if name0 <? name1 then (bogus, true)
      else (bogus, done)
    else (bogus, done) in
  let bogus :=
    if negb done then
      if third0 >=? third1 then true else bogus
    else bogus in
  bogus.

Definition stringByTypeIdx (idx : Z) : M string :=
  fun w => Ok (dexStringByTypeIdx w idx) w.

Definition stringById (idx : Z) : M string :=
  fun w => Ok (dexStringById w idx) w.

Definition crossVerifyFieldIdItem (ptr : Z) : M Z :=
  let item := ptr in
  classIdx <~ load2 (item + 0);;
  s <~ stringByTypeIdx classIdx;;
  failIf (negb (dexIsClassDescriptor s)) InvalidClassDescriptor;;;
  typeIdx <~ load2 (item + 2);;
  s <~ stringByTypeIdx typeIdx;;
  failIf (negb (dexIsFieldDescriptor s)) InvalidTypeDescriptor;;;
  nameIdx <~ load4 (item + 4);;
  s <~ stringById nameIdx;;
  failIf (negb (dexIsValidMemberName s)) InvalidName;;;
  st <~ getState;;
  match previousItem st with
  | Some item0 =>
      (* Check ordering. *)
      classIdx0 <~ load2 (item0 + 0);;
      nameIdx0 <~ load4 (item0 + 4);;
      typeIdx0 <~ load2 (item0 + 2);;
      failIf (outOfOrder classIdx0 nameIdx0 typeIdx0
                classIdx nameIdx typeIdx) OutOfOrderFieldIds;;;
      ret (item + 8)
  | None => ret (item + 8)
  end.

Definition crossVerifyMethodIdItem (ptr : Z) : M Z :=
  let item := ptr in
  classIdx <~ load2 (item + 0);;
  s <~ stringByTypeIdx classIdx;;
  failIf (negb (dexIsReferenceDescriptor s)) InvalidClassDescriptor;;;
  nameIdx <~ load4 (item + 4);;
  s <~ stringById nameIdx;;
  failIf (negb (dexIsValidMemberName s)) InvalidName;;;
  protoIdx <~ load2 (item + 2);;
  st <~ getState;;
  match previousItem st with
  | Some item0 =>
      (* Check ordering. *)
      classIdx0 <~ load2 (item0 + 0);;
      nameIdx0 <~ load4 (item0 + 4);;
      protoIdx0 <~ load2 (item0 + 2);;
      failIf (outOfOrder classIdx0 nameIdx0 protoIdx0
                classIdx nameIdx protoIdx) OutOfOrderMethodIds;;;
      ret (item + 8)
  | None => ret (item + 8)
  end.

(** *** Shorties *)

Definition isPrimitiveShorty (c : ascii) : bool :=
  existsb (Ascii.eqb c)
    ["B"; "C"; "D"; "F"; "I"; "J"; "S"; "Z"]%char.

(** [descriptor[0] != shorty || descriptor[1] != '\0'], negated. *)
Definition isJust (shorty : ascii) (descriptor : string) : bool :=
  match descriptor with
  | String c EmptyString => Ascii.eqb c shorty
  | _ => false
  end.

Definition shortyDescMatch (shorty : ascii) (descriptor : string)
    (isReturnType : bool) : bool :=
  if Ascii.eqb shorty "V" then
    if negb isReturnType then false
    else (* Fall through. *) isJust shorty descriptor
  else if isPrimitiveShorty shorty then isJust shorty descriptor
  else if Ascii.eqb shorty "L" then
    match descriptor with
    | String c _ => Ascii.eqb c "L" || Ascii.eqb c "["
    | EmptyString => false
    end
  else false.

(** *** annotations_directory_item

    [DexAnnotationsDirectoryItem]: classAnnotationsOff, fieldsSize,
    methodsSize, parametersSize (u4 each), followed by the field, method
    and parameter annotations, each an index (u4) and annotationsOff
    (u4). *)
Fixpoint annotationsLoop (count : nat) (item : Z) (first : bool)
    (lastIdx : Z) (limitField : Z) (d : Diag) : M Z :=
  match count with
  | O => ret item
  | S count' =>
      SWAP_INDEX4 (item + 0) limitField;;;
      SWAP_OFFSET4 (item + 4);;;
      idx <~ load4 (item + 0);;
      failIf (negb first && (lastIdx >=? idx)) d;;;
      annotationsLoop count' (item + 8) false idx limitField d
  end.

Definition swapFieldAnnotations (count addr : Z) : M Z :=
  let item := addr in
  let first := true in
  let lastIdx := 0 in
  CHECK_LIST_SIZE item count 8;;;
  annotationsLoop (Z.to_nat count) item first lastIdx off_fieldIdsSize
    OutOfOrderFieldIdx.

Definition swapMethodAnnotations (count addr : Z) : M Z :=
  let item := addr in
  let first := true in
  let lastIdx := 0 in
  CHECK_LIST_SIZE item count 8;;;
  annotationsLoop (Z.to_nat count) item first lastIdx off_methodIdsSize
    OutOfOrderMethodIdx.

Definition swapParameterAnnotations (count addr : Z) : M Z :=
  let item := addr in
  let first := true in
  let lastIdx := 0 in
  CHECK_LIST_SIZE item count 8;;;
  annotationsLoop (Z.to_nat count) item first lastIdx off_methodIdsSize
    OutOfOrderMethodIdx.

Definition swapAnnotationsDirectoryItem (ptr : Z) : M Z :=
  let item := ptr in
  CHECK_PTR_RANGE item (item + 16);;;
  SWAP_OFFSET4 (item + 0);;;
  SWAP_FIELD4 (item + 4);;;
  SWAP_FIELD4 (item + 8);;;
  SWAP_FIELD4 (item + 12);;;
  let addr := item + 16 in
  fieldsSize <~ load4 (item + 4);;
  addr <~ (if negb (fieldsSize =? 0) then swapFieldAnnotations fieldsSize addr
           else ret addr);;
  methodsSize <~ load4 (item + 8);;
  addr <~ (if negb (methodsSize =? 0)
           then swapMethodAnnotations methodsSize addr
           else ret addr);;
  parametersSize <~ load4 (item + 12);;
  addr <~ (if negb (parametersSize =? 0)
           then swapParameterAnnotations parametersSize addr
           else ret addr);;
  ret addr.

(** *** type_list

    [DexTypeList]: size (u4), then the items, each a typeIdx (u2);
    [sizeof(DexTypeList)] is 8, as the one item the declaration has is
    padded to the alignment of the size. *)
Fixpoint typeListLoop (count : nat) (pType : Z) : M Z :=
  match count with
  | O => ret pType
  | S count' =>
      SWAP_INDEX2 (pType + 0) off_typeIdsSize;;;
      typeListLoop count' (pType + 2)
  end.

Definition swapTypeList (ptr : Z) : M Z :=
  let pTypeList := ptr in
  CHECK_PTR_RANGE pTypeList (pTypeList + 8);;;
  SWAP_FIELD4 (pTypeList + 0);;;
  count <~ load4 (pTypeList + 0);;
  let pType := pTypeList + 4 in
  CHECK_LIST_SIZE pType count 2;;;
  typeListLoop (Z.to_nat count) pType.

(** *** Little-endian values inside encoded values *)

Fixpoint littleEndianLoop (n : nat) (i : Z) (data result : Z) : M (Z * Z) :=
  match n with
  | O => ret (result, data)
  | S n' =>
      b <~ load1 data;;
      if 32 <=? i * 8 then undefined
      else littleEndianLoop n' (i + 1) (data + 1)
             (Z.lor result (u4 (Z.shiftl b (i * 8))))
  end.

(** [readUnsignedLittleEndian]: the value and the new [*pData].  When
    the range check fails the function returns 0 and leaves [*pData]
    alone.  A shift of a [u4] by 32 bits or more has no defined
    result. *)
Definition readUnsignedLittleEndian (data size : Z) : M (Z * Z) :=
  let result := 0 in
  st <~ getState;;
  if negb (checkPtrRange st data (data + size)) then ret (0, data)
  else littleEndianLoop (Z.to_nat size) 0 data result.

(** *** class_data_item, decoded

    [DexClassData] as [dexReadAndVerifyClassData] hands it over. *)
Record DexField := { fieldIdx : Z; accessFlags : Z }.
Record DexMethod := { methodIdx : Z; methodAccessFlags : Z; codeOff : Z }.
Record DexClassDataHeader := {
  staticFieldsSize : Z;
  instanceFieldsSize : Z;
  directMethodsSize : Z;
  virtualMethodsSize : Z
}.
Record DexClassData := {
  header : DexClassDataHeader;
  staticFields : list DexField;
  instanceFields : list DexField;
  directMethods : list DexMethod;
  virtualMethods : list DexMethod
}.

(** A call whose boolean result the caller looks at: [true] for a call
    that returns, [false] for one that gave up. *)
Definition attempt {A} (c : M A) : M bool :=
  fun w =>
    match c w with
    | Ok _ w' => Ok true w'
    | Reject _ w' => Ok false w'
    | Undefined => Undefined
    end.

Fixpoint verifyFieldsLoop (n : nat) (i : nat) (fields : list DexField)
    (expectStatic : bool) : M unit :=
  match n with
  | O => ret tt
  | S n' =>
      match fields !! i with
      | None => undefined
      | Some field =>
          let accessFlags := accessFlags field in
          let isStatic := negb (Z.land accessFlags ACC_STATIC =? 0) in
          fieldIdsSize <~ headerField off_fieldIdsSize;;
          CHECK_INDEX (fieldIdx field) fieldIdsSize;;;
          failIf (negb (Bool.eqb isStatic expectStatic)) FieldInWrongList;;;
          failIf (negb (Z.land accessFlags (u4 (Z.lnot ACC_FIELD_MASK)) =? 0))
            BogusFieldAccessFlags;;;
          verifyFieldsLoop n' (S i) fields expectStatic
      end
  end.

Definition verifyFields (size : Z) (fields : list DexField)
    (expectStatic : bool) : M unit :=
  verifyFieldsLoop (Z.to_nat size) 0 fields expectStatic.

Fixpoint verifyMethodsLoop (n : nat) (i : nat) (methods : list DexMethod)
    (expectDirect : bool) : M unit :=
  match n with
  | O => ret tt
  | S n' =>
      match methods !! i with
      | None => undefined
      | Some method =>
          methodIdsSize <~ headerField off_methodIdsSize;;
          CHECK_INDEX (methodIdx method) methodIdsSize;;;
          let accessFlags := methodAccessFlags method in
          let isDirect :=
            negb (Z.land accessFlags
                    (Z.lor (Z.lor ACC_STATIC ACC_PRIVATE) ACC_CONSTRUCTOR)
                  =? 0) in
          let expectCode :=
            Z.land accessFlags (Z.lor ACC_NATIVE ACC_ABSTRACT) =? 0 in
          let isSynchronized :=
            negb (Z.land accessFlags ACC_SYNCHRONIZED =? 0) in
          let allowSynchronized :=
            negb (Z.land accessFlags ACC_NATIVE =? 0) in
          failIf (negb (Bool.eqb isDirect expectDirect)) MethodInWrongList;;;
          failIf (negb (Z.land accessFlags (u4 (Z.lnot ACC_METHOD_MASK)) =? 0)
                  || (isSynchronized && negb allowSynchronized))
            BogusMethodAccessFlags;;;
          (if expectCode then
             failIf (codeOff method =? 0) UnexpectedZeroCodeOff
           else failIf (negb (codeOff method =? 0)) UnexpectedNonZeroCodeOff);;;
          verifyMethodsLoop n' (S i) methods expectDirect
      end
  end.

Definition verifyMethods (size : Z) (methods : list DexMethod)
    (expectDirect : bool) : M unit :=
  verifyMethodsLoop (Z.to_nat size) 0 methods expectDirect.

Definition verifyClassDataItem0 (classData : DexClassData) : M unit :=
  okay <~ attempt (verifyFields (staticFieldsSize (header classData))
                     (staticFields classData) true);;
  failIf (negb okay) TroubleWithStaticFields;;;
  attempt (verifyFields (instanceFieldsSize (header classData))
             (instanceFields classData) false);;;
  failIf (negb okay) TroubleWithInstanceFields;;;
  okay <~ attempt (verifyMethods (directMethodsSize (header classData))
                     (directMethods classData) true);;
  failIf (negb okay) TroubleWithDirectMethods;;;
  okay <~ attempt (verifyMethods (virtualMethodsSize (header classData))
                     (virtualMethods classData) false);;
  failIf (negb okay) TroubleWithVirtualMethods.
End WithFormat.

End DexItems.

(* --------------------------------------------------------------------- *)
(** ** vm/Debugger.c: identifiers, tags, frames and line tables           *)
(* --------------------------------------------------------------------- *)

Module DebuggerMore.
Import CString Debugger.

(** *** The object registry *)

(** Modelled from the spec: the registry is a hash set of identifiers,
    keyed by the hash and searched by linear scan with the comparison
    function; a lookup that is asked to add inserts the item unless it
    is there already.  The table is the list of its items. *)
Definition dvmHashTableLookup (table : list Z) (itemHash item : Z)
    (compare : Z -> Z -> Z) (doAdd : bool) : option Z * list Z :=
  match find (fun entry => compare entry item =? 0) table with
  | Some entry => (Some entry, table)
  | None => if doAdd then (Some item, table ++ [item]) else (None, table)
  end.

Definition kObjectId : Z := 193.    (* 0xc1 *)
Definition kRefTypeId : Z := 194.

(** [gDvm], as far as the registry goes. *)
Record Registry := {
  dbgRegistry : list Z;
  debuggerConnected : bool
}.

Definition u4 (z : Z) : Z := z mod 2 ^ 32.
(** [(int) p] for a 32-bit pointer. *)
Definition toInt (v : Z) : Z := if v <? 2 ^ 31 then v else v - 2 ^ 32.

Definition registryHash (val : Z) : Z := Z.shiftr val 4.

Definition registryCompare (obj1 obj2 : Z) : Z :=
  toInt (u4 (toInt obj1 - toInt obj2)).

Definition lookupId (g : Registry) (id : Z) : bool :=
  match fst (dvmHashTableLookup (dbgRegistry g) (registryHash (u4 id))
               (u4 id) registryCompare false) with
  | None => false
  | Some _ => true
  end.

(** The identifier, and the registry as the call leaves it. *)
Definition registerObject (g : Registry) (obj : Z) (type : Z) (reg : bool)
    : Z * Registry :=
  if obj =? 0 then (0, g)
  else
    let id := Z.lor (u4 obj) (Z.shiftl type 32) in
    if negb reg then (id, g)
    else if negb (debuggerConnected g) then
      (* debugger has detached while we were doing stuff? *)
      (id, g)
    else
      (id,
       {| dbgRegistry :=
            snd (dvmHashTableLookup (dbgRegistry g) (registryHash (u4 id))
                   (u4 id) registryCompare true);
          debuggerConnected := debuggerConnected g |}).

Definition objectIsRegistered (g : Registry) (id : Z) (type : Z) : bool :=
  if id =? 0 then true   (* null reference? *)
  else lookupId g id.

Definition classObjectToRefTypeId (g : Registry) (clazz : Z) :=
  registerObject g clazz kRefTypeId true.
Definition classObjectToRefTypeIdNoReg (g : Registry) (clazz : Z) :=
  registerObject g clazz kRefTypeId false.
Definition objectToObjectId (g : Registry) (obj : Z) :=
  registerObject g obj kObjectId true.
Definition objectToObjectIdNoReg (g : Registry) (obj : Z) :=
  registerObject g obj kObjectId false.
Definition methodToMethodId (meth : Z) : Z := u4 meth.
Definition frameToFrameId (frame : Z) : Z := u4 frame.
Definition frameIdToFrame (id : Z) : Z := u4 id.

(** *** Tags *)

(** JDWP tags ([JdwpConstants.h]): the codes of the tag characters. *)
Definition JT_ARRAY : Z := 91.          (* '[' *)
Definition JT_BYTE : Z := 66.           (* 'B' *)
Definition JT_CHAR : Z := 67.           (* 'C' *)
Definition JT_OBJECT : Z := 76.         (* 'L' *)
Definition JT_FLOAT : Z := 70.          (* 'F' *)
Definition JT_DOUBLE : Z := 68.         (* 'D' *)
Definition JT_INT : Z := 73.            (* 'I' *)
Definition JT_LONG : Z := 74.           (* 'J' *)
Definition JT_SHORT : Z := 83.          (* 'S' *)
Definition JT_VOID : Z := 86.           (* 'V' *)
Definition JT_BOOLEAN : Z := 90.        (* 'Z' *)
Definition JT_STRING : Z := 115.        (* 's' *)
Definition JT_THREAD : Z := 116.        (* 't' *)
Definition JT_THREAD_GROUP : Z := 103.  (* 'g' *)
Definition JT_CLASS_LOADER : Z := 108.  (* 'l' *)
Definition JT_CLASS_OBJECT : Z := 99.   (* 'c' *)

(** [sizeof(ObjectId)]: an [ObjectId] is a [u8]. *)
Definition sizeofObjectId : Z := 8.

(** [type[0]], the terminating NUL for the empty string. *)
Definition firstChar (s : string) : ascii :=
  match s with
  | String c _ => c
  | EmptyString => Ascii.zero
  end.

(** With assertions compiled out, an unhandled type yields -1. *)
Definition dvmDbgGetSignatureTag (type : string) : Z :=
  if strcmp type "Ljava/lang/String;" =? 0 then JT_STRING
  else if strcmp type "Ljava/lang/Class;" =? 0 then JT_CLASS_OBJECT
  else if strcmp type "Ljava/lang/Thread;" =? 0 then JT_THREAD
  else if strcmp type "Ljava/lang/ThreadGroup;" =? 0 then JT_THREAD_GROUP
  else if strcmp type "Ljava/lang/ClassLoader;" =? 0 then JT_CLASS_LOADER
  else
    let c := firstChar type in
    if Ascii.eqb c "[" then JT_ARRAY
    else if Ascii.eqb c "B" then JT_BYTE
    else if Ascii.eqb c "C" then JT_CHAR
    else if Ascii.eqb c "L" then JT_OBJECT
    else if Ascii.eqb c "F" then JT_FLOAT
    else if Ascii.eqb c "D" then JT_DOUBLE
    else if Ascii.eqb c "I" then JT_INT
    else if Ascii.eqb c "J" then JT_LONG
    else if Ascii.eqb c "S" then JT_SHORT
    else if Ascii.eqb c "V" then JT_VOID
    else if Ascii.eqb c "Z" then JT_BOOLEAN
    else -1.

(** An object as [resultTagFromObject] looks at it: the address of its
    class, and the class's descriptor. *)
Record Object := {
  clazz : Z;
  clazzDescriptor : string
}.

Record KnownClasses := {
  classJavaLangString : Z;
  classJavaLangClass : Z;
  classJavaLangThread : Z;
  classJavaLangThreadGroup : Z
}.

(** [None] is the NULL object. *)
Definition resultTagFromObject (gDvm : KnownClasses) (obj : option Object)
    : Z :=
  match obj with
  | None => JT_OBJECT
  | Some obj =>
      if clazz obj =? classJavaLangString gDvm then JT_STRING
      else if clazz obj =? classJavaLangClass gDvm then JT_CLASS_OBJECT
      else if clazz obj =? classJavaLangThread gDvm then JT_THREAD
      else if clazz obj =? classJavaLangThreadGroup gDvm then JT_THREAD_GROUP
      else if strcmp (clazzDescriptor obj) "Ljava/lang/ClassLoader;" =? 0
      then JT_CLASS_LOADER
      else if Ascii.eqb (firstChar (clazzDescriptor obj)) "[" then JT_ARRAY
      else JT_OBJECT
  end.

(** [heap] gives the object at a non-null address. *)
Definition dvmDbgGetObjectTag (gDvm : KnownClasses) (heap : Z -> Object)
    (objectId : Z) (type : string) : Z :=
  let tag := dvmDbgGetSignatureTag type mod 2 ^ 8 in
  if (tag =? JT_OBJECT) && negb (objectId =? 0) then
    let obj := objectIdToObject objectId in
    resultTagFromObject gDvm (if obj =? 0 then None else Some (heap obj))
  else tag.

Definition dvmDbgGetTagWidth (tag : Z) : Z :=
  if tag =? JT_VOID then 0
  else if (tag =? JT_BYTE) || (tag =? JT_BOOLEAN) then 1
  else if (tag =? JT_CHAR) || (tag =? JT_SHORT) then 2
  else if (tag =? JT_FLOAT) || (tag =? JT_INT) then 4
  else if (tag =? JT_ARRAY) || (tag =? JT_OBJECT) || (tag =? JT_STRING)
          || (tag =? JT_THREAD) || (tag =? JT_THREAD_GROUP)
          || (tag =? JT_CLASS_LOADER) || (tag =? JT_CLASS_OBJECT)
  then sizeofObjectId
  else if (tag =? JT_DOUBLE) || (tag =? JT_LONG) then 8
  else -1.

(** *** Stack frames *)

(** A frame of the interpreted stack: its address, whether it is a
    break frame, and what its save area holds.  A thread's stack is the
    chain of its frames from [curFrame] along [prevFrame], here a list;
    pointers to code count 16-bit units. *)
Record FrameMethod := {
  methodPtr : Z;
  methodClazz : Z;
  methodClazzIsInterface : bool;   (* dvmIsInterfaceClass(method->clazz) *)
  methodIsNative : bool;           (* dvmIsNativeMethod(method) *)
  insns : Z
}.

Record Frame := {
  framePtr : Z;
  isBreakFrame : bool;             (* dvmIsBreakFrame(framePtr) *)
  frameMethod : FrameMethod;       (* saveArea->method *)
  currentPc : Z                    (* saveArea->xtra.currentPc *)
}.

Record JdwpLocation := {
  typeTag : Z;
  classId : Z;
  methodId : Z;
  idx : Z
}.

Fixpoint countFrames (frames : list Frame) (count : Z) : Z :=
  match frames with
  | [] => count
  | frame :: prev =>
      countFrames prev
        (if negb (isBreakFrame frame) then u4 (count + 1) else count)
  end.

(** [stack] is the stack of the thread that [threadObjToThread] finds,
    [None] when it finds none. *)
Definition dvmDbgGetThreadFrameCount (stack : option (list Frame)) : Z :=
  let count := 0 in
  match stack with
  | None => count
  | Some frames => toInt (countFrames frames count)
  end.

Fixpoint findFrame (g : Registry) (frames : list Frame) (count num : Z)
    : option (Z * JdwpLocation) * Registry :=
  match frames with
  | [] => (None, g)
  | frame :: prev =>
      let method := frameMethod frame in
      if negb (isBreakFrame frame) then
        if count =? num then
          let pFrameId := frameToFrameId (framePtr frame) in
          let typeTag_ :=
            if methodClazzIsInterface method then TT_INTERFACE
            else TT_CLASS in
          let '(classId_, g) := classObjectToRefTypeId g (methodClazz method) in
          let methodId_ := methodToMethodId (methodPtr method) in
          let idx_ :=
            if methodIsNative method then 2 ^ 64 - 1
            else (currentPc frame - insns method) mod 2 ^ 64 in
          (Some (pFrameId,
                 {| typeTag := typeTag_; classId := classId_;
                    methodId := methodId_; idx := idx_ |}), g)
        else findFrame g prev (count + 1) num
      else findFrame g prev count num
  end.

(** [None] is the result [false]; otherwise [*pFrameId] and [*pLoc]. *)
Definition dvmDbgGetThreadFrame (g : Registry) (stack : option (list Frame))
    (num : Z) : option (Z * JdwpLocation) * Registry :=
  match stack with
  | None => (None, g)
  | Some frames => findFrame g frames 0 num
  end.

(** *** The addresses of a source line *)

(** Modelled from the spec: an address set is a bitset with one bit per
    instruction offset; setting a bit beyond its size does nothing. *)
Record AddressSet := {
  setSize : Z;
  set : list bool
}.

Definition dvmAddressSetSet (pSet : AddressSet) (toSet : Z) : AddressSet :=
  if toSet <? setSize pSet then
    {| setSize := setSize pSet;
       set := <[Z.to_nat toSet := true]> (set pSet) |}
  else pSet.

Definition dvmAddressSetGet (pSet : AddressSet) (toGet : Z) : bool :=
  if toGet <? setSize pSet then default false (set pSet !! Z.to_nat toGet)
  else false.

Record AddressSetContext := {
  lastAddressValid : bool;
  lastAddress : Z;
  lineNum : Z;
  pSet : AddressSet
}.

(** [for (i = from; i < to; i++) dvmAddressSetSet(pSet, i);] with [n]
    the number of rounds. *)
Fixpoint setRange (n : nat) (i : Z) (pSet : AddressSet) : AddressSet :=
  match n with
  | O => pSet
  | S n' => setRange n' (i + 1) (dvmAddressSetSet pSet i)
  end.

Definition addressSetCb (pContext : AddressSetContext) (address lineNum_ : Z)
    : AddressSetContext :=
  if lineNum_ =? lineNum pContext then
    if negb (lastAddressValid pContext) then
      (* Everything from this address until the next line change is ours *)
      {| lastAddressValid := true;
         lastAddress := address;
         lineNum := lineNum pContext;
         pSet := pSet pContext |}
    else pContext
  else if lastAddressValid pContext then   (* and the line number is new *)
    (* Add everything from the last entry up until here to the set *)
    {| lastAddressValid := false;
       lastAddress := lastAddress pContext;
       lineNum := lineNum pContext;
       pSet := setRange (Z.to_nat (address - lastAddress pContext))
                 (lastAddress pContext) (pSet pContext) |}
  else pContext.

(** [positions] are the entries of the method's position table, as
    [dexDecodeDebugInfo] hands them to the callback: address and line. *)
Definition dvmAddressSetForLine (positions : list (Z * Z)) (insnsSize : Z)
    (line : Z) : AddressSet :=
  let result :=
    {| setSize := insnsSize;
       set := replicate (Z.to_nat (insnsSize / 8 + 1) * 8)%nat false |} in
  let context :=
    {| lastAddressValid := false; lastAddress := 0;
       lineNum := u4 line; pSet := result |} in
  let context :=
    fold_left (fun c e => addressSetCb c (fst e) (snd e)) positions context in
  (* If the line number was the last in the position table... *)
  if lastAddressValid context then
    setRange (Z.to_nat (insnsSize - lastAddress context))
      (lastAddress context) (pSet context)
  else pSet context.

End DebuggerMore.

(* --------------------------------------------------------------------- *)
(** ** ExpatParser.cpp: attribute accessors                               *)
(* --------------------------------------------------------------------- *)

Module ExpatMore.
Import CString Expat.

(** [attributes] is the array of alternating names and values without
    its terminating NULL, as in [startElement]: an index equal to its
    length reads the terminator, a larger one reads past the array.  A
    [jstring] argument is the string [GetStringUTFChars] yields for it,
    [None] when that is NULL; a [jstring] result is the string handed
    to [NewStringUTF], [None] for a NULL result.  The outer [option] is
    [None] where the function reads past the array or hands [strcmp] a
    NULL pointer. *)

(** The loop of [getAttributeIndex] and [getAttributeIndexForQName],
    with [test] the comparison each makes; [n] bounds the rounds. *)
Fixpoint attributeLoop (n : nat) (attributes : list string) (index : Z)
    (test : ExpatElementName -> option bool) : option Z :=
  match n with
  | O => None
  | S n' =>
      if Z.of_nat (length attributes) <? index * 2 then None
      else
        match attributes !! Z.to_nat (index * 2) with
        | None => Some (-1)
        | Some name =>
            match test (init name) with
            | None => None
            | Some true => Some index
            | Some false => attributeLoop n' attributes (index + 1) test
            end
        end
  end.

Definition getAttributeIndexForQName (attributes : list string)
    (qName : option string) : option Z :=
  match qName with
  | None => Some (-1)
  | Some qNameBytes =>
      attributeLoop (S (length attributes)) attributes 0
        (fun e => matchesQName e qNameBytes)
  end.

Definition getAttributeIndex (attributes : list string)
    (uri localName : option string) : option Z :=
  match uri with
  | None => Some (-1)
  | Some uriBytes =>
      match localName with
      | None => Some (-1)
      | Some localNameBytes =>
          attributeLoop (S (length attributes)) attributes 0
            (fun e => matches e uriBytes localNameBytes)
      end
  end.

Definition getAttributeValueByIndex (attributes : list string) (index : Z)
    : option (option string) :=
  let i := Z.shiftl index 1 + 1 in
  if (i <? 0) || (Z.of_nat (length attributes) <? i) then None
  else Some (attributes !! Z.to_nat i).

Definition getAttributeValueForQName (attributes : list string)
    (qName : option string) : option (option string) :=
  match getAttributeIndexForQName attributes qName with
  | None => None
  | Some index =>
      if index =? -1 then Some None
      else getAttributeValueByIndex attributes index
  end.

Definition getAttributeValue (attributes : list string)
    (uri localName : option string) : option (option string) :=
  match getAttributeIndex attributes uri localName with
  | None => None
  | Some index =>
      if index =? -1 then Some None
      else getAttributeValueByIndex attributes index
  end.

End ExpatMore.

(* ===================================================================== *)
(** * Part II: properties                                                 *)
(* ===================================================================== *)

Module CStringFacts.
Import CString.

(** A C string holds no NUL before its end. *)
Fixpoint cstring (s : string) : bool :=
  match s with
  | EmptyString => true
  | String c s' => negb (Ascii.eqb c Ascii.zero) && cstring s'
  end.

Lemma uchar_inj c d : uchar c = uchar d -> c = d.
Proof.
  unfold uchar. intros E. apply Nat2Z.inj in E.
  rewrite <- (ascii_nat_embedding c), <- (ascii_nat_embedding d).
  now rewrite E.
Qed.

Lemma uchar_zero c : uchar c = 0 -> c = Ascii.zero.
Proof. intros E. apply uchar_inj. rewrite E. reflexivity. Qed.

Lemma strcmp_refl a : strcmp a a = 0.
Proof. induction a as [|c a IH]; simpl; [reflexivity|]. now rewrite Ascii.eqb_refl. Qed.

Lemma strcmp_eq a : forall b,
  cstring a = true -> cstring b = true -> strcmp a b = 0 -> a = b.
Proof.
  induction a as [|c a IH]; intros [|d b] Ha Hb E; simpl in *.
  - reflexivity.
  - apply andb_prop in Hb as [Hd _]. apply negb_true_iff in Hd.
    apply Ascii.eqb_neq in Hd. exfalso. apply Hd, uchar_zero. lia.
  - apply andb_prop in Ha as [Hc _]. apply negb_true_iff in Hc.
    apply Ascii.eqb_neq in Hc. exfalso. now apply Hc, uchar_zero.
  - apply andb_prop in Ha as [_ Ha]. apply andb_prop in Hb as [_ Hb].
    destruct (Ascii.eqb_spec c d) as [->|Hne].
    + f_equal. now apply IH.
    + exfalso. apply Hne, uchar_inj. lia.
Qed.

Lemma strcmp_0_iff a b :
  cstring a = true -> cstring b = true -> (strcmp a b = 0 <-> a = b).
Proof.
  intros Ha Hb. split; [now apply strcmp_eq|]. intros ->. apply strcmp_refl.
Qed.

Lemma strcmp_eqb_false a b :
  cstring a = true -> cstring b = true -> a <> b -> (strcmp a b =? 0) = false.
Proof.
  intros Ha Hb Hne. apply Z.eqb_neq. intros E. now apply Hne, strcmp_eq.
Qed.
End CStringFacts.

Module DebuggerFacts.
Import CString CStringFacts Debugger.

Lemma threadObjToThread_found threadList : forall obj i,
  threadObjToThread threadList obj = Some i ->
  exists t, threadList !! i = Some t /\ threadObj t = obj.
Proof.
  induction threadList as [|t rest IH]; intros obj i E; simpl in E.
  - discriminate.
  - destruct (Z.eqb_spec (threadObj t) obj) as [<-|Hne].
    + injection E as <-. now exists t.
    + destruct (threadObjToThread rest obj) as [j|] eqn:Ej; [|discriminate].
      injection E as <-. destruct (IH _ _ Ej) as (t' & Ht' & Hobj).
      now exists t'.
Qed.

(** C6.  The outgoing map [tweakSlot] sends a variable named "this" to
    slot 0, any other variable in register 0 to slot 1000, and every other
    register to itself; the incoming map [untweakSlot] sends slot 1000 to
    register 0, slot 0 to [registersSize - insSize] of the frame's method,
    and every other slot to itself.  For a method with registersSize 5 and
    insSize 2, "this" in register 3 is reported as slot 0, which resolves
    back to register 3, and a local with another name in register 0 is
    reported as slot 1000, which resolves back to register 0. *)
Theorem slot_remapping :
  (forall slot, tweakSlot slot "this" = 0)
  /\ (forall name, cstring name = true -> name <> "this"%string ->
        tweakSlot 0 name = 1000)
  /\ (forall slot name, cstring name = true -> name <> "this"%string ->
        slot <> 0 -> tweakSlot slot name = slot)
  /\ (forall frame, untweakSlot 1000 frame = 0)
  /\ (forall frame,
        untweakSlot 0 frame
        = registersSize (method frame) - insSize (method frame))
  /\ (forall slot frame, slot <> 1000 -> slot <> 0 ->
        untweakSlot slot frame = slot)
  /\ (forall frame,
        registersSize (method frame) = 5 -> insSize (method frame) = 2 ->
        tweakSlot 3 "this" = 0
        /\ untweakSlot (tweakSlot 3 "this") frame = 3
        /\ (forall name, cstring name = true -> name <> "this"%string ->
              tweakSlot 0 name = 1000
              /\ untweakSlot (tweakSlot 0 name) frame = 0)).
Proof.
  assert (Hother : forall slot name, cstring name = true ->
            name <> "this"%string ->
            tweakSlot slot name = if slot =? 0 then 1000 else slot).
  { intros slot name Hc Hne. unfold tweakSlot.
    now rewrite (strcmp_eqb_false name "this") by easy. }
  split; [intros slot; reflexivity|].
  split; [intros name Hc Hne; now rewrite Hother|].
  split.
  { intros slot name Hc Hne Hs. rewrite Hother by easy.
    now apply Z.eqb_neq in Hs as ->. }
  split; [intros frame; reflexivity|].
  split; [intros frame; reflexivity|].
  split.
  { intros slot frame H1000 H0. unfold untweakSlot, kSlot0Sub.
    apply Z.eqb_neq in H1000 as ->. now apply Z.eqb_neq in H0 as ->. }
  intros frame Hr Hi.
  split; [reflexivity|].
  split; [unfold untweakSlot; simpl; lia|].
  intros name Hc Hne. rewrite Hother by easy. split; reflexivity.
Qed.

(** The statement made of [dvmDbgGetClassInfo] for classes that are not
    arrays: the reported status has the "verified" bit exactly when the
    class has been verified. *)
Definition reportsActualVerifiedStatus : Prop :=
  forall clazz,
    descriptorStartsWithBracket (descriptor clazz) = false ->
    status clazz <> CLASS_ERROR ->
    Z.testbit (snd (dvmDbgGetClassInfo clazz)) 0
    = classIsVerified (status clazz).

(** C9, as stated, fails: a class that is merely loaded is reported as
    verified (and prepared, and initialized). *)
Lemma class_info_ignores_actual_status : ~ reportsActualVerifiedStatus.
Proof.
  intros Hall.
  specialize (Hall {| descriptor := "Ljava/lang/Object;";
                      status := CLASS_LOADED; isInterface := false |}).
  simpl in Hall. specialize (Hall eq_refl). discriminate Hall. discriminate.
Qed.

(** C9, amended.  An array class (descriptor starting with '[') is
    reported with the array type tag and the fixed status
    verified+prepared.  Any other class is reported with the error status
    when its state is [CLASS_ERROR], and otherwise with the fixed status
    verified+prepared+initialized, whatever its state is; its tag tells an
    interface from a class. *)
Theorem class_info_status clazz :
  (descriptorStartsWithBracket (descriptor clazz) = true ->
     dvmDbgGetClassInfo clazz = (TT_ARRAY, Z.lor CS_VERIFIED CS_PREPARED))
  /\ (descriptorStartsWithBracket (descriptor clazz) = false ->
        fst (dvmDbgGetClassInfo clazz)
        = (if isInterface clazz then TT_INTERFACE else TT_CLASS)
        /\ (status clazz = CLASS_ERROR ->
              snd (dvmDbgGetClassInfo clazz) = CS_ERROR)
        /\ (status clazz <> CLASS_ERROR ->
              snd (dvmDbgGetClassInfo clazz)
              = Z.lor (Z.lor CS_VERIFIED CS_PREPARED) CS_INITIALIZED)).
Proof.
  unfold dvmDbgGetClassInfo. split; intros ->; [reflexivity|].
  repeat split; simpl.
  - intros ->. reflexivity.
  - intros Hne. destruct (status clazz); simpl; congruence.
Qed.

(** C5.  [dvmDbgInvokeMethod] returns the invalid-thread error when the
    target thread is not in the thread list or when its invocation request
    is not marked ready, and the thread-suspended error when the suspend
    count of a ready thread is above 1.  In each case it returns with the
    thread list as it found it: no field of the request is written and
    [invokeNeeded] is not set. *)
Theorem invoke_rejections `{VM} (threadList : ThreadList)
    (threadId_ objectId classId methodId numArgs_ : Z)
    (argArray_ : list Z) (options_ : Z) :
  let call :=
    dvmDbgInvokeMethod threadList threadId_ objectId classId methodId
      numArgs_ argArray_ options_ in
  (threadObjToThread threadList (objectIdToObject threadId_) = None ->
     call = (ERR_INVALID_THREAD, None, threadList))
  /\ (forall i t,
        threadObjToThread threadList (objectIdToObject threadId_) = Some i ->
        threadList !! i = Some t ->
        ready (invokeReq t) = false ->
        call = (ERR_INVALID_THREAD, None, threadList))
  /\ (forall i t,
        threadObjToThread threadList (objectIdToObject threadId_) = Some i ->
        threadList !! i = Some t ->
        ready (invokeReq t) = true ->
        suspendCount t > 1 ->
        call = (ERR_THREAD_SUSPENDED, None, threadList)).
Proof.
  intros call. subst call. unfold dvmDbgInvokeMethod. repeat split.
  - intros ->. reflexivity.
  - intros i t -> -> Hr. now rewrite Hr.
  - intros i t -> -> Hr Hs. rewrite Hr. simpl.
    now apply Z.gtb_gt in Hs as ->.
Qed.

(** The contrast: a ready thread suspended once has the request posted
    before the target thread runs. *)
Lemma invoke_posts_request `{VM} (threadList : ThreadList)
    (threadId_ objectId classId methodId numArgs_ : Z)
    (argArray_ : list Z) (options_ : Z) i t :
  threadObjToThread threadList (objectIdToObject threadId_) = Some i ->
  threadList !! i = Some t ->
  ready (invokeReq t) = true ->
  suspendCount t <= 1 ->
  exists posted req,
    posted !! i = Some (setInvokeReq t req)
    /\ invokeNeeded req = true
    /\ snd (dvmDbgInvokeMethod threadList threadId_ objectId classId methodId
              numArgs_ argArray_ options_)
       = runTargetThread posted i.
Proof.
  intros Hi Ht Hr Hs. unfold dvmDbgInvokeMethod. rewrite Hi, Ht, Hr. simpl.
  replace (suspendCount t >? 1) with false
    by (symmetry; rewrite Z.gtb_ltb; apply Z.ltb_ge; lia).
  eexists (<[i := setInvokeReq t _]> threadList), _.
  split; [|split]; cycle 2.
  - case_match; reflexivity.
  - apply list_lookup_insert_eq. now apply lookup_lt_Some in Ht.
  - reflexivity.
Qed.
End DebuggerFacts.

Module ExpatFacts.
Import CString CStringFacts Expat.

(** *** Qualified names *)

Section QualifiedNames.
Local Open Scope string_scope.

(** The attribute of the examples: prefix "html", local name "h1". *)
Definition htmlH1 : ExpatElementName :=
init "http://www.w3.org/1999/xhtml|h1|html".

Lemma htmlH1_parts :
mPrefix htmlH1 = "html" /\ mLocalName htmlH1 = Some "h1"
/\ mUri htmlH1 = "http://www.w3.org/1999/xhtml".
Proof. repeat split. Qed.

(** The statement made of a query without a colon: it matches an attribute
  with local name "h1" only when the attribute has no prefix. *)
Definition colonlessQueryNeedsNoPrefix : Prop :=
forall e, mLocalName e = Some "h1" ->
  matchesQName e "h1" = Some true -> mPrefix e = "".

(** C7, as stated, fails: the query "h1" matches the attribute html:h1,
  whose prefix is not empty. *)
Lemma colonless_query_matches_prefixed_attribute :
~ colonlessQueryNeedsNoPrefix.
Proof.
intros Hall. specialize (Hall htmlH1 eq_refl eq_refl). discriminate Hall.
Qed.

(** C7, amended.  For the attribute with prefix "html" and local name
  "h1": the query "html:h1" matches; the query "h1", which has no colon,
  matches -- as it matches every attribute whose local name is "h1",
  with or without a prefix; the query "xyz:h1" does not match.  The rule
  behind it: when the query has no colon or the attribute has no prefix,
  the query is compared with the local name alone. *)
Theorem qname_matching :
matchesQName htmlH1 "html:h1" = Some true
/\ (forall e, mLocalName e = Some "h1" -> matchesQName e "h1" = Some true)
/\ matchesQName htmlH1 "xyz:h1" = Some false
/\ (forall e q l,
      mLocalName e = Some l ->
      strrchr q ":" = None \/ mPrefix e = "" ->
      matchesQName e q = Some (strcmp q l =? 0)%Z).
Proof.
split; [reflexivity|].
split; [intros e He; unfold matchesQName; simpl; now rewrite He|].
split; [reflexivity|].
intros e q l He [Hq|Hp]; unfold matchesQName; rewrite He.
- now rewrite Hq.
- unfold prefixIsEmpty. rewrite Hp. now destruct (strrchr q ":").
Qed.

End QualifiedNames.

(** *** The name stack *)

(** The fields of a context that a stack operation leaves alone. *)
Definition sameButStack (c c' : ParsingContext) : Prop :=
  exceptionPending c' = exceptionPending c
  /\ calls c' = calls c
  /\ internedStrings c' = internedStrings c
  /\ processNamespaces c' = processNamespaces c.

Lemma push_spec c s :
  stackOk c ->
  stackOk (stringStackPush c s)
  /\ stackContents (stringStackPush c s) = stackContents c ++ [s]
  /\ sameButStack c (stringStackPush c s).
Proof.
  unfold stackOk, stackContents, stringStackPush, sameButStack.
  destruct c as [p a n ns [arr cap sz] b cs]; simpl.
  intros (Hsz & Hcap & Hlen).
  destruct (Z.eqb_spec sz cap) as [->|Hne]; simpl.
  - assert (Hlen' : length (realloc arr (cap * 2)) = Z.to_nat (cap * 2)).
    { unfold realloc. rewrite length_app, length_replicate. lia. }
    rewrite length_insert, Hlen'.
    split; [lia|]. split; [|easy].
    replace (Z.to_nat (cap + 1)) with (S (Z.to_nat cap)) by lia.
    rewrite (take_S_r _ _ s) by (apply list_lookup_insert_eq; lia).
    rewrite take_insert_ge by lia.
    unfold realloc. rewrite take_app_le by lia. reflexivity.
  - rewrite length_insert.
    split; [lia|]. split; [|easy].
    replace (Z.to_nat (sz + 1)) with (S (Z.to_nat sz)) by lia.
    rewrite (take_S_r _ _ s) by (apply list_lookup_insert_eq; lia).
    now rewrite take_insert_ge by lia.
Qed.

Lemma pop_spec c rest s :
  stackOk c ->
  stackContents c = rest ++ [s] ->
  fst (stringStackPop c) = s
  /\ stackOk (snd (stringStackPop c))
  /\ stackContents (snd (stringStackPop c)) = rest
  /\ sameButStack c (snd (stringStackPop c)).
Proof.
  unfold stackOk, stackContents, stringStackPop, sameButStack.
  destruct c as [p a n ns [arr cap sz] b cs]; simpl.
  intros (Hsz & Hcap & Hlen) Hc.
  assert (Hn : Z.to_nat sz = S (length rest)).
  { apply (f_equal length) in Hc.
    rewrite length_take, length_app in Hc. simpl in Hc. lia. }
  destruct (Z.eqb_spec sz 0) as [->|Hne]; [discriminate Hn|]. simpl.
  replace (Z.to_nat (sz - 1)) with (length rest) by lia.
  assert (Hs : arr !! length rest = Some s).
  { rewrite <- (lookup_take_lt arr (Z.to_nat sz)) by lia.
    rewrite Hc, lookup_app_r by lia.
    now replace (length rest - length rest)%nat with 0%nat by lia. }
  rewrite Hs. simpl.
  split; [reflexivity|]. split; [lia|]. split; [|easy].
  apply (f_equal (take (length rest))) in Hc.
  rewrite take_take, take_app_length in Hc.
  now replace (length rest `min` Z.to_nat sz)%nat with (length rest) in Hc by lia.
Qed.

Section Handlers.
Context `{CharType} `{Java}.

Lemma startElement_spec c e attrs u l q b :
  exceptionPending c = false ->
  stackOk c ->
  elementStrings (processNamespaces c) (internedStrings c) (init e)
  = (u, l, q, b) ->
  let ev := StartElementEvent u l q attrs (Z.of_nat (length attrs) / 2) in
  let c' := startElement c e attrs in
  stackOk c'
  /\ stackContents c' = stackContents c ++ [q; u; l]
  /\ calls c' = calls c ++ [ev]
  /\ internedStrings c' = b
  /\ processNamespaces c' = processNamespaces c
  /\ exceptionPending c' = listenerThrows ev.
Proof.
  intros Hp Hok He ev c'. subst c' ev. unfold startElement.
  rewrite Hp. simpl. rewrite He.
  set (c0 := withBuckets (withAttributes c _ _) b).
  assert (Hok0 : stackOk c0) by exact Hok.
  destruct (push_spec c0 q Hok0) as (Hok1 & Hc1 & Hs1).
  destruct (push_spec _ u Hok1) as (Hok2 & Hc2 & Hs2).
  destruct (push_spec _ l Hok2) as (Hok3 & Hc3 & Hs3).
  destruct Hs1 as (_ & Hcalls1 & Hb1 & Hns1).
  destruct Hs2 as (_ & Hcalls2 & Hb2 & Hns2).
  destruct Hs3 as (_ & Hcalls3 & Hb3 & Hns3).
  split; [exact Hok3|].
  split.
  { change (stackContents (stringStackPush (stringStackPush
              (stringStackPush c0 q) u) l) = stackContents c ++ [q; u; l]).
    rewrite Hc3, Hc2, Hc1, <- !app_assoc. reflexivity. }
  split.
  { cbn [withAttributes callListener calls].
    now rewrite Hcalls3, Hcalls2, Hcalls1. }
  split.
  { cbn [withAttributes callListener internedStrings].
    now rewrite Hb3, Hb2, Hb1. }
  split.
  { cbn [withAttributes callListener processNamespaces].
    now rewrite Hns3, Hns2, Hns1. }
  reflexivity.
Qed.

Lemma endElement_spec c e rest u l q :
  exceptionPending c = false ->
  stackOk c ->
  stackContents c = rest ++ [q; u; l] ->
  let ev := EndElementEvent u l q in
  let c' := endElement c e in
  stackOk c'
  /\ stackContents c' = rest
  /\ calls c' = calls c ++ [ev]
  /\ internedStrings c' = internedStrings c
  /\ processNamespaces c' = processNamespaces c
  /\ exceptionPending c' = listenerThrows ev.
Proof.
  intros Hp Hok Hc ev c'. subst c' ev. unfold endElement. rewrite Hp.
  destruct (pop_spec c (rest ++ [q; u]) l Hok) as (Hl & Hok1 & Hc1 & Hs1).
  { rewrite Hc, <- app_assoc. reflexivity. }
  destruct (stringStackPop c) as [l' c1]. simpl in Hl, Hok1, Hc1, Hs1.
  subst l'.
  destruct (pop_spec c1 (rest ++ [q]) u Hok1) as (Hu & Hok2 & Hc2 & Hs2).
  { rewrite Hc1, <- app_assoc. reflexivity. }
  destruct (stringStackPop c1) as [u' c2]. simpl in Hu, Hok2, Hc2, Hs2.
  subst u'.
  destruct (pop_spec c2 rest q Hok2 Hc2) as (Hq & Hok3 & Hc3 & Hs3).
  destruct (stringStackPop c2) as [q' c3]. simpl in Hq, Hok3, Hc3, Hs3.
  subst q'.
  destruct Hs1 as (_ & Hcalls1 & Hb1 & Hns1).
  destruct Hs2 as (_ & Hcalls2 & Hb2 & Hns2).
  destruct Hs3 as (_ & Hcalls3 & Hb3 & Hns3).
  split; [exact Hok3|]. split; [exact Hc3|].
  split.
  { cbn [withAttributes callListener calls].
    now rewrite Hcalls3, Hcalls2, Hcalls1. }
  split.
  { cbn [withAttributes callListener internedStrings].
    now rewrite Hb3, Hb2, Hb1. }
  split.
  { cbn [withAttributes callListener processNamespaces].
    now rewrite Hns3, Hns2, Hns1. }
  reflexivity.
Qed.

Lemma run_app cbs1 cbs2 c : run (cbs1 ++ cbs2) c = run cbs2 (run cbs1 c).
Proof. apply fold_left_app. Qed.

(** Once an exception is pending, every handler returns at once. *)
Lemma run_pending cbs : forall c,
  exceptionPending c = true -> run cbs c = c.
Proof.
  induction cbs as [|cb cbs IH]; intros c Hp; [reflexivity|].
  simpl. replace (handle c cb) with c; [now apply IH|].
  destruct cb; simpl; unfold startElement, endElement; now rewrite Hp.
Qed.

(** The calls a run makes, with respect to the calls expected: all of
    them when no listener call throws, and otherwise those up to and
    including the first call that throws. *)
Definition runsAsExpected (c c' : ParsingContext) (evs : list Event)
    (b' : list (list InternedString)) : Prop :=
  (exceptionPending c' = false
   /\ stackOk c'
   /\ stackContents c' = stackContents c
   /\ calls c' = calls c ++ evs
   /\ internedStrings c' = b'
   /\ processNamespaces c' = processNamespaces c)
  \/ (exceptionPending c' = true
      /\ exists pre ev post,
           evs = pre ++ ev :: post
           /\ calls c' = calls c ++ pre ++ [ev]
           /\ listenerThrows ev = true).

Ltac list_eq_tac :=
  repeat (cbn [app]; rewrite <- ?app_assoc); reflexivity.

Lemma run_nesting n : forall c evs b',
  stackOk c ->
  exceptionPending c = false ->
  expectedCalls (processNamespaces c) n (internedStrings c) = (evs, b') ->
  runsAsExpected c (run (callbacks n) c) evs b'.
Proof.
  induction n as [|e attrs inside IHin after IHafter];
    intros c evs b' Hok Hp Hexp; simpl in Hexp.
  - injection Hexp as <- <-. left. simpl. rewrite app_nil_r. easy.
  - destruct (elementStrings _ _ (init e)) as [[[u l] q] b0] eqn:He.
    destruct (expectedCalls (processNamespaces c) inside b0)
      as [evs1 b1] eqn:E1.
    destruct (expectedCalls (processNamespaces c) after b1)
      as [evs2 b2] eqn:E2.
    injection Hexp as <- <-.
    set (start := StartElementEvent u l q attrs _).
    set (stop := EndElementEvent u l q).
    cbn [callbacks run fold_left handle].
    fold (run (callbacks inside ++ EndCb e :: callbacks after)
            (startElement c e attrs)).
    destruct (startElement_spec c e attrs u l q b0 Hp Hok He)
      as (Hok1 & Hc1 & Hcalls1 & Hb1 & Hns1 & Hp1).
    fold start in Hcalls1, Hp1.
    set (c1 := startElement c e attrs) in *.
    destruct (exceptionPending c1) eqn:Hp1'.
    { right. rewrite run_pending by exact Hp1'. split; [exact Hp1'|].
      exists [], start, (evs1 ++ stop :: evs2).
      rewrite Hcalls1. now split. }
    rewrite run_app.
    rewrite <- Hns1, <- Hb1 in E1.
    destruct (IHin c1 evs1 b1 Hok1 Hp1' E1)
      as [(Hp2 & Hok2 & Hc2 & Hcalls2 & Hb2 & Hns2)
         |(Hp2 & pre & ev & post & Hevs & Hcalls2 & Hthrow)].
    2:{ right. rewrite run_pending by exact Hp2. split; [exact Hp2|].
        exists (start :: pre), ev, (post ++ stop :: evs2). split; [|split].
        - rewrite Hevs. list_eq_tac.
        - rewrite Hcalls2, Hcalls1. list_eq_tac.
        - exact Hthrow. }
    set (c2 := run (callbacks inside) c1) in *.
    cbn [run fold_left handle].
    fold (run (callbacks after) (endElement c2 e)).
    rewrite Hc1 in Hc2.
    destruct (endElement_spec c2 e (stackContents c) u l q Hp2 Hok2 Hc2)
      as (Hok3 & Hc3 & Hcalls3 & Hb3 & Hns3 & Hp3).
    fold stop in Hcalls3, Hp3.
    set (c3 := endElement c2 e) in *.
    destruct (exceptionPending c3) eqn:Hp3'.
    { right. rewrite run_pending by exact Hp3'. split; [exact Hp3'|].
      exists (start :: evs1), stop, evs2. split; [|split].
      - reflexivity.
      - rewrite Hcalls3, Hcalls2, Hcalls1. list_eq_tac.
      - now rewrite <- Hp3. }
    rewrite <- Hns1, <- Hns2, <- Hns3, <- Hb2, <- Hb3 in E2.
    destruct (IHafter c3 evs2 b2 Hok3 Hp3' E2)
      as [(Hp4 & Hok4 & Hc4 & Hcalls4 & Hb4 & Hns4)
         |(Hp4 & pre & ev & post & Hevs & Hcalls4 & Hthrow)].
    + left. split; [exact Hp4|]. split; [exact Hok4|].
      split; [now rewrite Hc4|].
      split.
      { rewrite Hcalls4, Hcalls3, Hcalls2, Hcalls1. list_eq_tac. }
      split; [exact Hb4|].
      now rewrite Hns4, Hns3, Hns2.
    + right. split; [exact Hp4|].
      exists (start :: evs1 ++ stop :: pre), ev, post. split; [|split].
      * rewrite Hevs. list_eq_tac.
      * rewrite Hcalls4, Hcalls3, Hcalls2, Hcalls1. list_eq_tac.
      * exact Hthrow.
Qed.

(** C8.  On a parser context with a well-formed name stack: the
    start-element handler pushes the qualified name, then the URI, then
    the local name; the end-element handler pops the local name, then the
    URI, then the qualified name, and hands exactly these to the listener.
    So for every well-formed nested sequence of start-element and
    end-element callbacks, the listener calls made are those expected --
    each end-element call carrying the three strings of its matching
    start-element call -- up to the first call, if any, that leaves an
    exception pending; when no call does, all of them are made and the
    stack is back where it started. *)
Theorem element_events_nested (n : Nesting) (c : ParsingContext) :
  stackOk c ->
  let expected :=
    fst (expectedCalls (processNamespaces c) n (internedStrings c)) in
  let c' := run (callbacks n) c in
  (forall e attrs u l q b,
     exceptionPending c = false ->
     elementStrings (processNamespaces c) (internedStrings c) (init e)
     = (u, l, q, b) ->
     stackContents (startElement c e attrs) = stackContents c ++ [q; u; l]
     /\ calls (startElement c e attrs)
        = calls c ++ [StartElementEvent u l q attrs
                        (Z.of_nat (length attrs) / 2)])
  /\ (forall e rest u l q,
        exceptionPending c = false ->
        stackContents c = rest ++ [q; u; l] ->
        stackContents (endElement c e) = rest
        /\ calls (endElement c e) = calls c ++ [EndElementEvent u l q])
  /\ (exists rest, calls c' ++ rest = calls c ++ expected)
  /\ (exceptionPending c = false ->
      (forall ev, listenerThrows ev = false) ->
      calls c' = calls c ++ expected
      /\ stackContents c' = stackContents c
      /\ exceptionPending c' = false).
Proof.
  intros Hok expected c'.
  split.
  { intros e attrs u l q b Hp He.
    destruct (startElement_spec c e attrs u l q b Hp Hok He)
      as (_ & Hc & Hcalls & _). now split. }
  split.
  { intros e rest u l q Hp Hc.
    destruct (endElement_spec c e rest u l q Hp Hok Hc)
      as (_ & Hc' & Hcalls & _). now split. }
  destruct (expectedCalls (processNamespaces c) n (internedStrings c))
    as [evs b'] eqn:Hexp.
  subst expected c'. cbn [fst].
  destruct (exceptionPending c) eqn:Hp.
  { rewrite run_pending by exact Hp. split; [now exists evs|]. discriminate. }
  destruct (run_nesting n c evs b' Hok Hp Hexp)
    as [(Hp' & Hok' & Hc' & Hcalls' & _)
       |(Hp' & pre & ev & post & Hevs & Hcalls' & Hthrow)].
  - split; [exists []; now rewrite app_nil_r|]. easy.
  - split.
    + exists post. rewrite Hcalls', Hevs. list_eq_tac.
    + intros _ Hquiet. rewrite Hquiet in Hthrow. discriminate.
Qed.
End Handlers.
End ExpatFacts.

Module DexFacts.
Import Dex.

(** *** The monad *)

Lemma bind_Ok {A B} (c : M A) (k : A -> M B) w b w' :
  bind c k w = Ok b w' ->
  exists a w1, c w = Ok a w1 /\ k a w1 = Ok b w'.
Proof.
  unfold bind. destruct (c w) as [a w1| |]; [|discriminate..].
  intros E. now exists a, w1.
Qed.

Lemma bind_Ok_l {A B} (c : M A) (k : A -> M B) w a w1 :
  c w = Ok a w1 -> bind c k w = k a w1.
Proof. unfold bind. now intros ->. Qed.

Lemma bind_Reject_l {A B} (c : M A) (k : A -> M B) w d w1 :
  c w = Reject d w1 -> bind c k w = Reject d w1.
Proof. unfold bind. now intros ->. Qed.

Lemma failIf_Ok cond d w u w' :
  failIf cond d w = Ok u w' -> cond = false /\ w' = w.
Proof. unfold failIf. destruct cond; [discriminate|]. now injection 1 as _ <-. Qed.

Lemma failIf_false d w : failIf false d w = Ok tt w.
Proof. reflexivity. Qed.

Lemma failIf_true d w : failIf true d w = Reject d w.
Proof. reflexivity. Qed.

(** *** Bytes *)

Lemma getBytes_Some m off n bs :
  getBytes m off n = Some bs <->
  0 <= off /\ 0 <= n /\ off + n <= Z.of_nat (length m)
  /\ bs = take (Z.to_nat n) (drop (Z.to_nat off) m).
Proof.
  unfold getBytes.
  destruct (Z.leb_spec 0 off), (Z.leb_spec 0 n),
    (Z.leb_spec (off + n) (Z.of_nat (length m)));
    simpl; split; try (intros [= <-]); try easy; try lia.
  now intros (_ & _ & _ & ->).
Qed.

Lemma getBytes_None m off n :
  getBytes m off n = None <->
  off < 0 \/ n < 0 \/ Z.of_nat (length m) < off + n.
Proof.
  unfold getBytes.
  destruct (Z.leb_spec 0 off), (Z.leb_spec 0 n),
    (Z.leb_spec (off + n) (Z.of_nat (length m)));
    simpl; split; try discriminate; try easy; try lia.
Qed.

Lemma getBytes_length m off n bs :
  getBytes m off n = Some bs -> length bs = Z.to_nat n.
Proof.
  intros (H0 & Hn & H1 & ->)%getBytes_Some.
  rewrite length_take, length_drop. lia.
Qed.

Lemma getBytes_length4 m off bs :
  getBytes m off 4 = Some bs -> length bs = 4%nat.
Proof. apply getBytes_length. Qed.

Lemma getBytes_length2 m off bs :
  getBytes m off 2 = Some bs -> length bs = 2%nat.
Proof. apply getBytes_length. Qed.

Lemma getBytes_is_Some m off n :
  0 <= off -> 0 <= n -> off + n <= Z.of_nat (length m) ->
  exists bs, getBytes m off n = Some bs.
Proof. intros. eexists. apply getBytes_Some. eauto. Qed.

Lemma lookup_getBytes m off n bs i :
  getBytes m off n = Some bs ->
  (i < Z.to_nat n)%nat -> bs !! i = m !! (Z.to_nat off + i)%nat.
Proof.
  intros (H0 & Hn & H1 & ->)%getBytes_Some Hi.
  now rewrite lookup_take_lt, lookup_drop by lia.
Qed.

Lemma lookup_putBytes m off bs i :
  0 <= off -> off + Z.of_nat (length bs) <= Z.of_nat (length m) ->
  putBytes m off bs !! i =
  if (Z.to_nat off <=? i)%nat && (i <? Z.to_nat off + length bs)%nat
  then bs !! (i - Z.to_nat off)%nat else m !! i.
Proof.
  intros H0 H1. unfold putBytes.
  destruct (Nat.leb_spec (Z.to_nat off) i); simpl.
  - rewrite lookup_app_r by (rewrite length_take; lia).
    rewrite length_take.
    replace (i - Z.to_nat off `min` length m)%nat with (i - Z.to_nat off)%nat by lia.
    destruct (Nat.ltb_spec i (Z.to_nat off + length bs)).
    + now rewrite lookup_app_l by lia.
    + rewrite lookup_app_r by lia. rewrite lookup_drop. f_equal. lia.
  - rewrite lookup_app_l by (rewrite length_take; lia).
    now rewrite lookup_take_lt by lia.
Qed.

Lemma length_putBytes m off bs :
  0 <= off -> off + Z.of_nat (length bs) <= Z.of_nat (length m) ->
  length (putBytes m off bs) = length m.
Proof.
  intros H0 H1. unfold putBytes.
  rewrite !length_app, length_take, length_drop. lia.
Qed.

Lemma getBytes_putBytes_same m off bs :
  0 <= off -> off + Z.of_nat (length bs) <= Z.of_nat (length m) ->
  getBytes (putBytes m off bs) off (Z.of_nat (length bs)) = Some bs.
Proof.
  intros H0 H1. apply getBytes_Some.
  rewrite length_putBytes by lia. split; [lia|]. split; [lia|]. split; [lia|].
  rewrite Nat2Z.id.
  apply list_eq. intros i.
  destruct (Nat.ltb_spec i (length bs)).
  - rewrite lookup_take_lt, lookup_drop, lookup_putBytes by lia.
    destruct (Nat.leb_spec (Z.to_nat off) (Z.to_nat off + i)); [|lia].
    destruct (Nat.ltb_spec (Z.to_nat off + i) (Z.to_nat off + length bs)); [|lia].
    simpl. f_equal. lia.
  - rewrite lookup_take_ge by lia. now apply lookup_ge_None_2.
Qed.

Lemma getBytes_putBytes_other m off bs off' n :
  0 <= off -> off + Z.of_nat (length bs) <= Z.of_nat (length m) ->
  off' + n <= off \/ off + Z.of_nat (length bs) <= off' ->
  getBytes (putBytes m off bs) off' n = getBytes m off' n.
Proof.
  intros H0 H1 Hdis. unfold getBytes.
  rewrite length_putBytes by lia.
  destruct ((0 <=? off') && (0 <=? n) && (off' + n <=? Z.of_nat (length m)))
    eqn:E; [|reflexivity].
  apply andb_prop in E as [E E1]. apply andb_prop in E as [E0 En].
  apply Z.leb_le in E0, E1, En.
  f_equal. apply list_eq. intros i.
  destruct (Nat.ltb_spec i (Z.to_nat n)).
  - rewrite !lookup_take_lt, !lookup_drop, lookup_putBytes by lia.
    destruct (Nat.leb_spec (Z.to_nat off) (Z.to_nat off' + i)),
      (Nat.ltb_spec (Z.to_nat off' + i) (Z.to_nat off + length bs));
      simpl; try reflexivity; lia.
  - now rewrite !lookup_take_ge by lia.
Qed.

(** *** Byte order *)

Lemma byte_testbit_high (b : byte) i :
  8 <= i -> Z.testbit (byte.unsigned b) i = false.
Proof.
  intros Hi. pose proof (byte.unsigned_range b) as Hr.
  destruct (Z.eq_dec (byte.unsigned b) 0) as [->|Hne].
  { apply Z.testbit_0_l. }
  apply Z.bits_above_log2; [lia|].
  assert (Z.log2 (byte.unsigned b) < 8); [|lia].
  apply Z.log2_lt_pow2; lia.
Qed.

Ltac bit_cases :=
  repeat match goal with
  | |- context [?x <? ?y] => destruct (Z.ltb_spec x y); try lia
  | |- context [?x <=? ?y] => destruct (Z.leb_spec x y); try lia
  end.

Ltac kill_bits :=
  repeat match goal with
  | |- context [Z.testbit (byte.unsigned ?b) ?k] =>
      first [ rewrite (byte_testbit_high b k) by lia
            | rewrite (Z.testbit_neg_r (byte.unsigned b) k) by lia ]
  end.

Ltac byte_bits :=
  apply Z.bits_inj'; intros i Hi;
  assert (i < 8 \/ 8 <= i < 16 \/ 16 <= i < 24 \/ 24 <= i < 32 \/ 32 <= i)
    as [?|[?|[?|[?|?]]]] by lia;
  repeat first
    [ rewrite Z.lor_spec | rewrite Z.land_spec | rewrite Z.shiftl_spec'
    | rewrite Z.shiftr_spec by lia | rewrite Z.testbit_mod_pow2 by lia
    | rewrite Z.testbit_ones by lia ];
  bit_cases; kill_bits;
  cbn [negb andb orb];
  rewrite ?andb_false_r, ?orb_false_r, ?andb_true_r, ?orb_false_l;
  cbn [negb andb orb];
  try reflexivity; try (f_equal; lia).

(** Swapping the value a big-endian host reads gives the value of the
    file format. *)
Lemma endianSwapU4_correct (a b c d : byte) :
  endianSwapU4 (le_combine (rev [a; b; c; d])) = le_combine [a; b; c; d].
Proof.
  cbn [rev app]. cbv [le_combine]. unfold endianSwapU4, u4.
  rewrite !Z.shiftl_0_l, !Z.lor_0_r.
  change 4278255360 with (Z.lor (Z.shiftl (Z.ones 8) 24) (Z.shiftl (Z.ones 8) 8)).
  byte_bits.
Qed.

Lemma endianSwapU2_correct (a b : byte) :
  endianSwapU2 (le_combine (rev [a; b])) = le_combine [a; b].
Proof.
  cbn [rev app]. cbv [le_combine]. unfold endianSwapU2, u2.
  rewrite !Z.shiftl_0_l, !Z.lor_0_r.
  byte_bits.
Qed.

Section Swaps.
Context `{Host}.

(** What [SWAP_FIELD] does to the bytes of a field. *)
Definition swapped (bs : list byte) : list byte :=
  if bigEndian then rev bs else bs.

Lemma SWAP4_hostValue bs :
  length bs = 4%nat -> SWAP4 (hostValue bs) = le_combine bs.
Proof.
  intros Hl. unfold SWAP4, hostValue. destruct bigEndian; [|reflexivity].
  destruct bs as [|a [|b [|c [|d [|]]]]]; try discriminate.
  apply endianSwapU4_correct.
Qed.

Lemma SWAP2_hostValue bs :
  length bs = 2%nat -> SWAP2 (hostValue bs) = le_combine bs.
Proof.
  intros Hl. unfold SWAP2, hostValue. destruct bigEndian; [|reflexivity].
  destruct bs as [|a [|b [|]]]; try discriminate.
  apply endianSwapU2_correct.
Qed.

Lemma hostBytes_le_combine bs :
  hostBytes (length bs) (le_combine bs) = swapped bs.
Proof.
  unfold hostBytes, swapped. now rewrite split_le_combine.
Qed.

Lemma hostValue_swapped bs : hostValue (swapped bs) = le_combine bs.
Proof.
  unfold hostValue, swapped. destruct bigEndian; [|reflexivity].
  now rewrite rev_involutive.
Qed.

Lemma length_swapped bs : length (swapped bs) = length bs.
Proof. unfold swapped. destruct bigEndian; [apply length_rev|reflexivity]. Qed.

(** The world after a field of [n] bytes at [off] was swapped in place. *)
Definition swapAt (w : World) (off : Z) (bs : list byte) : World :=
  {| image := putBytes (image w) off (swapped bs);
     state := state w; visited := visited w |}.

Lemma SWAP_FIELD4_spec off w :
  match getBytes (image w) off 4 with
  | Some bs => SWAP_FIELD4 off w = Ok tt (swapAt w off bs)
  | None => SWAP_FIELD4 off w = Undefined
  end.
Proof.
  unfold SWAP_FIELD4, load4, store4, readBytes, writeBytes, bind, ret.
  destruct (getBytes (image w) off 4) as [bs|] eqn:E; [|reflexivity].
  pose proof (getBytes_length _ _ _ _ E) as Hl.
  change (Z.to_nat 4) with 4%nat in Hl.
  rewrite SWAP4_hostValue by exact Hl.
  replace (hostBytes 4 (le_combine bs)) with (swapped bs)
    by (rewrite <- Hl; symmetry; apply hostBytes_le_combine).
  rewrite length_swapped, Hl. change (Z.of_nat 4) with 4. rewrite E.
  reflexivity.
Qed.

Lemma SWAP_FIELD2_spec off w :
  match getBytes (image w) off 2 with
  | Some bs => SWAP_FIELD2 off w = Ok tt (swapAt w off bs)
  | None => SWAP_FIELD2 off w = Undefined
  end.
Proof.
  unfold SWAP_FIELD2, load2, store2, readBytes, writeBytes, bind, ret.
  destruct (getBytes (image w) off 2) as [bs|] eqn:E; [|reflexivity].
  pose proof (getBytes_length _ _ _ _ E) as Hl.
  change (Z.to_nat 2) with 2%nat in Hl.
  rewrite SWAP2_hostValue by exact Hl.
  replace (hostBytes 2 (le_combine bs)) with (swapped bs)
    by (rewrite <- Hl; symmetry; apply hostBytes_le_combine).
  rewrite length_swapped, Hl. change (Z.of_nat 2) with 2. rewrite E.
  reflexivity.
Qed.
End Swaps.


(** *** Reading fields *)

Lemma memcmp_eq_iff a : forall b, memcmp_eq a b = true <-> a = b.
Proof.
  induction a as [|x a IH]; intros [|y b]; simpl; try easy.
  rewrite andb_true_iff, IH. split.
  - intros [Hxy ->]. f_equal. now apply Byte.byte_dec_bl.
  - intros [= -> ->]. split; [|reflexivity]. now apply Byte.byte_dec_lb.
Qed.

Lemma memcmp_eq_false a b : a <> b -> memcmp_eq a b = false.
Proof.
  intros Hne. destruct (memcmp_eq a b) eqn:E; [|reflexivity].
  now apply memcmp_eq_iff in E.
Qed.

Lemma readBytes_spec off n w :
  readBytes off n w =
  match getBytes (image w) off n with
  | Some bs => Ok bs w
  | None => Undefined
  end.
Proof. reflexivity. Qed.

Section Loads.
Context `{Host}.

Lemma load4_spec off w :
  load4 off w =
  match getBytes (image w) off 4 with
  | Some bs => Ok (hostValue bs) w
  | None => Undefined
  end.
Proof. unfold load4, bind, readBytes. now destruct (getBytes _ _ _). Qed.

Lemma load2_spec off w :
  load2 off w =
  match getBytes (image w) off 2 with
  | Some bs => Ok (hostValue bs) w
  | None => Undefined
  end.
Proof. unfold load2, bind, readBytes. now destruct (getBytes _ _ _). Qed.

Lemma load1_spec off w :
  load1 off w =
  match getBytes (image w) off 1 with
  | Some bs => Ok (le_combine bs) w
  | None => Undefined
  end.
Proof. unfold load1, bind, readBytes. now destruct (getBytes _ _ _). Qed.
End Loads.

(** *** The header checks of [dexFixByteOrdering] *)

Section HeaderChecks.
Context `{Host} `{DexFormat} `{Environment}.

(** The world in which [dexFixByteOrdering] starts. *)
Definition startWorld (addr : list byte) : World :=
  {| image := addr; state := initialState; visited := [] |}.

Lemma checkMagic_spec w magic vers :
  getBytes (image w) 0 4 = Some magic ->
  getBytes (image w) 4 4 = Some vers ->
  checkMagic 0 w =
  if negb (memcmp_eq magic (take 4 DEX_MAGIC)) then Reject BadMagic w
  else if negb (memcmp_eq vers (take 4 DEX_MAGIC_VERS)) then Reject BadVersion w
  else Ok tt w.
Proof.
  intros Hm Hv. unfold checkMagic, bind. rewrite !readBytes_spec, Hm.
  destruct (memcmp_eq magic _); simpl; [|reflexivity].
  rewrite Z.add_0_l, readBytes_spec, Hv. now destruct (memcmp_eq vers _).
Qed.

Lemma checkLength_spec w len fs :
  fileValue (image w) off_fileSize 4 = Some fs ->
  checkLength 0 len w =
  if len <? toInt fs then Reject BadLength w else Ok tt w.
Proof.
  unfold fileValue, checkLength, bind. rewrite load4_spec, Z.add_0_l.
  destruct (getBytes (image w) off_fileSize 4) as [bs|] eqn:E; [|discriminate].
  intros [= <-].
  rewrite SWAP4_hostValue by (now apply getBytes_length4 in E).
  now destruct (len <? _).
Qed.

Lemma checkChecksum_spec w fs cs :
  fileValue (image w) off_fileSize 4 = Some fs ->
  fileValue (image w) off_checksum 4 = Some cs ->
  checkChecksum 0 w =
  match getBytes (image w) 12 (u4 (fs - 12)) with
  | Some body =>
      if negb (adler32 1 (Some body) =? cs) then Reject BadChecksum w
      else Ok tt w
  | None => Undefined
  end.
Proof.
  unfold fileValue, checkChecksum, bind. rewrite !load4_spec, !Z.add_0_l.
  destruct (getBytes (image w) off_fileSize 4) as [bs|] eqn:E; [|discriminate].
  intros [= <-].
  rewrite load4_spec.
  destruct (getBytes (image w) off_checksum 4) as [cb|] eqn:Ec; [|discriminate].
  intros [= <-].
  rewrite !SWAP4_hostValue by (eapply getBytes_length4; eassumption).
  rewrite readBytes_spec. change (8 + 4) with 12.
  destruct (getBytes (image w) 12 _); [|reflexivity].
  cbn [adler32]. now destruct (negb _).
Qed.

(** The three checks that precede any swapping, in their order, for a
    declared file size that makes sense as an [int].  Each rejection
    leaves the buffer as it was. *)
Lemma header_checks_in_order addr len magic vers fs cs :
  getBytes addr 0 4 = Some magic ->
  getBytes addr 4 4 = Some vers ->
  fileValue addr off_fileSize 4 = Some fs ->
  fileValue addr off_checksum 4 = Some cs ->
  (magic <> take 4 DEX_MAGIC \/ vers <> take 4 DEX_MAGIC_VERS ->
     exists d, (d = BadMagic \/ d = BadVersion)
               /\ dexFixByteOrdering addr len = Reject d (startWorld addr))
  /\ (magic = take 4 DEX_MAGIC -> vers = take 4 DEX_MAGIC_VERS ->
      (len < toInt fs ->
         dexFixByteOrdering addr len = Reject BadLength (startWorld addr))
      /\ (toInt fs <= len ->
          forall body,
            getBytes addr 12 (u4 (fs - 12)) = Some body ->
            adler32 1 (Some body) <> cs ->
            dexFixByteOrdering addr len
            = Reject BadChecksum (startWorld addr))).
Proof.
  intros Hm Hv Hfs Hcs.
  unfold dexFixByteOrdering, onExit, verifyHeader.
  fold (startWorld addr). set (w := startWorld addr).
  assert (Hfree : freeDataMap w = w) by reflexivity.
  split.
  - intros Hne.
    rewrite (bind_Reject_l _ _ w
               (if memcmp_eq magic (take 4 DEX_MAGIC) then BadVersion
                else BadMagic) w).
    + eexists. split; [|rewrite Hfree; reflexivity].
      destruct (memcmp_eq magic _); auto.
    + apply bind_Reject_l. rewrite (checkMagic_spec w magic vers Hm Hv).
      destruct (memcmp_eq magic (take 4 DEX_MAGIC)) eqn:E1; simpl; [|reflexivity].
      apply memcmp_eq_iff in E1. destruct Hne as [Hne|Hne]; [easy|].
      now rewrite memcmp_eq_false.
  - intros -> ->.
    assert (Hmagic : checkMagic 0 w = Ok tt w).
    { rewrite (checkMagic_spec w _ _ Hm Hv).
      now rewrite !(proj2 (memcmp_eq_iff _ _) eq_refl). }
    split.
    + intros Hlen.
      rewrite (bind_Reject_l _ _ w BadLength w); [now rewrite Hfree|].
      rewrite (bind_Ok_l _ _ _ _ _ Hmagic).
      apply bind_Reject_l. rewrite (checkLength_spec w len fs Hfs).
      now apply Z.ltb_lt in Hlen as ->.
    + intros Hlen body Hbody Hsum.
      rewrite (bind_Reject_l _ _ w BadChecksum w); [now rewrite Hfree|].
      rewrite (bind_Ok_l _ _ _ _ _ Hmagic).
      assert (Hl : checkLength 0 len w = Ok tt w).
      { rewrite (checkLength_spec w len fs Hfs).
        now apply Z.ltb_ge in Hlen as ->. }
      rewrite (bind_Ok_l _ _ _ _ _ Hl).
      apply bind_Reject_l. rewrite (checkChecksum_spec w fs cs Hfs Hcs).
      change (image w) with addr. rewrite Hbody.
      now apply Z.eqb_neq in Hsum as ->.
Qed.
End HeaderChecks.


(** *** Calls that succeed *)

Lemma getState_Ok w st w' : getState w = Ok st w' -> st = state w /\ w' = w.
Proof. now intros [= <- <-]. Qed.

Lemma ret_Ok {A} (a b : A) w w' : ret a w = Ok b w' -> b = a /\ w' = w.
Proof. now intros [= <- <-]. Qed.

Lemma readBytes_Ok off n w bs w' :
  readBytes off n w = Ok bs w' ->
  w' = w /\ getBytes (image w) off n = Some bs.
Proof.
  rewrite readBytes_spec. destruct (getBytes _ _ _); [|discriminate].
  now intros [= <- <-].
Qed.

Lemma load1_Ok off w v w' :
  load1 off w = Ok v w' ->
  w' = w /\ exists b, getBytes (image w) off 1 = Some [b] /\ v = byte.unsigned b.
Proof.
  rewrite load1_spec.
  destruct (getBytes (image w) off 1) as [bs|] eqn:E; [|discriminate].
  intros [= <- <-]. split; [reflexivity|].
  pose proof (getBytes_length _ _ _ _ E) as Hl.
  destruct bs as [|b [|]]; try discriminate.
  exists b. split; [reflexivity|]. apply le_combine_1.
Qed.

Lemma load1_range off w v w' : load1 off w = Ok v w' -> 0 <= v < 256.
Proof.
  intros (_ & b & _ & ->)%load1_Ok. apply byte.unsigned_range.
Qed.

Lemma byte_unsigned_0 b : byte.unsigned b = 0 -> b = Byte.x00.
Proof. intros E. apply byte.unsigned_inj. now rewrite E. Qed.

Section Loads2.
Context `{Host}.

Lemma load4_Ok off w v w' :
  load4 off w = Ok v w' ->
  w' = w /\ exists bs, getBytes (image w) off 4 = Some bs /\ v = hostValue bs.
Proof.
  rewrite load4_spec.
  destruct (getBytes (image w) off 4) as [bs|] eqn:E; [|discriminate].
  intros [= <- <-]. eauto.
Qed.

Lemma load2_Ok off w v w' :
  load2 off w = Ok v w' ->
  w' = w /\ exists bs, getBytes (image w) off 2 = Some bs /\ v = hostValue bs.
Proof.
  rewrite load2_spec.
  destruct (getBytes (image w) off 2) as [bs|] eqn:E; [|discriminate].
  intros [= <- <-]. eauto.
Qed.
End Loads2.

(** *** LEB128 and string data *)

Lemma readLeb128_Ok n : forall ptr shift result used w r w',
  readLeb128 n ptr shift result used w = Ok r w' ->
  w' = w /\ ptr < snd (fst r) <= ptr + Z.of_nat n + 1.
Proof.
  induction n as [|n IH]; intros ptr shift result used w [[v next] u] w' E;
    simpl in E; apply bind_Ok in E as (cur & w1 & Hcur & E);
    apply load1_Ok in Hcur as (-> & _).
  - apply ret_Ok in E as ([= -> -> ->] & ->).
    split; [reflexivity|simpl; lia].
  - destruct (cur >? 127).
    + apply IH in E as (-> & Hr). split; [reflexivity|]. simpl in *. lia.
    + apply ret_Ok in E as ([= -> -> ->] & ->).
      split; [reflexivity|simpl; lia].
Qed.

Lemma lebOkay_Ok ptr next limit used w b w' :
  lebOkay ptr next limit used w = Ok b w' -> w' = w.
Proof.
  unfold lebOkay. destruct (used =? 5).
  - intros (last & w1 & (-> & _)%load1_Ok & E)%bind_Ok.
    now apply ret_Ok in E.
  - now intros (_ & ->)%ret_Ok.
Qed.

Lemma readAndVerifyUnsignedLeb128_Ok ptr limit w v next okay w' :
  readAndVerifyUnsignedLeb128 ptr limit w = Ok (v, next, okay) w' ->
  w' = w /\ ptr < next <= ptr + 5 /\ 0 <= v < 2 ^ 32.
Proof.
  unfold readAndVerifyUnsignedLeb128.
  intros ([[r nx] u] & w1 & Hr & E)%bind_Ok.
  apply readLeb128_Ok in Hr as (-> & Hr). simpl in Hr.
  apply bind_Ok in E as (ok & w2 & ->%lebOkay_Ok & E).
  apply ret_Ok in E as ([= -> -> ->] & ->).
  split; [reflexivity|]. split; [lia|]. unfold u4. apply Z.mod_pos_bound. lia.
Qed.

(** The units of a string as the verifier walks them: each starts inside
    the file with a byte that is not 0 and is one to three bytes long. *)
Fixpoint unitsOk (w : World) (data : Z) (units : list Z) : Prop :=
  match units with
  | [] => True
  | n :: rest =>
      data < fileLen (state w)
      /\ 1 <= n <= 3
      /\ (exists b, getBytes (image w) data 1 = Some [b] /\ b <> Byte.x00)
      /\ unitsOk w (data + n) rest
  end.

Lemma stringUnit_Ok utf16Size data w d w' :
  stringUnit utf16Size data w = Ok d w' ->
  w' = w /\ unitsOk w data [d - data].
Proof.
  unfold stringUnit.
  intros (st & w1 & (-> & ->)%getState_Ok & E)%bind_Ok.
  apply bind_Ok in E as ([] & w1 & (Hlt & ->)%failIf_Ok & E).
  rewrite Z.geb_leb in Hlt. apply Z.leb_gt in Hlt.
  apply bind_Ok in E as (byte1 & w1 & Hb & E).
  pose proof (load1_range _ _ _ _ Hb) as Hr.
  apply load1_Ok in Hb as (-> & b & Hb & ->).
  assert (Hh : 0 <= Z.shiftr (byte.unsigned b) 4 < 16).
  { rewrite Z.shiftr_div_pow2 by lia. change (2 ^ 4) with 16.
    split; [apply Z.div_pos; lia|apply Z.div_lt_upper_bound; lia]. }
  assert (Hnz : Z.shiftr (byte.unsigned b) 4 <> 0 -> b <> Byte.x00).
  { intros Hne ->. now apply Hne. }
  cut (w' = w /\ 1 <= d - data <= 3
       /\ (Z.shiftr (byte.unsigned b) 4 = 0 -> byte.unsigned b <> 0)).
  { intros (-> & Hd & Hz). split; [reflexivity|]. simpl.
    replace (data + (d - data)) with d by lia.
    repeat split; try lia. exists b. split; [exact Hb|].
    destruct (Z.eq_dec (Z.shiftr (byte.unsigned b) 4) 0) as [E0|E0].
    - intros ->. now apply (Hz E0).
    - now apply Hnz. }
  remember (Z.shiftr (byte.unsigned b) 4) as h eqn:Eh.
  assert (Hcases : h = 0 \/ h = 1 \/ h = 2 \/ h = 3 \/ h = 4 \/ h = 5 \/ h = 6
                   \/ h = 7 \/ h = 8 \/ h = 9 \/ h = 10 \/ h = 11 \/ h = 12
                   \/ h = 13 \/ h = 14 \/ h = 15) by lia.
  clear Hh Hnz Eh.
  repeat (destruct Hcases as [->|Hcases]); try subst h; simpl in E;
    try discriminate E;
    try (apply ret_Ok in E as (-> & ->); repeat split; lia).
  - (* 0xxx, possibly the zero byte *)
    apply bind_Ok in E as ([] & w1 & (Hz & ->)%failIf_Ok & E).
    apply ret_Ok in E as (-> & ->).
    repeat split; lia.
  - (* 110x: one more byte *)
    apply bind_Ok in E as (b2 & w1 & (-> & _)%load1_Ok & E).
    apply bind_Ok in E as ([] & w1 & (_ & ->)%failIf_Ok & E).
    apply bind_Ok in E as ([] & w1 & (_ & ->)%failIf_Ok & E).
    apply ret_Ok in E as (-> & ->). repeat split; lia.
  - apply bind_Ok in E as (b2 & w1 & (-> & _)%load1_Ok & E).
    apply bind_Ok in E as ([] & w1 & (_ & ->)%failIf_Ok & E).
    apply bind_Ok in E as ([] & w1 & (_ & ->)%failIf_Ok & E).
    apply ret_Ok in E as (-> & ->). repeat split; lia.
  - (* 1110: two more bytes *)
    apply bind_Ok in E as (b2 & w1 & (-> & _)%load1_Ok & E).
    apply bind_Ok in E as ([] & w1 & (_ & ->)%failIf_Ok & E).
    apply bind_Ok in E as (b3 & w1 & (-> & _)%load1_Ok & E).
    apply bind_Ok in E as ([] & w1 & (_ & ->)%failIf_Ok & E).
    apply bind_Ok in E as ([] & w1 & (_ & ->)%failIf_Ok & E).
    apply ret_Ok in E as (-> & ->). repeat split; lia.
Qed.

Lemma unitsOk_app w : forall units1 data units2,
  unitsOk w data units1 ->
  unitsOk w (data + fold_right Z.add 0 units1) units2 ->
  unitsOk w data (units1 ++ units2).
Proof.
  induction units1 as [|n units1 IH]; intros data units2 H1 H2; simpl in *.
  - now rewrite Z.add_0_r in H2.
  - destruct H1 as (Hlt & Hn & Hb & H1). repeat split; try easy.
    apply IH; [exact H1|]. now rewrite <- Z.add_assoc.
Qed.

Lemma stringUnits_Ok n : forall utf16Size data w d w',
  stringUnits n utf16Size data w = Ok d w' ->
  w' = w
  /\ exists units, length units = n /\ unitsOk w data units
                   /\ d = data + fold_right Z.add 0 units.
Proof.
  induction n as [|n IH]; intros utf16Size data w d w' E; simpl in E.
  - apply ret_Ok in E as (-> & ->). split; [reflexivity|].
    exists []. simpl. repeat split. lia.
  - apply bind_Ok in E as (d1 & w1 & (-> & Hu)%stringUnit_Ok & E).
    apply IH in E as (-> & units & Hl & Hus & ->).
    split; [reflexivity|]. exists ((d1 - data) :: units).
    split; [simpl; now rewrite Hl|]. split.
    + apply (unitsOk_app w [d1 - data]); [exact Hu|]. simpl.
      now replace (data + (d1 - data + 0)) with d1 by lia.
    + simpl. lia.
Qed.

Lemma intraVerifyStringDataItem_Ok ptr w p w' :
  intraVerifyStringDataItem ptr w = Ok p w' ->
  exists utf16Size data units,
    readAndVerifyUnsignedLeb128 ptr (fileLen (state w)) w
    = Ok (utf16Size, data, true) w
    /\ Z.of_nat (length units) = utf16Size
    /\ unitsOk w data units
    /\ p = data + fold_right Z.add 0 units + 1
    /\ getBytes (image w) (p - 1) 1 = Some [Byte.x00]
    /\ w' = w.
Proof.
  unfold intraVerifyStringDataItem.
  intros (st & w1 & (-> & ->)%getState_Ok & E)%bind_Ok.
  apply bind_Ok in E as ([[utf16Size data] okay] & w1 & Hleb & E).
  pose proof (readAndVerifyUnsignedLeb128_Ok _ _ _ _ _ _ _ Hleb)
    as (-> & _ & Hsize).
  apply bind_Ok in E as ([] & w1 & (Hok & ->)%failIf_Ok & E).
  apply negb_false_iff in Hok. subst okay.
  apply bind_Ok in E as (d & w1 & (-> & units & Hl & Hus & ->)%stringUnits_Ok & E).
  apply bind_Ok in E as (last & w1 & (-> & b & Hb & ->)%load1_Ok & E).
  apply bind_Ok in E as ([] & w1 & (Hz & ->)%failIf_Ok & E).
  apply ret_Ok in E as (-> & ->).
  apply negb_false_iff, Z.eqb_eq, byte_unsigned_0 in Hz. subst b.
  exists utf16Size, data, units.
  split; [exact Hleb|]. split; [lia|]. split; [exact Hus|].
  split; [reflexivity|]. split; [|reflexivity].
  now replace (data + fold_right Z.add 0 units + 1 - 1)
    with (data + fold_right Z.add 0 units) by lia.
Qed.

(** Two bytes with the bit patterns 110x xxxx and 10xx xxxx of a two-byte
    encoding, and the value they encode. *)
Definition twoByteEncoding (b1 b2 : byte) : Prop :=
  Z.land (byte.unsigned b1) 224 = 192 /\ Z.land (byte.unsigned b2) 192 = 128.

Definition twoByteValue (b1 b2 : byte) : Z :=
  Z.lor (Z.shiftl (Z.land (byte.unsigned b1) 31) 6)
        (Z.land (byte.unsigned b2) 63).

Lemma twoByteValue_nonneg b1 b2 : 0 <= twoByteValue b1 b2.
Proof.
  unfold twoByteValue. apply Z.lor_nonneg. split.
  - apply Z.shiftl_nonneg, Z.land_nonneg. right. lia.
  - apply Z.land_nonneg. right. lia.
Qed.

Lemma twoByteEncoding_start b1 b2 :
  twoByteEncoding b1 b2 ->
  Z.shiftr (byte.unsigned b1) 4 = 12 \/ Z.shiftr (byte.unsigned b1) 4 = 13.
Proof.
  intros (H1 & _).
  destruct b1; try discriminate H1;
    first [left; reflexivity | right; reflexivity].
Qed.

(** A unit that is the two-byte encoding of a non-zero value below 0x80
    is refused. *)
Lemma stringUnit_small_two_byte utf16Size data w b1 b2 :
  data < fileLen (state w) ->
  getBytes (image w) data 1 = Some [b1] ->
  getBytes (image w) (data + 1) 1 = Some [b2] ->
  twoByteEncoding b1 b2 ->
  twoByteValue b1 b2 <> 0 ->
  twoByteValue b1 b2 < 128 ->
  stringUnit utf16Size data w = Reject IllegalRepresentation w.
Proof.
  intros Hin Hb1 Hb2 Henc Hnz Hlt.
  pose proof (twoByteValue_nonneg b1 b2) as H0.
  assert (Hl1 : load1 data w = Ok (byte.unsigned b1) w)
    by (now rewrite load1_spec, Hb1, le_combine_1).
  assert (Hl2 : load1 (data + 1) w = Ok (byte.unsigned b2) w)
    by (now rewrite load1_spec, Hb2, le_combine_1).
  assert (Hu : u2 (twoByteValue b1 b2) = twoByteValue b1 b2)
    by (unfold u2; apply Z.mod_small; lia).
  assert (Hc : negb (Z.land (byte.unsigned b2) 192 =? 128) = false)
    by (destruct Henc as (_ & ->); reflexivity).
  assert (Hv : negb (twoByteValue b1 b2 =? 0) && (twoByteValue b1 b2 <? 128)
               = true).
  { apply andb_true_iff. split; [apply negb_true_iff|]; lia. }
  unfold stringUnit.
  rewrite (bind_Ok_l getState _ w (state w) w eq_refl).
  assert (Hge : (data >=? fileLen (state w)) = false) by lia.
  rewrite Hge, (bind_Ok_l _ _ w tt w (failIf_false _ _)).
  rewrite (bind_Ok_l _ _ _ _ _ Hl1).
  destruct (twoByteEncoding_start b1 b2 Henc) as [-> | ->];
    cbv iota; rewrite (bind_Ok_l _ _ _ _ _ Hl2), Hc,
      (bind_Ok_l _ _ w tt w (failIf_false _ _));
    fold (twoByteValue b1 b2); rewrite Hu, Hv;
    reflexivity.
Qed.

Lemma stringUnits_app n : forall m utf16Size data w,
  stringUnits (n + m) utf16Size data w
  = (d <~ stringUnits n utf16Size data;; stringUnits m utf16Size d) w.
Proof.
  induction n as [|n IH]; intros m utf16Size data w; [reflexivity|].
  cbn [Nat.add stringUnits]. unfold bind.
  destruct (stringUnit utf16Size data w) as [d w1| |]; [|reflexivity..].
  rewrite IH. reflexivity.
Qed.

(** A string-data item in which, after [k] good units and before the
    declared number of units is reached, comes the two-byte encoding of a
    non-zero value below 0x80, is refused as an illegal representation. *)
Lemma intraVerifyStringDataItem_small_two_byte
    ptr w utf16Size data k dataK b1 b2 :
  readAndVerifyUnsignedLeb128 ptr (fileLen (state w)) w
  = Ok (utf16Size, data, true) w ->
  (k < Z.to_nat utf16Size)%nat ->
  stringUnits k utf16Size data w = Ok dataK w ->
  dataK < fileLen (state w) ->
  getBytes (image w) dataK 1 = Some [b1] ->
  getBytes (image w) (dataK + 1) 1 = Some [b2] ->
  twoByteEncoding b1 b2 ->
  twoByteValue b1 b2 <> 0 ->
  twoByteValue b1 b2 < 128 ->
  intraVerifyStringDataItem ptr w = Reject IllegalRepresentation w.
Proof.
  intros Hleb Hk Hunits Hin Hb1 Hb2 Henc Hnz Hlt.
  unfold intraVerifyStringDataItem.
  rewrite (bind_Ok_l getState _ w (state w) w eq_refl).
  rewrite (bind_Ok_l _ _ _ _ _ Hleb). cbn [negb].
  rewrite (bind_Ok_l _ _ w tt w (failIf_false _ _)).
  apply bind_Reject_l.
  replace (Z.to_nat utf16Size)
    with (k + S (Z.to_nat utf16Size - S k))%nat by lia.
  rewrite stringUnits_app, (bind_Ok_l _ _ _ _ _ Hunits).
  cbn [stringUnits]. apply bind_Reject_l.
  now apply (stringUnit_small_two_byte utf16Size dataK w b1 b2).
Qed.


(** *** Padding between the items of a section *)

Lemma bind_assoc {A B C} (c : M A) (f : A -> M B) (g : B -> M C) w :
  bind (bind c f) g w = bind c (fun a => bind (f a) g) w.
Proof. unfold bind. now destruct (c w). Qed.

Lemma bind_not_Ok {A B} (c : M A) (k : A -> M B) w :
  (forall a w1, c w <> Ok a w1) -> forall b w', bind c k w <> Ok b w'.
Proof.
  intros Hc b w' E. apply bind_Ok in E as (a & w1 & E & _). now apply (Hc a w1).
Qed.

Lemma getBytes_1 m off :
  0 <= off < Z.of_nat (length m) -> exists b, getBytes m off 1 = Some [b].
Proof.
  intros Hoff.
  destruct (getBytes_is_Some m off 1) as [bs E]; try lia.
  pose proof (getBytes_length _ _ _ _ E) as Hl.
  destruct bs as [|b [|]]; try discriminate. now exists b.
Qed.

Lemma getBytes_1_bound m off b :
  getBytes m off 1 = Some [b] -> 0 <= off < Z.of_nat (length m).
Proof. intros (H0 & _ & H1 & _)%getBytes_Some. lia. Qed.

Lemma checkPadding_nonzero n : forall ptr d w j b,
  0 <= ptr ->
  ptr <= j < ptr + Z.of_nat n ->
  getBytes (image w) j 1 = Some [b] ->
  b <> Byte.x00 ->
  checkPadding n ptr d w = Reject d w.
Proof.
  induction n as [|n IH]; intros ptr d w j b Hptr Hj Hb Hnz; [lia|].
  simpl. unfold bind. rewrite load1_spec.
  pose proof (getBytes_1_bound _ _ _ Hb) as Hjb.
  destruct (getBytes_1 (image w) ptr) as [c Hc]; [lia|].
  rewrite Hc, le_combine_1.
  destruct (Z.eqb_spec (byte.unsigned c) 0) as [E0|E0]; simpl; [|reflexivity].
  apply byte_unsigned_0 in E0. subst c.
  assert (ptr <> j) by (intros ->; congruence).
  apply (IH (ptr + 1) d w j b); try lia; assumption.
Qed.

Lemma iterateItem_gap offset func alignmentMask mapType w j b :
  0 <= offset ->
  offset <= j < alignUp offset alignmentMask ->
  getBytes (image w) j 1 = Some [b] ->
  b <> Byte.x00 ->
  exists d,
    (d = BadOffsetRange \/ d = NonZeroPadding)
    /\ iterateItem offset func alignmentMask mapType w = Reject d w.
Proof.
  intros Hoff Hj Hb Hnz. unfold iterateItem.
  replace (offset <? alignUp offset alignmentMask) with true
    by (symmetry; apply Z.ltb_lt; lia).
  unfold CHECK_OFFSET_RANGE, CHECK_PTR_RANGE.
  destruct (checkPtrRange (state w) offset (alignUp offset alignmentMask)) eqn:E.
  - exists NonZeroPadding. split; [now right|].
    apply bind_Reject_l. unfold bind at 1 2. cbn [getState]. rewrite E. cbn.
    apply bind_Reject_l. apply (checkPadding_nonzero _ _ _ _ j b); try lia; assumption.
  - exists BadOffsetRange. split; [now left|].
    apply bind_Reject_l. unfold bind. cbn [getState]. now rewrite E.
Qed.

Lemma iterateLoop_app k : forall m offset func alignmentMask mapType w,
  iterateLoop (k + m) offset func alignmentMask mapType w
  = bind (iterateLoop k offset func alignmentMask mapType)
      (fun o => iterateLoop m o func alignmentMask mapType) w.
Proof.
  induction k as [|k IH]; intros m offset func alignmentMask mapType w.
  - reflexivity.
  - cbn [Nat.add iterateLoop]. unfold bind.
    destruct (iterateItem _ _ _ _ w); [|reflexivity..].
    rewrite IH. reflexivity.
Qed.

Section Padding.
Context `{Host} `{DexFormat} `{Environment}.

(** The world in which the loop of [iterateSectionWithOptionalUpdate]
    starts. *)
Definition sectionStart (w : World) : World :=
  {| image := image w; state := withPreviousItem (state w) None;
     visited := visited w |}.

(** The header can be read: the state points to it and its bytes lie
    inside the buffer. *)
Definition headerReadable (w : World) : Prop :=
  exists ph hb,
    pHeader (state w) = Some ph
    /\ getBytes (image w) ph sizeofDexHeader = Some hb.

Lemma headerField_readable w f :
  headerReadable w -> 0 <= f -> f + 4 <= sizeofDexHeader ->
  exists v, headerField f w = Ok v w.
Proof.
  intros (ph & hb & Hph & Hhb) Hf0 Hf4.
  apply getBytes_Some in Hhb as (Hp0 & _ & Hlen & _).
  destruct (getBytes_is_Some (image w) (ph + f) 4) as [bs Hbs]; try lia.
  exists (hostValue bs). unfold headerField, bind; cbn [getState].
  now rewrite Hph, load4_spec, Hbs.
Qed.

(** The sections whose items [swapEverythingButHeaderAndMap] walks: the
    visitor, the alignment and the map type that its [switch] hands to
    the walk for a section of type [t], given in the map as [type].  The
    header and the map list are checked without a walk. *)
Definition sectionWalk (t : MapType) (type : Z)
    : option (ItemVisitorFunction * Z * Z) :=
  match t with
  | kDexTypeHeaderItem => None
  | kDexTypeStringIdItem => Some (swapStringIdItem, 4, -1)
  | kDexTypeTypeIdItem => Some (swapTypeIdItem, 4, -1)
  | kDexTypeProtoIdItem => Some (swapProtoIdItem, 4, -1)
  | kDexTypeFieldIdItem => Some (swapFieldIdItem, 4, -1)
  | kDexTypeMethodIdItem => Some (swapMethodIdItem, 4, -1)
  | kDexTypeClassDefItem => Some (swapClassDefItem, 4, -1)
  | kDexTypeMapList => None
  | kDexTypeTypeList => Some (swapTypeList, 4, type)
  | kDexTypeAnnotationSetRefList => Some (swapAnnotationSetRefList, 4, type)
  | kDexTypeAnnotationSetItem => Some (swapAnnotationSetItem, 4, type)
  | kDexTypeClassDataItem => Some (intraVerifyClassDataItem, 1, type)
  | kDexTypeCodeItem => Some (swapCodeItem, 4, type)
  | kDexTypeStringDataItem => Some (intraVerifyStringDataItem, 1, type)
  | kDexTypeDebugInfoItem => Some (intraVerifyDebugInfoItem, 1, type)
  | kDexTypeAnnotationItem => Some (intraVerifyAnnotationItem, 1, type)
  | kDexTypeEncodedArrayItem => Some (intraVerifyEncodedArrayItem, 1, type)
  | kDexTypeAnnotationsDirectoryItem =>
      Some (swapAnnotationsDirectoryItem, 4, type)
  end.

(** The part of one pass of the loop of [swapEverythingButHeaderAndMap]
    that comes before the [switch]: the fields of the map item and the
    check of the gap before its section. *)
Definition sectionHead (item lastOffset : Z) : M (Z * Z * Z) :=
  sectionOffset <~ load4 (item + 8);;
  sectionCount <~ load4 (item + 4);;
  type <~ load2 (item + 0);;
  (if lastOffset <? sectionOffset then
     CHECK_OFFSET_RANGE lastOffset sectionOffset;;;
     checkPadding (Z.to_nat (sectionOffset - lastOffset)) lastOffset
       NonZeroSectionPadding
   else failIf (lastOffset >? sectionOffset) SectionOverlap);;;
  ret (type, sectionOffset, sectionCount).

(** The first [n] passes of that loop: the map item and the last offset
    with which the next pass starts. *)
Fixpoint sectionsBefore (n : nat) (item lastOffset : Z) : M (Z * Z) :=
  match n with
  | O => ret (item, lastOffset)
  | S n' =>
      let* (type, sectionOffset, sectionCount) <~
        sectionHead item lastOffset;;
      lastOffset <~ swapSection type sectionOffset sectionCount;;
      sectionsBefore n' (item + sizeofDexMapItem) lastOffset
  end.

Lemma sectionsLoop_S n item lastOffset w :
  sectionsLoop (S n) item lastOffset w
  = (let* (type, sectionOffset, sectionCount) <~
       sectionHead item lastOffset;;
     lastOffset <~ swapSection type sectionOffset sectionCount;;
     sectionsLoop n (item + sizeofDexMapItem) lastOffset) w.
Proof.
  cbn [sectionsLoop]. unfold sectionHead, bind.
  destruct (load4 (item + 8) w) as [so w1| |]; [|reflexivity..].
  destruct (load4 (item + 4) w1) as [sc w2| |]; [|reflexivity..].
  destruct (load2 (item + 0) w2) as [ty w3| |]; [|reflexivity..].
  destruct (lastOffset <? so).
  - destruct (CHECK_OFFSET_RANGE lastOffset so w3) as [[] w4| |];
      [|reflexivity..].
    now destruct (checkPadding _ lastOffset NonZeroSectionPadding w4).
  - now destruct (failIf (lastOffset >? so) SectionOverlap w3).
Qed.

Lemma sectionsLoop_app n : forall m item lastOffset w,
  sectionsLoop (n + m) item lastOffset w
  = (let* (item', lastOffset') <~ sectionsBefore n item lastOffset;;
     sectionsLoop m item' lastOffset') w.
Proof.
  induction n as [|n IH]; intros m item lastOffset w; [reflexivity|].
  change (S n + m)%nat with (S (n + m)). rewrite sectionsLoop_S.
  cbn [sectionsBefore]. unfold bind.
  destruct (sectionHead item lastOffset w) as [[[ty so] sc] w1| |];
    [|reflexivity..].
  destruct (swapSection ty so sc w1) as [l w2| |]; [|reflexivity..].
  rewrite IH. reflexivity.
Qed.

(** The run of [dexFixByteOrdering] on [addr] and [len] comes to the
    [switch] for a section that the map gives as [type], [offset] and
    [count], with the world [w]: the header and the map were accepted,
    and so were the sections before this one and the gap before it. *)
Definition reachesSection (addr : list byte) (len type offset count : Z)
    (w : World) : Prop :=
  exists w0 pMap w1 sections i item lastOffset w2,
    verifyHeader 0 len (startWorld addr) = Ok tt w0
    /\ load4 (0 + off_mapOff) w0 = Ok pMap w0
    /\ pMap <> 0
    /\ swapMap pMap w0 = Ok tt w1
    /\ load4 pMap w1 = Ok sections w1
    /\ (i < Z.to_nat sections)%nat
    /\ sectionsBefore i (pMap + 4) 0 w1 = Ok (item, lastOffset) w2
    /\ sectionHead item lastOffset w2 = Ok (type, offset, count) w.

(** A section at which the [switch] gives up ends the whole run. *)
Lemma reachesSection_Reject addr len type offset count w d w' :
  reachesSection addr len type offset count w ->
  swapSection type offset count w = Reject d w' ->
  dexFixByteOrdering addr len = Reject d (freeDataMap (setDexFile w')).
Proof.
  intros (w0 & pMap & w1 & sections & i & item & lastOffset & w2
          & Hvh & Hoff & Hnz & Hmap & Hsections & Hi & Hbefore & Hhead) Hrej.
  unfold dexFixByteOrdering, onExit.
  change {| image := addr; state := initialState; visited := [] |}
    with (startWorld addr).
  rewrite (bind_Ok_l _ _ _ _ _ Hvh). unfold verifyThroughMap.
  rewrite (bind_Ok_l _ _ _ _ _ Hoff).
  destruct (Z.eqb_spec pMap 0) as [|_]; [contradiction|]. cbn [negb].
  rewrite Z.add_0_l.
  assert (Hpass : (swapMap pMap;;; swapEverythingButHeaderAndMap pMap) w0
                  = Reject d w').
  { rewrite (bind_Ok_l _ _ _ _ _ Hmap). unfold swapEverythingButHeaderAndMap.
    rewrite (bind_Ok_l _ _ _ _ _ Hsections).
    replace (Z.to_nat sections)
      with (i + S (Z.to_nat sections - S i))%nat by lia.
    rewrite sectionsLoop_app, (bind_Ok_l _ _ _ _ _ Hbefore).
    rewrite sectionsLoop_S, (bind_Ok_l _ _ _ _ _ Hhead).
    now apply bind_Reject_l. }
  unfold bind at 1, onExit. now rewrite Hpass.
Qed.

(** When the walk over the items gives up, so does each function around
    it. *)
Lemma checkBoundsAndIterateSection_Reject
    offset count expectedOffset expectedCount func alignment w d wK :
  iterateSectionWithOptionalUpdate offset count func alignment (-1) w
  = Reject d wK ->
  exists d' w',
    checkBoundsAndIterateSection offset count expectedOffset expectedCount
      func alignment w = Reject d' w'.
Proof.
  intros Hrej. unfold checkBoundsAndIterateSection, iterateSection, bind.
  destruct (negb (offset =? expectedOffset)); cbn [failIf reject ret];
    [now eexists; eexists|].
  destruct (negb (count =? expectedCount)); cbn [failIf reject ret];
    [now eexists; eexists|].
  rewrite Hrej. now eexists; eexists.
Qed.

Lemma iterateDataSection_Reject offset count func alignment mapType w d wK :
  headerReadable w ->
  iterateSectionWithOptionalUpdate offset count func alignment mapType w
  = Reject d wK ->
  exists d' w',
    iterateDataSection offset count func alignment mapType w = Reject d' w'.
Proof.
  intros Hhdr Hrej.
  assert (Hsig : 0 <= sigLen) by (unfold sigLen; lia).
  destruct (headerField_readable w off_dataOff Hhdr) as [dataStart Hs];
    [unfold off_dataOff; lia|unfold off_dataOff, sizeofDexHeader; lia|].
  destruct (headerField_readable w off_dataSize Hhdr) as [dataSize Hz];
    [unfold off_dataSize; lia|unfold off_dataSize, sizeofDexHeader; lia|].
  unfold iterateDataSection.
  rewrite (bind_Ok_l _ _ _ _ _ Hs), (bind_Ok_l _ _ _ _ _ Hz).
  unfold bind.
  destruct ((offset <? dataStart) || (offset >=? u4 (dataStart + dataSize)));
    cbn [failIf reject ret]; [now eexists; eexists|].
  rewrite Hrej. now eexists; eexists.
Qed.

Lemma indexSection_Reject offField sizeField offset count func w d wK :
  headerReadable w ->
  0 <= offField -> offField + 4 <= sizeofDexHeader ->
  0 <= sizeField -> sizeField + 4 <= sizeofDexHeader ->
  iterateSectionWithOptionalUpdate offset count func 4 (-1) w
  = Reject d wK ->
  exists d' w',
    (expectedOffset <~ headerField offField;;
     expectedCount <~ headerField sizeField;;
     checkBoundsAndIterateSection offset count expectedOffset expectedCount
       func 4) w = Reject d' w'.
Proof.
  intros Hhdr Ho0 Ho4 Hs0 Hs4 Hrej.
  destruct (headerField_readable w offField Hhdr Ho0 Ho4) as [eo Ho].
  destruct (headerField_readable w sizeField Hhdr Hs0 Hs4) as [ec Hs].
  rewrite (bind_Ok_l _ _ _ _ _ Ho), (bind_Ok_l _ _ _ _ _ Hs).
  now apply (checkBoundsAndIterateSection_Reject _ _ _ _ _ _ _ d wK).
Qed.

Lemma swapSection_Reject type t offset count func alignment mapType w d wK :
  decodeType type = Some t ->
  sectionWalk t type = Some (func, alignment, mapType) ->
  headerReadable w ->
  iterateSectionWithOptionalUpdate offset count func alignment mapType w
  = Reject d wK ->
  exists d' w', swapSection type offset count w = Reject d' w'.
Proof.
  intros Hdec Hwalk Hhdr Hrej.
  assert (Hsig : 0 <= sigLen) by (unfold sigLen; lia).
  unfold swapSection. rewrite Hdec.
  destruct t; cbn [sectionWalk] in Hwalk; try discriminate Hwalk;
    injection Hwalk as <- <- <-;
    first
      [ now apply (iterateDataSection_Reject _ _ _ _ _ _ d wK)
      | apply (indexSection_Reject _ _ _ _ _ _ d wK);
        [exact Hhdr| | | | |exact Hrej];
        unfold off_stringIdsOff, off_stringIdsSize, off_typeIdsOff,
          off_typeIdsSize, off_protoIdsOff, off_protoIdsSize,
          off_fieldIdsOff, off_fieldIdsSize, off_methodIdsOff,
          off_methodIdsSize, off_classDefsOff, off_classDefsSize,
          sizeofDexHeader; lia ].
Qed.

(** C10.  Within a section, after [k] items have been visited, the bytes
    from the end of the previous item up to the next alignment boundary
    must be zero: a non-zero byte there makes the iteration over the
    section fail, before the next item is visited, and with it every
    variant of the section walk.  Where the header can be read, each of
    them gives up with an error, and so does the [switch] of
    [swapEverythingButHeaderAndMap] for every type of section whose items
    it walks; and a run of [dexFixByteOrdering] that comes to this
    section fails: the whole verification is rejected. *)
Theorem padding_between_items
    (offset count alignment mapType : Z) (func : ItemVisitorFunction)
    (w : World) (k : nat) (offsetK : Z) (wK : World) (j : Z) (b : byte) :
  (k < Z.to_nat count)%nat ->
  iterateLoop k offset func (u4 (alignment - 1)) mapType (sectionStart w)
  = Ok offsetK wK ->
  0 <= offsetK ->
  offsetK <= j < alignUp offsetK (u4 (alignment - 1)) ->
  getBytes (image wK) j 1 = Some [b] ->
  b <> Byte.x00 ->
  (exists d,
     (d = BadOffsetRange \/ d = NonZeroPadding)
     /\ iterateSectionWithOptionalUpdate offset count func alignment mapType w
        = Reject d wK)
  /\ (mapType = -1 ->
      forall p w', iterateSection offset count func alignment w <> Ok p w')
  /\ (mapType = -1 ->
      forall expectedOffset expectedCount p w',
        checkBoundsAndIterateSection offset count expectedOffset
          expectedCount func alignment w <> Ok p w')
  /\ (forall p w',
        iterateDataSection offset count func alignment mapType w <> Ok p w')
  /\ (mapType = -1 ->
      forall expectedOffset expectedCount,
      exists d' w',
        checkBoundsAndIterateSection offset count expectedOffset
          expectedCount func alignment w = Reject d' w')
  /\ (headerReadable w ->
      exists d' w',
        iterateDataSection offset count func alignment mapType w
        = Reject d' w')
  /\ (headerReadable w ->
      forall type t,
        decodeType type = Some t ->
        sectionWalk t type = Some (func, alignment, mapType) ->
        (exists d' w', swapSection type offset count w = Reject d' w')
        /\ forall addr len,
             reachesSection addr len type offset count w ->
             exists d' w', dexFixByteOrdering addr len = Reject d' w').
Proof.
  intros Hk Hloop Hoff Hj Hb Hnz.
  assert (Hrej : exists d,
            (d = BadOffsetRange \/ d = NonZeroPadding)
            /\ iterateSectionWithOptionalUpdate offset count func alignment
                 mapType w = Reject d wK).
  { destruct (iterateItem_gap offsetK func (u4 (alignment - 1)) mapType wK j b
                Hoff Hj Hb Hnz) as (d & Hd & Hitem).
    exists d. split; [exact Hd|].
    unfold iterateSectionWithOptionalUpdate.
    replace (Z.to_nat count) with (k + S (Z.to_nat count - S k))%nat by lia.
    unfold bind at 1. unfold setPreviousItem, bind at 1. cbn [getState setState].
    fold (sectionStart w).
    rewrite iterateLoop_app. rewrite (bind_Ok_l _ _ _ _ _ Hloop).
    cbn [iterateLoop]. now apply bind_Reject_l. }
  split; [exact Hrej|].
  destruct Hrej as (d & _ & Hrej).
  split; [|split; [|split; [|split; [|split]]]].
  - intros -> p w'. unfold iterateSection. now rewrite Hrej.
  - intros -> eo ec p w'.
    unfold checkBoundsAndIterateSection, iterateSection.
    intros E.
    apply bind_Ok in E as ([] & w1 & (_ & ->)%failIf_Ok & E).
    apply bind_Ok in E as ([] & w1 & (_ & ->)%failIf_Ok & E).
    now rewrite Hrej in E.
  - intros p w' E. unfold iterateDataSection in E.
    apply bind_Ok in E as (dataStart & w1 & Hs & E).
    unfold headerField in Hs.
    apply bind_Ok in Hs as (st & w2 & (-> & ->)%getState_Ok & Hs).
    destruct (pHeader (state w)) as [ph|]; [|discriminate].
    apply load4_Ok in Hs as (-> & _).
    apply bind_Ok in E as (dataSize & w1 & Hs & E).
    unfold headerField in Hs.
    apply bind_Ok in Hs as (st & w2 & (-> & ->)%getState_Ok & Hs).
    destruct (pHeader (state w)) as [ph'|]; [|discriminate].
    apply load4_Ok in Hs as (-> & _).
    apply bind_Ok in E as ([] & w1 & (_ & ->)%failIf_Ok & E).
    apply bind_Ok in E as (next & w1 & Hit & _).
    now rewrite Hrej in Hit.
  - intros -> eo ec.
    now apply (checkBoundsAndIterateSection_Reject _ _ _ _ _ _ _ d wK).
  - intros Hhdr. now apply (iterateDataSection_Reject _ _ _ _ _ _ d wK).
  - intros Hhdr type t Hdec Hwalk.
    destruct (swapSection_Reject type t offset count func alignment mapType
                w d wK Hdec Hwalk Hhdr Hrej) as (d' & w' & Hsw).
    split; [now exists d', w'|].
    intros addr len Hreach.
    exists d', (freeDataMap (setDexFile w')).
    now apply (reachesSection_Reject addr len type offset count w).
Qed.
End Padding.


(** *** Frames: what a call leaves alone *)

(** [w'] differs from [w] at most in the bytes of [lo, hi). *)
Definition sameOutside (lo hi : Z) (w w' : World) : Prop :=
  state w' = state w
  /\ visited w' = visited w
  /\ length (image w') = length (image w)
  /\ forall off n, off + n <= lo \/ hi <= off ->
       getBytes (image w') off n = getBytes (image w) off n.

Lemma sameOutside_refl lo hi w : sameOutside lo hi w w.
Proof. now repeat split. Qed.

Lemma sameOutside_trans lo hi lo1 hi1 lo2 hi2 w w1 w2 :
  sameOutside lo1 hi1 w w1 -> sameOutside lo2 hi2 w1 w2 ->
  lo <= lo1 -> lo <= lo2 -> hi1 <= hi -> hi2 <= hi ->
  sameOutside lo hi w w2.
Proof.
  intros (Hs1 & Hv1 & Hl1 & Hf1) (Hs2 & Hv2 & Hl2 & Hf2) ? ? ? ?.
  split; [congruence|]. split; [congruence|]. split; [congruence|].
  intros off n Hd. rewrite Hf2, Hf1 by lia. reflexivity.
Qed.

Section Frames.
Context `{Host}.

Lemma swapAt_sameOutside w off n bs :
  getBytes (image w) off n = Some bs ->
  sameOutside off (off + n) w (swapAt w off bs)
  /\ getBytes (image (swapAt w off bs)) off n = Some (swapped bs).
Proof.
  intros E. pose proof (getBytes_length _ _ _ _ E) as Hl.
  apply getBytes_Some in E as (H0 & Hn & H1 & _).
  assert (Hls : Z.of_nat (length (swapped bs)) = n)
    by (rewrite length_swapped; lia).
  unfold swapAt; cbn [image state visited]. split.
  - split; [reflexivity|]. split; [reflexivity|].
    split; [apply length_putBytes; lia|].
    intros off' n' Hd. apply getBytes_putBytes_other; lia.
  - rewrite <- Hls at 1. apply getBytes_putBytes_same; lia.
Qed.

Lemma SWAP_FIELD4_fwd off w bs :
  getBytes (image w) off 4 = Some bs ->
  exists w', SWAP_FIELD4 off w = Ok tt w'
             /\ sameOutside off (off + 4) w w'
             /\ getBytes (image w') off 4 = Some (swapped bs).
Proof.
  intros E. pose proof (SWAP_FIELD4_spec off w) as Hs. rewrite E in Hs.
  exists (swapAt w off bs). split; [exact Hs|]. now apply swapAt_sameOutside.
Qed.

Lemma SWAP_FIELD2_fwd off w bs :
  getBytes (image w) off 2 = Some bs ->
  exists w', SWAP_FIELD2 off w = Ok tt w'
             /\ sameOutside off (off + 2) w w'
             /\ getBytes (image w') off 2 = Some (swapped bs).
Proof.
  intros E. pose proof (SWAP_FIELD2_spec off w) as Hs. rewrite E in Hs.
  exists (swapAt w off bs). split; [exact Hs|]. now apply swapAt_sameOutside.
Qed.

Lemma SWAP_FIELD4_Ok off w u w' :
  SWAP_FIELD4 off w = Ok u w' ->
  exists bs, getBytes (image w) off 4 = Some bs
             /\ sameOutside off (off + 4) w w'
             /\ getBytes (image w') off 4 = Some (swapped bs).
Proof.
  pose proof (SWAP_FIELD4_spec off w) as Hs.
  destruct (getBytes (image w) off 4) as [bs|] eqn:E; rewrite Hs; [|discriminate].
  intros E'; injection E' as _ <-. exists bs. split; [reflexivity|]. now apply swapAt_sameOutside.
Qed.

Lemma SWAP_FIELD2_Ok off w u w' :
  SWAP_FIELD2 off w = Ok u w' ->
  exists bs, getBytes (image w) off 2 = Some bs
             /\ sameOutside off (off + 2) w w'
             /\ getBytes (image w') off 2 = Some (swapped bs).
Proof.
  pose proof (SWAP_FIELD2_spec off w) as Hs.
  destruct (getBytes (image w) off 2) as [bs|] eqn:E; rewrite Hs; [|discriminate].
  intros E'; injection E' as _ <-. exists bs. split; [reflexivity|]. now apply swapAt_sameOutside.
Qed.

(** A field read by the host after it was swapped has the value the file
    format gives it. *)
Lemma load4_swapped off w bs :
  getBytes (image w) off 4 = Some (swapped bs) ->
  load4 off w = Ok (le_combine bs) w.
Proof. intros E. now rewrite load4_spec, E, hostValue_swapped. Qed.

Lemma load2_swapped off w bs :
  getBytes (image w) off 2 = Some (swapped bs) ->
  load2 off w = Ok (le_combine bs) w.
Proof. intros E. now rewrite load2_spec, E, hostValue_swapped. Qed.
End Frames.


(** *** The map *)

(** A map item as the file format gives it. *)
Record MapItem := { type : Z; size : Z; offset : Z }.

Definition decodeItem (m : list byte) (item : Z) : option MapItem :=
  match fileValue m item 2, getBytes m (item + 2) 2,
        fileValue m (item + 4) 4, fileValue m (item + 8) 4 with
  | Some t, Some _, Some s, Some o => Some {| type := t; size := s; offset := o |}
  | _, _, _, _ => None
  end.

Fixpoint decodeItems (m : list byte) (item : Z) (count : nat)
    : option (list MapItem) :=
  match count with
  | O => Some []
  | S count' =>
      match decodeItem m item, decodeItems m (item + 12) count' with
      | Some e, Some es => Some (e :: es)
      | _, _ => None
      end
  end.

Lemma decodeItems_length m : forall count item es,
  decodeItems m item count = Some es -> length es = count.
Proof.
  induction count as [|count IH]; intros item es E; simpl in E.
  - now injection E as <-.
  - destruct (decodeItem m item); [|discriminate].
    destruct (decodeItems m (item + 12) count) eqn:E'; [|discriminate].
    injection E as <-. simpl. f_equal. now apply (IH (item + 12)).
Qed.

Lemma decodeItem_frame m m' item :
  (forall off n, item <= off -> getBytes m' off n = getBytes m off n) ->
  decodeItem m' item = decodeItem m item.
Proof.
  intros Hf. unfold decodeItem, fileValue. now rewrite !Hf by lia.
Qed.

Lemma decodeItems_frame m m' : forall count item,
  (forall off n, item <= off -> getBytes m' off n = getBytes m off n) ->
  decodeItems m' item count = decodeItems m item count.
Proof.
  induction count as [|count IH]; intros item Hf; simpl; [reflexivity|].
  rewrite (decodeItem_frame m m' item Hf).
  rewrite (IH (item + 12)); [reflexivity|].
  intros off n Hoff. apply Hf. lia.
Qed.

Section MapFacts.
Context `{Host} `{DexFormat}.

(** The loop of [swapMap] over decoded items. *)
Fixpoint mapLoopPure (es : list MapItem)
    (dataItemCount dataItemsLeft usedBits : Z) (first : bool)
    (lastOffset fileSize : Z) : Diag + (Z * Z) :=
  match es with
  | [] => inr (usedBits, dataItemCount)
  | e :: es' =>
      if negb first && (lastOffset >=? offset e) then inl OutOfOrderMapItem
      else if offset e >=? fileSize then inl MapItemAfterEndOfFile
      else if isDataSectionType (type e) && (size e >? dataItemsLeft)
      then inl TooManyDataItems
      else
        let dataItemsLeft' :=
          if isDataSectionType (type e) then u4 (dataItemsLeft - size e)
          else dataItemsLeft in
        let dataItemCount' :=
          if isDataSectionType (type e) then u4 (dataItemCount + size e)
          else dataItemCount in
        let bit := mapTypeToBitMask (type e) in
        if bit =? 0 then inl UnknownMapItemType
        else if negb (Z.land usedBits bit =? 0) then inl DuplicateMapSection
        else mapLoopPure es' dataItemCount' dataItemsLeft'
               (Z.lor usedBits bit) false (offset e) fileSize
  end.

Lemma swapMapItem_spec item w tb ub sb ob :
  getBytes (image w) item 2 = Some tb ->
  getBytes (image w) (item + 2) 2 = Some ub ->
  getBytes (image w) (item + 4) 4 = Some sb ->
  getBytes (image w) (item + 8) 4 = Some ob ->
  exists w',
    swapMapItem item w = Ok tt w'
    /\ sameOutside item (item + 12) w w'
    /\ load2 (item + 0) w' = Ok (le_combine tb) w'
    /\ load4 (item + 4) w' = Ok (le_combine sb) w'
    /\ load4 (item + 8) w' = Ok (le_combine ob) w'.
Proof.
  intros Ht Hu Hs Ho. unfold swapMapItem, SWAP_OFFSET4.
  rewrite Z.add_0_r.
  destruct (SWAP_FIELD2_fwd item w tb Ht) as (w1 & E1 & S1 & G1).
  pose proof S1 as (_ & _ & _ & F1).
  rewrite <- (F1 (item + 2) 2) in Hu by lia.
  rewrite <- (F1 (item + 4) 4) in Hs by lia.
  rewrite <- (F1 (item + 8) 4) in Ho by lia.
  destruct (SWAP_FIELD2_fwd (item + 2) w1 ub Hu) as (w2 & E2 & S2 & G2).
  pose proof S2 as (_ & _ & _ & F2).
  rewrite <- (F2 item 2) in G1 by lia.
  rewrite <- (F2 (item + 4) 4) in Hs by lia.
  rewrite <- (F2 (item + 8) 4) in Ho by lia.
  destruct (SWAP_FIELD4_fwd (item + 4) w2 sb Hs) as (w3 & E3 & S3 & G3).
  pose proof S3 as (_ & _ & _ & F3).
  rewrite <- (F3 item 2) in G1 by lia.
  rewrite <- (F3 (item + 8) 4) in Ho by lia.
  destruct (SWAP_FIELD4_fwd (item + 8) w3 ob Ho) as (w4 & E4 & S4 & G4).
  pose proof S4 as (_ & _ & _ & F4).
  rewrite <- (F4 item 2) in G1 by lia.
  rewrite <- (F4 (item + 4) 4) in G3 by lia.
  exists w4. split; [|split; [|split; [|split]]].
  - rewrite (bind_Ok_l _ _ _ _ _ E1), (bind_Ok_l _ _ _ _ _ E2),
      (bind_Ok_l _ _ _ _ _ E3). exact E4.
  - apply (sameOutside_trans _ _ item (item + 8) (item + 8) (item + 8 + 4) w w3);
      try lia; [|exact S4].
    apply (sameOutside_trans _ _ item (item + 4) (item + 4) (item + 4 + 4) w w2);
      try lia; [|exact S3].
    apply (sameOutside_trans _ _ item (item + 2) (item + 2) (item + 2 + 2) w w1);
      try lia; [exact S1|exact S2].
  - now apply load2_swapped.
  - now apply load4_swapped.
  - now apply load4_swapped.
Qed.

(** [swapMapLoop] on the file computes [mapLoopPure] on the decoded
    items, and touches the bytes of the items only. *)
Lemma swapMapLoop_refines es : forall item cnt left used first last w ph fsb,
  decodeItems (image w) item (length es) = Some es ->
  pHeader (state w) = Some ph ->
  getBytes (image w) (ph + off_fileSize) 4 = Some fsb ->
  ph + off_fileSize + 4 <= item ->
  exists w',
    swapMapLoop (length es) item cnt left used first last w
    = match mapLoopPure es cnt left used first last (hostValue fsb) with
      | inl d => Reject d w'
      | inr r => Ok r w'
      end
    /\ sameOutside item (item + 12 * Z.of_nat (length es)) w w'.
Proof.
  induction es as [|e es IH];
    intros item cnt left used first last w ph fsb Hdec Hph Hfs Hbelow.
  - exists w. split; [reflexivity|apply sameOutside_refl].
  - cbn [length decodeItems] in Hdec.
    destruct (decodeItem (image w) item) as [e'|] eqn:He; [|discriminate].
    destruct (decodeItems (image w) (item + 12) (length es)) as [es'|] eqn:Hes;
      [|discriminate].
    injection Hdec as -> ->.
    unfold decodeItem, fileValue in He.
    destruct (getBytes (image w) item 2) as [tb|] eqn:Ht; [|discriminate].
    destruct (getBytes (image w) (item + 2) 2) as [ub|] eqn:Hu; [|discriminate].
    destruct (getBytes (image w) (item + 4) 4) as [sb|] eqn:Hs; [|discriminate].
    destruct (getBytes (image w) (item + 8) 4) as [ob|] eqn:Ho; [|discriminate].
    cbn [option_map] in He. injection He as <-.
    destruct (swapMapItem_spec item w tb ub sb ob Ht Hu Hs Ho)
      as (w1 & Eswap & S1 & Lt & Ls & Lo).
    pose proof S1 as (Hst1 & Hv1 & Hl1 & F1).
    assert (Ssub : sameOutside item (item + 12 * Z.of_nat (S (length es))) w w1).
    { apply (sameOutside_trans _ _ item (item + 12) item (item + 12) w w1 w1);
        try (cbn [length]; lia); [exact S1|apply sameOutside_refl]. }
    cbn [length swapMapLoop mapLoopPure type size offset].
    rewrite (bind_Ok_l _ _ _ _ _ Eswap), (bind_Ok_l _ _ _ _ _ Lo).
    destruct (negb first && (last >=? le_combine ob)) eqn:C1.
    { exists w1. split; [|exact Ssub]. now apply bind_Reject_l. }
    rewrite (bind_Ok_l _ _ _ _ _ (failIf_false _ _)).
    assert (Hfield : headerField off_fileSize w1 = Ok (hostValue fsb) w1).
    { unfold headerField, bind; cbn [getState]. rewrite Hst1, Hph.
      now rewrite load4_spec, F1, Hfs by lia. }
    rewrite (bind_Ok_l _ _ _ _ _ Hfield).
    destruct (le_combine ob >=? hostValue fsb) eqn:C2.
    { exists w1. split; [|exact Ssub]. now apply bind_Reject_l. }
    rewrite (bind_Ok_l _ _ _ _ _ (failIf_false _ _)).
    rewrite (bind_Ok_l _ _ _ _ _ Lt).
    assert (Hrest : decodeItems (image w1) (item + 12) (length es) = Some es).
    { rewrite <- Hes. apply decodeItems_frame. intros off n Hoff.
      apply F1. lia. }
    assert (Hfs1 : getBytes (image w1) (ph + off_fileSize) 4 = Some fsb)
      by (rewrite F1 by lia; exact Hfs).
    assert (Hph1 : pHeader (state w1) = Some ph) by (now rewrite Hst1).
    destruct (isDataSectionType (le_combine tb)) eqn:Cd; cbn [andb].
    + rewrite bind_assoc, (bind_Ok_l _ _ _ _ _ Ls).
      destruct (le_combine sb >? left) eqn:C3.
      { exists w1. split; [|exact Ssub]. rewrite bind_assoc.
        now apply bind_Reject_l. }
      rewrite bind_assoc, (bind_Ok_l _ _ _ _ _ (failIf_false _ _)).
      unfold bind at 1, ret at 1.
      destruct (mapTypeToBitMask (le_combine tb) =? 0) eqn:C4.
      { exists w1. split; [|exact Ssub]. now apply bind_Reject_l. }
      rewrite (bind_Ok_l _ _ _ _ _ (failIf_false _ _)).
      destruct (negb (Z.land used (mapTypeToBitMask (le_combine tb)) =? 0)) eqn:C5.
      { exists w1. split; [|exact Ssub]. now apply bind_Reject_l. }
      rewrite (bind_Ok_l _ _ _ _ _ (failIf_false _ _)).
      destruct (IH (item + 12) (u4 (cnt + le_combine sb))
                  (u4 (left - le_combine sb))
                  (Z.lor used (mapTypeToBitMask (le_combine tb))) false
                  (le_combine ob) w1 ph fsb Hrest Hph1 Hfs1 ltac:(lia))
        as (w' & Eloop & S').
      exists w'. split; [exact Eloop|].
      apply (sameOutside_trans _ _ item (item + 12) (item + 12)
               (item + 12 + 12 * Z.of_nat (length es)) w w1 w');
        try (cbn [length]; lia); assumption.
    + unfold bind at 1, ret at 1.
      destruct (mapTypeToBitMask (le_combine tb) =? 0) eqn:C4.
      { exists w1. split; [|exact Ssub]. now apply bind_Reject_l. }
      rewrite (bind_Ok_l _ _ _ _ _ (failIf_false _ _)).
      destruct (negb (Z.land used (mapTypeToBitMask (le_combine tb)) =? 0)) eqn:C5.
      { exists w1. split; [|exact Ssub]. now apply bind_Reject_l. }
      rewrite (bind_Ok_l _ _ _ _ _ (failIf_false _ _)).
      destruct (IH (item + 12) cnt left
                  (Z.lor used (mapTypeToBitMask (le_combine tb))) false
                  (le_combine ob) w1 ph fsb Hrest Hph1 Hfs1 ltac:(lia))
        as (w' & Eloop & S').
      exists w'. split; [exact Eloop|].
      apply (sameOutside_trans _ _ item (item + 12) (item + 12)
               (item + 12 + 12 * Z.of_nat (length es)) w w1 w');
        try (cbn [length]; lia); assumption.
Qed.
End MapFacts.


(** *** What a valid map is *)

Fixpoint strictlyAscending (l : list Z) : Prop :=
  match l with
  | a :: (b :: _) as rest => a < b /\ strictlyAscending rest
  | _ => True
  end.

Section MapGood.
Context `{Host} `{DexFormat}.

(** The declared item counts of the entries whose type lives in the data
    section, added up. *)
Fixpoint dataCount (es : list MapItem) : Z :=
  match es with
  | [] => 0
  | e :: es' =>
      if isDataSectionType (type e) then size e + dataCount es'
      else dataCount es'
  end.

(** The conditions on a map: offsets strictly ascending and below the
    declared file size, every type recognized and none listed twice, and
    no more data items declared than the data section has bytes. *)
Definition mapGood (es : list MapItem) (fileSize dataSize : Z) : Prop :=
  strictlyAscending (map offset es)
  /\ Forall (fun e => offset e < fileSize) es
  /\ Forall (fun e => decodeType (type e) <> None) es
  /\ NoDup (map type es)
  /\ dataCount es <= dataSize.

Lemma land_lor_same u b : Z.land (Z.lor u b) b = b.
Proof.
  apply Z.bits_inj'. intros i _. rewrite Z.land_spec, Z.lor_spec.
  now destruct (Z.testbit u i), (Z.testbit b i).
Qed.

Lemma land_lor_0 u b x : Z.land (Z.lor u b) x = 0 -> Z.land u x = 0.
Proof.
  intros E. apply Z.bits_inj'. intros i Hi.
  apply (f_equal (fun z => Z.testbit z i)) in E.
  rewrite Z.land_spec, Z.lor_spec, Z.bits_0 in E.
  rewrite Z.land_spec, Z.bits_0.
  now destruct (Z.testbit u i), (Z.testbit b i), (Z.testbit x i).
Qed.

Lemma mapTypeToBitMask_0 t :
  mapTypeToBitMask t <> 0 -> decodeType t <> None.
Proof. unfold mapTypeToBitMask. now destruct (decodeType t). Qed.

Lemma mapLoopPure_good es : forall cnt left used first last fs r,
  0 <= left < 2 ^ 32 ->
  Forall (fun e => 0 <= size e) es ->
  mapLoopPure es cnt left used first last fs = inr r ->
  (first = false -> match es with e :: _ => last < offset e | [] => True end)
  /\ strictlyAscending (map offset es)
  /\ Forall (fun e => offset e < fs) es
  /\ Forall (fun e => decodeType (type e) <> None) es
  /\ Forall (fun e => Z.land used (mapTypeToBitMask (type e)) = 0) es
  /\ NoDup (map type es)
  /\ dataCount es <= left.
Proof.
  induction es as [|e es IH]; intros cnt left used first last fs r Hleft Hsz E.
  - simpl. repeat split; try constructor. lia.
  - cbn [mapLoopPure] in E.
    apply Forall_cons in Hsz as [Hse Hsz].
    destruct (negb first && (last >=? offset e)) eqn:C1; [discriminate|].
    destruct (offset e >=? fs) eqn:C2; [discriminate|].
    destruct (isDataSectionType (type e) && (size e >? left)) eqn:C3;
      [discriminate|].
    destruct (mapTypeToBitMask (type e) =? 0) eqn:C4; [discriminate|].
    destruct (negb (Z.land used (mapTypeToBitMask (type e)) =? 0)) eqn:C5;
      [discriminate|].
    apply Z.eqb_neq in C4. apply negb_false_iff, Z.eqb_eq in C5.
    assert (Hleft' : 0 <= (if isDataSectionType (type e)
                           then u4 (left - size e) else left) < 2 ^ 32
                     /\ (if isDataSectionType (type e)
                         then u4 (left - size e) else left)
                        = left - (if isDataSectionType (type e)
                                  then size e else 0)).
    { destruct (isDataSectionType (type e)); [|lia].
      cbn [andb] in C3. unfold u4. rewrite Z.mod_small by lia. lia. }
    destruct Hleft' as [Hleft' Hval].
    apply IH in E as (Hlast & Hasc & Hfs & Hrec & Hbits & Hnd & Hcount);
      [|exact Hleft'|exact Hsz].
    specialize (Hlast eq_refl).
    split; [|split; [|split; [|split; [|split; [|split]]]]].
    + intros ->. cbn [negb andb] in C1. lia.
    + cbn [map strictlyAscending]. destruct es as [|e' es]; [exact I|].
      split; [exact Hlast|exact Hasc].
    + constructor; [lia|exact Hfs].
    + constructor; [now apply mapTypeToBitMask_0|exact Hrec].
    + constructor; [exact C5|].
      eapply Forall_impl; [exact Hbits|]. intros e' He'. cbn beta in He'.
      now apply land_lor_0 in He'.
    + cbn [map]. constructor; [|exact Hnd].
      intros Hin. apply list_elem_of_In, in_map_iff in Hin as (e' & Het & Hin).
      pose proof (proj1 (List.Forall_forall _ _) Hbits e' Hin) as Hb.
      cbn beta in Hb. rewrite Het, land_lor_same in Hb. contradiction.
    + cbn [dataCount]. rewrite Hval in Hcount.
      destruct (isDataSectionType (type e)); lia.
Qed.


Lemma decodeItems_sizes m : forall count item es,
  decodeItems m item count = Some es -> Forall (fun e => 0 <= size e) es.
Proof.
  induction count as [|count IH]; intros item es E; simpl in E.
  - injection E as <-. constructor.
  - destruct (decodeItem m item) as [e|] eqn:He; [|discriminate].
    destruct (decodeItems m (item + 12) count) as [es'|] eqn:E'; [|discriminate].
    injection E as <-. constructor; [|now apply (IH (item + 12))].
    unfold decodeItem, fileValue in He.
    destruct (getBytes m item 2); [|discriminate].
    destruct (getBytes m (item + 2) 2); [|discriminate].
    destruct (getBytes m (item + 4) 4) as [sb|]; [|discriminate].
    destruct (getBytes m (item + 8) 4); [|discriminate].
    cbn [option_map] in He. injection He as <-. cbn [size].
    apply le_combine_bound.
Qed.

Lemma hostValue_range4 bs : length bs = 4%nat -> 0 <= hostValue bs < 2 ^ 32.
Proof.
  intros Hl. unfold hostValue. destruct bigEndian.
  - pose proof (le_combine_bound (rev bs)) as Hb.
    now rewrite length_rev, Hl in Hb.
  - pose proof (le_combine_bound bs) as Hb. now rewrite Hl in Hb.
Qed.
End MapGood.


(** *** Calls that visit no item *)

(** [c] hands no pointer to an item visitor, however it ends. *)
Definition quiet {A} (c : M A) : Prop :=
  forall w, match c w with
            | Ok _ w' | Reject _ w' => visited w' = visited w
            | Undefined => True
            end.

Create HintDb quiet.

Lemma quiet_ret {A} (a : A) : quiet (ret a).
Proof. intros w. reflexivity. Qed.

Lemma quiet_reject {A} d : quiet (@reject A d).
Proof. intros w. reflexivity. Qed.

Lemma quiet_undefined {A} : quiet (@undefined A).
Proof. intros w. exact I. Qed.

Lemma quiet_bind {A B} (c : M A) (k : A -> M B) :
  quiet c -> (forall a, quiet (k a)) -> quiet (bind c k).
Proof.
  intros Hc Hk w. unfold bind. specialize (Hc w).
  destruct (c w) as [a w1|d w1|]; [|assumption|exact I].
  specialize (Hk a w1). destruct (k a w1); [congruence|congruence|exact I].
Qed.

Lemma quiet_failIf cond d : quiet (failIf cond d).
Proof. intros w. now destruct cond. Qed.

Lemma quiet_getState : quiet getState.
Proof. intros w. reflexivity. Qed.

Lemma quiet_setState s : quiet (setState s).
Proof. intros w. reflexivity. Qed.

Lemma quiet_readBytes off n : quiet (readBytes off n).
Proof. intros w. unfold readBytes. now destruct (getBytes _ _ _). Qed.

Lemma quiet_writeBytes off bs : quiet (writeBytes off bs).
Proof. intros w. unfold writeBytes. now destruct (getBytes _ _ _). Qed.

Lemma quiet_onExit {A} f (c : M A) :
  (forall w, visited (f w) = visited w) -> quiet c -> quiet (onExit f c).
Proof.
  intros Hf Hc w. unfold onExit. specialize (Hc w).
  destruct (c w); [rewrite Hf| rewrite Hf|]; easy.
Qed.

Lemma quiet_Ok {A} (c : M A) w a w' :
  quiet c -> c w = Ok a w' -> visited w' = visited w.
Proof. intros Hc E. specialize (Hc w). now rewrite E in Hc. Qed.


#[export] Hint Resolve quiet_ret quiet_reject quiet_undefined quiet_failIf
  quiet_getState quiet_setState quiet_readBytes quiet_writeBytes : quiet.

(** Splits a sequence of calls into its calls. *)
Ltac quiet_tac :=
  repeat first
    [ assumption
    | solve [auto with quiet]
    | apply quiet_bind; [|intros ?]
    | match goal with
      | |- quiet (match ?x with _ => _ end) => destruct x
      end ].

Section Quiet.
Context `{Host} `{DexFormat} `{Environment}.

Lemma quiet_load1 off : quiet (load1 off).
Proof. unfold load1. quiet_tac. Qed.

Lemma quiet_load2 off : quiet (load2 off).
Proof. unfold load2. quiet_tac. Qed.

Lemma quiet_load4 off : quiet (load4 off).
Proof. unfold load4. quiet_tac. Qed.

Hint Resolve quiet_load1 quiet_load2 quiet_load4 : quiet.

Lemma quiet_SWAP_FIELD2 off : quiet (SWAP_FIELD2 off).
Proof. unfold SWAP_FIELD2, store2. quiet_tac. Qed.

Lemma quiet_SWAP_FIELD4 off : quiet (SWAP_FIELD4 off).
Proof. unfold SWAP_FIELD4, store4. quiet_tac. Qed.

Lemma quiet_SWAP_OFFSET4 off : quiet (SWAP_OFFSET4 off).
Proof. apply quiet_SWAP_FIELD4. Qed.

Lemma quiet_CHECK_PTR_RANGE a b : quiet (CHECK_PTR_RANGE a b).
Proof. unfold CHECK_PTR_RANGE. quiet_tac. Qed.

Lemma quiet_CHECK_OFFSET_RANGE a b : quiet (CHECK_OFFSET_RANGE a b).
Proof. apply quiet_CHECK_PTR_RANGE. Qed.

Lemma quiet_CHECK_LIST_SIZE p c e : quiet (CHECK_LIST_SIZE p c e).
Proof. unfold CHECK_LIST_SIZE. quiet_tac. Qed.

Lemma quiet_CHECK_INDEX f l : quiet (CHECK_INDEX f l).
Proof. unfold CHECK_INDEX. quiet_tac. Qed.

Lemma quiet_headerField f : quiet (headerField f).
Proof. unfold headerField. quiet_tac. Qed.

Hint Resolve quiet_SWAP_FIELD2 quiet_SWAP_FIELD4 quiet_SWAP_OFFSET4
  quiet_CHECK_PTR_RANGE quiet_CHECK_OFFSET_RANGE quiet_CHECK_LIST_SIZE
  quiet_CHECK_INDEX quiet_headerField : quiet.

Lemma quiet_swapMapItem item : quiet (swapMapItem item).
Proof. unfold swapMapItem. quiet_tac. Qed.

Lemma quiet_swapMapLoop count : forall item cnt left used first last,
  quiet (swapMapLoop count item cnt left used first last).
Proof.
  induction count as [|count IH]; intros; cbn [swapMapLoop].
  - quiet_tac.
  - pose proof quiet_swapMapItem. quiet_tac.
Qed.

Lemma quiet_missingSection u t o z d : quiet (missingSection u t o z d).
Proof. unfold missingSection. quiet_tac. Qed.

(** [swapMap] visits no item. *)
Lemma quiet_swapMap pMap : quiet (swapMap pMap).
Proof.
  unfold swapMap.
  pose proof quiet_swapMapLoop. pose proof quiet_missingSection. quiet_tac.
Qed.





End Quiet.


(** *** Code items: the handler list *)

(** A catch handler as the file format gives it: the offset at which it
    is encoded, its typed catches as pairs of a type index and an
    address, and the address of its catch-all, if it has one. *)
Record Handler := {
  hOffset : Z;
  hCatches : list (Z * Z);
  hCatchAll : option Z
}.

Section Handlers.
Context `{Host} `{DexFormat} `{Environment}.

(** The encoded handler list read as the format lays it out, with no
    check made: [size] typed catches, each a type index and an address;
    a handler is its signed size, [|size|] typed catches and, when the
    size is not positive, a catch-all address. *)
Fixpoint decodeCatches (n : nat) (ptr fileEnd : Z) : M (list (Z * Z) * Z) :=
  match n with
  | O => ret ([], ptr)
  | S n' =>
      let* (typeIdx, ptr, _) <~ readAndVerifyUnsignedLeb128 ptr fileEnd;;
      let* (addr, ptr, _) <~ readAndVerifyUnsignedLeb128 ptr fileEnd;;
      let* (cs, ptr) <~ decodeCatches n' ptr fileEnd;;
      ret ((typeIdx, addr) :: cs, ptr)
  end.

Definition decodeHandler (handlersBase offset fileEnd : Z) : M (Handler * Z) :=
  let* (size, ptr, _) <~
    readAndVerifySignedLeb128 (handlersBase + offset) fileEnd;;
  let* (cs, ptr) <~ decodeCatches (Z.to_nat (Z.abs size)) ptr fileEnd;;
  if size <=? 0 then
    let* (addr, ptr, _) <~ readAndVerifyUnsignedLeb128 ptr fileEnd;;
    ret ({| hOffset := offset; hCatches := cs; hCatchAll := Some addr |},
         u4 (ptr - handlersBase))
  else
    ret ({| hOffset := offset; hCatches := cs; hCatchAll := None |},
         u4 (ptr - handlersBase)).

Fixpoint decodeHandlers (n : nat) (handlersBase offset fileEnd : Z)
    : M (list Handler * Z) :=
  match n with
  | O => ret ([], offset)
  | S n' =>
      let* (h, next) <~ decodeHandler handlersBase offset fileEnd;;
      let* (hs, endOffset) <~ decodeHandlers n' handlersBase next fileEnd;;
      ret (h :: hs, endOffset)
  end.

(** A type index is below the size of the type table. *)
Definition typeOk (w : World) (typeIdx : Z) : Prop :=
  exists typeIdsSize,
    headerField off_typeIdsSize w = Ok typeIdsSize w /\ typeIdx < typeIdsSize.

(** A catch address is below the instruction count of the code item. *)
Definition addrOk (w : World) (code addr : Z) : Prop :=
  exists insnsSize,
    code_insnsSize code w = Ok insnsSize w /\ addr < insnsSize.

Definition handlerOk (w : World) (code : Z) (h : Handler) : Prop :=
  Forall (fun c => typeOk w (fst c) /\ addrOk w code (snd c)) (hCatches h)
  /\ match hCatchAll h with
     | Some addr => addrOk w code addr
     | None => True
     end.

Lemma readAndVerifySignedLeb128_Ok ptr limit w r w' :
  readAndVerifySignedLeb128 ptr limit w = Ok r w' -> w' = w.
Proof.
  unfold readAndVerifySignedLeb128.
  intros ([[v nx] u] & w1 & Hr & E)%bind_Ok.
  apply readLeb128_Ok in Hr as (-> & _).
  apply bind_Ok in E as (ok & w2 & ->%lebOkay_Ok & E).
  now apply ret_Ok in E.
Qed.

Lemma headerField_Ok f w v w' : headerField f w = Ok v w' -> w' = w.
Proof.
  unfold headerField.
  intros (st & w1 & (-> & ->)%getState_Ok & E)%bind_Ok.
  destruct (pHeader (state w)); [|discriminate].
  now apply load4_Ok in E.
Qed.

Lemma typedCatches_Ok n : forall code ptr fileEnd w p w',
  typedCatches n code ptr fileEnd w = Ok p w' ->
  w' = w
  /\ exists cs,
       decodeCatches n ptr fileEnd w = Ok (cs, p) w
       /\ Forall (fun c => typeOk w (fst c) /\ addrOk w code (snd c)) cs.
Proof.
  induction n as [|n IH]; intros code ptr fileEnd w p w' E;
    cbn [typedCatches] in E.
  - apply ret_Ok in E as (-> & ->). split; [reflexivity|].
    exists []. split; [reflexivity|constructor].
  - apply bind_Ok in E as ([[typeIdx p1] ok1] & w1 & R1 & E).
    destruct (readAndVerifyUnsignedLeb128_Ok _ _ _ _ _ _ _ R1) as (-> & _).
    apply bind_Ok in E as ([] & w1 & (_ & ->)%failIf_Ok & E).
    apply bind_Ok in E as (tsz & w1 & Hts & E).
    pose proof (headerField_Ok _ _ _ _ Hts) as ->.
    unfold CHECK_INDEX in E.
    apply bind_Ok in E as ([] & w1 & (Hidx & ->)%failIf_Ok & E).
    apply bind_Ok in E as ([[addr p2] ok2] & w1 & R2 & E).
    destruct (readAndVerifyUnsignedLeb128_Ok _ _ _ _ _ _ _ R2) as (-> & _).
    apply bind_Ok in E as ([] & w1 & (_ & ->)%failIf_Ok & E).
    apply bind_Ok in E as (isz & w1 & His & E).
    pose proof His as (-> & _)%load4_Ok.
    apply bind_Ok in E as ([] & w1 & (Haddr & ->)%failIf_Ok & E).
    apply IH in E as (-> & cs & Ed & Hcs).
    rewrite Z.geb_leb in Hidx, Haddr. apply Z.leb_gt in Hidx, Haddr.
    split; [reflexivity|]. exists ((typeIdx, addr) :: cs). split.
    + cbn [decodeCatches].
      rewrite (bind_Ok_l _ _ _ _ _ R1), (bind_Ok_l _ _ _ _ _ R2),
        (bind_Ok_l _ _ _ _ _ Ed). reflexivity.
    + constructor; [|exact Hcs]. split; cbn [fst snd].
      * now exists tsz.
      * now exists isz.
Qed.

Lemma oneHandler_Ok code handlersBase offset fileEnd w next w' :
  oneHandler code handlersBase offset fileEnd w = Ok next w' ->
  w' = w
  /\ exists h,
       decodeHandler handlersBase offset fileEnd w = Ok (h, next) w
       /\ hOffset h = offset
       /\ handlerOk w code h.
Proof.
  unfold oneHandler.
  intros ([[size p1] ok] & w1 & R1 & E)%bind_Ok.
  pose proof (readAndVerifySignedLeb128_Ok _ _ _ _ _ R1) as ->.
  apply bind_Ok in E as ([] & w1 & (_ & ->)%failIf_Ok & E).
  apply bind_Ok in E as ([] & w1 & (_ & ->)%failIf_Ok & E).
  apply bind_Ok in E as (p2 & w1 & Htc & E).
  replace (if size <=? 0 then - size else size) with (Z.abs size) in Htc
    by (destruct (Z.leb_spec size 0); lia).
  apply typedCatches_Ok in Htc as (-> & cs & Ed & Hcs).
  unfold decodeHandler.
  rewrite (bind_Ok_l _ _ _ _ _ R1), (bind_Ok_l _ _ _ _ _ Ed).
  destruct (size <=? 0).
  - apply bind_Ok in E as (p3 & w1 & Hall & E).
    apply bind_Ok in Hall as ([[addr p4] ok4] & w2 & R4 & Hall).
    destruct (readAndVerifyUnsignedLeb128_Ok _ _ _ _ _ _ _ R4) as (-> & _).
    apply bind_Ok in Hall as ([] & w2 & (_ & ->)%failIf_Ok & Hall).
    apply bind_Ok in Hall as (isz & w2 & His & Hall).
    pose proof His as (-> & _)%load4_Ok.
    apply bind_Ok in Hall as ([] & w2 & (Haddr & ->)%failIf_Ok & Hall).
    apply ret_Ok in Hall as (-> & ->). apply ret_Ok in E as (-> & ->).
    rewrite Z.geb_leb in Haddr. apply Z.leb_gt in Haddr.
    split; [reflexivity|]. eexists. split.
    + rewrite (bind_Ok_l _ _ _ _ _ R4). reflexivity.
    + split; [reflexivity|]. split; [exact Hcs|]. now exists isz.
  - apply bind_Ok in E as (p3 & w1 & (-> & ->)%ret_Ok & E).
    apply ret_Ok in E as (-> & ->).
    split; [reflexivity|]. eexists. split; [reflexivity|].
    split; [reflexivity|]. split; [exact Hcs|exact I].
Qed.

Lemma handlersLoop_Ok n : forall code handlersBase offset fileEnd offs w
    endOffset offs' w',
  handlersLoop n code handlersBase offset fileEnd offs w
  = Ok (endOffset, offs') w' ->
  w' = w
  /\ exists hs,
       decodeHandlers n handlersBase offset fileEnd w = Ok (hs, endOffset) w
       /\ offs' = offs ++ map hOffset hs
       /\ Forall (handlerOk w code) hs.
Proof.
  induction n as [|n IH];
    intros code handlersBase offset fileEnd offs w endOffset offs' w' E;
    cbn [handlersLoop] in E.
  - apply ret_Ok in E as ([= -> ->] & ->). split; [reflexivity|].
    exists []. split; [reflexivity|]. split; [|constructor].
    cbn [map]. now rewrite app_nil_r.
  - apply bind_Ok in E as (next & w1 & Hone & E).
    apply oneHandler_Ok in Hone as (-> & h & Ed & Hoff & Hok).
    apply IH in E as (-> & hs & Eds & Hoffs & Hoks).
    split; [reflexivity|]. exists (h :: hs). split; [|split].
    + cbn [decodeHandlers].
      rewrite (bind_Ok_l _ _ _ _ _ Ed), (bind_Ok_l _ _ _ _ _ Eds). reflexivity.
    + rewrite Hoffs. cbn [map]. rewrite Hoff, <- app_assoc. reflexivity.
    + now constructor.
Qed.
End Handlers.


(** *** Code items: the tries *)

(** A try item as the file format gives it. *)
Record Try := { startAddr : Z; insnCount : Z; handlerOff : Z }.

Definition decodeTry (m : list byte) (tries : Z) : option Try :=
  match fileValue m tries 4, fileValue m (tries + 4) 2,
        fileValue m (tries + 6) 2 with
  | Some s, Some c, Some h =>
      Some {| startAddr := s; insnCount := c; handlerOff := h |}
  | _, _, _ => None
  end.

Fixpoint decodeTries (m : list byte) (tries : Z) (count : nat)
    : option (list Try) :=
  match count with
  | O => Some []
  | S count' =>
      match decodeTry m tries, decodeTries m (tries + 8) count' with
      | Some t, Some ts => Some (t :: ts)
      | _, _ => None
      end
  end.

(** The conditions on the tries of a code item of [insnsSize] code
    units: each starts at or after the end of the one before it and below
    [insnsSize], ends at or below [insnsSize], and names the offset of a
    handler. *)
Fixpoint triesOk (insnsSize : Z) (handlerOffs : list Z) (lastEnd : Z)
    (ts : list Try) : Prop :=
  match ts with
  | [] => True
  | t :: ts' =>
      lastEnd <= startAddr t
      /\ startAddr t < insnsSize
      /\ startAddr t + insnCount t <= insnsSize
      /\ In (handlerOff t) handlerOffs
      /\ triesOk insnsSize handlerOffs (startAddr t + insnCount t) ts'
  end.

Lemma decodeTries_frame m m' : forall count tries,
  (forall off n, tries <= off -> getBytes m' off n = getBytes m off n) ->
  decodeTries m' tries count = decodeTries m tries count.
Proof.
  induction count as [|count IH]; intros tries Hf; simpl; [reflexivity|].
  unfold decodeTry, fileValue. rewrite !Hf by lia.
  rewrite (IH (tries + 8)); [reflexivity|].
  intros off n Hoff. apply Hf. lia.
Qed.

Section Tries.
Context `{Host} `{DexFormat} `{Environment}.

Lemma CHECK_PTR_RANGE_Ok a b w u w' :
  CHECK_PTR_RANGE a b w = Ok u w' ->
  w' = w /\ checkPtrRange (state w) a b = true.
Proof.
  unfold CHECK_PTR_RANGE, bind; cbn [getState].
  intros (E & ->)%failIf_Ok. split; [reflexivity|].
  now apply negb_false_iff in E.
Qed.

Lemma CHECK_LIST_SIZE_Ok ptr count elemSize w u w' :
  CHECK_LIST_SIZE ptr count elemSize w = Ok u w' ->
  w' = w /\ count * elemSize < 2 ^ 32.
Proof.
  unfold CHECK_LIST_SIZE, bind; cbn [getState].
  intros (E & ->)%failIf_Ok. split; [reflexivity|].
  apply orb_false_iff in E as (E & _). apply negb_false_iff in E.
  unfold safe_mul in E. now apply Z.ltb_lt in E.
Qed.

Lemma swapTry_Ok tries w u w1 :
  swapTry tries w = Ok u w1 ->
  exists sb cb hb,
    getBytes (image w) tries 4 = Some sb
    /\ getBytes (image w) (tries + 4) 2 = Some cb
    /\ getBytes (image w) (tries + 6) 2 = Some hb
    /\ sameOutside tries (tries + 8) w w1
    /\ load4 (tries + 0) w1 = Ok (le_combine sb) w1
    /\ load2 (tries + 4) w1 = Ok (le_combine cb) w1
    /\ load2 (tries + 6) w1 = Ok (le_combine hb) w1.
Proof.
  unfold swapTry. rewrite Z.add_0_r.
  intros ([] & wa & (sb & Hs & S1 & G1)%SWAP_FIELD4_Ok & E)%bind_Ok.
  apply bind_Ok in E as ([] & wb & (cb & Hc & S2 & G2)%SWAP_FIELD2_Ok & E).
  apply SWAP_FIELD2_Ok in E as (hb & Hh & S3 & G3).
  pose proof S1 as (_ & _ & _ & F1).
  pose proof S2 as (_ & _ & _ & F2).
  pose proof S3 as (_ & _ & _ & F3).
  exists sb, cb, hb.
  split; [exact Hs|].
  split; [rewrite <- (F1 (tries + 4) 2) by lia; exact Hc|].
  split; [rewrite <- (F1 (tries + 6) 2), <- (F2 (tries + 6) 2) by lia;
          exact Hh|].
  split.
  { apply (sameOutside_trans _ _ tries (tries + 6) (tries + 6) (tries + 6 + 2)
             w wb w1); try lia; [|exact S3].
    apply (sameOutside_trans _ _ tries (tries + 4) (tries + 4) (tries + 4 + 2)
             w wa wb); try lia; assumption. }
  split; [apply load4_swapped;
          rewrite (F3 tries 4), (F2 tries 4) by lia; exact G1|].
  split; [apply load2_swapped; rewrite (F3 (tries + 4) 2) by lia; exact G2|].
  apply load2_swapped. exact G3.
Qed.

Lemma triesLoop_Ok count : forall code tries lastEnd offs w u w' ib,
  triesLoop count code tries lastEnd offs w = Ok u w' ->
  getBytes (image w) (code + 12) 4 = Some ib ->
  code + 16 <= tries ->
  hostValue ib < 2 ^ 31 ->
  exists ts,
    decodeTries (image w) tries count = Some ts
    /\ triesOk (hostValue ib) offs lastEnd ts
    /\ sameOutside tries (tries + 8 * Z.of_nat count) w w'.
Proof.
  induction count as [|count IH];
    intros code tries lastEnd offs w u w' ib E Hib Hbelow Hsmall;
    cbn [triesLoop] in E.
  - apply ret_Ok in E as (_ & ->). exists []. split; [reflexivity|].
    split; [exact I|apply sameOutside_refl].
  - apply bind_Ok in E as ([] & w1 & Hswap & E).
    apply swapTry_Ok in Hswap as (sb & cb & hb & Hs & Hc & Hh & S1 & Ls & Lc & Lh).
    pose proof S1 as (_ & _ & _ & F1).
    assert (Hib1 : getBytes (image w1) (code + 12) 4 = Some ib)
      by (rewrite F1 by lia; exact Hib).
    assert (Hsize : code_insnsSize code w1 = Ok (hostValue ib) w1)
      by (unfold code_insnsSize; now rewrite load4_spec, Hib1).
    rewrite (bind_Ok_l _ _ _ _ _ Ls) in E.
    apply bind_Ok in E as ([] & w2 & (Hord & ->)%failIf_Ok & E).
    rewrite (bind_Ok_l _ _ _ _ _ Hsize) in E.
    apply bind_Ok in E as ([] & w2 & (Hstart & ->)%failIf_Ok & E).
    rewrite (bind_Ok_l _ _ _ _ _ Lh) in E.
    apply bind_Ok in E as ([] & w2 & (Hoff & ->)%failIf_Ok & E).
    rewrite (bind_Ok_l _ _ _ _ _ Lc) in E.
    rewrite (bind_Ok_l _ _ _ _ _ Hsize) in E.
    apply bind_Ok in E as ([] & w2 & (Hend & ->)%failIf_Ok & E).
    apply Z.ltb_ge in Hord.
    rewrite Z.geb_leb in Hstart. apply Z.leb_gt in Hstart.
    apply negb_false_iff, existsb_exists in Hoff as (o & Hin & Heq).
    apply Z.eqb_eq in Heq. subst o.
    pose proof (le_combine_bound sb) as Bs.
    pose proof (le_combine_bound cb) as Bc.
    rewrite (getBytes_length4 _ _ _ Hs) in Bs.
    rewrite (getBytes_length2 _ _ _ Hc) in Bc.
    change (2 ^ (8 * Z.of_nat 4)) with (2 ^ 32) in Bs.
    change (2 ^ (8 * Z.of_nat 2)) with (2 ^ 16) in Bc.
    assert (Hsum : u4 (le_combine sb + le_combine cb)
                   = le_combine sb + le_combine cb)
      by (unfold u4; apply Z.mod_small; lia).
    rewrite Hsum in E.
    rewrite Z.gtb_ltb in Hend. apply Z.ltb_ge in Hend. rewrite Hsum in Hend.
    apply (IH code (tries + sizeofDexTry) _ offs w1 _ w' ib) in E
      as (ts & Hdec & Hok & S2); try assumption;
      [|unfold sizeofDexTry; lia].
    unfold sizeofDexTry in *.
    exists ({| startAddr := le_combine sb; insnCount := le_combine cb;
               handlerOff := le_combine hb |} :: ts).
    split; [|split].
    + cbn [decodeTries]. unfold decodeTry, fileValue.
      rewrite Hs, Hc, Hh. cbn [option_map].
      rewrite <- (decodeTries_frame (image w) (image w1)), Hdec; [reflexivity|].
      intros off n Hoff. apply F1. lia.
    + cbn [triesOk startAddr insnCount handlerOff]. auto.
    + apply (sameOutside_trans _ _ tries (tries + 8) (tries + 8)
               (tries + 8 + 8 * Z.of_nat count) w w1 w'); try lia; assumption.
Qed.

Lemma swapInsns_Ok count : forall insns w p w',
  swapInsns count insns w = Ok p w' ->
  p = insns + 2 * Z.of_nat count
  /\ sameOutside insns (insns + 2 * Z.of_nat count) w w'.
Proof.
  induction count as [|count IH]; intros insns w p w' E; cbn [swapInsns] in E.
  - apply ret_Ok in E as (-> & ->). split; [lia|apply sameOutside_refl].
  - apply bind_Ok in E as ([] & w1 & (bs & _ & S1 & _)%SWAP_FIELD2_Ok & E).
    apply IH in E as (-> & S2). split; [lia|].
    apply (sameOutside_trans _ _ insns (insns + 2) (insns + 2)
             (insns + 2 + 2 * Z.of_nat count) w w1 w'); try lia; assumption.
Qed.

Lemma dexGetTries_Ok code w tries w' :
  dexGetTries code w = Ok tries w' ->
  w' = w /\ code + 16 <= tries.
Proof.
  unfold dexGetTries, code_insnsSize, code_insns.
  intros (isz & w1 & Hl & E)%bind_Ok.
  apply load4_Ok in Hl as (-> & ib & Hib & ->).
  apply ret_Ok in E as (-> & ->). split; [reflexivity|].
  pose proof (hostValue_range4 ib (getBytes_length4 _ _ _ Hib)).
  destruct (negb _); lia.
Qed.

Lemma dexGetCatchHandlerData_Ok code w base w' :
  dexGetCatchHandlerData code w = Ok base w' ->
  w' = w
  /\ exists tries triesSize,
       dexGetTries code w = Ok tries w
       /\ code_triesSize code w = Ok triesSize w
       /\ base = tries + sizeofDexTry * triesSize.
Proof.
  unfold dexGetCatchHandlerData.
  intros (tries & w1 & Ht & E)%bind_Ok.
  pose proof (dexGetTries_Ok _ _ _ _ Ht) as (-> & _).
  apply bind_Ok in E as (triesSize & w1 & Hs & E).
  pose proof Hs as (-> & _)%load2_Ok.
  apply ret_Ok in E as (-> & ->). split; [reflexivity|].
  now exists tries, triesSize.
Qed.

(** What [swapTriesAndCatches] has checked when it returns a pointer. *)
Lemma swapTriesAndCatches_Ok code w p w' ib :
  swapTriesAndCatches code w = Ok p w' ->
  getBytes (image w) (code + 12) 4 = Some ib ->
  hostValue ib < 2 ^ 31 ->
  exists tries triesSize base handlersSize firstPtr hs endOffset ts,
    dexGetTries code w = Ok tries w
    /\ code_triesSize code w = Ok triesSize w
    /\ dexGetCatchHandlerData code w = Ok base w
    /\ readAndVerifyUnsignedLeb128 base (fileLen (state w)) w
       = Ok (handlersSize, firstPtr, true) w
    /\ 0 < handlersSize < 65536
    /\ decodeHandlers (Z.to_nat handlersSize) base (u4 (firstPtr - base))
         (fileLen (state w)) w = Ok (hs, endOffset) w
    /\ Forall (handlerOk w code) hs
    /\ decodeTries (image w) tries (Z.to_nat triesSize) = Some ts
    /\ triesOk (hostValue ib) (map hOffset hs) 0 ts
    /\ p = base + endOffset.
Proof.
  intros E Hib Hsmall. unfold swapTriesAndCatches in E.
  apply bind_Ok in E as (base & w1 & Hbase & E).
  pose proof (dexGetCatchHandlerData_Ok _ _ _ _ Hbase)
    as (-> & tries & triesSize & Htries & Hsize & Hb).
  apply bind_Ok in E as (st & w1 & (-> & ->)%getState_Ok & E).
  apply bind_Ok in E as ([[handlersSize firstPtr] okay] & w1 & R & E).
  destruct (readAndVerifyUnsignedLeb128_Ok _ _ _ _ _ _ _ R) as (-> & _ & Hhs).
  apply bind_Ok in E as ([] & w1 & (Hokay & ->)%failIf_Ok & E).
  apply negb_false_iff in Hokay. subst okay.
  apply bind_Ok in E as ([] & w1 & (Hrange & ->)%failIf_Ok & E).
  apply orb_false_iff in Hrange as (Hnz & Hlt).
  apply Z.eqb_neq in Hnz. rewrite Z.geb_leb in Hlt. apply Z.leb_gt in Hlt.
  apply bind_Ok in E as ([endOffset offs] & w1 & Hset & E).
  unfold setHandlerOffsAndVerify in Hset.
  apply bind_Ok in Hset as (st & w2 & (-> & ->)%getState_Ok & Hset).
  rewrite (bind_Ok_l _ _ _ _ _ Hbase) in Hset.
  apply handlersLoop_Ok in Hset as (-> & hs & Hdec & Hoffs & Hoks).
  cbn [app] in Hoffs. subst offs.
  apply bind_Ok in E as ([] & w1 & (_ & ->)%failIf_Ok & E).
  rewrite (bind_Ok_l _ _ _ _ _ Htries), (bind_Ok_l _ _ _ _ _ Hsize) in E.
  apply bind_Ok in E as ([] & w1 & (-> & _)%CHECK_LIST_SIZE_Ok & E).
  apply bind_Ok in E as ([] & w1 & Hloop & E).
  apply ret_Ok in E as (-> & ->).
  pose proof (dexGetTries_Ok _ _ _ _ Htries) as (_ & Hbelow).
  destruct (triesLoop_Ok _ _ _ _ _ _ _ _ ib Hloop Hib Hbelow Hsmall)
    as (ts & Hts & Hok & _).
  exists tries, triesSize, base, handlersSize, firstPtr, hs, endOffset, ts.
  repeat (split; [first [assumption | reflexivity | lia]|]). reflexivity.
Qed.

(** C3.  When [swapCodeItem] accepts a code item, let [insnsSize] and
    [triesSize] be the instruction count and the number of tries the file
    gives in the item's header (little-endian, at offsets 12 and 6 of the
    item), and let [wa] be the file once the item's header and
    instructions are swapped, in which the host reads these two values.
    If the item has no tries, the call is over there and returns the end
    of the instructions.  If the item has tries, the call goes on from
    [wa] with [swapTriesAndCatches], whose result is its own, and: the
    handlers count read at the start of the handler list
    is strictly between 0 and 65536; in every handler of the list, every
    type index is below the size of the type table and every catch
    address, the catch-all's included, is below the instruction count; and
    every try starts at or after the end of the one before it and below
    the instruction count, ends (start address plus instruction count of
    the try) at or below the instruction count, and names the offset of
    one of the handlers of the list. *)
Theorem tries_and_catches_checked (ptr : Z) (w : World) (p : Z)
    (w' : World) :
  swapCodeItem ptr w = Ok p w' ->
  exists wa insnsSize triesSize,
    fileValue (image w) (ptr + 12) 4 = Some insnsSize
    /\ fileValue (image w) (ptr + 6) 2 = Some triesSize
    /\ sameOutside ptr (ptr + 16 + 2 * insnsSize) w wa
    /\ code_insnsSize ptr wa = Ok insnsSize wa
    /\ code_triesSize ptr wa = Ok triesSize wa
    /\ (triesSize = 0 -> p = ptr + 16 + 2 * insnsSize /\ w' = wa)
    /\ (triesSize <> 0 ->
        exists tries base handlersSize firstPtr hs endOffset ts,
          dexGetTries ptr wa = Ok tries wa
          /\ dexGetCatchHandlerData ptr wa = Ok base wa
          /\ readAndVerifyUnsignedLeb128 base (fileLen (state wa)) wa
             = Ok (handlersSize, firstPtr, true) wa
          /\ 0 < handlersSize < 65536
          /\ decodeHandlers (Z.to_nat handlersSize) base
               (u4 (firstPtr - base)) (fileLen (state wa)) wa
             = Ok (hs, endOffset) wa
          /\ Forall (handlerOk wa ptr) hs
          /\ decodeTries (image wa) tries (Z.to_nat triesSize) = Some ts
          /\ triesOk insnsSize (map hOffset hs) 0 ts
          /\ p = base + endOffset
          /\ swapTriesAndCatches ptr wa = Ok p w').
Proof.
  intros E. unfold swapCodeItem, SWAP_OFFSET4 in E.
  apply bind_Ok in E as ([] & w0 & (-> & _)%CHECK_PTR_RANGE_Ok & E).
  apply bind_Ok in E as ([] & w1 & (b1 & _ & S1 & _)%SWAP_FIELD2_Ok & E).
  apply bind_Ok in E as ([] & w2 & (b2 & _ & S2 & _)%SWAP_FIELD2_Ok & E).
  apply bind_Ok in E as ([] & w3 & (b3 & _ & S3 & _)%SWAP_FIELD2_Ok & E).
  apply bind_Ok in E
    as ([] & w4 & (b4 & Hb4 & S4 & Hb4')%SWAP_FIELD2_Ok & E).
  apply bind_Ok in E as ([] & w5 & (b5 & _ & S5 & _)%SWAP_FIELD4_Ok & E).
  apply bind_Ok in E
    as ([] & w6 & (b6 & Hb6 & S6 & Hb6')%SWAP_FIELD4_Ok & E).
  assert (T3 : sameOutside ptr (ptr + 6) w w3).
  { apply (sameOutside_trans _ _ ptr (ptr + 4) (ptr + 4) (ptr + 4 + 2)
             w w2 w3); try lia; [|exact S3].
    apply (sameOutside_trans _ _ (ptr + 0) (ptr + 0 + 2) (ptr + 2)
             (ptr + 2 + 2) w w1 w2); try lia; [exact S1|exact S2]. }
  assert (T5 : sameOutside ptr (ptr + 12) w w5).
  { apply (sameOutside_trans _ _ ptr (ptr + 8) (ptr + 8) (ptr + 8 + 4)
             w w4 w5); try lia; [|exact S5].
    apply (sameOutside_trans _ _ ptr (ptr + 6) (ptr + 6) (ptr + 6 + 2)
             w w3 w4); try lia; [exact T3|exact S4]. }
  assert (T6 : sameOutside ptr (ptr + 16) w w6).
  { apply (sameOutside_trans _ _ ptr (ptr + 12) (ptr + 12) (ptr + 12 + 4)
             w w5 w6); try lia; [exact T5|exact S6]. }
  (* the two counts as the file gives them *)
  assert (Hfile4 : getBytes (image w) (ptr + 6) 2 = Some b4).
  { destruct T3 as (_ & _ & _ & F3). rewrite <- (F3 _ _) by lia. exact Hb4. }
  assert (Hfile6 : getBytes (image w) (ptr + 12) 4 = Some b6).
  { destruct T5 as (_ & _ & _ & F5). rewrite <- (F5 _ _) by lia. exact Hb6. }
  assert (Hb4'' : getBytes (image w6) (ptr + 6) 2 = Some (swapped b4)).
  { destruct S5 as (_ & _ & _ & F5), S6 as (_ & _ & _ & F6).
    rewrite F6, F5 by lia. exact Hb4'. }
  clear S1 S2 S3 S4 S5 S6 T3 T5 Hb4 Hb4' Hb6 w1 w2 w3 w4 w5 b1 b2 b3 b5.
  apply bind_Ok in E as (count & w7 & Hcount & E).
  apply load4_Ok in Hcount as (-> & ib & Hib & ->).
  pose proof (hostValue_range4 ib (getBytes_length4 _ _ _ Hib)) as Hrange.
  apply bind_Ok in E as ([] & w7 & (-> & Hmul)%CHECK_LIST_SIZE_Ok & E).
  apply bind_Ok in E as (insns & wa & Hinsns & E).
  apply swapInsns_Ok in Hinsns as (-> & Sa).
  rewrite Z2Nat.id in Sa by lia. unfold code_insns in Sa.
  pose proof Sa as (_ & _ & _ & Fa).
  assert (Hiba : getBytes (image wa) (ptr + 12) 4 = Some ib)
    by (rewrite Fa by lia; exact Hib).
  assert (Hinsns : hostValue ib = le_combine b6).
  { assert (ib = swapped b6) as -> by congruence.
    apply hostValue_swapped. }
  apply bind_Ok in E as (triesSize & w8 & Hsize & E).
  pose proof Hsize as (-> & _)%load2_Ok.
  assert (Hcount4 : triesSize = le_combine b4).
  { assert (Hl : load2 (ptr + 6) wa = Ok (le_combine b4) wa).
    { apply load2_swapped. rewrite Fa by lia. exact Hb4''. }
    unfold code_triesSize in Hsize. congruence. }
  exists wa, (hostValue ib), triesSize.
  split; [unfold fileValue; now rewrite Hfile6, Hinsns|].
  split; [unfold fileValue; now rewrite Hfile4, Hcount4|].
  split.
  { apply (sameOutside_trans _ _ ptr (ptr + 16) (ptr + 16)
             (ptr + 16 + 2 * hostValue ib) w w6 wa); try lia; assumption. }
  split; [unfold code_insnsSize; now rewrite load4_spec, Hiba|].
  split; [exact Hsize|].
  split.
  { intros Hz. destruct (Z.eqb_spec triesSize 0) as [_|]; [|contradiction].
    apply ret_Ok in E as (-> & ->). unfold code_insns.
    rewrite Z2Nat.id by lia. split; [lia|reflexivity]. }
  intros Hnz. destruct (Z.eqb_spec triesSize 0) as [|_]; [contradiction|].
  apply bind_Ok in E as ([] & w8 & Hspacer & E).
  assert (w8 = wa) as ->.
  { destruct (negb _) in Hspacer.
    - apply bind_Ok in Hspacer as (sp & w9 & (-> & _)%load2_Ok & Hspacer).
      now apply failIf_Ok in Hspacer.
    - now apply ret_Ok in Hspacer. }
  destruct (swapTriesAndCatches_Ok ptr wa p w' ib E Hiba ltac:(lia))
    as (tries & triesSize' & base & handlersSize & firstPtr & hs & endOffset
        & ts & Htries & Hsize' & Hbase & Hread & Hhs & Hdec & Hoks & Hts
        & Hok & Hp).
  assert (triesSize' = triesSize) as -> by congruence.
  exists tries, base, handlersSize, firstPtr, hs, endOffset, ts.
  repeat (split; [assumption|]). exact E.
Qed.
End Tries.

End DexFacts.

(** Concrete DEX data: a little-endian host, the constants of version 035
    of the format, and an environment whose other visitors accept every
    item. *)
Module DexExample.
Import Dex DexFacts.
Import Stdlib.Init.Byte.

#[local] Instance littleEndianHost : Host := {| bigEndian := false |}.

#[local] Instance dex035 : DexFormat :=
  {| DEX_MAGIC := [x64; x65; x78; x0a];
     DEX_MAGIC_VERS := [x30; x33; x35; x00];
     kDexEndianConstant := 305419896;
     kSHA1DigestLen := 20;
     typeCode := fun t =>
       match t with
       | kDexTypeHeaderItem => 0
       | kDexTypeStringIdItem => 1
       | kDexTypeTypeIdItem => 2
       | kDexTypeProtoIdItem => 3
       | kDexTypeFieldIdItem => 4
       | kDexTypeMethodIdItem => 5
       | kDexTypeClassDefItem => 6
       | kDexTypeMapList => 4096
       | kDexTypeTypeList => 4097
       | kDexTypeAnnotationSetRefList => 4098
       | kDexTypeAnnotationSetItem => 4099
       | kDexTypeClassDataItem => 8192
       | kDexTypeCodeItem => 8193
       | kDexTypeStringDataItem => 8194
       | kDexTypeDebugInfoItem => 8195
       | kDexTypeAnnotationItem => 8196
       | kDexTypeEncodedArrayItem => 8197
       | kDexTypeAnnotationsDirectoryItem => 8198
       end |}.

#[local] Instance acceptingEnvironment : Environment :=
  {| dexDataMapAlloc := fun n => Some {| max := n; entries := [] |};
     swapStringIdItem := fun p => ret (p + 4);
     swapTypeIdItem := fun p => ret (p + 4);
     swapProtoIdItem := fun p => ret (p + 12);
     swapFieldIdItem := fun p => ret (p + 8);
     swapMethodIdItem := fun p => ret (p + 8);
     swapClassDefItem := fun p => ret (p + 32);
     swapTypeList := fun p => ret (p + 4);
     swapAnnotationSetRefList := fun p => ret (p + 4);
     swapAnnotationSetItem := fun p => ret (p + 4);
     intraVerifyClassDataItem := fun p => ret (p + 4);
     intraVerifyDebugInfoItem := fun p => ret (p + 1);
     intraVerifyAnnotationItem := fun p => ret (p + 1);
     intraVerifyEncodedArrayItem := fun p => ret (p + 1);
     swapAnnotationsDirectoryItem := fun p => ret (p + 16);
     crossVerifyEverything := fun _ => ret tt |}.

(** A file that consists of one item, at offset 0. *)
Definition itemWorld (bs : list byte) : World :=
  {| image := bs;
     state := {| pHeader := None; fileLen := Z.of_nat (length bs);
                 pDataMap := None; pDexFile := false; previousItem := None |};
     visited := [] |}.

(** A header of 112 bytes whose file_size field says 0x80000000. *)
Definition oversized : list byte :=
  [x64; x65; x78; x0a; x30; x33; x35; x00]
  ++ replicate 4 x00 ++ replicate 20 x00
  ++ [x00; x00; x00; x80]
  ++ replicate 76 x00.

(** C1.  The second of the three checks misses its purpose when the
    declared file size does not fit an [int]: for a buffer of 112 bytes
    with the right magic and version whose file_size field is 0x80000000,
    [len] = 112 is smaller than the declared size, yet the length check
    passes (the declared size is compared as the [int] -2^31), and the
    checksum is then computed over bytes beyond the buffer. *)
Theorem length_check_misses_large_declared_size :
  fileValue oversized off_fileSize 4 = Some 2147483648
  /\ Z.of_nat (length oversized) = 112
  /\ checkMagic 0 (startWorld oversized) = Ok tt (startWorld oversized)
  /\ checkLength 0 112 (startWorld oversized) = Ok tt (startWorld oversized)
  /\ checkChecksum 0 (startWorld oversized) = Undefined
  /\ dexFixByteOrdering oversized 112 = Undefined.
Proof. vm_compute. repeat split. Qed.

(** C4, as stated, fails: the two-byte encoding C1 BF of the code point
    0x7F is rejected as an illegal representation. *)
Lemma two_byte_encoding_of_0x7f_is_rejected :
  intraVerifyStringDataItem 0 (itemWorld [x01; xc1; xbf; x00])
  = Reject IllegalRepresentation (itemWorld [x01; xc1; xbf; x00]).
Proof. vm_compute. reflexivity. Qed.

(** C4, amended.  A string-data item declaring utf16_size = 1 whose
    payload is the one byte 0x7F followed by a zero byte is accepted; one
    whose payload is the zero byte alone is rejected as shorter than
    indicated; one with a non-zero byte where the terminating zero should be
    is rejected as longer than indicated.  Whenever an item is accepted,
    decoding consumed exactly the declared number of units, each starting
    inside the file with a non-zero byte, and then saw the zero byte.
    The two-byte encoding C1 BF of the code point 0x7F is rejected as an
    illegal representation, and so is every two-byte encoding of a
    non-zero value below 0x80 that decoding reaches inside the file, as
    the first unit or after any number of good units short of the
    declared size; every value from 1 to 0x7F has such an encoding. *)
Theorem string_data_edge_cases :
  intraVerifyStringDataItem 0 (itemWorld [x01; x7f; x00])
  = Ok 3 (itemWorld [x01; x7f; x00])
  /\ intraVerifyStringDataItem 0 (itemWorld [x01; x00])
     = Reject StringShorter (itemWorld [x01; x00])
  /\ intraVerifyStringDataItem 0 (itemWorld [x01; x7f; x41; x00])
     = Reject StringLonger (itemWorld [x01; x7f; x41; x00])
  /\ (forall ptr w p w',
        intraVerifyStringDataItem ptr w = Ok p w' ->
        exists utf16Size data units,
          readAndVerifyUnsignedLeb128 ptr (fileLen (state w)) w
          = Ok (utf16Size, data, true) w
          /\ Z.of_nat (length units) = utf16Size
          /\ unitsOk w data units
          /\ p = data + fold_right Z.add 0 units + 1
          /\ getBytes (image w) (p - 1) 1 = Some [x00]
          /\ w' = w)
  /\ (forall ptr w utf16Size data k dataK b1 b2,
        readAndVerifyUnsignedLeb128 ptr (fileLen (state w)) w
        = Ok (utf16Size, data, true) w ->
        (k < Z.to_nat utf16Size)%nat ->
        stringUnits k utf16Size data w = Ok dataK w ->
        dataK < fileLen (state w) ->
        getBytes (image w) dataK 1 = Some [b1] ->
        getBytes (image w) (dataK + 1) 1 = Some [b2] ->
        twoByteEncoding b1 b2 ->
        twoByteValue b1 b2 <> 0 ->
        twoByteValue b1 b2 < 128 ->
        intraVerifyStringDataItem ptr w = Reject IllegalRepresentation w)
  /\ intraVerifyStringDataItem 0 (itemWorld [x01; xc1; xbf; x00])
     = Reject IllegalRepresentation (itemWorld [x01; xc1; xbf; x00])
  /\ twoByteEncoding xc1 xbf
  /\ twoByteValue xc1 xbf = 127
  /\ (forall v, 0 < v < 128 ->
        exists b1 b2, twoByteEncoding b1 b2 /\ twoByteValue b1 b2 = v).
Proof.
  split; [vm_compute; reflexivity|].
  split; [vm_compute; reflexivity|].
  split; [vm_compute; reflexivity|].
  split; [exact intraVerifyStringDataItem_Ok|].
  split; [exact intraVerifyStringDataItem_small_two_byte|].
  split; [vm_compute; reflexivity|].
  split; [split; vm_compute; reflexivity|].
  split; [vm_compute; reflexivity|].
  intros v Hv.
  exists (if v <? 64 then xc0 else xc1), (byte.of_Z (128 + v mod 64)).
  assert (Hn : exists n, v = Z.of_nat n /\ (n < 128)%nat)
    by (exists (Z.to_nat v); lia).
  destruct Hn as (n & -> & Hn).
  do 128 (destruct n as [|n];
          [first [lia | split; [split|]; vm_compute; reflexivity]|]).
  lia.
Qed.






(** A file of 192 bytes: the header; at offset 112 two code items of
    one instruction and no tries each, 18 bytes long, so that the second
    starts at offset 132, two bytes after the first ends, and two bytes of
    padding follow it; at offset 152 the map, which lists the header, the
    two code items and itself.  [gap] is the first of the two bytes
    between the code items. *)
Definition gapFileBody (gap : byte) : list byte :=
  replicate 20 x00
  ++ le_split 4 192 ++ le_split 4 112 ++ le_split 4 305419896
  ++ replicate 8 x00 ++ le_split 4 152 ++ replicate 48 x00
  ++ le_split 4 80 ++ le_split 4 112
  ++ replicate 12 x00 ++ le_split 4 1 ++ replicate 2 x00
  ++ [gap; x00]
  ++ replicate 12 x00 ++ le_split 4 1 ++ replicate 2 x00
  ++ replicate 2 x00
  ++ le_split 4 3
  ++ le_split 2 0 ++ le_split 2 0 ++ le_split 4 1 ++ le_split 4 0
  ++ le_split 2 8193 ++ le_split 2 0 ++ le_split 4 2 ++ le_split 4 112
  ++ le_split 2 4096 ++ le_split 2 0 ++ le_split 4 1 ++ le_split 4 152.

Definition gapFile (gap : byte) : list byte :=
  [x64; x65; x78; x0a; x30; x33; x35; x00]
  ++ le_split 4 (adler32 (adler32 0 None) (Some (gapFileBody gap)))
  ++ gapFileBody gap.

(** The world with which the run on [gapFile x01] comes to the section
    of the code items, and the world after the first of them was
    visited. *)
Definition gapWalk : World :=
  {| image := gapFile x01;
     state := {| pHeader := Some 0; fileLen := 192;
                 pDataMap := Some {| max := 3; entries := [] |};
                 pDexFile := false; previousItem := None |};
     visited := [] |}.

Definition gapAfterFirst : World :=
  Eval vm_compute in
    match iterateLoop 1 112 swapCodeItem (u4 (4 - 1)) 8193
            (sectionStart gapWalk) with
    | Ok _ w => w
    | _ => gapWalk
    end.

Lemma padding_between_items_witness :
  reachesSection (gapFile x01) 192 8193 112 2 gapWalk
  /\ iterateLoop 1 112 swapCodeItem (u4 (4 - 1)) 8193 (sectionStart gapWalk)
     = Ok 130 gapAfterFirst
  /\ visited gapAfterFirst = [112]
  /\ alignUp 130 (u4 (4 - 1)) = 132
  /\ getBytes (image gapAfterFirst) 130 1 = Some [x01]
  /\ (exists d,
        (d = BadOffsetRange \/ d = NonZeroPadding)
        /\ iterateSectionWithOptionalUpdate 112 2 swapCodeItem 4 8193 gapWalk
           = Reject d gapAfterFirst)
  /\ (exists d' w', swapSection 8193 112 2 gapWalk = Reject d' w')
  /\ (exists d' w', dexFixByteOrdering (gapFile x01) 192 = Reject d' w').
Proof.
  assert (Hreach : reachesSection (gapFile x01) 192 8193 112 2 gapWalk).
  { unfold reachesSection.
    eexists. exists 152. eexists. exists 3, 1%nat.
    eexists. eexists. eexists.
    split; [vm_compute; reflexivity|].
    split; [vm_compute; reflexivity|].
    split; [discriminate|].
    split; [vm_compute; reflexivity|].
    split; [vm_compute; reflexivity|].
    split; [vm_compute; lia|].
    split; vm_compute; reflexivity. }
  assert (Hloop : iterateLoop 1 112 swapCodeItem (u4 (4 - 1)) 8193
                    (sectionStart gapWalk) = Ok 130 gapAfterFirst)
    by (vm_compute; reflexivity).
  assert (Halign : alignUp 130 (u4 (4 - 1)) = 132) by (vm_compute; reflexivity).
  assert (Hgap : getBytes (image gapAfterFirst) 130 1 = Some [x01])
    by (vm_compute; reflexivity).
  assert (Hhdr : headerReadable gapWalk).
  { exists 0. eexists. split; [reflexivity|vm_compute; reflexivity]. }
  assert (Hdec : decodeType 8193 = Some kDexTypeCodeItem)
    by (vm_compute; reflexivity).
  assert (Hk : (1 < Z.to_nat 2)%nat) by (simpl; lia).
  assert (Hj : 130 <= 130 < alignUp 130 (u4 (4 - 1)))
    by (rewrite Halign; lia).
  assert (Hnz : x01 <> x00) by discriminate.
  destruct (padding_between_items 112 2 4 8193 swapCodeItem gapWalk 1 130
              gapAfterFirst 130 x01 Hk Hloop ltac:(lia) Hj Hgap Hnz)
    as (Hwalk & _ & _ & _ & _ & _ & Hrun).
  destruct (Hrun Hhdr 8193 kDexTypeCodeItem Hdec eq_refl) as (Hsw & Hall).
  split; [exact Hreach|]. split; [exact Hloop|].
  split; [vm_compute; reflexivity|]. split; [exact Halign|].
  split; [exact Hgap|]. split; [exact Hwalk|]. split; [exact Hsw|].
  exact (Hall (gapFile x01) 192 Hreach).
Defined.

(** The same file with a zero in the gap is accepted, both code items
    visited. *)
Lemma zero_padding_is_accepted :
  exists w',
    dexFixByteOrdering (gapFile x00) 192 = Ok tt w'
    /\ visited w' = [112; 132].
Proof. eexists. split; vm_compute; reflexivity. Qed.

(** With the byte 1 in the gap the run fails for the padding, after the
    first code item and before the second. *)
Lemma nonzero_padding_is_rejected :
  exists w',
    dexFixByteOrdering (gapFile x01) 192 = Reject NonZeroPadding w'
    /\ visited w' = [112].
Proof. eexists. split; vm_compute; reflexivity. Qed.

(** A file of 144 bytes: a header that declares one type, then, at
    offset 112, a code item of two instructions with one try (start
    address 0, the given instruction count and handler offset) and one
    handler at offset 1 with a single typed catch of type 0 at address
    1. *)
Definition codeItemFile (insnCount handlerOff : Z) : list byte :=
  replicate 64 x00 ++ le_split 4 1 ++ replicate 44 x00
  ++ le_split 2 0 ++ le_split 2 0 ++ le_split 2 0 ++ le_split 2 1
  ++ le_split 4 0 ++ le_split 4 2
  ++ replicate 4 x00
  ++ le_split 4 0 ++ le_split 2 insnCount ++ le_split 2 handlerOff
  ++ [x01; x01; x00; x01].

Definition codeItemWorld (insnCount handlerOff : Z) : World :=
  {| image := codeItemFile insnCount handlerOff;
     state := {| pHeader := Some 0; fileLen := 144; pDataMap := None;
                 pDexFile := false; previousItem := None |};
     visited := [] |}.

Lemma tries_and_catches_checked_witness :
  swapCodeItem 112 (codeItemWorld 1 1) = Ok 144 (codeItemWorld 1 1)
  /\ fileValue (image (codeItemWorld 1 1)) (112 + 12) 4 = Some 2
  /\ fileValue (image (codeItemWorld 1 1)) (112 + 6) 2 = Some 1
  /\ exists wa insnsSize triesSize,
       insnsSize = 2 /\ triesSize = 1
       /\ sameOutside 112 (112 + 16 + 2 * insnsSize) (codeItemWorld 1 1) wa
       /\ code_insnsSize 112 wa = Ok insnsSize wa
       /\ code_triesSize 112 wa = Ok triesSize wa
       /\ (exists tries base handlersSize firstPtr hs endOffset ts,
             dexGetTries 112 wa = Ok tries wa
             /\ dexGetCatchHandlerData 112 wa = Ok base wa
             /\ readAndVerifyUnsignedLeb128 base (fileLen (state wa)) wa
                = Ok (handlersSize, firstPtr, true) wa
             /\ 0 < handlersSize < 65536
             /\ decodeHandlers (Z.to_nat handlersSize) base
                  (u4 (firstPtr - base)) (fileLen (state wa)) wa
                = Ok (hs, endOffset) wa
             /\ Forall (handlerOk wa 112) hs
             /\ decodeTries (image wa) tries (Z.to_nat triesSize) = Some ts
             /\ triesOk insnsSize (map hOffset hs) 0 ts
             /\ 144 = base + endOffset
             /\ swapTriesAndCatches 112 wa = Ok 144 (codeItemWorld 1 1)).
Proof.
  assert (Hrun : swapCodeItem 112 (codeItemWorld 1 1)
                 = Ok 144 (codeItemWorld 1 1)) by (vm_compute; reflexivity).
  assert (Hi : fileValue (image (codeItemWorld 1 1)) (112 + 12) 4 = Some 2)
    by (vm_compute; reflexivity).
  assert (Ht : fileValue (image (codeItemWorld 1 1)) (112 + 6) 2 = Some 1)
    by (vm_compute; reflexivity).
  split; [exact Hrun|]. split; [exact Hi|]. split; [exact Ht|].
  destruct (tries_and_catches_checked 112 (codeItemWorld 1 1) 144
              (codeItemWorld 1 1) Hrun)
    as (wa & insnsSize & triesSize & Hi' & Ht' & Hsame & Hri & Hrt & _
        & Hall).
  assert (Hie : insnsSize = 2) by congruence.
  assert (Hte : triesSize = 1) by congruence.
  exists wa, insnsSize, triesSize.
  split; [exact Hie|]. split; [exact Hte|]. split; [exact Hsame|].
  split; [exact Hri|]. split; [exact Hrt|].
  apply Hall. rewrite Hte. discriminate.
Defined.

(** The same item with a try that ends beyond the instructions, and
    with a try that names an offset at which no handler starts. *)
Lemma try_beyond_instructions_is_rejected :
  swapCodeItem 112 (codeItemWorld 3 1)
  = Reject InvalidInsnCount (codeItemWorld 3 1).
Proof. vm_compute. reflexivity. Qed.

Lemma try_with_unlisted_handler_is_rejected :
  swapCodeItem 112 (codeItemWorld 1 2)
  = Reject BogusHandlerOffset (codeItemWorld 1 2).
Proof. vm_compute. reflexivity. Qed.
End DexExample.

(** The same constants on a host that swaps bytes. *)
Module DexBigEndianExample.
Import Dex DexFacts.
Import Stdlib.Init.Byte.

#[local] Instance bigEndianHost : Host := {| bigEndian := true |}.
#[local] Existing Instance DexExample.dex035.
#[local] Existing Instance DexExample.acceptingEnvironment.





End DexBigEndianExample.

(** A three-level document with a repeated element name, parsed with
    namespaces on and a listener that never throws. *)
Module ExpatExample.
Import Expat ExpatFacts.

#[local] Instance unsignedChar : CharType := {| charIsSigned := false |}.

#[local] Instance quietJava : Java :=
  {| jniIntern := fun s => 1000 + hashString s;
     listenerThrows := fun _ => false;
     emptyString := 1 |}.

Definition document : Nesting :=
  Nest "urn:x|a|p" ["id"; "1"]%string
    (Nest "b" []
       (Nest "urn:x|a|p" [] Flat Flat)
       (Nest "c" [] Flat Flat))
    Flat.

Lemma element_events_nested_witness :
  stackOk (newParsingContext true)
  /\ calls (run (callbacks document) (newParsingContext true))
     = fst (expectedCalls true document
              (internedStrings (newParsingContext true))).
Proof.
  assert (Hok : stackOk (newParsingContext true)).
  { unfold stackOk. simpl. lia. }
  split; [exact Hok|].
  destruct (element_events_nested document (newParsingContext true) Hok)
    as (_ & _ & _ & Hall).
  destruct (Hall eq_refl (fun _ => eq_refl)) as (Hcalls & _).
  exact Hcalls.
Defined.
End ExpatExample.


(* ===================================================================== *)
(** * Part III: further functions of the three units                      *)
(* ===================================================================== *)

(** ** libdex/DexSwapVerify.c: fields, the map, sections *)

Module DexMapFacts.
Import Dex DexFacts.

(** *** Swapping a field in place *)

Section SwapInPlace.
Context `{Host}.

Lemma swapped_swapped bs : swapped (swapped bs) = bs.
Proof. unfold swapped. destruct bigEndian; [apply rev_involutive|reflexivity]. Qed.

Lemma putBytes_back m off bs x :
  getBytes m off (Z.of_nat (length bs)) = Some bs ->
  length x = length bs ->
  putBytes (putBytes m off x) off bs = m.
Proof.
  intros E Hx. pose proof E as (H0 & _ & H1 & _)%getBytes_Some.
  apply list_eq. intros i.
  rewrite lookup_putBytes by (rewrite ?length_putBytes; lia).
  destruct (Nat.leb_spec (Z.to_nat off) i); cbn [andb].
  - destruct (Nat.ltb_spec i (Z.to_nat off + length bs)).
    + rewrite (lookup_getBytes _ _ _ _ _ E) by lia. f_equal. lia.
    + rewrite lookup_putBytes by lia.
      destruct (Nat.leb_spec (Z.to_nat off) i); [|lia].
      destruct (Nat.ltb_spec i (Z.to_nat off + length x)); [lia|reflexivity].
  - rewrite lookup_putBytes by lia.
    destruct (Nat.leb_spec (Z.to_nat off) i); [lia|reflexivity].
Qed.

Lemma swapAt_swapAt w off n bs :
  getBytes (image w) off n = Some bs ->
  image (swapAt (swapAt w off bs) off (swapped bs)) = image w.
Proof.
  intros E. pose proof (getBytes_length _ _ _ _ E) as Hl.
  pose proof E as (_ & Hn & _)%getBytes_Some.
  unfold swapAt; cbn [image]. rewrite swapped_swapped.
  apply putBytes_back; [|apply length_swapped].
  now replace (Z.of_nat (length bs)) with n by lia.
Qed.

(** [SWAP_FIELD4] and [SWAP_FIELD2] on a field that lies inside the
    file: afterwards the host reads the value the file format stores
    there (little-endian), nothing outside the field has changed, and
    swapping the field once more restores the file. *)
Theorem swap_field_in_place (off : Z) (w : World) (bs : list byte) :
  (getBytes (image w) off 4 = Some bs ->
   exists w1 w2,
     SWAP_FIELD4 off w = Ok tt w1
     /\ load4 off w1 = Ok (le_combine bs) w1
     /\ sameOutside off (off + 4) w w1
     /\ SWAP_FIELD4 off w1 = Ok tt w2
     /\ image w2 = image w)
  /\ (getBytes (image w) off 2 = Some bs ->
      exists w1 w2,
        SWAP_FIELD2 off w = Ok tt w1
        /\ load2 off w1 = Ok (le_combine bs) w1
        /\ sameOutside off (off + 2) w w1
        /\ SWAP_FIELD2 off w1 = Ok tt w2
        /\ image w2 = image w).
Proof.
  split; intros E.
  - destruct (swapAt_sameOutside w off 4 bs E) as (S1 & G1).
    exists (swapAt w off bs), (swapAt (swapAt w off bs) off (swapped bs)).
    pose proof (SWAP_FIELD4_spec off w) as Hs. rewrite E in Hs.
    pose proof (SWAP_FIELD4_spec off (swapAt w off bs)) as Hs2.
    rewrite G1 in Hs2.
    split; [exact Hs|]. split; [now apply load4_swapped|].
    split; [exact S1|]. split; [exact Hs2|].
    now apply (swapAt_swapAt w off 4).
  - destruct (swapAt_sameOutside w off 2 bs E) as (S1 & G1).
    exists (swapAt w off bs), (swapAt (swapAt w off bs) off (swapped bs)).
    pose proof (SWAP_FIELD2_spec off w) as Hs. rewrite E in Hs.
    pose proof (SWAP_FIELD2_spec off (swapAt w off bs)) as Hs2.
    rewrite G1 in Hs2.
    split; [exact Hs|]. split; [now apply load2_swapped|].
    split; [exact S1|]. split; [exact Hs2|].
    now apply (swapAt_swapAt w off 2).
Qed.
End SwapInPlace.

(** *** The bits of the map's item types *)

Section MapBits.
Context `{Host} `{DexFormat}.

Lemma decodeType_Some mapType t :
  decodeType mapType = Some t -> typeCode t = mapType.
Proof.
  unfold decodeType. intros E. apply find_some in E as (_ & E).
  now apply Z.eqb_eq in E.
Qed.

Lemma bitIndex_range t : 0 <= bitIndex t < 18.
Proof. destruct t; simpl; lia. Qed.

Lemma bitIndex_inj t t' : bitIndex t = bitIndex t' -> t = t'.
Proof. destruct t, t'; simpl; intros E; first [reflexivity | discriminate E]. Qed.

Lemma land_bits_same i j :
  0 <= i -> 0 <= j ->
  Z.land (Z.shiftl 1 i) (Z.shiftl 1 j) <> 0 -> i = j.
Proof.
  intros Hi Hj Hne. destruct (Z.eq_dec i j) as [|Hij]; [assumption|].
  exfalso. apply Hne. apply Z.bits_inj'. intros k Hk.
  rewrite !Z.shiftl_mul_pow2, !Z.mul_1_l by lia.
  rewrite Z.land_spec, !Z.pow2_bits_eqb, Z.bits_0 by lia.
  destruct (Z.eqb_spec i k), (Z.eqb_spec j k); simpl; try reflexivity. lia.
Qed.

Lemma bitMask_pow2 t : Z.shiftl 1 (bitIndex t) = 2 ^ bitIndex t.
Proof.
  pose proof (bitIndex_range t). rewrite Z.shiftl_mul_pow2 by lia. lia.
Qed.

Lemma bitMask_bounds t : 0 < 2 ^ bitIndex t < 2 ^ 18.
Proof.
  pose proof (bitIndex_range t). split.
  - apply Z.pow_pos_nonneg; lia.
  - apply Z.pow_lt_mono_r; lia.
Qed.

(** Two masks that share a bit belong to the same type code. *)
Lemma bitMask_shared a b :
  mapTypeToBitMask a <> 0 -> mapTypeToBitMask b <> 0 ->
  Z.land (mapTypeToBitMask a) (mapTypeToBitMask b) <> 0 -> a = b.
Proof.
  unfold mapTypeToBitMask.
  destruct (decodeType a) as [ta|] eqn:Ea; [|easy].
  destruct (decodeType b) as [tb|] eqn:Eb; [|easy].
  intros _ _ Hne. apply land_bits_same in Hne;
    try (pose proof (bitIndex_range ta); pose proof (bitIndex_range tb); lia).
  apply bitIndex_inj in Hne. subst tb.
  apply decodeType_Some in Ea, Eb. congruence.
Qed.

(** [mapTypeToBitMask] gives every recognized item type a bit of its
    own among the low 18, and 0 to every other value: the masks of two
    recognized types share a bit exactly when the types are the same. *)
Theorem map_type_bits (a b : Z) :
  (mapTypeToBitMask a = 0 <-> decodeType a = None)
  /\ (forall t, decodeType a = Some t ->
        mapTypeToBitMask a = 2 ^ bitIndex t
        /\ 0 < mapTypeToBitMask a < 2 ^ 18)
  /\ (mapTypeToBitMask a <> 0 -> mapTypeToBitMask b <> 0 ->
      (Z.land (mapTypeToBitMask a) (mapTypeToBitMask b) <> 0 <-> a = b)).
Proof.
  split; [|split].
  - unfold mapTypeToBitMask. destruct (decodeType a) as [t|]; [|easy].
    rewrite bitMask_pow2. pose proof (bitMask_bounds t).
    split; [lia|discriminate].
  - intros t E. unfold mapTypeToBitMask. rewrite E, bitMask_pow2.
    split; [reflexivity|apply bitMask_bounds].
  - intros Ha Hb. split.
    + now apply bitMask_shared.
    + intros <-. now rewrite Z.land_diag.
Qed.
End MapBits.

(** *** A map that [swapMap] accepts *)

Section AcceptedMap.
Context `{Host} `{DexFormat} `{Environment}.

(** The bits of the types of [es], added to [used]. *)
Definition usedAfter (used : Z) (es : list MapItem) : Z :=
  fold_left (fun u e => Z.lor u (mapTypeToBitMask (type e))) es used.

Lemma mapLoopPure_result es : forall cnt left used first last fs u c,
  0 <= left -> 0 <= cnt -> cnt + left < 2 ^ 32 ->
  Forall (fun e => 0 <= size e) es ->
  mapLoopPure es cnt left used first last fs = inr (u, c) ->
  c = cnt + dataCount es /\ u = usedAfter used es.
Proof.
  induction es as [|e es IH];
    intros cnt left used first last fs u c Hleft Hcnt Hsum Hsz E.
  - cbn [mapLoopPure] in E. injection E as <- <-. cbn [dataCount]. split; [lia|reflexivity].
  - cbn [mapLoopPure] in E. apply Forall_cons in Hsz as [Hse Hsz].
    destruct (negb first && (last >=? offset e)); [discriminate|].
    destruct (offset e >=? fs); [discriminate|].
    destruct (isDataSectionType (type e) && (size e >? left)) eqn:C3;
      [discriminate|].
    destruct (mapTypeToBitMask (type e) =? 0); [discriminate|].
    destruct (negb (Z.land used (mapTypeToBitMask (type e)) =? 0));
      [discriminate|].
    cbn [dataCount usedAfter fold_left].
    destruct (isDataSectionType (type e)); cbn [andb] in C3.
    + rewrite Z.gtb_ltb in C3. apply Z.ltb_ge in C3.
      unfold u4 in E. rewrite !Z.mod_small in E by lia.
      apply IH in E as (-> & ->); try assumption; try lia. split; [lia|reflexivity].
    + apply IH in E as (-> & ->); try assumption. split; [lia|reflexivity].
Qed.

Lemma usedAfter_bit es : forall used m,
  Z.land (usedAfter used es) m <> 0 ->
  Z.land used m <> 0
  \/ exists e, In e es /\ Z.land (mapTypeToBitMask (type e)) m <> 0.
Proof.
  induction es as [|e es IH]; intros used m Hne; cbn [usedAfter fold_left] in Hne.
  - now left.
  - apply IH in Hne as [Hne|(e' & Hin & Hne)].
    + rewrite Z.land_lor_distr_l in Hne.
      destruct (Z.eq_dec (Z.land used m) 0) as [E0|]; [|now left].
      right. exists e. split; [now left|].
      rewrite E0, Z.lor_0_l in Hne. exact Hne.
    + right. exists e'. split; [now right|exact Hne].
Qed.

(** A bit of a recognized type in the result of the loop was put there
    by an entry of that type. *)
Lemma usedAfter_type es t :
  Z.land (usedAfter 0 es) (mapTypeToBitMask (typeCode t)) <> 0 ->
  In (typeCode t) (map type es).
Proof.
  intros Hne. apply usedAfter_bit in Hne as [Hne|(e & Hin & Hne)].
  { now rewrite Z.land_0_l in Hne. }
  assert (Ha : mapTypeToBitMask (type e) <> 0).
  { intros E0. now rewrite E0, Z.land_0_l in Hne. }
  assert (Hb : mapTypeToBitMask (typeCode t) <> 0).
  { intros E0. now rewrite E0, Z.land_0_r in Hne. }
  apply (bitMask_shared (type e) (typeCode t) Ha Hb) in Hne.
  rewrite <- Hne. now apply in_map.
Qed.

Lemma headerField_same f w1 w2 :
  image w2 = image w1 -> pHeader (state w2) = pHeader (state w1) ->
  forall v, headerField f w1 = Ok v w1 -> headerField f w2 = Ok v w2.
Proof.
  intros Hi Hp v. unfold headerField, bind; cbn [getState]. rewrite Hp.
  destruct (pHeader (state w1)); [|discriminate].
  rewrite !load4_spec, Hi. destruct (getBytes _ _ _); [|discriminate].
  now intros [= ->].
Qed.

Lemma missingSection_Ok used t offF sizeF d w u w' :
  missingSection used t offF sizeF d w = Ok u w' ->
  w' = w
  /\ forall off size,
       headerField offF w = Ok off w -> headerField sizeF w = Ok size w ->
       off <> 0 \/ size <> 0 ->
       Z.land used (mapTypeToBitMask (typeCode t)) <> 0.
Proof.
  unfold missingSection. intros E.
  apply bind_Ok in E as (off & w1 & Hoff & E).
  pose proof (headerField_Ok _ _ _ _ Hoff) as ->.
  apply bind_Ok in E as (sz & w1 & Hsz & E).
  pose proof (headerField_Ok _ _ _ _ Hsz) as ->.
  apply failIf_Ok in E as (C & ->). split; [reflexivity|].
  intros off' sz' Hoff' Hsz' Hdecl.
  assert (off' = off) as -> by congruence.
  assert (sz' = sz) as -> by congruence.
  apply andb_false_iff in C as [C|C].
  - now apply Z.eqb_neq in C.
  - apply orb_false_iff in C as (C1 & C2).
    apply negb_false_iff, Z.eqb_eq in C1, C2. lia.
Qed.

(** The index tables of the header, each with the fields that hold its
    offset and size. *)
Definition indexTables : list (MapType * Z * Z) :=
  [ (kDexTypeStringIdItem, off_stringIdsOff, off_stringIdsSize);
    (kDexTypeTypeIdItem, off_typeIdsOff, off_typeIdsSize);
    (kDexTypeProtoIdItem, off_protoIdsOff, off_protoIdsSize);
    (kDexTypeFieldIdItem, off_fieldIdsOff, off_fieldIdsSize);
    (kDexTypeMethodIdItem, off_methodIdsOff, off_methodIdsSize);
    (kDexTypeClassDefItem, off_classDefsOff, off_classDefsSize) ].

(** When [swapMap] accepts a map that lies behind the header, the
    entries of the map are strictly ascending by offset and below the
    declared file size, their types are recognized and pairwise different,
    and their data items fit the declared data size; the map lists the
    header, the map itself, and every index table for which the header
    gives an offset or a size other than 0; and the tracking map was
    allocated for exactly the number of data items the map declares.  No
    item has been visited. *)
Theorem accepted_map_is_valid (pMap ph : Z) (w : World)
    (fsb dsb cb : list byte) (es : list MapItem) (w' : World) :
  pHeader (state w) = Some ph ->
  getBytes (image w) (ph + off_fileSize) 4 = Some fsb ->
  getBytes (image w) (ph + off_dataSize) 4 = Some dsb ->
  ph + sizeofDexHeader <= pMap ->
  getBytes (image w) pMap 4 = Some cb ->
  decodeItems (image w) (pMap + 4) (Z.to_nat (le_combine cb)) = Some es ->
  swapMap pMap w = Ok tt w' ->
  mapGood es (hostValue fsb) (hostValue dsb)
  /\ In (typeCode kDexTypeHeaderItem) (map type es)
  /\ In (typeCode kDexTypeMapList) (map type es)
  /\ (forall t offF sizeF off size,
        In (t, offF, sizeF) indexTables ->
        headerField offF w' = Ok off w' -> headerField sizeF w' = Ok size w' ->
        off <> 0 \/ size <> 0 ->
        In (typeCode t) (map type es))
  /\ (exists m, dexDataMapAlloc (dataCount es) = Some m
                /\ pDataMap (state w') = Some m)
  /\ visited w' = visited w.
Proof.
  intros Hph Hfs Hds Hbelow Hcb Hdec E.
  pose proof (quiet_Ok _ _ _ _ (quiet_swapMap pMap) E) as Hvis.
  assert (Hsig : 0 <= sigLen) by (unfold sigLen; lia).
  unfold swapMap in E.
  assert (Hfield : headerField off_dataSize w = Ok (hostValue dsb) w).
  { unfold headerField, bind; cbn [getState]. rewrite Hph.
    now rewrite load4_spec, Hds. }
  rewrite (bind_Ok_l _ _ _ _ _ Hfield) in E.
  destruct (SWAP_FIELD4_fwd pMap w cb Hcb) as (w1 & E1 & S1 & G1).
  pose proof S1 as (Hst1 & Hv1 & Hl1 & F1).
  rewrite (bind_Ok_l _ _ _ _ _ E1) in E.
  rewrite (bind_Ok_l _ _ _ _ _ (load4_swapped _ _ _ G1)) in E.
  apply bind_Ok in E as ([] & w2 & (-> & _)%CHECK_LIST_SIZE_Ok & E).
  pose proof (decodeItems_length _ _ _ _ Hdec) as Hlen.
  pose proof (decodeItems_sizes _ _ _ _ Hdec) as Hsizes.
  pose proof (hostValue_range4 dsb (getBytes_length4 _ _ _ Hds)) as Hdsr.
  rewrite <- Hlen in Hdec, E.
  assert (Hdec1 : decodeItems (image w1) (pMap + 4) (length es) = Some es).
  { rewrite <- Hdec. apply decodeItems_frame. intros off n Hoff.
    apply F1. lia. }
  assert (Hfs1 : getBytes (image w1) (ph + off_fileSize) 4 = Some fsb).
  { rewrite F1; [exact Hfs|]. unfold off_fileSize, sizeofDexHeader in *. lia. }
  assert (Hph1 : pHeader (state w1) = Some ph) by (now rewrite Hst1).
  destruct (swapMapLoop_refines es (pMap + 4) 0 (hostValue dsb) 0 true 0
              w1 ph fsb Hdec1 Hph1 Hfs1) as (w3 & Eloop & S3).
  { unfold off_fileSize, sizeofDexHeader in *. lia. }
  destruct (mapLoopPure es 0 (hostValue dsb) 0 true 0 (hostValue fsb))
    as [d|[used cnt]] eqn:Epure.
  { now rewrite (bind_Reject_l _ _ _ _ _ Eloop) in E. }
  rewrite (bind_Ok_l _ _ _ _ _ Eloop) in E.
  pose proof Epure as Hgood.
  apply mapLoopPure_good in Hgood
    as (_ & Hasc & Hfile & Hrec & _ & Hnd & Hcount); try assumption.
  apply mapLoopPure_result in Epure as (-> & ->); try assumption; try lia.
  apply bind_Ok in E as ([] & w4 & (C1 & ->)%failIf_Ok & E).
  apply bind_Ok in E as ([] & w4 & (C2 & ->)%failIf_Ok & E).
  apply Z.eqb_neq in C1, C2.
  apply bind_Ok in E as ([] & w4 & (-> & M1)%missingSection_Ok & E).
  apply bind_Ok in E as ([] & w4 & (-> & M2)%missingSection_Ok & E).
  apply bind_Ok in E as ([] & w4 & (-> & M3)%missingSection_Ok & E).
  apply bind_Ok in E as ([] & w4 & (-> & M4)%missingSection_Ok & E).
  apply bind_Ok in E as ([] & w4 & (-> & M5)%missingSection_Ok & E).
  apply bind_Ok in E as ([] & w4 & (-> & M6)%missingSection_Ok & E).
  apply bind_Ok in E as (st & w4 & (-> & ->)%getState_Ok & E).
  rewrite Z.add_0_l in E.
  destruct (dexDataMapAlloc (dataCount es)) as [m|] eqn:Ealloc.
  2:{ apply bind_Ok in E as (? & ? & _ & E). discriminate E. }
  unfold setState in E. injection E as <-.
  split; [now repeat split|].
  split; [now apply usedAfter_type|].
  split; [now apply usedAfter_type|].
  split.
  - intros t offF sizeF off size Hin Hoff Hsize Hdecl.
    apply usedAfter_type.
    assert (Hoff3 : headerField offF w3 = Ok off w3)
      by (match type of Hoff with headerField _ ?wf = _ =>
            exact (headerField_same offF wf w3 eq_refl eq_refl off Hoff) end).
    assert (Hsize3 : headerField sizeF w3 = Ok size w3)
      by (match type of Hsize with headerField _ ?wf = _ =>
            exact (headerField_same sizeF wf w3 eq_refl eq_refl size Hsize) end).
    cbn [indexTables In] in Hin.
    destruct Hin as [Hin|[Hin|[Hin|[Hin|[Hin|[Hin|[]]]]]]];
      injection Hin as <- <- <-;
      [exact (M1 _ _ Hoff3 Hsize3 Hdecl) | exact (M2 _ _ Hoff3 Hsize3 Hdecl)
      |exact (M3 _ _ Hoff3 Hsize3 Hdecl) | exact (M4 _ _ Hoff3 Hsize3 Hdecl)
      |exact (M5 _ _ Hoff3 Hsize3 Hdecl) | exact (M6 _ _ Hoff3 Hsize3 Hdecl)].
  - split; [|exact Hvis]. now exists m.
Qed.
End AcceptedMap.

(** *** The items of a section *)

Section Iteration.
Context `{Host} `{DexFormat} `{Environment}.

(** An item visitor is handed a [const CheckState*]: it may swap bytes
    of the file, but leaves the state alone, and it does not iterate
    itself. *)
Definition visitorKeepsState (func : ItemVisitorFunction) : Prop :=
  forall p w a w', func p w = Ok a w' ->
    state w' = state w /\ visited w' = visited w.

Lemma checkPadding_Ok n : forall ptr d w u w',
  checkPadding n ptr d w = Ok u w' -> w' = w.
Proof.
  induction n as [|n IH]; intros ptr d w u w' E; cbn [checkPadding] in E.
  - now apply ret_Ok in E.
  - apply bind_Ok in E as (b & w1 & (-> & _)%load1_Ok & E).
    apply bind_Ok in E as ([] & w1 & (_ & ->)%failIf_Ok & E).
    now apply IH in E.
Qed.

Lemma land_lnot_sub x m :
  0 <= x -> 0 <= m -> Z.land x (Z.lnot m) = x - Z.land x m.
Proof.
  intros Hx Hm. rewrite <- Z.ldiff_land.
  rewrite Z.sub_nocarry_ldiff.
  - apply Z.bits_inj'. intros i Hi.
    rewrite !Z.ldiff_spec, Z.land_spec.
    now destruct (Z.testbit x i), (Z.testbit m i).
  - apply Z.bits_inj'. intros i Hi.
    rewrite Z.ldiff_spec, Z.land_spec, Z.bits_0.
    now destruct (Z.testbit x i), (Z.testbit m i).
Qed.

Lemma land_u4 x y : 0 <= x < 2 ^ 32 -> Z.land x (u4 y) = Z.land x y.
Proof.
  intros Hx. unfold u4. apply Z.bits_inj'. intros i Hi.
  rewrite !Z.land_spec, Z.testbit_mod_pow2 by lia.
  destruct (Z.ltb_spec i 32); [reflexivity|].
  rewrite (Z.bits_above_log2 x i); [reflexivity|lia|].
  destruct (Z.eq_dec x 0) as [->|]; [simpl; lia|].
  assert (Z.log2 x < 32) by (apply Z.log2_lt_pow2; lia). lia.
Qed.

(** [alignUp] rounds up, to an offset that has none of the bits of the
    mask. *)
Lemma alignUp_spec offset mask :
  0 <= offset -> 0 <= mask -> offset + mask < 2 ^ 32 ->
  offset <= alignUp offset mask <= offset + mask
  /\ Z.land (alignUp offset mask) mask = 0.
Proof.
  intros Ho Hm Hs. unfold alignUp.
  assert (Hu : u4 (offset + mask) = offset + mask)
    by (unfold u4; apply Z.mod_small; lia).
  rewrite Hu, land_u4 by lia.
  rewrite land_lnot_sub by lia.
  assert (Hle : 0 <= Z.land (offset + mask) mask <= mask).
  { apply Z.ldiff_le; [lia|].
    apply Z.bits_inj'. intros i Hi.
    rewrite Z.ldiff_spec, Z.land_spec, Z.bits_0.
    now destruct (Z.testbit mask i), (Z.testbit (offset + mask) i). }
  split; [lia|].
  rewrite <- land_lnot_sub by lia.
  apply Z.bits_inj'. intros i Hi.
  rewrite !Z.land_spec, Z.lnot_spec, Z.bits_0 by lia.
  now destruct (Z.testbit (offset + mask) i), (Z.testbit mask i).
Qed.

(** The tracking map after the items at [ptrs] were added to [m]. *)
Definition addedToMap (m : option DexDataMap) (mapType : Z)
    (ptrs : list Z) : option DexDataMap :=
  if mapType >=? 0 then
    match m with
    | Some m =>
        Some {| max := max m;
                entries := entries m ++ map (fun p => (p, mapType)) ptrs |}
    | None => None
    end
  else m.

Lemma iterateItem_Ok offset func mask mapType w next w' :
  visitorKeepsState func ->
  0 <= offset -> 0 <= mask -> offset + mask < 2 ^ 32 ->
  iterateItem offset func mask mapType w = Ok next w' ->
  let ptr := alignUp offset mask in
  visited w' = visited w ++ [ptr]
  /\ Z.land ptr mask = 0
  /\ offset <= ptr
  /\ 0 <= next <= fileLen (state w)
  /\ previousItem (state w') = Some ptr
  /\ fileLen (state w') = fileLen (state w)
  /\ pHeader (state w') = pHeader (state w)
  /\ pDataMap (state w') = addedToMap (pDataMap (state w)) mapType [ptr].
Proof.
  intros Hkeep Ho Hm Hs E ptr.
  destruct (alignUp_spec offset mask Ho Hm Hs) as ((Hge & _) & Hal).
  fold ptr in Hge, Hal. unfold iterateItem in E. fold ptr in E.
  apply bind_Ok in E as (off' & w1 & Hpad & E).
  assert (w1 = w /\ off' = ptr) as (-> & ->).
  { destruct (Z.ltb_spec offset ptr).
    - apply bind_Ok in Hpad as ([] & w2 & (-> & _)%CHECK_PTR_RANGE_Ok & Hpad).
      apply bind_Ok in Hpad as ([] & w2 & ->%checkPadding_Ok & Hpad).
      now apply ret_Ok in Hpad as (-> & ->).
    - apply ret_Ok in Hpad as (-> & ->). split; [reflexivity|lia]. }
  apply bind_Ok in E as ([] & w1 & Hnote & E).
  unfold noteVisit in Hnote. injection Hnote as <-.
  apply bind_Ok in E as (newPtr & w2 & Hfunc & E).
  apply Hkeep in Hfunc as (Hst2 & Hv2). cbn [state visited] in Hst2, Hv2.
  apply bind_Ok in E as (st & w3 & (-> & ->)%getState_Ok & E).
  apply bind_Ok in E as ([] & w3 & (Hend & ->)%failIf_Ok & E).
  rewrite Z.gtb_ltb in Hend. apply Z.ltb_ge in Hend. rewrite Hst2 in Hend.
  assert (Hnn : 0 <= u4 newPtr) by (unfold u4; apply Z.mod_pos_bound; lia).
  apply bind_Ok in E as ([] & w3 & Hadd & E).
  apply bind_Ok in E as ([] & w4 & Hprev & E).
  apply ret_Ok in E as (-> & ->).
  unfold setPreviousItem in Hprev.
  apply bind_Ok in Hprev as (st & w5 & (-> & ->)%getState_Ok & Hprev).
  unfold setState in Hprev. injection Hprev as <-.
  cbn [state visited previousItem withPreviousItem fileLen pHeader pDataMap].
  unfold addedToMap. destruct (mapType >=? 0).
  - unfold dexDataMapAdd in Hadd.
    apply bind_Ok in Hadd as (st & w5 & (-> & ->)%getState_Ok & Hadd).
    rewrite Hst2 in Hadd.
    destruct (pDataMap (state w)) as [m|]; [|discriminate].
    unfold setState in Hadd. injection Hadd as <-.
    cbn [state visited withDataMap fileLen pHeader pDataMap].
    rewrite ?Hv2, ?Hst2. repeat split; try assumption; try reflexivity; lia.
  - apply ret_Ok in Hadd as (_ & ->).
    rewrite ?Hv2, ?Hst2. repeat split; try assumption; try reflexivity; lia.
Qed.

Lemma addedToMap_app m mapType l1 l2 :
  addedToMap (addedToMap m mapType l1) mapType l2
  = addedToMap m mapType (l1 ++ l2).
Proof.
  unfold addedToMap.
  destruct (mapType >=? 0); [|reflexivity].
  destruct m as [m|]; [|reflexivity].
  cbn [max entries]. now rewrite map_app, app_assoc.
Qed.

Lemma addedToMap_nil m mapType : addedToMap m mapType [] = m.
Proof.
  unfold addedToMap. destruct (mapType >=? 0); [|reflexivity].
  destruct m as [[]|]; [|reflexivity].
  cbn [map max entries]. now rewrite app_nil_r.
Qed.

(** The item visited last, [prev] when there is none. *)
Definition lastVisited (prev : option Z) (ptrs : list Z) : option Z :=
  match last ptrs with
  | Some p => Some p
  | None => prev
  end.

Lemma lastVisited_cons prev p ptrs :
  lastVisited (Some p) ptrs = lastVisited prev (p :: ptrs).
Proof.
  unfold lastVisited. rewrite (last_cons p). now destruct (last ptrs).
Qed.

Lemma iterateLoop_Ok count : forall offset func mask mapType w next w',
  visitorKeepsState func ->
  0 <= offset <= fileLen (state w) -> 0 <= mask ->
  fileLen (state w) + mask < 2 ^ 32 ->
  iterateLoop count offset func mask mapType w = Ok next w' ->
  exists ptrs,
    length ptrs = count
    /\ visited w' = visited w ++ ptrs
    /\ Forall (fun p => Z.land p mask = 0) ptrs
    /\ 0 <= next <= fileLen (state w)
    /\ previousItem (state w') = lastVisited (previousItem (state w)) ptrs
    /\ fileLen (state w') = fileLen (state w)
    /\ pHeader (state w') = pHeader (state w)
    /\ pDataMap (state w') = addedToMap (pDataMap (state w)) mapType ptrs.
Proof.
  induction count as [|count IH];
    intros offset func mask mapType w next w' Hkeep Ho Hm Hs E;
    cbn [iterateLoop] in E.
  - apply ret_Ok in E as (-> & ->). exists []. rewrite app_nil_r.
    rewrite addedToMap_nil. repeat split; try easy; lia.
  - apply bind_Ok in E as (off1 & w1 & Hitem & E).
    apply iterateItem_Ok in Hitem
      as (Hv1 & Hal1 & Hge1 & Hn1 & Hp1 & Hl1 & Hh1 & Hd1);
      try assumption; try lia.
    apply IH in E as (ptrs & Hlen & Hv & Hall & Hn & Hp & Hl & Hh & Hd);
      try assumption; try (rewrite ?Hl1; lia).
    exists (alignUp offset mask :: ptrs).
    split; [cbn [length]; lia|].
    split; [rewrite Hv, Hv1, <- app_assoc; reflexivity|].
    split; [now constructor|].
    split; [lia|].
    split; [rewrite Hp, Hp1; apply lastVisited_cons|].
    split; [congruence|]. split; [congruence|].
    rewrite Hd, Hd1. apply (addedToMap_app _ _ [_]).
Qed.

(** When the walk over a section succeeds with visitors that leave the
    state alone and with an alignment that is a power of two (the source
    passes 1 and 4 only), it has handed exactly [count] items to the
    visitor, one after the other and each at an offset that is a
    multiple of the alignment; the end it reports lies inside the file;
    the last item visited is the previous item of the state; and the
    tracking map has gained these items, in order and under the
    section's type, if one was given, and is unchanged otherwise. *)
Theorem section_walk_visits_aligned_items
    (offset count alignment mapType : Z) (func : ItemVisitorFunction)
    (w : World) (next : Z) (w' : World) (k : Z) :
  visitorKeepsState func ->
  0 <= offset <= fileLen (state w) ->
  0 <= k ->
  alignment = 2 ^ k ->
  fileLen (state w) + alignment <= 2 ^ 32 ->
  iterateSectionWithOptionalUpdate offset count func alignment mapType w
  = Ok next w' ->
  exists ptrs,
    length ptrs = Z.to_nat count
    /\ visited w' = visited w ++ ptrs
    /\ Forall (fun p => p mod alignment = 0) ptrs
    /\ 0 <= next <= fileLen (state w)
    /\ previousItem (state w') = last ptrs
    /\ pDataMap (state w') = addedToMap (pDataMap (state w)) mapType ptrs.
Proof.
  intros Hkeep Ho Hk Hpow Hs E.
  assert (Ha : 1 <= alignment)
    by (subst alignment; pose proof (Z.pow_pos_nonneg 2 k); lia).
  assert (Hmod : forall p, Z.land p (alignment - 1) = 0 ->
                           p mod alignment = 0).
  { intros p Hp. subst alignment.
    rewrite <- Z.land_ones by exact Hk.
    rewrite Z.ones_equiv, <- Z.sub_1_r. exact Hp. }
  unfold iterateSectionWithOptionalUpdate in E.
  assert (Hmask : u4 (alignment - 1) = alignment - 1)
    by (unfold u4; apply Z.mod_small; lia).
  rewrite Hmask in E.
  apply bind_Ok in E as ([] & w1 & Hprev & E).
  unfold setPreviousItem in Hprev.
  apply bind_Ok in Hprev as (st & w2 & (-> & ->)%getState_Ok & Hprev).
  unfold setState in Hprev. injection Hprev as <-.
  apply iterateLoop_Ok in E
    as (ptrs & Hlen & Hv & Hall & Hn & Hp & _ & _ & Hd);
    try assumption; cbn [state fileLen withPreviousItem]; try lia.
  exists ptrs. cbn [state visited fileLen pDataMap previousItem
                      withPreviousItem] in *.
  split; [assumption|]. split; [assumption|].
  split; [exact (Forall_impl _ _ _ Hall Hmod)|].
  split; [assumption|].
  split; [|exact Hd].
  rewrite Hp. unfold lastVisited. now destruct (last ptrs).
Qed.
End Iteration.

End DexMapFacts.


(* --------------------------------------------------------------------- *)
(** ** Item visitors of libdex/DexSwapVerify.c                            *)
(* --------------------------------------------------------------------- *)

Module DexItemsFacts.
Import Dex DexItems DexFacts.

(** *** The set of defined classes *)

(** Whether the bit of [typeIdx] is set in the array. *)
Definition isDefined (bits : list Z) (typeIdx : Z) : bool :=
  match bits !! Z.to_nat (Z.shiftr typeIdx 5) with
  | Some element => Z.testbit element (Z.land typeIdx 31)
  | None => false
  end.

Lemma land_pow2 e k :
  0 <= k -> Z.land e (2 ^ k) = if Z.testbit e k then 2 ^ k else 0.
Proof.
  intros Hk. apply Z.bits_inj'. intros i Hi.
  rewrite Z.land_spec, Z.pow2_bits_eqb by lia.
  destruct (Z.eqb_spec k i) as [->|Hne].
  - destruct (Z.testbit e i) eqn:E; cbn.
    + now rewrite Z.pow2_bits_true.
    + now rewrite Z.bits_0.
  - rewrite andb_false_r. destruct (Z.testbit e k).
    + now rewrite Z.pow2_bits_false.
    + now rewrite Z.bits_0.
Qed.

Lemma low5_range x : 0 <= Z.land x 31 < 32.
Proof.
  change 31 with (Z.ones 5). rewrite Z.land_ones by lia.
  apply Z.mod_pos_bound. lia.
Qed.

Lemma classBit_pow2 x :
  u4 (Z.shiftl 1 (Z.land x 31)) = 2 ^ Z.land x 31.
Proof.
  pose proof (low5_range x) as Hr.
  rewrite Z.shiftl_mul_pow2, Z.mul_1_l by lia.
  unfold u4. apply Z.mod_small. split.
  - apply Z.pow_nonneg. lia.
  - apply Z.pow_lt_mono_r; lia.
Qed.

Lemma split_index x : x = 32 * Z.shiftr x 5 + Z.land x 31.
Proof.
  change 31 with (Z.ones 5). rewrite Z.land_ones, Z.shiftr_div_pow2 by lia.
  change (2 ^ 5) with 32. apply Z.div_mod. lia.
Qed.

Section DefinedClasses.
Context `{Host} `{DexFormat}.

(** [setDefinedClassBit] keeps an exact set of type indices: it
    returns whether the index was in the set, and afterwards the set
    holds that index and what it held before.  An index whose element
    lies beyond the array is outside the array's storage.  An array of
    [calcDefinedClassBitsSize] elements has an element for every index
    below [typeIdsSize]. *)
Theorem defined_class_bits (bits : list Z) (typeIdx : Z) :
  0 <= typeIdx ->
  (Z.shiftr typeIdx 5 < Z.of_nat (length bits) ->
   exists bits',
     setDefinedClassBit bits typeIdx = Some (isDefined bits typeIdx, bits')
     /\ length bits' = length bits
     /\ forall other, 0 <= other ->
          isDefined bits' other
          = (other =? typeIdx) || isDefined bits other)
  /\ (Z.of_nat (length bits) <= Z.shiftr typeIdx 5 ->
      setDefinedClassBit bits typeIdx = None)
  /\ (forall w n, headerField off_typeIdsSize w = Ok n w ->
        n + 31 < 2 ^ 32 -> typeIdx < n ->
        exists r, calcDefinedClassBitsSize w = Ok r w
                  /\ Z.shiftr typeIdx 5 < r).
Proof.
  intros Hpos.
  assert (Hs : 0 <= Z.shiftr typeIdx 5) by now apply Z.shiftr_nonneg.
  pose proof (low5_range typeIdx) as Hlow.
  split; [|split].
  - intros Hin. unfold setDefinedClassBit, isDefined.
    destruct (lookup_lt_is_Some_2 bits (Z.to_nat (Z.shiftr typeIdx 5)))
      as [e He]; [lia|].
    rewrite He, classBit_pow2, land_pow2 by lia.
    eexists. split; [|split].
    + f_equal. f_equal. destruct (Z.testbit e (Z.land typeIdx 31)).
      * assert (0 < 2 ^ Z.land typeIdx 31) by (apply Z.pow_pos_nonneg; lia).
        destruct (Z.eqb_spec (2 ^ Z.land typeIdx 31) 0); [lia|reflexivity].
      * reflexivity.
    + apply length_insert.
    + intros other Ho.
      assert (Hso : 0 <= Z.shiftr other 5) by now apply Z.shiftr_nonneg.
      pose proof (low5_range other) as Hlo.
      destruct (Z.eq_dec (Z.shiftr other 5) (Z.shiftr typeIdx 5)) as [Es|Ns].
      * rewrite Es, list_lookup_insert_eq
          by (apply lookup_lt_Some in He; exact He).
        rewrite He, Z.lor_spec, Z.pow2_bits_eqb by lia.
        rewrite orb_comm. f_equal.
        destruct (Z.eqb_spec (Z.land typeIdx 31) (Z.land other 31)) as [El|Nl];
          destruct (Z.eqb_spec other typeIdx) as [Eo|No]; try reflexivity.
        -- exfalso. apply No.
           rewrite (split_index other), (split_index typeIdx). lia.
        -- subst other. now contradiction Nl.
      * rewrite list_lookup_insert_ne by lia.
        destruct (Z.eqb_spec other typeIdx) as [Eo|No];
          [subst other; now contradiction Ns|reflexivity].
  - intros Hout. unfold setDefinedClassBit.
    rewrite (lookup_ge_None_2 bits) by lia. reflexivity.
  - intros w n Hn Hsum Hlt. unfold calcDefinedClassBitsSize.
    rewrite (bind_Ok_l _ _ _ _ _ Hn). unfold ret.
    eexists. split; [reflexivity|].
    apply headerField_Ok in Hn as Hw.
    unfold u4. rewrite Z.mod_small by lia.
    rewrite !Z.shiftr_div_pow2 by lia. change (2 ^ 5) with 32.
    apply Z.div_lt_upper_bound; [lia|].
    pose proof (Z.mul_succ_div_gt (n + 31) 32). lia.
Qed.
End DefinedClasses.

(** *** Little-endian values *)

Section LittleEndian.
Context `{Host}.

Lemma getBytes_cons m off n b bs :
  getBytes m off (Z.of_nat (S n)) = Some (b :: bs) ->
  getBytes m off 1 = Some [b] /\ getBytes m (off + 1) (Z.of_nat n) = Some bs.
Proof.
  intros (H0 & Hn & H1 & E)%getBytes_Some.
  rewrite Nat2Z.id in E.
  assert (Hd : drop (Z.to_nat off) m = b :: bs ++ drop (Z.to_nat off + S n) m).
  { rewrite <- (take_drop (S n) (drop (Z.to_nat off) m)) at 1.
    rewrite <- E, drop_drop. reflexivity. }
  split; apply getBytes_Some; repeat split; try lia.
  - change (Z.to_nat 1) with 1%nat. now rewrite Hd.
  - rewrite Nat2Z.id.
    replace (Z.to_nat (off + 1)) with (Z.to_nat off + 1)%nat by lia.
    rewrite <- drop_drop, Hd. cbn [drop].
    rewrite Hd in E. cbn [take] in E. injection E as E. exact E.
Qed.

Lemma littleEndianLoop_Ok n : forall i data result w bs,
  0 <= i -> i + Z.of_nat n <= 4 ->
  getBytes (image w) data (Z.of_nat n) = Some bs ->
  littleEndianLoop n i data result w
  = Ok (Z.lor result (Z.shiftl (le_combine bs) (i * 8)), data + Z.of_nat n) w.
Proof.
  induction n as [|n IH]; intros i data result w bs Hi Hn E.
  - pose proof (getBytes_length _ _ _ _ E) as Hl.
    destruct bs; [|discriminate]. cbn [littleEndianLoop le_combine ret].
    rewrite Z.shiftl_0_l, Z.lor_0_r, Z.add_0_r. reflexivity.
  - pose proof (getBytes_length _ _ _ _ E) as Hl. rewrite Nat2Z.id in Hl.
    destruct bs as [|b bs]; [discriminate|].
    apply getBytes_cons in E as (E1 & E2).
    cbn [littleEndianLoop].
    assert (Hl1 : load1 data w = Ok (byte.unsigned b) w).
    { rewrite load1_spec, E1. now rewrite LittleEndianList.le_combine_1. }
    rewrite (bind_Ok_l _ _ _ _ _ Hl1).
    destruct (Z.leb_spec 32 (i * 8)); [lia|].
    rewrite (IH (i + 1) (data + 1) _ w bs) by (try assumption; lia).
    f_equal. f_equal.
    + cbn [le_combine]. pose proof (byte.unsigned_range b) as Hb.
      assert (Hu : u4 (Z.shiftl (byte.unsigned b) (i * 8))
                   = Z.shiftl (byte.unsigned b) (i * 8)).
      { unfold u4. apply Z.mod_small. rewrite Z.shiftl_mul_pow2 by lia.
        split; [apply Z.mul_nonneg_nonneg; [lia|apply Z.pow_nonneg; lia]|].
        assert (2 ^ (i * 8) <= 2 ^ 24) by (apply Z.pow_le_mono_r; lia).
        change (2 ^ 32) with (256 * 2 ^ 24). nia. }
      rewrite Hu, <- Z.lor_assoc. f_equal.
      change (le_combine (b :: bs))
        with (Z.lor (byte.unsigned b) (Z.shiftl (le_combine bs) 8)).
      rewrite Z.shiftl_lor, Z.shiftl_shiftl by lia. f_equal. f_equal. lia.
    + lia.
Qed.

(** [readUnsignedLittleEndian] reads [size] bytes, at most four, as
    a little-endian number and moves past them; when the bytes do not
    lie in the file it returns 0 and does not move. *)
Theorem little_endian_value_read (data size : Z) (w : World) :
  (checkPtrRange (state w) data (data + size) = false ->
   readUnsignedLittleEndian data size w = Ok (0, data) w)
  /\ (forall bs, checkPtrRange (state w) data (data + size) = true ->
        size <= 4 -> getBytes (image w) data size = Some bs ->
        readUnsignedLittleEndian data size w
        = Ok (le_combine bs, data + size) w
        /\ 0 <= le_combine bs < 2 ^ (8 * size)).
Proof.
  unfold readUnsignedLittleEndian, bind; cbn [getState]. split.
  - intros ->. reflexivity.
  - intros bs -> Hsz E. cbn [negb].
    pose proof E as (_ & Hn & _)%getBytes_Some.
    pose proof (getBytes_length _ _ _ _ E) as Hl.
    rewrite <- (Z2Nat.id size) in E by lia.
    rewrite (littleEndianLoop_Ok _ 0 data 0 w bs) by (try assumption; lia).
    rewrite Z.shiftl_0_r, Z.lor_0_l, Z2Nat.id by lia.
    split; [reflexivity|].
    pose proof (LittleEndianList.le_combine_bound bs) as Hb.
    rewrite Hl, Z2Nat.id in Hb by lia. exact Hb.
Qed.
End LittleEndian.

(** *** Index fields *)

Section Indices.
Context `{Host} `{DexFormat} `{DexConstants}.

Lemma headerField_val f w ph lb :
  pHeader (state w) = Some ph ->
  getBytes (image w) (ph + f) 4 = Some lb ->
  headerField f w = Ok (hostValue lb) w.
Proof.
  intros Hph Hlb. unfold headerField, bind; cbn [getState].
  now rewrite Hph, load4_spec, Hlb.
Qed.

Lemma headerField_frame f lo hi w w' ph lb :
  sameOutside lo hi w w' ->
  pHeader (state w) = Some ph ->
  getBytes (image w) (ph + f) 4 = Some lb ->
  ph + f + 4 <= lo \/ hi <= ph + f ->
  headerField f w' = Ok (hostValue lb) w'.
Proof.
  intros (Hs & _ & _ & Hf) Hph Hlb Hd. apply (headerField_val f w' ph).
  - now rewrite Hs.
  - now rewrite Hf.
Qed.

(** A field of [n] bytes that was swapped in place: [v] is the value the
    file gives it, which the host now reads. *)
Definition swappedField (off n : Z) (w w' : World) (v : Z) : Prop :=
  exists bs, getBytes (image w) off n = Some bs
             /\ v = le_combine bs
             /\ sameOutside off (off + n) w w'
             /\ getBytes (image w') off n = Some (swapped bs).

Lemma SWAP_FIELD4_swapped off w u w' :
  SWAP_FIELD4 off w = Ok u w' -> exists v, swappedField off 4 w w' v.
Proof.
  intros (bs & Hb & Hs & Hb')%SWAP_FIELD4_Ok.
  exists (le_combine bs), bs.
  split; [exact Hb|]. split; [reflexivity|]. split; [exact Hs|exact Hb'].
Qed.

Lemma SWAP_INDEX4_Ok field limitField w u w' ph lb :
  pHeader (state w) = Some ph ->
  getBytes (image w) (ph + limitField) 4 = Some lb ->
  field + 4 <= ph + limitField \/ ph + limitField + 4 <= field ->
  SWAP_INDEX4 field limitField w = Ok u w' ->
  exists v, swappedField field 4 w w' v /\ v < hostValue lb.
Proof.
  intros Hph Hlb Hd E. unfold SWAP_INDEX4 in E.
  apply bind_Ok in E as ([] & w1 & (bs & Hb & Hs & Hb')%SWAP_FIELD4_Ok & E).
  rewrite (bind_Ok_l _ _ _ _ _ (load4_swapped _ _ _ Hb')) in E.
  rewrite (bind_Ok_l _ _ _ _ _
             (headerField_frame _ _ _ _ _ _ _ Hs Hph Hlb
                ltac:(lia))) in E.
  apply failIf_Ok in E as (E & ->).
  exists (le_combine bs).
  split; [exists bs; split; [exact Hb|]; split; [reflexivity|];
          split; [exact Hs|exact Hb']|].
  rewrite Z.geb_leb in E. now apply Z.leb_gt in E.
Qed.

Lemma SWAP_INDEX2_Ok field limitField w u w' ph lb :
  pHeader (state w) = Some ph ->
  getBytes (image w) (ph + limitField) 4 = Some lb ->
  field + 2 <= ph + limitField \/ ph + limitField + 4 <= field ->
  SWAP_INDEX2 field limitField w = Ok u w' ->
  exists v, swappedField field 2 w w' v /\ v < hostValue lb.
Proof.
  intros Hph Hlb Hd E. unfold SWAP_INDEX2 in E.
  apply bind_Ok in E as ([] & w1 & (bs & Hb & Hs & Hb')%SWAP_FIELD2_Ok & E).
  rewrite (bind_Ok_l _ _ _ _ _ (load2_swapped _ _ _ Hb')) in E.
  rewrite (bind_Ok_l _ _ _ _ _
             (headerField_frame _ _ _ _ _ _ _ Hs Hph Hlb
                ltac:(lia))) in E.
  apply failIf_Ok in E as (E & ->).
  exists (le_combine bs).
  split; [exists bs; split; [exact Hb|]; split; [reflexivity|];
          split; [exact Hs|exact Hb']|].
  rewrite Z.geb_leb in E. now apply Z.leb_gt in E.
Qed.

Lemma SWAP_INDEX4_OR_NOINDEX_Ok field limitField w u w' ph lb :
  pHeader (state w) = Some ph ->
  getBytes (image w) (ph + limitField) 4 = Some lb ->
  field + 4 <= ph + limitField \/ ph + limitField + 4 <= field ->
  SWAP_INDEX4_OR_NOINDEX field limitField w = Ok u w' ->
  exists v, swappedField field 4 w w' v
            /\ (v = kDexNoIndex \/ v < hostValue lb).
Proof.
  intros Hph Hlb Hd E. unfold SWAP_INDEX4_OR_NOINDEX in E.
  apply bind_Ok in E as ([] & w1 & (bs & Hb & Hs & Hb')%SWAP_FIELD4_Ok & E).
  rewrite (bind_Ok_l _ _ _ _ _ (load4_swapped _ _ _ Hb')) in E.
  rewrite (bind_Ok_l _ _ _ _ _
             (headerField_frame _ _ _ _ _ _ _ Hs Hph Hlb
                ltac:(lia))) in E.
  apply failIf_Ok in E as (E & ->).
  exists (le_combine bs).
  split; [exists bs; split; [exact Hb|]; split; [reflexivity|];
          split; [exact Hs|exact Hb']|].
  apply andb_false_iff in E as [E|E].
  - left. apply negb_false_iff in E. now apply Z.eqb_eq in E.
  - right. rewrite Z.geb_leb in E. now apply Z.leb_gt in E.
Qed.

(** The value the file gives a field that a call swapped, the frame of
    the swap, and what the host reads in a later world that left the
    field alone. *)
Lemma swappedField_before off n w w' v lo hi w0 :
  swappedField off n w w' v ->
  sameOutside lo hi w0 w -> off + n <= lo \/ hi <= off ->
  fileValue (image w0) off n = Some v.
Proof.
  intros (bs & Hb & -> & _) (_ & _ & _ & Hf) Hd.
  unfold fileValue. rewrite <- Hf, Hb by lia. reflexivity.
Qed.

Lemma swappedField_now off n w w' v :
  swappedField off n w w' v -> fileValue (image w) off n = Some v.
Proof.
  intros (bs & Hb & -> & _). unfold fileValue. now rewrite Hb.
Qed.

Lemma swappedField_frame off n w w' v :
  swappedField off n w w' v -> sameOutside off (off + n) w w'.
Proof. now intros (bs & _ & _ & Hs & _). Qed.

Lemma swappedField_load4 off w w' v lo hi w2 :
  swappedField off 4 w w' v ->
  sameOutside lo hi w' w2 -> off + 4 <= lo \/ hi <= off ->
  load4 off w2 = Ok v w2.
Proof.
  intros (bs & _ & -> & _ & Hb') (_ & _ & _ & Hf) Hd.
  apply load4_swapped. now rewrite Hf.
Qed.

Lemma swappedField_load2 off w w' v lo hi w2 :
  swappedField off 2 w w' v ->
  sameOutside lo hi w' w2 -> off + 2 <= lo \/ hi <= off ->
  load2 off w2 = Ok v w2.
Proof.
  intros (bs & _ & -> & _ & Hb') (_ & _ & _ & Hf) Hd.
  apply load2_swapped. now rewrite Hf.
Qed.

Lemma sameOutside_state lo hi w w' :
  sameOutside lo hi w w' -> state w' = state w.
Proof. now intros (Hs & _). Qed.

Lemma sameOutside_widen lo hi lo' hi' w w' :
  sameOutside lo' hi' w w' -> lo <= lo' -> hi' <= hi ->
  sameOutside lo hi w w'.
Proof.
  intros (Hs & Hv & Hl & Hf) ? ?. repeat split; try assumption.
  intros off n Hd. apply Hf. lia.
Qed.

Lemma checkPtrRange_true st a b :
  checkPtrRange st a b = true -> 0 <= a /\ a <= b /\ b <= fileLen st.
Proof.
  unfold checkPtrRange. intros E. apply negb_true_iff in E.
  repeat (apply orb_false_iff in E as [E ?]).
  rewrite ?Z.gtb_ltb in *.
  repeat match goal with
         | X : (_ <? _) = false |- _ => apply Z.ltb_ge in X
         end.
  lia.
Qed.

(** What an accepted [field_id_item] or [method_id_item] at [ptr] went
    through: it lies in the file; its class index, its type index (for
    a method: proto index) and its name index, as the file gives them,
    are below the three limits; the host now reads those values; the
    item's eight bytes are the only ones changed; the next item follows
    at once. *)
Definition memberIdChecked (ptr : Z) (w w' : World) (p : Z)
    (classLimit secondLimit nameLimit : Z) : Prop :=
  exists classIdx secondIdx nameIdx,
    fileValue (image w) ptr 2 = Some classIdx
    /\ fileValue (image w) (ptr + 2) 2 = Some secondIdx
    /\ fileValue (image w) (ptr + 4) 4 = Some nameIdx
    /\ classIdx < classLimit
    /\ secondIdx < secondLimit
    /\ nameIdx < nameLimit
    /\ load2 ptr w' = Ok classIdx w'
    /\ load2 (ptr + 2) w' = Ok secondIdx w'
    /\ load4 (ptr + 4) w' = Ok nameIdx w'
    /\ p = ptr + 8
    /\ 0 <= ptr /\ ptr + 8 <= fileLen (state w)
    /\ sameOutside ptr (ptr + 8) w w'.

Lemma memberIdItem_Ok limit2 ptr w p w' ph tb lb sb :
  pHeader (state w) = Some ph ->
  ptr + 8 <= ph \/ ph + sizeofDexHeader <= ptr ->
  0 <= limit2 -> limit2 + 4 <= sizeofDexHeader ->
  getBytes (image w) (ph + off_typeIdsSize) 4 = Some tb ->
  getBytes (image w) (ph + limit2) 4 = Some lb ->
  getBytes (image w) (ph + off_stringIdsSize) 4 = Some sb ->
  (CHECK_PTR_RANGE ptr (ptr + 8);;;
   SWAP_INDEX2 (ptr + 0) off_typeIdsSize;;;
   SWAP_INDEX2 (ptr + 2) limit2;;;
   SWAP_INDEX4 (ptr + 4) off_stringIdsSize;;;
   ret (ptr + 8)) w = Ok p w' ->
  memberIdChecked ptr w w' p (hostValue tb) (hostValue lb) (hostValue sb).
Proof.
  intros Hph Hd Hl0 Hl1 Htb Hlb Hsb E. unfold memberIdChecked.
  assert (Hsig : 0 <= sigLen) by (unfold sigLen; lia).
  unfold sizeofDexHeader, off_typeIdsSize, off_stringIdsSize in *.
  rewrite Z.add_0_r in E.
  apply bind_Ok in E as ([] & w0 & (-> & Hr)%CHECK_PTR_RANGE_Ok & E).
  apply checkPtrRange_true in Hr.
  apply bind_Ok in E as ([] & w1 & X1 & E).
  apply (SWAP_INDEX2_Ok _ _ _ _ _ ph tb Hph Htb) in X1 as (c & F1 & L1);
    [|unfold off_typeIdsSize; lia].
  pose proof (swappedField_frame _ _ _ _ _ F1) as S1.
  pose proof S1 as (St1 & _ & _ & G1).
  apply bind_Ok in E as ([] & w2 & X2 & E).
  apply (SWAP_INDEX2_Ok _ _ _ _ _ ph lb) in X2 as (s & F2 & L2);
    [|now rewrite St1|rewrite G1 by lia; exact Hlb|lia].
  pose proof (swappedField_frame _ _ _ _ _ F2) as S2.
  pose proof S2 as (St2 & _ & _ & G2).
  apply bind_Ok in E as ([] & w3 & X3 & E).
  apply (SWAP_INDEX4_Ok _ _ _ _ _ ph sb) in X3 as (n & F3 & L3);
    [|now rewrite St2, St1
     |rewrite G2, G1 by (unfold off_stringIdsSize; lia); exact Hsb
     |unfold off_stringIdsSize; lia].
  pose proof (swappedField_frame _ _ _ _ _ F3) as S3.
  apply ret_Ok in E as (-> & ->).
  assert (S12 : sameOutside ptr (ptr + 4) w w2).
  { apply (sameOutside_trans _ _ ptr (ptr + 2) (ptr + 2) (ptr + 2 + 2)
             w w1 w2); try lia; assumption. }
  exists c, s, n.
  split; [exact (swappedField_now _ _ _ _ _ F1)|].
  split; [apply (swappedField_before _ _ _ _ _ ptr (ptr + 2) w F2 S1); lia|].
  split; [apply (swappedField_before _ _ _ _ _ ptr (ptr + 4) w F3 S12); lia|].
  do 3 (split; [assumption|]).
  split.
  { apply (swappedField_load2 _ _ _ _ (ptr + 2) (ptr + 8) w3 F1); [|lia].
    apply (sameOutside_trans _ _ (ptr + 2) (ptr + 2 + 2)
             (ptr + 4) (ptr + 4 + 4) w1 w2 w3); try lia; assumption. }
  split.
  { apply (swappedField_load2 _ _ _ _ (ptr + 4) (ptr + 4 + 4) w3 F2);
      [assumption|lia]. }
  split.
  { apply (swappedField_load4 _ _ _ _ (ptr + 8) (ptr + 8) w3 F3);
      [apply sameOutside_refl|lia]. }
  split; [reflexivity|]. split; [lia|]. split; [lia|].
  apply (sameOutside_trans _ _ ptr (ptr + 4) (ptr + 4) (ptr + 4 + 4)
           w w2 w3); try lia; assumption.
Qed.

(** An accepted [field_id_item] has its class and type index below the
    header's [typeIdsSize] and its name index below [stringIdsSize]; an
    accepted [method_id_item] has its class index below [typeIdsSize],
    its proto index below [protoIdsSize] and its name index below
    [stringIdsSize].  Either lies in the file, is swapped in place with
    nothing else changed, and is followed at once by the next item. *)
Theorem member_id_items_checked (ptr : Z) (w : World) (p : Z) (w' : World)
    (ph : Z) (tb pb sb : list byte) :
  pHeader (state w) = Some ph ->
  ptr + 8 <= ph \/ ph + sizeofDexHeader <= ptr ->
  getBytes (image w) (ph + off_typeIdsSize) 4 = Some tb ->
  getBytes (image w) (ph + off_protoIdsSize) 4 = Some pb ->
  getBytes (image w) (ph + off_stringIdsSize) 4 = Some sb ->
  (swapFieldIdItem ptr w = Ok p w' ->
   memberIdChecked ptr w w' p (hostValue tb) (hostValue tb) (hostValue sb))
  /\ (swapMethodIdItem ptr w = Ok p w' ->
      memberIdChecked ptr w w' p (hostValue tb) (hostValue pb) (hostValue sb)).
Proof.
  intros Hph Hd Htb Hpb Hsb.
  assert (Hsig : 0 <= sigLen) by (unfold sigLen; lia).
  split; intros E.
  - apply (memberIdItem_Ok off_typeIdsSize ptr w p w' ph tb tb sb);
      try assumption; unfold off_typeIdsSize, sizeofDexHeader; lia.
  - apply (memberIdItem_Ok off_protoIdsSize ptr w p w' ph tb pb sb);
      try assumption; unfold off_protoIdsSize, sizeofDexHeader; lia.
Qed.
(** Fields swapped one after the other from the start of an item. *)
Lemma swappedField_chain ptr k n w wi wj v :
  sameOutside ptr (ptr + k) w wi -> 0 <= k -> 0 <= n ->
  swappedField (ptr + k) n wi wj v ->
  fileValue (image w) (ptr + k) n = Some v
  /\ sameOutside ptr (ptr + k + n) w wj.
Proof.
  intros S Hk Hn F. split.
  - apply (swappedField_before _ _ _ _ _ ptr (ptr + k) w F S). lia.
  - apply (sameOutside_trans _ _ ptr (ptr + k) (ptr + k) (ptr + k + n)
             w wi wj); try lia; [exact S|].
    exact (swappedField_frame _ _ _ _ _ F).
Qed.

Lemma chain_header ptr k f w wi ph lb :
  sameOutside ptr (ptr + k) w wi ->
  pHeader (state w) = Some ph ->
  getBytes (image w) (ph + f) 4 = Some lb ->
  ph + f + 4 <= ptr \/ ptr + k <= ph + f ->
  pHeader (state wi) = Some ph
  /\ getBytes (image wi) (ph + f) 4 = Some lb.
Proof.
  intros (Hs & _ & _ & Hf) Hph Hlb Hd. split.
  - now rewrite Hs.
  - now rewrite Hf.
Qed.

(** An accepted [class_def_item] lies in the file; its class index is
    below the header's [typeIdsSize]; its superclass index and its
    source file index are [kDexNoIndex] or below [typeIdsSize] and
    [stringIdsSize]; the next item follows at once.  Of the item's eight
    fields the first seven are the only bytes touched: the last one,
    [staticValuesOff], is left as the file has it, on either host. *)
Theorem class_def_item_checked (ptr : Z) (w : World) (p : Z) (w' : World)
    (ph : Z) (tb sb : list byte) :
  pHeader (state w) = Some ph ->
  ptr + 32 <= ph \/ ph + sizeofDexHeader <= ptr ->
  getBytes (image w) (ph + off_typeIdsSize) 4 = Some tb ->
  getBytes (image w) (ph + off_stringIdsSize) 4 = Some sb ->
  swapClassDefItem ptr w = Ok p w' ->
  exists classIdx superclassIdx sourceFileIdx,
    fileValue (image w) ptr 4 = Some classIdx
    /\ fileValue (image w) (ptr + 8) 4 = Some superclassIdx
    /\ fileValue (image w) (ptr + 16) 4 = Some sourceFileIdx
    /\ classIdx < hostValue tb
    /\ (superclassIdx = kDexNoIndex \/ superclassIdx < hostValue tb)
    /\ (sourceFileIdx = kDexNoIndex \/ sourceFileIdx < hostValue sb)
    /\ p = ptr + 32
    /\ 0 <= ptr /\ ptr + 32 <= fileLen (state w)
    /\ sameOutside ptr (ptr + 28) w w'
    /\ getBytes (image w') (ptr + 28) 4 = getBytes (image w) (ptr + 28) 4.
Proof.
  intros Hph Hd Htb Hsb E.
  assert (Hsig : 0 <= sigLen) by (unfold sigLen; lia).
  assert (Ht : 0 <= off_typeIdsSize /\ off_typeIdsSize + 4 <= sizeofDexHeader)
    by (unfold off_typeIdsSize, sizeofDexHeader; lia).
  assert (Hst : 0 <= off_stringIdsSize
                /\ off_stringIdsSize + 4 <= sizeofDexHeader)
    by (unfold off_stringIdsSize, sizeofDexHeader; lia).
  unfold swapClassDefItem, SWAP_OFFSET4 in E.
  apply bind_Ok in E as ([] & w0 & (-> & Hr)%CHECK_PTR_RANGE_Ok & E).
  apply checkPtrRange_true in Hr.
  pose proof (sameOutside_refl ptr (ptr + 0) w) as S0.
  (* classIdx *)
  apply bind_Ok in E as ([] & w1 & X & E).
  destruct (chain_header _ _ _ _ _ _ _ S0 Hph Htb) as (P0 & T0); [lia|].
  apply (SWAP_INDEX4_Ok _ _ _ _ _ ph tb) in X as (c & F1 & L1);
    [|exact P0|exact T0|lia].
  apply (swappedField_chain _ _ _ _ _ _ _ S0) in F1 as (V1 & S1); try lia.
  (* accessFlags *)
  apply bind_Ok in E as ([] & w2 & (a & F2)%SWAP_FIELD4_swapped & E).
  replace (ptr + 4) with (ptr + (0 + 4)) in F2 by lia.
  rewrite <- Z.add_assoc in S1.
  apply (swappedField_chain _ _ _ _ _ _ _ S1) in F2 as (V2 & S2); try lia.
  (* superclassIdx *)
  apply bind_Ok in E as ([] & w3 & X & E).
  rewrite <- Z.add_assoc in S2. cbn [Z.add Pos.add Pos.succ] in S2.
  destruct (chain_header _ _ _ _ _ _ _ S2 Hph Htb) as (P2 & T2); [lia|].
  apply (SWAP_INDEX4_OR_NOINDEX_Ok _ _ _ _ _ ph tb) in X
    as (su & F3 & L3); [|exact P2|exact T2|lia].
  apply (swappedField_chain _ _ _ _ _ _ _ S2) in F3 as (V3 & S3); try lia.
  (* interfacesOff *)
  apply bind_Ok in E as ([] & w4 & (io & F4)%SWAP_FIELD4_swapped & E).
  rewrite <- Z.add_assoc in S3. cbn [Z.add Pos.add Pos.succ] in S3.
  apply (swappedField_chain _ _ _ _ _ _ _ S3) in F4 as (V4 & S4); try lia.
  (* sourceFileIdx *)
  apply bind_Ok in E as ([] & w5 & X & E).
  rewrite <- Z.add_assoc in S4. cbn [Z.add Pos.add Pos.succ] in S4.
  destruct (chain_header _ _ _ _ _ _ _ S4 Hph Hsb) as (P4 & T4); [lia|].
  apply (SWAP_INDEX4_OR_NOINDEX_Ok _ _ _ _ _ ph sb) in X
    as (sf & F5 & L5); [|exact P4|exact T4|lia].
  apply (swappedField_chain _ _ _ _ _ _ _ S4) in F5 as (V5 & S5); try lia.
  (* annotationsOff *)
  apply bind_Ok in E as ([] & w6 & (ao & F6)%SWAP_FIELD4_swapped & E).
  rewrite <- Z.add_assoc in S5. cbn [Z.add Pos.add Pos.succ] in S5.
  apply (swappedField_chain _ _ _ _ _ _ _ S5) in F6 as (V6 & S6); try lia.
  (* classDataOff *)
  apply bind_Ok in E as ([] & w7 & (co & F7)%SWAP_FIELD4_swapped & E).
  rewrite <- Z.add_assoc in S6. cbn [Z.add Pos.add Pos.succ] in S6.
  apply (swappedField_chain _ _ _ _ _ _ _ S6) in F7 as (V7 & S7); try lia.
  rewrite <- Z.add_assoc in S7. cbn [Z.add Pos.add Pos.succ] in S7.
  apply ret_Ok in E as (-> & ->).
  rewrite Z.add_0_r in V1.
  exists c, su, sf. repeat (split; [first [assumption|reflexivity|lia]|]).
  destruct S7 as (_ & _ & _ & Hf). apply Hf. lia.
Qed.

End Indices.

(** *** Lists of indices *)

(** The [count] 16-bit values the file holds from [p] on. *)
Fixpoint decodeU2s (m : list byte) (p : Z) (count : nat) : option (list Z) :=
  match count with
  | O => Some []
  | S count' =>
      match fileValue m p 2, decodeU2s m (p + 2) count' with
      | Some v, Some vs => Some (v :: vs)
      | _, _ => None
      end
  end.

(** The [count] pairs of an index and an offset, 32 bits each, that the
    file holds from [p] on. *)
Fixpoint decodeIdxOffs (m : list byte) (p : Z) (count : nat)
    : option (list (Z * Z)) :=
  match count with
  | O => Some []
  | S count' =>
      match fileValue m p 4, fileValue m (p + 4) 4,
            decodeIdxOffs m (p + 8) count' with
      | Some i, Some o, Some es => Some ((i, o) :: es)
      | _, _, _ => None
      end
  end.

Lemma decodeU2s_frame m m' : forall count p,
  (forall off n, p <= off -> getBytes m' off n = getBytes m off n) ->
  decodeU2s m' p count = decodeU2s m p count.
Proof.
  induction count as [|count IH]; intros p Hf; simpl; [reflexivity|].
  unfold fileValue. rewrite !Hf by lia.
  rewrite (IH (p + 2)); [reflexivity|].
  intros off n Hoff. apply Hf. lia.
Qed.

Lemma decodeIdxOffs_frame m m' : forall count p,
  (forall off n, p <= off -> getBytes m' off n = getBytes m off n) ->
  decodeIdxOffs m' p count = decodeIdxOffs m p count.
Proof.
  induction count as [|count IH]; intros p Hf; simpl; [reflexivity|].
  unfold fileValue. rewrite !Hf by lia.
  rewrite (IH (p + 8)); [reflexivity|].
  intros off n Hoff. apply Hf. lia.
Qed.

Lemma decodeIdxOffs_length m : forall count p es,
  decodeIdxOffs m p count = Some es -> length es = count.
Proof.
  induction count as [|count IH]; intros p es E; simpl in E.
  - now injection E as <-.
  - destruct (fileValue m p 4); [|discriminate].
    destruct (fileValue m (p + 4) 4); [|discriminate].
    destruct (decodeIdxOffs m (p + 8) count) as [es'|] eqn:E'; [|discriminate].
    injection E as <-. simpl. f_equal. exact (IH _ _ E').
Qed.

Lemma decodeU2s_length m : forall count p vs,
  decodeU2s m p count = Some vs -> length vs = count.
Proof.
  induction count as [|count IH]; intros p vs E; simpl in E.
  - now injection E as <-.
  - destruct (fileValue m p 2); [|discriminate].
    destruct (decodeU2s m (p + 2) count) as [vs'|] eqn:E'; [|discriminate].
    injection E as <-. simpl. f_equal. exact (IH _ _ E').
Qed.

Section Lists.
Context `{Host} `{DexFormat} `{DexConstants}.

Lemma CHECK_LIST_SIZE_range ptr count elemSize w u w' :
  0 <= count * elemSize ->
  CHECK_LIST_SIZE ptr count elemSize w = Ok u w' ->
  w' = w /\ 0 <= ptr /\ ptr + count * elemSize <= fileLen (state w)
  /\ count * elemSize < 2 ^ 32.
Proof.
  intros Hnn E. unfold CHECK_LIST_SIZE, bind in E; cbn [getState] in E.
  apply failIf_Ok in E as (E & ->). split; [reflexivity|].
  apply orb_false_iff in E as (E1 & E2).
  apply negb_false_iff in E1, E2. unfold safe_mul in E1.
  apply Z.ltb_lt in E1. apply checkPtrRange_true in E2.
  unfold u4 in E2. rewrite Z.mod_small in E2 by lia. lia.
Qed.

Lemma typeListLoop_Ok count : forall pType w p w' ph tb,
  pHeader (state w) = Some ph ->
  getBytes (image w) (ph + off_typeIdsSize) 4 = Some tb ->
  ph + off_typeIdsSize + 4 <= pType ->
  typeListLoop count pType w = Ok p w' ->
  exists idxs,
    decodeU2s (image w) pType count = Some idxs
    /\ Forall (fun i => i < hostValue tb) idxs
    /\ p = pType + 2 * Z.of_nat count
    /\ sameOutside pType (pType + 2 * Z.of_nat count) w w'.
Proof.
  induction count as [|count IH]; intros pType w p w' ph tb Hph Htb Hd E.
  - cbn [typeListLoop] in E. apply ret_Ok in E as (-> & ->).
    exists []. split; [reflexivity|]. split; [constructor|].
    split; [lia|]. apply sameOutside_refl.
  - cbn [typeListLoop] in E. rewrite Z.add_0_r in E.
    apply bind_Ok in E as ([] & w1 & X & E).
    apply (SWAP_INDEX2_Ok _ _ _ _ _ ph tb Hph Htb) in X as (v & F & L);
      [|lia].
    pose proof (swappedField_frame _ _ _ _ _ F) as S1.
    pose proof S1 as (St1 & _ & _ & G1).
    apply (IH _ _ _ _ ph tb) in E as (idxs & Hdec & Hall & -> & S2);
      [|now rewrite St1|rewrite G1 by lia; exact Htb|lia].
    exists (v :: idxs). split; [|split; [|split]].
    + cbn [decodeU2s]. rewrite (swappedField_now _ _ _ _ _ F).
      rewrite <- (decodeU2s_frame (image w) (image w1)), Hdec; [reflexivity|].
      intros off n Hoff. apply G1. lia.
    + now constructor.
    + lia.
    + apply (sameOutside_trans _ _ pType (pType + 2) (pType + 2)
               (pType + 2 + 2 * Z.of_nat count) w w1 w'); try lia; assumption.
Qed.

(** An accepted [type_list] has eight bytes in the file even when it is
    empty, its declared number of items lies within the file, and every
    type index, as the file gives it, is below the header's
    [typeIdsSize].  The call returns the address after the last item
    and changes no byte outside the list. *)
Theorem type_list_checked (ptr : Z) (w : World) (p : Z) (w' : World)
    (ph : Z) (tb : list byte) :
  pHeader (state w) = Some ph ->
  ph + sizeofDexHeader <= ptr ->
  getBytes (image w) (ph + off_typeIdsSize) 4 = Some tb ->
  swapTypeList ptr w = Ok p w' ->
  exists size idxs,
    fileValue (image w) ptr 4 = Some size
    /\ decodeU2s (image w) (ptr + 4) (Z.to_nat size) = Some idxs
    /\ Forall (fun i => i < hostValue tb) idxs
    /\ p = ptr + 4 + 2 * size
    /\ 0 <= ptr /\ ptr + 8 <= fileLen (state w) /\ p <= fileLen (state w)
    /\ sameOutside ptr p w w'.
Proof.
  intros Hph Hd Htb E.
  assert (Hsig : 0 <= sigLen) by (unfold sigLen; lia).
  assert (Ht : 0 <= off_typeIdsSize /\ off_typeIdsSize + 4 <= sizeofDexHeader)
    by (unfold off_typeIdsSize, sizeofDexHeader; lia).
  unfold swapTypeList in E. rewrite Z.add_0_r in E.
  apply bind_Ok in E as ([] & w0 & (-> & Hr)%CHECK_PTR_RANGE_Ok & E).
  apply checkPtrRange_true in Hr.
  apply bind_Ok in E as ([] & w1 & (bs & Hb & S1 & Hb')%SWAP_FIELD4_Ok & E).
  rewrite (bind_Ok_l _ _ _ _ _ (load4_swapped _ _ _ Hb')) in E.
  pose proof (LittleEndianList.le_combine_bound bs) as Hbound.
  rewrite (getBytes_length4 _ _ _ Hb) in Hbound.
  pose proof S1 as (St1 & _ & _ & G1).
  apply bind_Ok in E as ([] & w2 & X & E).
  apply CHECK_LIST_SIZE_range in X as (-> & _ & Hfit & _); [|lia].
  rewrite St1 in Hfit.
  apply (typeListLoop_Ok _ _ _ _ _ ph tb) in E as (idxs & Hdec & Hall & -> & S2);
    [|now rewrite St1|rewrite G1 by lia; exact Htb|lia].
  rewrite Z2Nat.id in S2 |- * by lia.
  exists (le_combine bs), idxs.
  split; [unfold fileValue; now rewrite Hb|].
  split.
  { rewrite <- (decodeU2s_frame (image w) (image w1)); [exact Hdec|].
    intros off n Hoff. apply G1. lia. }
  split; [exact Hall|]. split; [reflexivity|].
  split; [lia|]. split; [lia|]. split; [lia|].
  apply (sameOutside_trans _ _ ptr (ptr + 4) (ptr + 4)
           (ptr + 4 + 2 * le_combine bs) w w1 w'); try lia; assumption.
Qed.

(** Whether the indices go up strictly, after [lastIdx] unless the
    list is at its start. *)
Definition ascendingAfter (first : bool) (lastIdx : Z) (l : list Z) : Prop :=
  strictlyAscending (if first then l else lastIdx :: l).

Lemma annotationsLoop_Ok count : forall item first lastIdx limitField d w p w'
    ph lb,
  pHeader (state w) = Some ph ->
  getBytes (image w) (ph + limitField) 4 = Some lb ->
  ph + limitField + 4 <= item ->
  annotationsLoop count item first lastIdx limitField d w = Ok p w' ->
  exists es,
    decodeIdxOffs (image w) item count = Some es
    /\ ascendingAfter first lastIdx (map fst es)
    /\ Forall (fun e => fst e < hostValue lb) es
    /\ p = item + 8 * Z.of_nat count
    /\ sameOutside item (item + 8 * Z.of_nat count) w w'.
Proof.
  induction count as [|count IH];
    intros item first lastIdx limitField d w p w' ph lb Hph Hlb Hd E.
  - cbn [annotationsLoop] in E. apply ret_Ok in E as (-> & ->).
    exists []. split; [reflexivity|].
    split; [unfold ascendingAfter; destruct first; exact I|].
    split; [constructor|]. split; [lia|]. apply sameOutside_refl.
  - cbn [annotationsLoop] in E. rewrite Z.add_0_r in E.
    apply bind_Ok in E as ([] & w1 & X & E).
    apply (SWAP_INDEX4_Ok _ _ _ _ _ ph lb Hph Hlb) in X as (v & F1 & L);
      [|lia].
    pose proof (swappedField_frame _ _ _ _ _ F1) as S1.
    pose proof S1 as (St1 & _ & _ & G1).
    apply bind_Ok in E as ([] & w2 & (o & F2)%SWAP_FIELD4_swapped & E).
    pose proof (swappedField_frame _ _ _ _ _ F2) as S2.
    pose proof S2 as (St2 & _ & _ & G2).
    rewrite (bind_Ok_l _ _ _ _ _
               (swappedField_load4 _ _ _ _ _ _ w2 F1 S2 ltac:(lia))) in E.
    apply bind_Ok in E as ([] & w3 & (C & ->)%failIf_Ok & E).
    assert (S12 : sameOutside item (item + 8) w w2).
    { apply (sameOutside_trans _ _ item (item + 4) (item + 4) (item + 4 + 4)
               w w1 w2); try lia; assumption. }
    pose proof S12 as (St12 & _ & _ & G12).
    apply (IH _ _ _ _ _ _ _ _ ph lb) in E
      as (es & Hdec & Hasc & Hall & -> & S3);
      [|now rewrite St12|rewrite G12 by lia; exact Hlb|lia].
    exists ((v, o) :: es). split; [|split; [|split; [|split]]].
    + cbn [decodeIdxOffs]. rewrite (swappedField_now _ _ _ _ _ F1).
      rewrite (swappedField_before _ _ _ _ _ item (item + 4) w F2 S1)
        by lia.
      rewrite <- (decodeIdxOffs_frame (image w) (image w2)), Hdec;
        [reflexivity|].
      intros off n Hoff. apply G12. lia.
    + unfold ascendingAfter in *. cbn [map fst] in *.
      destruct first; cbn [negb andb] in C.
      * exact Hasc.
      * rewrite Z.geb_leb in C. apply Z.leb_gt in C.
        cbn [strictlyAscending]. split; [exact C|exact Hasc].
    + constructor; [exact L|exact Hall].
    + lia.
    + apply (sameOutside_trans _ _ item (item + 8) (item + 8)
               (item + 8 + 8 * Z.of_nat count) w w2 w'); try lia; assumption.
Qed.
Lemma optionalAnnotations_Ok size addr limitField d w p w' ph lb :
  0 <= size ->
  pHeader (state w) = Some ph ->
  getBytes (image w) (ph + limitField) 4 = Some lb ->
  ph + limitField + 4 <= addr ->
  addr <= fileLen (state w) ->
  (if negb (size =? 0)
   then (CHECK_LIST_SIZE addr size 8;;;
         annotationsLoop (Z.to_nat size) addr true 0 limitField d)
   else ret addr) w = Ok p w' ->
  exists es,
    decodeIdxOffs (image w) addr (Z.to_nat size) = Some es
    /\ strictlyAscending (map fst es)
    /\ Forall (fun e => fst e < hostValue lb) es
    /\ p = addr + 8 * size
    /\ p <= fileLen (state w)
    /\ sameOutside addr p w w'.
Proof.
  intros Hsz Hph Hlb Hd Hfit E.
  destruct (Z.eqb_spec size 0) as [->|Hne]; cbn [negb] in E.
  - apply ret_Ok in E as (-> & ->). exists []. cbn.
    split; [reflexivity|]. split; [exact I|]. split; [constructor|].
    split; [lia|]. split; [lia|]. apply sameOutside_refl.
  - apply bind_Ok in E as ([] & w1 & X & E).
    apply CHECK_LIST_SIZE_range in X as (-> & _ & Hr & _); [|lia].
    apply (annotationsLoop_Ok _ _ _ _ _ _ _ _ _ ph lb Hph Hlb Hd) in E
      as (es & Hdec & Hasc & Hall & -> & S).
    rewrite Z2Nat.id in S |- * by lia.
    exists es. repeat (split; [first [assumption|reflexivity|lia]|]).
    exact S.
Qed.

(** An accepted [annotations_directory_item]: the field, method and
    parameter annotations follow the sixteen bytes of its head in that
    order, as many of each as the head declares; within each list the
    indices, as the file gives them, go up strictly, and they are below
    the header's [fieldIdsSize] (fields) or [methodIdsSize] (methods and
    parameters).  The call returns the address after the last entry,
    which lies in the file, and changes no byte outside the item. *)
Theorem annotations_directory_checked (ptr : Z) (w : World) (p : Z)
    (w' : World) (ph : Z) (fb mb : list byte) :
  pHeader (state w) = Some ph ->
  ph + sizeofDexHeader <= ptr ->
  getBytes (image w) (ph + off_fieldIdsSize) 4 = Some fb ->
  getBytes (image w) (ph + off_methodIdsSize) 4 = Some mb ->
  swapAnnotationsDirectoryItem ptr w = Ok p w' ->
  exists fieldsSize methodsSize parametersSize fields methods parameters,
    fileValue (image w) (ptr + 4) 4 = Some fieldsSize
    /\ fileValue (image w) (ptr + 8) 4 = Some methodsSize
    /\ fileValue (image w) (ptr + 12) 4 = Some parametersSize
    /\ decodeIdxOffs (image w) (ptr + 16) (Z.to_nat fieldsSize) = Some fields
    /\ decodeIdxOffs (image w) (ptr + 16 + 8 * fieldsSize)
         (Z.to_nat methodsSize) = Some methods
    /\ decodeIdxOffs (image w) (ptr + 16 + 8 * fieldsSize + 8 * methodsSize)
         (Z.to_nat parametersSize) = Some parameters
    /\ strictlyAscending (map fst fields)
    /\ strictlyAscending (map fst methods)
    /\ strictlyAscending (map fst parameters)
    /\ Forall (fun e => fst e < hostValue fb) fields
    /\ Forall (fun e => fst e < hostValue mb) methods
    /\ Forall (fun e => fst e < hostValue mb) parameters
    /\ p = ptr + 16 + 8 * fieldsSize + 8 * methodsSize + 8 * parametersSize
    /\ 0 <= ptr /\ p <= fileLen (state w)
    /\ sameOutside ptr p w w'.
Proof.
  intros Hph Hd Hfb Hmb E.
  assert (Hsig : 0 <= sigLen) by (unfold sigLen; lia).
  assert (Hf : 0 <= off_fieldIdsSize /\ off_fieldIdsSize + 4 <= sizeofDexHeader)
    by (unfold off_fieldIdsSize, sizeofDexHeader; lia).
  assert (Hm : 0 <= off_methodIdsSize
               /\ off_methodIdsSize + 4 <= sizeofDexHeader)
    by (unfold off_methodIdsSize, sizeofDexHeader; lia).
  unfold swapAnnotationsDirectoryItem, SWAP_OFFSET4 in E.
  unfold swapFieldAnnotations, swapMethodAnnotations,
    swapParameterAnnotations in E.
  apply bind_Ok in E as ([] & w0 & (-> & Hr)%CHECK_PTR_RANGE_Ok & E).
  apply checkPtrRange_true in Hr.
  apply bind_Ok in E as ([] & w1 & (ca & F1)%SWAP_FIELD4_swapped & E).
  apply bind_Ok in E as ([] & w2 & (fs & F2)%SWAP_FIELD4_swapped & E).
  apply bind_Ok in E as ([] & w3 & (ms & F3)%SWAP_FIELD4_swapped & E).
  apply bind_Ok in E as ([] & w4 & (ps & F4)%SWAP_FIELD4_swapped & E).
  rewrite Z.add_0_r in F1.
  pose proof (swappedField_frame _ _ _ _ _ F1) as S1.
  pose proof (swappedField_frame _ _ _ _ _ F2) as S2.
  pose proof (swappedField_frame _ _ _ _ _ F3) as S3.
  pose proof (swappedField_frame _ _ _ _ _ F4) as S4.
  assert (S02 : sameOutside ptr (ptr + 8) w w2).
  { apply (sameOutside_trans _ _ ptr (ptr + 4) (ptr + 4) (ptr + 4 + 4)
             w w1 w2); try lia; assumption. }
  assert (S03 : sameOutside ptr (ptr + 12) w w3).
  { apply (sameOutside_trans _ _ ptr (ptr + 8) (ptr + 8) (ptr + 8 + 4)
             w w2 w3); try lia; assumption. }
  assert (S04 : sameOutside ptr (ptr + 16) w w4).
  { apply (sameOutside_trans _ _ ptr (ptr + 12) (ptr + 12) (ptr + 12 + 4)
             w w3 w4); try lia; assumption. }
  assert (S24 : sameOutside (ptr + 8) (ptr + 16) w2 w4).
  { apply (sameOutside_trans _ _ (ptr + 8) (ptr + 8 + 4) (ptr + 12)
             (ptr + 12 + 4) w2 w3 w4); try lia; assumption. }
  pose proof (swappedField_before _ _ _ _ _ _ _ w F2 S1 ltac:(lia)) as V2.
  pose proof (swappedField_before _ _ _ _ _ _ _ w F3 S02 ltac:(lia)) as V3.
  pose proof (swappedField_before _ _ _ _ _ _ _ w F4 S03 ltac:(lia)) as V4.
  assert (Hrange : forall off v, fileValue (image w) off 4 = Some v -> 0 <= v).
  { intros off v Ev. unfold fileValue in Ev.
    destruct (getBytes (image w) off 4) as [bs|]; [|discriminate].
    injection Ev as <-.
    pose proof (LittleEndianList.le_combine_bound bs). lia. }
  pose proof (Hrange _ _ V2) as Hfs.
  pose proof (Hrange _ _ V3) as Hms.
  pose proof (Hrange _ _ V4) as Hps.
  (* field annotations *)
  rewrite (bind_Ok_l _ _ _ _ _
             (swappedField_load4 _ _ _ _ _ _ w4 F2 S24 ltac:(lia))) in E.
  apply bind_Ok in E as (a1 & w5 & X & E).
  pose proof S04 as (St4 & _ & _ & G4).
  apply (optionalAnnotations_Ok _ _ _ _ _ _ _ ph fb) in X
    as (fields & D1 & A1 & L1 & -> & R1 & S5);
    [|lia|now rewrite St4|rewrite G4 by lia; exact Hfb|lia|rewrite St4; lia].
  rewrite St4 in R1.
  assert (S05 : sameOutside ptr (ptr + 16 + 8 * fs) w w5).
  { apply (sameOutside_trans _ _ ptr (ptr + 16) (ptr + 16)
             (ptr + 16 + 8 * fs) w w4 w5); try lia; assumption. }
  (* method annotations *)
  assert (S35 : sameOutside (ptr + 12) (ptr + 16 + 8 * fs) w3 w5).
  { apply (sameOutside_trans _ _ (ptr + 12) (ptr + 12 + 4) (ptr + 16)
             (ptr + 16 + 8 * fs) w3 w4 w5); try lia; assumption. }
  rewrite (bind_Ok_l _ _ _ _ _
             (swappedField_load4 _ _ _ _ _ _ w5 F3 S35 ltac:(lia))) in E.
  apply bind_Ok in E as (a2 & w6 & X & E).
  pose proof S05 as (St5 & _ & _ & G5).
  apply (optionalAnnotations_Ok _ _ _ _ _ _ _ ph mb) in X
    as (methods & D2 & A2 & L2 & -> & R2 & S6);
    [|lia|now rewrite St5|rewrite G5 by lia; exact Hmb|lia|rewrite St5; lia].
  rewrite St5 in R2.
  assert (S06 : sameOutside ptr (ptr + 16 + 8 * fs + 8 * ms) w w6).
  { apply (sameOutside_trans _ _ ptr (ptr + 16 + 8 * fs) (ptr + 16 + 8 * fs)
             (ptr + 16 + 8 * fs + 8 * ms) w w5 w6); try lia; assumption. }
  (* parameter annotations *)
  assert (S46 : sameOutside (ptr + 16) (ptr + 16 + 8 * fs + 8 * ms) w4 w6).
  { apply (sameOutside_trans _ _ (ptr + 16) (ptr + 16 + 8 * fs)
             (ptr + 16 + 8 * fs) (ptr + 16 + 8 * fs + 8 * ms) w4 w5 w6);
      try lia; assumption. }
  rewrite (bind_Ok_l _ _ _ _ _
             (swappedField_load4 _ _ _ _ _ _ w6 F4 S46 ltac:(lia))) in E.
  apply bind_Ok in E as (a3 & w7 & X & E).
  pose proof S06 as (St6 & _ & _ & G6).
  apply (optionalAnnotations_Ok _ _ _ _ _ _ _ ph mb) in X
    as (parameters & D3 & A3 & L3 & -> & R3 & S7);
    [|lia|now rewrite St6|rewrite G6 by lia; exact Hmb|lia|rewrite St6; lia].
  rewrite St6 in R3.
  apply ret_Ok in E as (-> & ->).
  exists fs, ms, ps, fields, methods, parameters.
  split; [exact V2|]. split; [exact V3|]. split; [exact V4|].
  split.
  { rewrite <- (decodeIdxOffs_frame (image w) (image w4)); [exact D1|].
    intros off n Hoff. apply G4. lia. }
  split.
  { rewrite <- (decodeIdxOffs_frame (image w) (image w5)); [exact D2|].
    intros off n Hoff. apply G5. lia. }
  split.
  { rewrite <- (decodeIdxOffs_frame (image w) (image w6)); [exact D3|].
    intros off n Hoff. apply G6. lia. }
  repeat (split; [first [assumption|reflexivity|lia]|]).
  apply (sameOutside_trans _ _ ptr (ptr + 16 + 8 * fs + 8 * ms)
           (ptr + 16 + 8 * fs + 8 * ms)
           (ptr + 16 + 8 * fs + 8 * ms + 8 * ps) w w6 w7); try lia; assumption.
Qed.
End Lists.

(** *** class_data_item *)

Section ClassData.
Context `{Host} `{DexFormat} `{DexConstants}.

(** What [verifyFields] wants of a field, [verifyMethods] of a method. *)
Definition fieldOk (limit : Z) (expectStatic : bool) (f : DexField) : Prop :=
  fieldIdx f < limit
  /\ (Z.land (accessFlags f) ACC_STATIC <> 0 <-> expectStatic = true)
  /\ Z.land (accessFlags f) (u4 (Z.lnot ACC_FIELD_MASK)) = 0.

Definition methodOk (limit : Z) (expectDirect : bool) (m : DexMethod) : Prop :=
  let flags := methodAccessFlags m in
  methodIdx m < limit
  /\ (Z.land flags (Z.lor (Z.lor ACC_STATIC ACC_PRIVATE) ACC_CONSTRUCTOR) <> 0
      <-> expectDirect = true)
  /\ Z.land flags (u4 (Z.lnot ACC_METHOD_MASK)) = 0
  /\ (Z.land flags ACC_SYNCHRONIZED <> 0 -> Z.land flags ACC_NATIVE <> 0)
  /\ (codeOff m = 0 <-> Z.land flags (Z.lor ACC_NATIVE ACC_ABSTRACT) <> 0).

Lemma neqb_0_iff x (b : bool) :
  Bool.eqb (negb (x =? 0)) b = true <-> (x <> 0 <-> b = true).
Proof.
  destruct (Z.eqb_spec x 0), b; cbn; split; try easy; try tauto.
Qed.

Lemma verifyFieldsLoop_Ok n : forall i fields e w u w' lim,
  headerField off_fieldIdsSize w = Ok lim w ->
  verifyFieldsLoop n i fields e w = Ok u w' ->
  w' = w
  /\ forall k, (i <= k < i + n)%nat ->
       exists f, fields !! k = Some f /\ fieldOk lim e f.
Proof.
  induction n as [|n IH]; intros i fields e w u w' lim Hh E.
  - cbn [verifyFieldsLoop] in E. apply ret_Ok in E as (_ & ->).
    split; [reflexivity|]. intros k Hk. lia.
  - cbn [verifyFieldsLoop] in E.
    destruct (fields !! i) as [f|] eqn:Ef; [|discriminate].
    rewrite (bind_Ok_l _ _ _ _ _ Hh) in E.
    apply bind_Ok in E as ([] & w1 & (C1 & ->)%failIf_Ok & E).
    apply bind_Ok in E as ([] & w2 & (C2 & ->)%failIf_Ok & E).
    apply bind_Ok in E as ([] & w3 & (C3 & ->)%failIf_Ok & E).
    apply (IH _ _ _ _ _ _ lim Hh) in E as (-> & Hrest).
    split; [reflexivity|]. intros k Hk.
    destruct (Nat.eq_dec k i) as [->|Hne]; [|apply Hrest; lia].
    exists f. split; [exact Ef|]. unfold fieldOk.
    rewrite Z.geb_leb in C1. apply Z.leb_gt in C1.
    apply negb_false_iff in C2, C3. apply neqb_0_iff in C2.
    apply Z.eqb_eq in C3. auto.
Qed.

Lemma verifyMethodsLoop_Ok n : forall i methods e w u w' lim,
  headerField off_methodIdsSize w = Ok lim w ->
  verifyMethodsLoop n i methods e w = Ok u w' ->
  w' = w
  /\ forall k, (i <= k < i + n)%nat ->
       exists m, methods !! k = Some m /\ methodOk lim e m.
Proof.
  induction n as [|n IH]; intros i methods e w u w' lim Hh E.
  - cbn [verifyMethodsLoop] in E. apply ret_Ok in E as (_ & ->).
    split; [reflexivity|]. intros k Hk. lia.
  - cbn [verifyMethodsLoop] in E.
    destruct (methods !! i) as [m|] eqn:Em; [|discriminate].
    rewrite (bind_Ok_l _ _ _ _ _ Hh) in E.
    apply bind_Ok in E as ([] & w1 & (C1 & ->)%failIf_Ok & E).
    apply bind_Ok in E as ([] & w2 & (C2 & ->)%failIf_Ok & E).
    apply bind_Ok in E as ([] & w3 & (C3 & ->)%failIf_Ok & E).
    apply bind_Ok in E as ([] & w4 & C4 & E).
    assert (C4' : w4 = w /\ (codeOff m = 0 <->
              Z.land (methodAccessFlags m) (Z.lor ACC_NATIVE ACC_ABSTRACT)
              <> 0)).
    { destruct (Z.eqb_spec (Z.land (methodAccessFlags m)
                              (Z.lor ACC_NATIVE ACC_ABSTRACT)) 0) as [E0|N0];
        apply failIf_Ok in C4 as (C4 & ->); (split; [reflexivity|]).
      - apply Z.eqb_neq in C4. tauto.
      - apply negb_false_iff, Z.eqb_eq in C4. tauto. }
    destruct C4' as (-> & C4').
    apply (IH _ _ _ _ _ _ lim Hh) in E as (-> & Hrest).
    split; [reflexivity|]. intros k Hk.
    destruct (Nat.eq_dec k i) as [->|Hne]; [|apply Hrest; lia].
    exists m. split; [exact Em|]. unfold methodOk.
    rewrite Z.geb_leb in C1. apply Z.leb_gt in C1.
    apply negb_false_iff in C2. apply neqb_0_iff in C2.
    apply orb_false_iff in C3 as (C3 & C5).
    apply negb_false_iff, Z.eqb_eq in C3.
    repeat (split; [assumption|]). split; [|exact C4'].
    intros Hs. apply andb_false_iff in C5 as [C5|C5].
    + apply negb_false_iff, Z.eqb_eq in C5. contradiction.
    + apply negb_false_iff, negb_true_iff, Z.eqb_neq in C5. exact C5.
Qed.

Lemma attempt_Ok {A} (c : M A) w b w' :
  attempt c w = Ok b w' ->
  (b = true /\ exists a, c w = Ok a w')
  \/ (b = false /\ exists d, c w = Reject d w').
Proof.
  unfold attempt. destruct (c w) as [a w1|d w1|]; [| |discriminate];
    intros [= <- <-]; [left|right]; eauto.
Qed.

Lemma bind_cong {A B} (c : M A) (k k' : A -> M B) w :
  (forall a w1, c w = Ok a w1 -> k a w1 = k' a w1) ->
  bind c k w = bind c k' w.
Proof. unfold bind. destruct (c w); auto. Qed.

Lemma attempt_verifyFields_world n : forall i fields e w lim b w1,
  headerField off_fieldIdsSize w = Ok lim w ->
  attempt (verifyFieldsLoop n i fields e) w = Ok b w1 -> w1 = w.
Proof.
  unfold attempt.
  induction n as [|n IH]; intros i fields e w lim b w1 Hf A.
  - cbn in A. now injection A.
  - cbn [verifyFieldsLoop] in A.
    destruct (fields !! i) as [f|]; [|discriminate].
    rewrite (bind_Ok_l _ _ _ _ _ Hf) in A.
    unfold bind, CHECK_INDEX, failIf, reject, ret in A.
    destruct (fieldIdx f >=? lim); [now injection A|].
    destruct (negb (Bool.eqb _ e)); [now injection A|].
    destruct (negb (_ =? 0)); [now injection A|].
    exact (IH _ _ _ _ _ _ _ Hf A).
Qed.

(** [verifyFields] on a list that has the elements it is asked to look
    at comes back, one way or the other, and leaves the world alone. *)
Lemma verifyFieldsLoop_returns n : forall i fields e w lim,
  headerField off_fieldIdsSize w = Ok lim w ->
  (i + n <= length fields)%nat ->
  exists b, attempt (verifyFieldsLoop n i fields e) w = Ok b w.
Proof.
  induction n as [|n IH]; intros i fields e w lim Hh Hlen.
  - exists true. reflexivity.
  - destruct (lookup_lt_is_Some_2 fields i) as [f Ef]; [lia|].
    destruct (IH (S i) fields e w lim Hh) as [b Hb]; [lia|].
    unfold attempt in *. cbn [verifyFieldsLoop]. rewrite Ef.
    rewrite (bind_Ok_l _ _ _ _ _ Hh).
    unfold bind, CHECK_INDEX, failIf, reject, ret.
    destruct (fieldIdx f >=? lim); [now exists false|].
    destruct (negb (Bool.eqb _ e)); [now exists false|].
    destruct (negb (_ =? 0)); [now exists false|].
    exists b. exact Hb.
Qed.

(** An accepted [class_data_item]: each list has the elements its size
    announces; every static field has an index below [fieldIdsSize], is
    static and has no flag outside [ACC_FIELD_MASK]; every method has an
    index below [methodIdsSize], is in the list its flags put it in,
    has no flag outside [ACC_METHOD_MASK], is synchronized only if
    native, and has code exactly when it is neither native nor
    abstract.  The world is left alone. *)
Theorem class_data_checked (classData : DexClassData) (w : World) (w' : World)
    (fieldIdsSize methodIdsSize : Z) :
  headerField off_fieldIdsSize w = Ok fieldIdsSize w ->
  headerField off_methodIdsSize w = Ok methodIdsSize w ->
  verifyClassDataItem0 classData w = Ok tt w' ->
  w' = w
  /\ (forall k, (k < Z.to_nat (staticFieldsSize (header classData)))%nat ->
        exists f, staticFields classData !! k = Some f
                  /\ fieldOk fieldIdsSize true f)
  /\ (forall k, (k < Z.to_nat (directMethodsSize (header classData)))%nat ->
        exists m, directMethods classData !! k = Some m
                  /\ methodOk methodIdsSize true m)
  /\ (forall k, (k < Z.to_nat (virtualMethodsSize (header classData)))%nat ->
        exists m, virtualMethods classData !! k = Some m
                  /\ methodOk methodIdsSize false m).
Proof.
  intros Hf Hm E. unfold verifyClassDataItem0, verifyFields, verifyMethods in E.
  apply bind_Ok in E as (b1 & w1 & A1 & E).
  apply bind_Ok in E as ([] & w2 & (C1 & ->)%failIf_Ok & E).
  apply negb_false_iff in C1. subst b1.
  apply attempt_Ok in A1 as [(_ & [] & A1)|(? & _)]; [|discriminate].
  apply (verifyFieldsLoop_Ok _ _ _ _ _ _ _ _ Hf) in A1 as (-> & P1).
  apply bind_Ok in E as (b2 & w2 & A2 & E).
  apply (attempt_verifyFields_world _ _ _ _ _ _ _ _ Hf) in A2 as ->.
  apply bind_Ok in E as ([] & w3 & (_ & ->)%failIf_Ok & E).
  apply bind_Ok in E as (b3 & w3 & A3 & E).
  apply bind_Ok in E as ([] & w4 & (C3 & ->)%failIf_Ok & E).
  apply negb_false_iff in C3. subst b3.
  apply attempt_Ok in A3 as [(_ & [] & A3)|(? & _)]; [|discriminate].
  apply (verifyMethodsLoop_Ok _ _ _ _ _ _ _ _ Hm) in A3 as (-> & P3).
  apply bind_Ok in E as (b4 & w4 & A4 & E).
  apply failIf_Ok in E as (C4 & ->).
  apply negb_false_iff in C4. subst b4.
  apply attempt_Ok in A4 as [(_ & [] & A4)|(? & _)]; [|discriminate].
  apply (verifyMethodsLoop_Ok _ _ _ _ _ _ _ _ Hm) in A4 as (-> & P4).
  split; [reflexivity|].
  split; [intros k Hk; apply P1; lia|].
  split; [intros k Hk; apply P3; lia|intros k Hk; apply P4; lia].
Qed.

(** The class data with its instance fields taken away. *)
Definition withoutInstanceFields (classData : DexClassData) : DexClassData :=
  {| header :=
       {| staticFieldsSize := staticFieldsSize (header classData);
          instanceFieldsSize := 0;
          directMethodsSize := directMethodsSize (header classData);
          virtualMethodsSize := virtualMethodsSize (header classData) |};
     staticFields := staticFields classData;
     instanceFields := [];
     directMethods := directMethods classData;
     virtualMethods := virtualMethods classData |}.

(** The instance fields of a [class_data_item] have no say: as long as
    the list has the elements its size announces, the verdict on the
    item is the verdict on the same item without instance fields,
    whatever their indices and flags are. *)
Theorem instance_fields_are_not_checked (classData : DexClassData)
    (w : World) (fieldIdsSize : Z) :
  headerField off_fieldIdsSize w = Ok fieldIdsSize w ->
  (Z.to_nat (instanceFieldsSize (header classData))
   <= length (instanceFields classData))%nat ->
  verifyClassDataItem0 classData w
  = verifyClassDataItem0 (withoutInstanceFields classData) w.
Proof.
  intros Hf Hlen.
  unfold verifyClassDataItem0, withoutInstanceFields, verifyFields;
    cbn [header staticFieldsSize instanceFieldsSize directMethodsSize
         virtualMethodsSize staticFields instanceFields directMethods
         virtualMethods].
  apply bind_cong. intros b1 w1 A1.
  apply (attempt_verifyFields_world _ _ _ _ _ _ _ _ Hf) in A1 as ->.
  apply bind_cong. intros [] w2 (_ & ->)%failIf_Ok.
  destruct (verifyFieldsLoop_returns
              (Z.to_nat (instanceFieldsSize (header classData))) 0
              (instanceFields classData) false w fieldIdsSize Hf)
    as [b2 A2]; [lia|].
  rewrite (bind_Ok_l _ _ _ _ _ A2).
  change (Z.to_nat 0) with 0%nat.
  assert (A0 : attempt (verifyFieldsLoop 0 0 [] false) w = Ok true w)
    by reflexivity.
  rewrite (bind_Ok_l _ _ _ _ _ A0). reflexivity.
Qed.
End ClassData.

(** *** The order of field ids and method ids *)

(** [(class0, name0, third0)] comes strictly before
    [(class1, name1, third1)]: by class, then by name, then by the third
    component. *)
Definition comesBefore (class0 name0 third0 class1 name1 third1 : Z) : Prop :=
  class0 < class1
  \/ (class0 = class1
      /\ (name0 < name1 \/ (name0 = name1 /\ third0 < third1))).

Lemma outOfOrder_false class0 name0 third0 class1 name1 third1 :
  outOfOrder class0 name0 third0 class1 name1 third1 = false
  <-> comesBefore class0 name0 third0 class1 name1 third1.
Proof.
  unfold outOfOrder, comesBefore.
  rewrite !Z.gtb_ltb, Z.geb_leb.
  destruct (Z.ltb_spec class1 class0), (Z.ltb_spec class0 class1);
    cbn; try (split; [discriminate|lia]); try (split; [lia|reflexivity]);
    try lia.
  destruct (Z.ltb_spec name1 name0), (Z.ltb_spec name0 name1);
    cbn; try (split; [discriminate|lia]); try (split; [lia|reflexivity]);
    try lia.
  destruct (Z.leb_spec third1 third0);
    cbn; try (split; [discriminate|lia]); try (split; [lia|reflexivity]).
Qed.

Section Ordering.
Context `{Host} `{DexFormat} `{DexConstants} `{DexStrings}.

(** An accepted [field_id_item] names a class descriptor, a field
    descriptor and a valid member name, and an accepted
    [method_id_item] a reference descriptor and a valid member name;
    when an item came before it in the section, that item comes
    strictly before it in the order by class index, then name index,
    then type index (for a method: proto index).  The file is only
    read. *)
Theorem member_ids_ordered (ptr : Z) (w : World) (p : Z) (w' : World) :
  (crossVerifyFieldIdItem ptr w = Ok p w' ->
   p = ptr + 8 /\ w' = w
   /\ exists classIdx typeIdx nameIdx,
        load2 (ptr + 0) w = Ok classIdx w
        /\ load2 (ptr + 2) w = Ok typeIdx w
        /\ load4 (ptr + 4) w = Ok nameIdx w
        /\ dexIsClassDescriptor (dexStringByTypeIdx w classIdx) = true
        /\ dexIsFieldDescriptor (dexStringByTypeIdx w typeIdx) = true
        /\ dexIsValidMemberName (dexStringById w nameIdx) = true
        /\ forall item0, previousItem (state w) = Some item0 ->
             exists classIdx0 typeIdx0 nameIdx0,
               load2 (item0 + 0) w = Ok classIdx0 w
               /\ load2 (item0 + 2) w = Ok typeIdx0 w
               /\ load4 (item0 + 4) w = Ok nameIdx0 w
               /\ comesBefore classIdx0 nameIdx0 typeIdx0
                    classIdx nameIdx typeIdx)
  /\ (crossVerifyMethodIdItem ptr w = Ok p w' ->
      p = ptr + 8 /\ w' = w
      /\ exists classIdx protoIdx nameIdx,
           load2 (ptr + 0) w = Ok classIdx w
           /\ load2 (ptr + 2) w = Ok protoIdx w
           /\ load4 (ptr + 4) w = Ok nameIdx w
           /\ dexIsReferenceDescriptor (dexStringByTypeIdx w classIdx) = true
           /\ dexIsValidMemberName (dexStringById w nameIdx) = true
           /\ forall item0, previousItem (state w) = Some item0 ->
                exists classIdx0 protoIdx0 nameIdx0,
                  load2 (item0 + 0) w = Ok classIdx0 w
                  /\ load2 (item0 + 2) w = Ok protoIdx0 w
                  /\ load4 (item0 + 4) w = Ok nameIdx0 w
                  /\ comesBefore classIdx0 nameIdx0 protoIdx0
                       classIdx nameIdx protoIdx).
Proof.
  split; intros E.
  - unfold crossVerifyFieldIdItem, stringByTypeIdx, stringById in E.
    apply bind_Ok in E as (c & w1 & Lc & E).
    pose proof (proj1 (load2_Ok _ _ _ _ Lc)) as ->.
    apply bind_Ok in E as (s1 & w1 & [= <- <-] & E).
    apply bind_Ok in E as ([] & w1 & (C1 & ->)%failIf_Ok & E).
    apply bind_Ok in E as (t & w1 & Lt & E).
    pose proof (proj1 (load2_Ok _ _ _ _ Lt)) as ->.
    apply bind_Ok in E as (s2 & w1 & [= <- <-] & E).
    apply bind_Ok in E as ([] & w1 & (C2 & ->)%failIf_Ok & E).
    apply bind_Ok in E as (n & w1 & Ln & E).
    pose proof (proj1 (load4_Ok _ _ _ _ Ln)) as ->.
    apply bind_Ok in E as (s3 & w1 & [= <- <-] & E).
    apply bind_Ok in E as ([] & w1 & (C3 & ->)%failIf_Ok & E).
    apply bind_Ok in E as (st & w1 & (-> & ->)%getState_Ok & E).
    apply negb_false_iff in C1, C2, C3.
    destruct (previousItem (state w)) as [item0|] eqn:Hprev.
    + apply bind_Ok in E as (c0 & w1 & Lc0 & E).
      pose proof (proj1 (load2_Ok _ _ _ _ Lc0)) as ->.
      apply bind_Ok in E as (n0 & w1 & Ln0 & E).
      pose proof (proj1 (load4_Ok _ _ _ _ Ln0)) as ->.
      apply bind_Ok in E as (t0 & w1 & Lt0 & E).
      pose proof (proj1 (load2_Ok _ _ _ _ Lt0)) as ->.
      apply bind_Ok in E as ([] & w1 & (C4 & ->)%failIf_Ok & E).
      apply ret_Ok in E as (-> & ->).
      apply outOfOrder_false in C4.
      split; [reflexivity|]. split; [reflexivity|].
      exists c, t, n. repeat (split; [assumption|]).
      intros ? [= <-]. exists c0, t0, n0. now repeat split.
    + apply ret_Ok in E as (-> & ->).
      split; [reflexivity|]. split; [reflexivity|].
      exists c, t, n. repeat (split; [assumption|]). discriminate.
  - unfold crossVerifyMethodIdItem, stringByTypeIdx, stringById in E.
    apply bind_Ok in E as (c & w1 & Lc & E).
    pose proof (proj1 (load2_Ok _ _ _ _ Lc)) as ->.
    apply bind_Ok in E as (s1 & w1 & [= <- <-] & E).
    apply bind_Ok in E as ([] & w1 & (C1 & ->)%failIf_Ok & E).
    apply bind_Ok in E as (n & w1 & Ln & E).
    pose proof (proj1 (load4_Ok _ _ _ _ Ln)) as ->.
    apply bind_Ok in E as (s3 & w1 & [= <- <-] & E).
    apply bind_Ok in E as ([] & w1 & (C3 & ->)%failIf_Ok & E).
    apply bind_Ok in E as (t & w1 & Lt & E).
    pose proof (proj1 (load2_Ok _ _ _ _ Lt)) as ->.
    apply bind_Ok in E as (st & w1 & (-> & ->)%getState_Ok & E).
    apply negb_false_iff in C1, C3.
    destruct (previousItem (state w)) as [item0|] eqn:Hprev.
    + apply bind_Ok in E as (c0 & w1 & Lc0 & E).
      pose proof (proj1 (load2_Ok _ _ _ _ Lc0)) as ->.
      apply bind_Ok in E as (n0 & w1 & Ln0 & E).
      pose proof (proj1 (load4_Ok _ _ _ _ Ln0)) as ->.
      apply bind_Ok in E as (t0 & w1 & Lt0 & E).
      pose proof (proj1 (load2_Ok _ _ _ _ Lt0)) as ->.
      apply bind_Ok in E as ([] & w1 & (C4 & ->)%failIf_Ok & E).
      apply ret_Ok in E as (-> & ->).
      apply outOfOrder_false in C4.
      split; [reflexivity|]. split; [reflexivity|].
      exists c, t, n. repeat (split; [assumption|]).
      intros ? [= <-]. exists c0, t0, n0. now repeat split.
    + apply ret_Ok in E as (-> & ->).
      split; [reflexivity|]. split; [reflexivity|].
      exists c, t, n. repeat (split; [assumption|]). discriminate.
Qed.
End Ordering.

End DexItemsFacts.


(* --------------------------------------------------------------------- *)
(** ** Identifiers, tags, frames and line tables of vm/Debugger.c         *)
(* --------------------------------------------------------------------- *)

Module DebuggerMoreFacts.
Import CString CStringFacts Debugger DebuggerMore.

(** *** Slots *)

(** A slot number that went to the debugger through [tweakSlot] comes
    back through [untweakSlot] as the same slot exactly when, for the
    variable named "this", it is the first argument register of the
    frame's method, and for any other variable, it is not the number
    1000 that stands in for slot 0. *)
Theorem slot_round_trip (slot : Z) (name : string) (frame : StackSaveArea) :
  cstring name = true ->
  (untweakSlot (tweakSlot slot name) frame = slot
   <-> if String.eqb name "this"
       then slot = registersSize (method frame) - insSize (method frame)
       else slot <> kSlot0Sub).
Proof.
  intros Hc. unfold tweakSlot, untweakSlot, kSlot0Sub.
  destruct (String.eqb_spec name "this") as [->|Hne].
  - rewrite strcmp_refl. cbn. split; intros E; now rewrite E.
  - rewrite (strcmp_eqb_false name "this" Hc eq_refl Hne).
    destruct (Z.eqb_spec slot 0) as [->|H0]; cbn; [split; [lia|reflexivity]|].
    destruct (Z.eqb_spec slot 1000) as [->|H1]; [split; [lia|easy]|].
    destruct (Z.eqb_spec slot 0); [contradiction|]. easy.
Qed.

(** *** Identifiers *)

Lemma low_bits_of_id a b :
  0 <= a < 2 ^ 32 -> 0 <= b ->
  Z.lor a (Z.shiftl b 32) mod 2 ^ 32 = a
  /\ Z.shiftr (Z.lor a (Z.shiftl b 32)) 32 = b.
Proof.
  intros Ha Hb. split.
  - rewrite <- Z.land_ones by lia. rewrite Z.land_lor_distr_l.
    rewrite Z.land_ones, Z.mod_small by lia.
    replace (Z.land (Z.shiftl b 32) (Z.ones 32)) with 0;
      [apply Z.lor_0_r|].
    symmetry. apply Z.bits_inj'. intros n Hn.
    rewrite Z.land_spec, Z.bits_0.
    destruct (Z.ltb_spec n 32).
    + now rewrite Z.shiftl_spec_low.
    + rewrite Z.ones_spec_high by lia. apply andb_false_r.
  - rewrite Z.shiftr_lor, Z.shiftr_shiftl_l, Z.sub_diag, Z.shiftl_0_r by lia.
    rewrite Z.shiftr_div_pow2, Z.div_small by lia. apply Z.lor_0_l.
Qed.

Lemma registryCompare_refl x : registryCompare x x = 0.
Proof. unfold registryCompare. now rewrite Z.sub_diag. Qed.

Lemma find_is_Some_app {A} (f : A -> bool) l l' :
  find f l <> None -> find f (l ++ l') <> None.
Proof.
  induction l as [|x l IH]; cbn; [easy|]. destruct (f x); [easy|exact IH].
Qed.

Lemma lookup_after_add table h item d :
  find (fun entry => registryCompare entry item =? 0)
    (snd (dvmHashTableLookup table h item registryCompare d)) <> None
  \/ d = false.
Proof.
  unfold dvmHashTableLookup.
  destruct (find _ table) as [e|] eqn:E; cbn [snd].
  - left. now rewrite E.
  - destruct d; [left|now right]. cbn [snd].
    clear E. induction table as [|x t IH]; cbn.
    + now rewrite registryCompare_refl.
    + destruct (registryCompare x item =? 0); [easy|exact IH].
Qed.

(** An identifier packs the 32-bit address with the kind above it: it
    converts back to the address, tells its kind, and is 0 for the null
    reference only.  When registration was asked for and a debugger is
    connected, the identifier is in the registry afterwards, nothing
    that was registered is lost, and registering again changes nothing;
    otherwise the registry is left as it was. *)
Theorem object_ids_round_trip (g : Registry) (obj type : Z) (reg : bool) :
  0 < obj < 2 ^ 32 -> type = kObjectId \/ type = kRefTypeId ->
  exists id g',
    registerObject g obj type reg = (id, g')
    /\ objectIdToObject id = obj
    /\ Z.shiftr id 32 = type
    /\ id <> 0
    /\ registerObject g 0 type reg = (0, g)
    /\ (if reg && debuggerConnected g
        then objectIsRegistered g' id type = true
             /\ (forall other, lookupId g other = true ->
                   lookupId g' other = true)
             /\ registerObject g' obj type reg = (id, g')
        else g' = g).
Proof.
  intros Hobj Htype.
  assert (Ht : 0 <= type) by (unfold kObjectId, kRefTypeId in Htype; lia).
  assert (Hu : u4 obj = obj) by (unfold u4; apply Z.mod_small; lia).
  destruct (low_bits_of_id obj type ltac:(lia) Ht) as (Hlow & Hhigh).
  assert (Hne : Z.lor obj (Z.shiftl type 32) <> 0).
  { intros E. rewrite E in Hlow. change (0 mod 2 ^ 32) with 0 in Hlow. lia. }
  unfold registerObject. destruct (Z.eqb_spec obj 0) as [|_]; [lia|].
  rewrite Hu. cbn [Z.eqb].
  destruct reg; cbn [negb andb].
  2:{ eexists _, _. split; [reflexivity|]. now repeat split. }
  destruct (debuggerConnected g) eqn:Hconn; cbn [negb].
  2:{ eexists _, _. split; [reflexivity|]. now repeat split. }
  assert (Hid : u4 (Z.lor obj (Z.shiftl type 32)) = obj) by exact Hlow.
  rewrite Hid.
  set (table' := snd (dvmHashTableLookup (dbgRegistry g) (registryHash obj)
                        obj registryCompare true)).
  exists (Z.lor obj (Z.shiftl type 32)),
    {| dbgRegistry := table'; debuggerConnected := true |}.
  split; [reflexivity|].
  split; [exact Hlow|]. split; [exact Hhigh|]. split; [exact Hne|].
  split; [reflexivity|].
  assert (Hfound : find (fun entry => registryCompare entry obj =? 0) table'
                   <> None).
  { destruct (lookup_after_add (dbgRegistry g) (registryHash obj) obj true)
      as [E|E]; [exact E|discriminate]. }
  split; [|split].
  - unfold objectIsRegistered.
    destruct (Z.eqb_spec (Z.lor obj (Z.shiftl type 32)) 0); [reflexivity|].
    unfold lookupId, dvmHashTableLookup; cbn [dbgRegistry]. rewrite Hid.
    destruct (find (fun entry => registryCompare entry obj =? 0) table');
      [reflexivity|contradiction].
  - intros other. unfold lookupId, dvmHashTableLookup; cbn [dbgRegistry].
    destruct (find _ (dbgRegistry g)) as [e|] eqn:E; [|discriminate].
    intros _.
    assert (Hmono : find (fun entry => registryCompare entry (u4 other) =? 0)
                      table' <> None).
    { subst table'. unfold dvmHashTableLookup.
      destruct (find (fun entry => registryCompare entry obj =? 0)
                  (dbgRegistry g)); cbn [snd].
      - now rewrite E.
      - apply find_is_Some_app. now rewrite E. }
    destruct (find (fun entry => registryCompare entry (u4 other) =? 0)
                table'); [reflexivity|contradiction].
  - cbn [debuggerConnected dbgRegistry negb].
    f_equal. f_equal.
    unfold dvmHashTableLookup at 1.
    destruct (find (fun entry => registryCompare entry obj =? 0) table')
      as [e|] eqn:E; [reflexivity|contradiction].
Qed.

(** *** Tags *)

Definition primitiveChars : list ascii :=
  ["B"; "C"; "F"; "D"; "I"; "J"; "S"; "V"; "Z"]%char.

(** The first character of a type and the tag it gets. *)
Definition signatureTags : list (ascii * Z) :=
  [("L"%char, JT_STRING); ("L"%char, JT_CLASS_OBJECT); ("L"%char, JT_THREAD);
   ("L"%char, JT_THREAD_GROUP); ("L"%char, JT_CLASS_LOADER);
   ("["%char, JT_ARRAY); ("B"%char, JT_BYTE); ("C"%char, JT_CHAR);
   ("L"%char, JT_OBJECT); ("F"%char, JT_FLOAT); ("D"%char, JT_DOUBLE);
   ("I"%char, JT_INT); ("J"%char, JT_LONG); ("S"%char, JT_SHORT);
   ("V"%char, JT_VOID); ("Z"%char, JT_BOOLEAN)].

Lemma strcmp_first s c t : strcmp s (String c t) = 0 -> firstChar s = c.
Proof.
  destruct s as [|d s]; cbn.
  - intros E. symmetry. apply uchar_zero. lia.
  - destruct (Ascii.eqb_spec d c) as [->|Hne]; [reflexivity|].
    intros E. apply uchar_inj. lia.
Qed.

Ltac in_list := first [left; reflexivity | right; in_list].

Lemma signature_tag_cases type :
  dvmDbgGetSignatureTag type = -1
  \/ In (firstChar type, dvmDbgGetSignatureTag type) signatureTags.
Proof.
  unfold dvmDbgGetSignatureTag, signatureTags.
  repeat match goal with
         | |- context [strcmp type ?lit =? 0] =>
             destruct (Z.eqb_spec (strcmp type lit) 0) as [E|_];
             [apply strcmp_first in E; rewrite E; right; cbn [In]; in_list|]
         end.
  repeat match goal with
         | |- context [Ascii.eqb (firstChar type) ?c] =>
             destruct (Ascii.eqb_spec (firstChar type) c) as [E|_];
             [rewrite E; right; cbn [In]; in_list|]
         end.
  now left.
Qed.

Lemma resultTag_is_reference gDvm obj :
  isTagPrimitive (resultTagFromObject gDvm obj) = false
  /\ dvmDbgGetTagWidth (resultTagFromObject gDvm obj) = sizeofObjectId.
Proof.
  unfold resultTagFromObject. destruct obj as [obj|]; [|now split].
  repeat match goal with
         | |- context [if ?b then _ else _] => destruct b
         end; now split.
Qed.

Ltac tag_case :=
  split; [vm_compute; reflexivity|];
  split;
    [intros Hp; vm_compute in Hp;
     first [discriminate Hp
           | split; [vm_compute; reflexivity|vm_compute; in_list]]|];
  split;
    [intros Hp; vm_compute in Hp;
     first [discriminate Hp | vm_compute; reflexivity]|];
  split; [vm_compute; reflexivity|];
  first [left; reflexivity | right; vm_compute; reflexivity].

Lemma tag_pair_facts c tag :
  In (c, tag) signatureTags ->
  isTagPrimitive tag = existsb (Ascii.eqb c) primitiveChars
  /\ (isTagPrimitive tag = true ->
      tag = uchar c /\ In (dvmDbgGetTagWidth tag) [0; 1; 2; 4; 8])
  /\ (isTagPrimitive tag = false -> dvmDbgGetTagWidth tag = sizeofObjectId)
  /\ tag mod 2 ^ 8 = tag
  /\ (tag = JT_OBJECT \/ (tag =? JT_OBJECT) = false).
Proof.
  unfold signatureTags. cbn [In].
  intros [E|[E|[E|[E|[E|[E|[E|[E|[E|[E|[E|[E|[E|[E|[E|[E|[]]]]]]]]]]]]]]]]];
    injection E as <- <-; tag_case.
Qed.

(** For a type that [dvmDbgGetSignatureTag] knows: the tag is that of a
    primitive type exactly when the type starts with one of the nine
    primitive type characters, and then it is that character and the
    value takes 0, 1, 2, 4 or 8 bytes; every other tag stands for a
    reference, which takes the eight bytes of an identifier.
    [dvmDbgGetObjectTag] changes the tag only for a non-null object of
    declared type [JT_OBJECT], and never whether it is primitive nor
    how many bytes the value takes. *)
Theorem signature_tags_consistent (gDvm : KnownClasses) (heap : Z -> Object)
    (objectId : Z) (type : string) :
  dvmDbgGetSignatureTag type <> -1 ->
  isTagPrimitive (dvmDbgGetSignatureTag type)
  = existsb (Ascii.eqb (firstChar type)) primitiveChars
  /\ (isTagPrimitive (dvmDbgGetSignatureTag type) = true ->
      dvmDbgGetSignatureTag type = uchar (firstChar type)
      /\ In (dvmDbgGetTagWidth (dvmDbgGetSignatureTag type)) [0; 1; 2; 4; 8])
  /\ (isTagPrimitive (dvmDbgGetSignatureTag type) = false ->
      dvmDbgGetTagWidth (dvmDbgGetSignatureTag type) = sizeofObjectId)
  /\ isTagPrimitive (dvmDbgGetObjectTag gDvm heap objectId type)
     = isTagPrimitive (dvmDbgGetSignatureTag type)
  /\ dvmDbgGetTagWidth (dvmDbgGetObjectTag gDvm heap objectId type)
     = dvmDbgGetTagWidth (dvmDbgGetSignatureTag type)
  /\ (dvmDbgGetSignatureTag type <> JT_OBJECT \/ objectId = 0 ->
      dvmDbgGetObjectTag gDvm heap objectId type
      = dvmDbgGetSignatureTag type).
Proof.
  intros Hknown. unfold dvmDbgGetObjectTag.
  destruct (signature_tag_cases type) as [|Hin]; [contradiction|].
  apply tag_pair_facts in Hin as (P1 & P2 & P3 & Hmod & Hobj).
  rewrite Hmod.
  split; [exact P1|]. split; [exact P2|]. split; [exact P3|].
  destruct Hobj as [Hobj|Hobj].
  - rewrite Hobj. rewrite Z.eqb_refl. cbn [andb].
    destruct (Z.eqb_spec objectId 0) as [->|Hne]; cbn [negb].
    + repeat split; reflexivity.
    + destruct (resultTag_is_reference gDvm
                 (if objectIdToObject objectId =? 0 then None
                  else Some (heap (objectIdToObject objectId)))) as (P & W).
      split; [exact P|]. split; [exact W|].
      intros [Hc|Hc]; [now contradiction Hc|contradiction].
  - rewrite Hobj. cbn [andb]. repeat split; reflexivity.
Qed.

(** *** Stack frames *)

(** The frames a debugger gets to see. *)
Definition visibleFrames (frames : list Frame) : list Frame :=
  List.filter (fun frame => negb (isBreakFrame frame)) frames.

Lemma countFrames_spec frames : forall count,
  0 <= count ->
  count + Z.of_nat (length (visibleFrames frames)) < 2 ^ 32 ->
  countFrames frames count
  = count + Z.of_nat (length (visibleFrames frames)).
Proof.
  unfold visibleFrames.
  induction frames as [|frame prev IH]; intros count Hc Hlt;
    cbn [countFrames List.filter length] in *.
  - lia.
  - destruct (isBreakFrame frame); cbn [negb length] in *.
    + now apply IH.
    + unfold u4. rewrite Z.mod_small by lia.
      rewrite IH by lia. lia.
Qed.

Lemma findFrame_spec g frames : forall count num,
  match visibleFrames frames !! Z.to_nat (num - count) with
  | Some frame =>
      count <= num ->
      exists loc,
        findFrame g frames count num
        = (Some (frameToFrameId (framePtr frame), loc),
           snd (classObjectToRefTypeId g (methodClazz (frameMethod frame))))
        /\ typeTag loc
           = (if methodClazzIsInterface (frameMethod frame)
              then TT_INTERFACE else TT_CLASS)
        /\ classId loc
           = fst (classObjectToRefTypeId g (methodClazz (frameMethod frame)))
        /\ methodId loc = methodToMethodId (methodPtr (frameMethod frame))
        /\ idx loc
           = (if methodIsNative (frameMethod frame) then 2 ^ 64 - 1
              else (currentPc frame - insns (frameMethod frame)) mod 2 ^ 64)
  | None => count <= num -> findFrame g frames count num = (None, g)
  end
  /\ (num < count -> findFrame g frames count num = (None, g)).
Proof.
  unfold visibleFrames.
  induction frames as [|frame prev IH]; intros count num.
  - cbn [findFrame List.filter]. rewrite lookup_nil.
    split; intros; reflexivity.
  - cbn [findFrame List.filter].
    destruct (isBreakFrame frame) eqn:Hb; cbn [negb].
    + apply IH.
    + destruct (Z.eqb_spec count num) as [->|Hne].
      * rewrite Z.sub_diag. cbn [Z.to_nat lookup list_lookup]. split; [|lia].
        intros _.
        destruct (classObjectToRefTypeId g (methodClazz (frameMethod frame)))
          as [cid g'] eqn:Hc.
        eexists. split; [reflexivity|]. cbn. now repeat split.
      * destruct (IH (count + 1) num) as (IH1 & IH2). split.
        -- destruct (Z.le_gt_cases count num) as [Hle|Hgt].
           ++ replace (Z.to_nat (num - count))
                with (S (Z.to_nat (num - (count + 1)))) by lia.
              cbn [lookup list_lookup].
              destruct (List.filter _ prev !! Z.to_nat (num - (count + 1)));
                intros _; apply IH1; lia.
           ++ replace (Z.to_nat (num - count)) with 0%nat by lia.
              cbn [lookup list_lookup]. intros ?. lia.
        -- intros Hlt. apply IH2. lia.
Qed.

(** The frames of a thread as the debugger counts them and as it asks
    for them by number agree: break frames are left out of both, frame
    [num] exists exactly for [0 <= num < count], it is the [num]-th
    frame that is not a break frame, and its location names the class
    and method of the frame, with the all-ones offset for a native
    method.  Only the class of the frame handed out is registered.  A
    thread that is not found has no frames. *)
Theorem frames_by_number_match_count (g : Registry) (frames : list Frame)
    (num : Z) :
  Z.of_nat (length frames) < 2 ^ 31 ->
  dvmDbgGetThreadFrameCount (Some frames)
  = Z.of_nat (length (visibleFrames frames))
  /\ (0 <= num < dvmDbgGetThreadFrameCount (Some frames) ->
      exists frame loc,
        visibleFrames frames !! Z.to_nat num = Some frame
        /\ dvmDbgGetThreadFrame g (Some frames) num
           = (Some (frameToFrameId (framePtr frame), loc),
              snd (classObjectToRefTypeId g
                     (methodClazz (frameMethod frame))))
        /\ typeTag loc
           = (if methodClazzIsInterface (frameMethod frame)
              then TT_INTERFACE else TT_CLASS)
        /\ classId loc
           = fst (classObjectToRefTypeId g (methodClazz (frameMethod frame)))
        /\ methodId loc = methodToMethodId (methodPtr (frameMethod frame))
        /\ idx loc
           = (if methodIsNative (frameMethod frame) then 2 ^ 64 - 1
              else (currentPc frame - insns (frameMethod frame)) mod 2 ^ 64))
  /\ (num < 0 \/ dvmDbgGetThreadFrameCount (Some frames) <= num ->
      dvmDbgGetThreadFrame g (Some frames) num = (None, g))
  /\ dvmDbgGetThreadFrameCount None = 0
  /\ dvmDbgGetThreadFrame g None num = (None, g).
Proof.
  intros Hlen.
  assert (Hvis : (length (visibleFrames frames) <= length frames)%nat).
  { unfold visibleFrames. apply List.filter_length_le. }
  assert (Hcount : dvmDbgGetThreadFrameCount (Some frames)
                   = Z.of_nat (length (visibleFrames frames))).
  { unfold dvmDbgGetThreadFrameCount.
    rewrite countFrames_spec by lia. unfold toInt. rewrite Z.add_0_l.
    destruct (Z.ltb_spec (Z.of_nat (length (visibleFrames frames))) (2 ^ 31));
      lia. }
  rewrite Hcount.
  destruct (findFrame_spec g frames 0 num) as (F1 & F2).
  rewrite Z.sub_0_r in F1.
  split; [reflexivity|]. split; [|split; [|split; reflexivity]].
  - intros Hnum.
    destruct (lookup_lt_is_Some_2 (visibleFrames frames) (Z.to_nat num))
      as [frame Hf]; [lia|].
    rewrite Hf in F1. destruct F1 as (loc & F1); [lia|].
    exists frame, loc. split; [exact Hf|exact F1].
  - intros [Hneg|Hbig]; cbn [dvmDbgGetThreadFrame].
    + now apply F2.
    + rewrite (lookup_ge_None_2 (visibleFrames frames)) in F1 by lia.
      apply F1. lia.
Qed.

(** *** The addresses of a source line *)

(** The line of the last entry of the table, in table order, whose
    address is at most [a]; [cur] when there is none. *)
Fixpoint lineAt (positions : list (Z * Z)) (a : Z) (cur : option Z)
    : option Z :=
  match positions with
  | [] => cur
  | (address, l) :: rest =>
      lineAt rest a (if address <=? a then Some l else cur)
  end.

(** Addresses that do not go down, from [lo] on. *)
Fixpoint ascendingFrom (lo : Z) (positions : list (Z * Z)) : Prop :=
  match positions with
  | [] => True
  | (address, _) :: rest => lo <= address /\ ascendingFrom address rest
  end.

(** What the callbacks and the final loop do about address [a], given
    the context's [lastAddressValid] and [lastAddress]. *)
Fixpoint reached (line insnsSize : Z) (positions : list (Z * Z))
    (valid : bool) (last a : Z) : bool :=
  match positions with
  | [] => valid && (last <=? a) && (a <? insnsSize)
  | (address, l) :: rest =>
      if l =? line then
        reached line insnsSize rest true (if valid then last else address) a
      else
        (valid && (last <=? a) && (a <? address))
        || reached line insnsSize rest false last a
  end.

Definition wellSized (s : AddressSet) : Prop :=
  setSize s <= Z.of_nat (length (set s)).

Lemma dvmAddressSetSet_get s i a :
  0 <= i -> 0 <= a -> wellSized s ->
  wellSized (dvmAddressSetSet s i)
  /\ setSize (dvmAddressSetSet s i) = setSize s
  /\ dvmAddressSetGet (dvmAddressSetSet s i) a
     = dvmAddressSetGet s a || ((a =? i) && (a <? setSize s)).
Proof.
  intros Hi Ha Hw. unfold dvmAddressSetSet, dvmAddressSetGet, wellSized in *.
  destruct (Z.ltb_spec i (setSize s)) as [Hlt|Hge]; cbn [setSize set].
  - rewrite length_insert. split; [exact Hw|]. split; [reflexivity|].
    destruct (Z.ltb_spec a (setSize s)) as [Hal|Hag];
      [|now rewrite andb_false_r].
    rewrite andb_true_r.
    destruct (Z.eqb_spec a i) as [->|Hne].
    + rewrite list_lookup_insert_eq by lia. cbn. now rewrite orb_true_r.
    + rewrite list_lookup_insert_ne by lia. now rewrite orb_false_r.
  - split; [exact Hw|]. split; [reflexivity|].
    destruct (Z.ltb_spec a (setSize s)) as [Hal|Hag];
      [|now rewrite andb_false_r].
    destruct (Z.eqb_spec a i) as [->|Hne]; [lia|]. now rewrite orb_false_r.
Qed.

Lemma setRange_get n : forall i s a,
  0 <= i -> 0 <= a -> wellSized s ->
  wellSized (setRange n i s)
  /\ setSize (setRange n i s) = setSize s
  /\ dvmAddressSetGet (setRange n i s) a
     = dvmAddressSetGet s a
       || ((i <=? a) && (a <? i + Z.of_nat n) && (a <? setSize s)).
Proof.
  induction n as [|n IH]; intros i s a Hi Ha Hw; cbn [setRange].
  - split; [exact Hw|]. split; [reflexivity|].
    destruct (Z.leb_spec i a), (Z.ltb_spec a (i + Z.of_nat 0));
      cbn; try lia; now rewrite orb_false_r.
  - destruct (dvmAddressSetSet_get s i a Hi Ha Hw) as (Hw1 & Hs1 & Hg1).
    destruct (IH (i + 1) (dvmAddressSetSet s i) a ltac:(lia) Ha Hw1)
      as (Hw2 & Hs2 & Hg2).
    split; [exact Hw2|]. split; [congruence|].
    rewrite Hg2, Hg1, Hs1.
    destruct (dvmAddressSetGet s a); [reflexivity|]. cbn [orb].
    destruct (Z.ltb_spec a (setSize s)); [|now rewrite !andb_false_r].
    rewrite !andb_true_r.
    destruct (Z.eqb_spec a i), (Z.leb_spec (i + 1) a), (Z.leb_spec i a),
      (Z.ltb_spec a (i + 1 + Z.of_nat n)), (Z.ltb_spec a (i + Z.of_nat (S n)));
      cbn; try reflexivity; lia.
Qed.

Lemma setRange_to n i s a hi :
  0 <= i -> 0 <= a -> wellSized s -> n = Z.to_nat (hi - i) ->
  dvmAddressSetGet (setRange n i s) a
  = dvmAddressSetGet s a || ((i <=? a) && (a <? hi) && (a <? setSize s)).
Proof.
  intros Hi Ha Hw ->.
  destruct (setRange_get (Z.to_nat (hi - i)) i s a Hi Ha Hw) as (_ & _ & ->).
  f_equal. f_equal.
  destruct (Z.leb_spec i a), (Z.ltb_spec a (i + Z.of_nat (Z.to_nat (hi - i)))),
    (Z.ltb_spec a hi); cbn; try reflexivity; lia.
Qed.

Lemma fold_addressSetCb insnsSize positions : forall c lo a,
  ascendingFrom lo positions -> 0 <= lo -> 0 <= a ->
  wellSized (pSet c) -> setSize (pSet c) = insnsSize ->
  (lastAddressValid c = true -> 0 <= lastAddress c) ->
  let c' :=
    fold_left (fun c e => addressSetCb c (fst e) (snd e)) positions c in
  dvmAddressSetGet
    (if lastAddressValid c'
     then setRange (Z.to_nat (insnsSize - lastAddress c')) (lastAddress c')
            (pSet c')
     else pSet c') a
  = dvmAddressSetGet (pSet c) a
    || (reached (lineNum c) insnsSize positions (lastAddressValid c)
          (lastAddress c) a
        && (a <? insnsSize)).
Proof.
  induction positions as [|[address l] rest IH];
    intros c lo a Hasc Hlo Ha Hw Hs Hv; cbn [fold_left reached fst snd].
  - destruct (lastAddressValid c) eqn:Hvalid; cbn [andb].
    + rewrite (setRange_to _ _ _ a insnsSize) by (auto; lia).
      rewrite Hs. reflexivity.
    + now rewrite orb_false_r.
  - destruct Hasc as (Hle & Hasc).
    set (c1 := addressSetCb c address l).
    assert (H1 :
      lineNum c1 = lineNum c /\ wellSized (pSet c1)
      /\ setSize (pSet c1) = insnsSize
      /\ (lastAddressValid c1 = true -> 0 <= lastAddress c1)
      /\ dvmAddressSetGet (pSet c1) a
         || (reached (lineNum c) insnsSize rest (lastAddressValid c1)
               (lastAddress c1) a && (a <? insnsSize))
         = dvmAddressSetGet (pSet c) a
           || ((if l =? lineNum c
                then reached (lineNum c) insnsSize rest true
                       (if lastAddressValid c then lastAddress c
                        else address) a
                else (lastAddressValid c && (lastAddress c <=? a)
                      && (a <? address))
                     || reached (lineNum c) insnsSize rest false
                          (lastAddress c) a)
               && (a <? insnsSize))).
    { subst c1. unfold addressSetCb.
      destruct (l =? lineNum c); destruct (lastAddressValid c) eqn:Hvalid;
        cbn [negb pSet lineNum lastAddressValid lastAddress].
      - rewrite Hvalid. repeat (split; [auto|]). reflexivity.
      - repeat (split; [auto; try lia|]). reflexivity.
      - specialize (Hv eq_refl).
        destruct (setRange_get (Z.to_nat (address - lastAddress c))
                    (lastAddress c) (pSet c) a Hv Ha Hw) as (Hw1 & Hs1 & _).
        split; [reflexivity|]. split; [exact Hw1|].
        split; [congruence|]. split; [discriminate|].
        rewrite (setRange_to _ _ _ a address) by (auto; lia).
        rewrite Hs. cbn [andb].
        destruct (dvmAddressSetGet (pSet c) a), (lastAddress c <=? a),
          (a <? address), (a <? insnsSize),
          (reached (lineNum c) insnsSize rest false (lastAddress c) a);
          reflexivity.
      - rewrite Hvalid. repeat (split; [auto|]). reflexivity. }
    destruct H1 as (HL & Hw1 & Hs1 & Hv1 & Hget).
    rewrite (IH c1 address a Hasc ltac:(lia) Ha Hw1 Hs1 Hv1).
    rewrite HL. exact Hget.
Qed.

Lemma lineAt_below positions : forall lo a cur,
  ascendingFrom lo positions -> a < lo -> lineAt positions a cur = cur.
Proof.
  induction positions as [|[address l] rest IH]; intros lo a cur Hasc Hlt;
    cbn [lineAt]; [reflexivity|].
  destruct Hasc as (Hle & Hasc).
  destruct (Z.leb_spec address a); [lia|]. apply (IH address); [exact Hasc|lia].
Qed.

Lemma reached_below line insnsSize positions : forall lo valid last a,
  ascendingFrom lo positions -> a < lo -> (valid = true -> a < last) ->
  reached line insnsSize positions valid last a = false.
Proof.
  induction positions as [|[address l] rest IH];
    intros lo valid last a Hasc Hlt Hv; cbn [reached].
  - destruct valid; [|reflexivity]. specialize (Hv eq_refl).
    destruct (Z.leb_spec last a); [lia|reflexivity].
  - destruct Hasc as (Hle & Hasc).
    destruct (l =? line).
    + apply (IH address); [exact Hasc|lia|].
      intros _. destruct valid; [now apply Hv|lia].
    + rewrite (IH address) by (try assumption; try lia; discriminate).
      destruct valid; [|reflexivity]. specialize (Hv eq_refl).
      destruct (Z.leb_spec last a); [lia|reflexivity].
Qed.

Lemma reached_spec line insnsSize positions : forall lo valid last a cur,
  ascendingFrom lo positions -> a < insnsSize ->
  (valid = true -> last <= lo) ->
  (cur = Some line <-> valid = true /\ last <= a) ->
  (reached line insnsSize positions valid last a = true
   <-> lineAt positions a cur = Some line).
Proof.
  induction positions as [|[address l] rest IH];
    intros lo valid last a cur Hasc Hlt Hv Hcur; cbn [reached lineAt].
  - rewrite Hcur.
    destruct valid, (Z.leb_spec last a), (Z.ltb_spec a insnsSize);
      cbn; split; try easy; try lia; intros (? & ?); try easy; lia.
  - destruct Hasc as (Hle & Hasc).
    destruct (Z.eqb_spec l line) as [->|Nl].
    + apply (IH address); try assumption.
      * intros _. destruct valid; [specialize (Hv eq_refl); lia|lia].
      * destruct (Z.leb_spec address a) as [Hin|Hout].
        -- split; [intros _; split; [reflexivity|]|reflexivity].
           destruct valid; [specialize (Hv eq_refl); lia|exact Hin].
        -- rewrite Hcur. destruct valid.
           ++ tauto.
           ++ split; [intros (? & _); discriminate|]. intros (_ & ?). lia.
    + destruct (Z.leb_spec address a) as [Hin|Hout].
      * replace (valid && (last <=? a) && (a <? address)) with false
          by (destruct (Z.ltb_spec a address); [lia|now rewrite andb_false_r]).
        cbn [orb]. apply (IH address); try assumption; [discriminate|].
        split; [intros [= E]; now contradiction Nl|intros (? & _); discriminate].
      * rewrite (reached_below line insnsSize rest address false last a)
          by (try assumption; discriminate).
        rewrite orb_false_r, (lineAt_below rest address a cur) by assumption.
        rewrite Hcur.
        destruct valid, (Z.leb_spec last a), (Z.ltb_spec a address);
          cbn; split; try easy; try lia; intros (? & ?); try easy; lia.
Qed.

(** For a position table whose addresses do not go down,
    [dvmAddressSetForLine] marks exactly the instruction addresses of
    the method that the table puts on the line: an address below the
    method's size is in the set exactly when the last entry of the
    table at or before it names the line. *)
Theorem address_set_is_the_line (positions : list (Z * Z))
    (insnsSize line a : Z) :
  ascendingFrom 0 positions -> 0 <= insnsSize -> 0 <= line < 2 ^ 32 ->
  0 <= a ->
  (dvmAddressSetGet (dvmAddressSetForLine positions insnsSize line) a = true
   <-> a < insnsSize /\ lineAt positions a None = Some line).
Proof.
  intros Hasc Hsz Hline Ha. unfold dvmAddressSetForLine.
  set (result := {| setSize := insnsSize;
                    set := replicate (Z.to_nat (insnsSize / 8 + 1) * 8)
                             false |}).
  set (c := {| lastAddressValid := false; lastAddress := 0;
               lineNum := u4 line; pSet := result |}).
  assert (Hw : wellSized result).
  { unfold wellSized, result; cbn [setSize set]. rewrite length_replicate.
    pose proof (Z.mul_succ_div_gt insnsSize 8 ltac:(lia)).
    assert (0 <= insnsSize / 8) by (apply Z.div_pos; lia). lia. }
  rewrite (fold_addressSetCb insnsSize positions c 0 a Hasc ltac:(lia) Ha Hw
             eq_refl ltac:(discriminate)).
  cbn [pSet lineNum lastAddressValid lastAddress c].
  assert (Hempty : dvmAddressSetGet result a = false).
  { unfold dvmAddressSetGet, result; cbn [setSize set].
    destruct (a <? insnsSize); [|reflexivity].
    destruct (replicate _ false !! Z.to_nat a) as [b|] eqn:E; [|reflexivity].
    apply lookup_replicate in E as (-> & _). reflexivity. }
  rewrite Hempty. cbn [orb].
  assert (Hu : u4 line = line) by (unfold u4; apply Z.mod_small; lia).
  rewrite Hu, andb_true_iff, Z.ltb_lt.
  split.
  - intros (Hr & Hlt). split; [exact Hlt|].
    apply (reached_spec line insnsSize positions 0 false 0 a None Hasc Hlt);
      [discriminate| |exact Hr].
    split; [discriminate|intros (? & _); discriminate].
  - intros (Hlt & Hl). split; [|exact Hlt].
    apply (reached_spec line insnsSize positions 0 false 0 a None Hasc Hlt);
      [discriminate| |exact Hl].
    split; [discriminate|intros (? & _); discriminate].
Qed.

End DebuggerMoreFacts.


(* --------------------------------------------------------------------- *)
(** ** Further examples                                                   *)
(* --------------------------------------------------------------------- *)

Module DexItemsExample.
Import Dex DexItems DexFacts DexMapFacts DexItemsFacts.
Import Stdlib.Init.Byte.

#[local] Existing Instance DexExample.littleEndianHost.
#[local] Existing Instance DexExample.dex035.
#[local] Existing Instance DexExample.acceptingEnvironment.

#[local] Instance dexConstants : DexConstants :=
  {| kDexNoIndex := 4294967295;
     ACC_PRIVATE := 2;
     ACC_STATIC := 8;
     ACC_SYNCHRONIZED := 32;
     ACC_NATIVE := 256;
     ACC_ABSTRACT := 1024;
     ACC_CONSTRUCTOR := 65536;
     ACC_FIELD_MASK := 20703;
     ACC_METHOD_MASK := 204287 |}.

(** A header whose five index tables have five entries each, followed
    by the bytes of one item at offset 112. *)
Definition five : list byte := le_split 4 5.

Definition headerOfFives : list byte :=
  replicate 56 x00
  ++ five ++ replicate 4 x00 ++ five ++ replicate 4 x00
  ++ five ++ replicate 4 x00 ++ five ++ replicate 4 x00
  ++ five ++ replicate 4 x00 ++ replicate 16 x00.

Definition fileWith (item : list byte) : World :=
  {| image := headerOfFives ++ item;
     state := {| pHeader := Some 0;
                 fileLen := 112 + Z.of_nat (length item);
                 pDataMap := None; pDexFile := false;
                 previousItem := None |};
     visited := [] |}.

(** A file of a header and a map with the two entries every map needs. *)
Definition mapFile : list byte :=
  replicate 32 x00 ++ le_split 4 140 ++ replicate 16 x00 ++ le_split 4 112
  ++ replicate 48 x00 ++ le_split 4 28 ++ le_split 4 112
  ++ le_split 4 2
  ++ le_split 2 0 ++ le_split 2 0 ++ le_split 4 1 ++ le_split 4 0
  ++ le_split 2 4096 ++ le_split 2 0 ++ le_split 4 1 ++ le_split 4 112.

Definition mapWorld : World :=
  {| image := mapFile;
     state := {| pHeader := Some 0; fileLen := 140; pDataMap := None;
                 pDexFile := false; previousItem := None |};
     visited := [] |}.

Definition mapEntries : list MapItem :=
  [ {| type := 0; size := 1; offset := 0 |};
    {| type := 4096; size := 1; offset := 112 |} ].

Definition afterSwapMap : World :=
  {| image := mapFile;
     state := {| pHeader := Some 0; fileLen := 140;
                 pDataMap := Some {| max := 1; entries := [] |};
                 pDexFile := false; previousItem := None |};
     visited := [] |}.

Lemma accepted_map_is_valid_witness :
  swapMap 112 mapWorld = Ok tt afterSwapMap
  /\ mapGood mapEntries (hostValue (le_split 4 140)) (hostValue (le_split 4 28))
  /\ In (typeCode kDexTypeHeaderItem) (map type mapEntries)
  /\ In (typeCode kDexTypeMapList) (map type mapEntries).
Proof.
  assert (Hrun : swapMap 112 mapWorld = Ok tt afterSwapMap)
    by (vm_compute; reflexivity).
  split; [exact Hrun|].
  assert (Hpos : 0 + sizeofDexHeader <= 112) by (vm_compute; discriminate).
  assert (Hfs : getBytes (image mapWorld) (0 + off_fileSize) 4 = Some (le_split 4 140))
    by (vm_compute; reflexivity).
  assert (Hds : getBytes (image mapWorld) (0 + off_dataSize) 4 = Some (le_split 4 28))
    by (vm_compute; reflexivity).
  assert (Hcb : getBytes (image mapWorld) 112 4 = Some (le_split 4 2))
    by (vm_compute; reflexivity).
  assert (Hes : decodeItems (image mapWorld) (112 + 4)
                  (Z.to_nat (le_combine (le_split 4 2))) = Some mapEntries)
    by (vm_compute; reflexivity).
  destruct (accepted_map_is_valid 112 0 mapWorld (le_split 4 140)
              (le_split 4 28) (le_split 4 2) mapEntries afterSwapMap
              eq_refl Hfs Hds Hpos Hcb Hes Hrun)
    as (Hgood & Hh & Hm & _).
  split; [exact Hgood|]. split; [exact Hh|exact Hm].
Defined.

(** Two four-byte items, walked with an alignment of four. *)
Definition fourByteItem : ItemVisitorFunction := fun p => ret (p + 4).

Lemma section_walk_visits_aligned_items_witness :
  exists w' ptrs,
    iterateSectionWithOptionalUpdate 0 2 fourByteItem 4 (-1)
      (DexExample.itemWorld (replicate 8 x00)) = Ok 8 w'
    /\ length ptrs = 2%nat
    /\ visited w' = ptrs
    /\ Forall (fun p => p mod 4 = 0) ptrs.
Proof.
  destruct (iterateSectionWithOptionalUpdate 0 2 fourByteItem 4 (-1)
              (DexExample.itemWorld (replicate 8 x00)))
    as [next w'| |] eqn:Hrun;
    [|exfalso; vm_compute in Hrun; discriminate Hrun..].
  assert (Hnext : next = 8).
  { vm_compute in Hrun. now injection Hrun as <- _. }
  subst next.
  assert (Hkeep : visitorKeepsState fourByteItem).
  { intros p w a w1 E. injection E as _ <-. now split. }
  assert (H0 : 0 <= 0 <= fileLen (state (DexExample.itemWorld
                                           (replicate 8 x00))))
    by (vm_compute; split; discriminate).
  assert (H1 : 0 <= 2) by lia.
  assert (H2 : fileLen (state (DexExample.itemWorld (replicate 8 x00))) + 4
               <= 2 ^ 32) by (vm_compute; discriminate).
  destruct (section_walk_visits_aligned_items 0 2 4 (-1) fourByteItem
              (DexExample.itemWorld (replicate 8 x00)) 8 w' 2
              Hkeep H0 H1 eq_refl H2 Hrun)
    as (ptrs & Hlen & Hvis & Hall & _).
  exists w', ptrs. split; [reflexivity|]. split; [exact Hlen|].
  split; [exact Hvis|exact Hall].
Defined.

Lemma defined_class_bits_witness :
  exists bits',
    setDefinedClassBit [0; 0] 33 = Some (isDefined [0; 0] 33, bits')
    /\ length bits' = 2%nat
    /\ isDefined bits' 33 = true
    /\ isDefined bits' 32 = false.
Proof.
  assert (H33 : 0 <= 33) by lia.
  assert (Hin : Z.shiftr 33 5 < Z.of_nat (length [0; 0]))
    by (vm_compute; reflexivity).
  destruct (proj1 (defined_class_bits [0; 0] 33 H33) Hin)
    as (bits' & E & L & Hset).
  exists bits'. split; [exact E|]. split; [exact L|]. split.
  - rewrite (Hset 33 H33). reflexivity.
  - rewrite (Hset 32 ltac:(lia)). reflexivity.
Defined.

(** A field id: class 1, type 2, name 3. *)
Definition fieldIdFile : World :=
  fileWith (le_split 2 1 ++ le_split 2 2 ++ le_split 4 3).

Lemma member_id_items_checked_witness :
  swapFieldIdItem 112 fieldIdFile = Ok 120 fieldIdFile
  /\ memberIdChecked 112 fieldIdFile fieldIdFile 120
       (hostValue five) (hostValue five) (hostValue five).
Proof.
  assert (Hrun : swapFieldIdItem 112 fieldIdFile = Ok 120 fieldIdFile)
    by (vm_compute; reflexivity).
  split; [exact Hrun|].
  assert (Hpos : 112 + 8 <= 0 \/ 0 + sizeofDexHeader <= 112)
    by (right; vm_compute; discriminate).
  assert (Ht : getBytes (image fieldIdFile) (0 + off_typeIdsSize) 4 = Some five)
    by (vm_compute; reflexivity).
  assert (Hp : getBytes (image fieldIdFile) (0 + off_protoIdsSize) 4 = Some five)
    by (vm_compute; reflexivity).
  assert (Hs : getBytes (image fieldIdFile) (0 + off_stringIdsSize) 4 = Some five)
    by (vm_compute; reflexivity).
  exact (proj1 (member_id_items_checked 112 fieldIdFile 120 fieldIdFile 0
                  five five five eq_refl Hpos Ht Hp Hs) Hrun).
Defined.

(** A class definition: class 1, no superclass, source file 2, and a
    [staticValuesOff] of 0x11223344. *)
Definition classDefFile : World :=
  fileWith (le_split 4 1 ++ le_split 4 1 ++ le_split 4 4294967295
            ++ le_split 4 0 ++ le_split 4 2 ++ le_split 4 0 ++ le_split 4 0
            ++ le_split 4 287454020).

Lemma class_def_item_checked_witness :
  swapClassDefItem 112 classDefFile = Ok 144 classDefFile
  /\ exists classIdx superclassIdx sourceFileIdx,
       fileValue (image classDefFile) 112 4 = Some classIdx
       /\ fileValue (image classDefFile) (112 + 8) 4 = Some superclassIdx
       /\ fileValue (image classDefFile) (112 + 16) 4 = Some sourceFileIdx
       /\ classIdx < hostValue five
       /\ (superclassIdx = kDexNoIndex \/ superclassIdx < hostValue five)
       /\ (sourceFileIdx = kDexNoIndex \/ sourceFileIdx < hostValue five).
Proof.
  assert (Hrun : swapClassDefItem 112 classDefFile = Ok 144 classDefFile)
    by (vm_compute; reflexivity).
  split; [exact Hrun|].
  assert (Hpos : 112 + 32 <= 0 \/ 0 + sizeofDexHeader <= 112)
    by (right; vm_compute; discriminate).
  assert (Ht : getBytes (image classDefFile) (0 + off_typeIdsSize) 4 = Some five)
    by (vm_compute; reflexivity).
  assert (Hs : getBytes (image classDefFile) (0 + off_stringIdsSize) 4 = Some five)
    by (vm_compute; reflexivity).
  destruct (class_def_item_checked 112 classDefFile 144 classDefFile 0
              five five eq_refl Hpos Ht Hs Hrun)
    as (c & su & sf & V1 & V2 & V3 & L1 & L2 & L3 & _).
  exists c, su, sf. repeat (split; [assumption|]). exact L3.
Defined.

(** A type list of the types 1 and 2. *)
Definition typeListFile : World :=
  fileWith (le_split 4 2 ++ le_split 2 1 ++ le_split 2 2).

Lemma type_list_checked_witness :
  swapTypeList 112 typeListFile = Ok 120 typeListFile
  /\ exists size idxs,
       fileValue (image typeListFile) 112 4 = Some size
       /\ decodeU2s (image typeListFile) (112 + 4) (Z.to_nat size) = Some idxs
       /\ Forall (fun i => i < hostValue five) idxs.
Proof.
  assert (Hrun : swapTypeList 112 typeListFile = Ok 120 typeListFile)
    by (vm_compute; reflexivity).
  split; [exact Hrun|].
  assert (Hpos : 0 + sizeofDexHeader <= 112) by (vm_compute; discriminate).
  assert (Ht : getBytes (image typeListFile) (0 + off_typeIdsSize) 4 = Some five)
    by (vm_compute; reflexivity).
  destruct (type_list_checked 112 typeListFile 120 typeListFile 0 five
              eq_refl Hpos Ht Hrun)
    as (size & idxs & V & D & A & _).
  exists size, idxs. split; [exact V|]. split; [exact D|exact A].
Defined.

(** An annotations directory with one field and one method. *)
Definition directoryFile : World :=
  fileWith (le_split 4 0 ++ le_split 4 1 ++ le_split 4 1 ++ le_split 4 0
            ++ le_split 4 1 ++ le_split 4 0
            ++ le_split 4 2 ++ le_split 4 0).

Lemma annotations_directory_checked_witness :
  swapAnnotationsDirectoryItem 112 directoryFile = Ok 144 directoryFile
  /\ exists fieldsSize methodsSize fields methods,
       fileValue (image directoryFile) (112 + 4) 4 = Some fieldsSize
       /\ fileValue (image directoryFile) (112 + 8) 4 = Some methodsSize
       /\ decodeIdxOffs (image directoryFile) (112 + 16)
            (Z.to_nat fieldsSize) = Some fields
       /\ decodeIdxOffs (image directoryFile) (112 + 16 + 8 * fieldsSize)
            (Z.to_nat methodsSize) = Some methods
       /\ Forall (fun e => fst e < hostValue five) fields
       /\ Forall (fun e => fst e < hostValue five) methods.
Proof.
  assert (Hrun : swapAnnotationsDirectoryItem 112 directoryFile
                 = Ok 144 directoryFile) by (vm_compute; reflexivity).
  split; [exact Hrun|].
  assert (Hpos : 0 + sizeofDexHeader <= 112) by (vm_compute; discriminate).
  assert (Hf : getBytes (image directoryFile) (0 + off_fieldIdsSize) 4 = Some five)
    by (vm_compute; reflexivity).
  assert (Hm : getBytes (image directoryFile) (0 + off_methodIdsSize) 4 = Some five)
    by (vm_compute; reflexivity).
  destruct (annotations_directory_checked 112 directoryFile 144 directoryFile
              0 five five eq_refl Hpos Hf Hm Hrun)
    as (fs & ms & ps & fields & methods & parameters
        & V1 & V2 & _ & D1 & D2 & _ & _ & _ & _ & L1 & L2 & _).
  exists fs, ms, fields, methods. repeat (split; [assumption|]). exact L2.
Defined.

(** A class with a static field, a direct and a virtual method, and an
    instance field whose index is out of range and which is static. *)
Definition classData : DexClassData :=
  {| header := {| staticFieldsSize := 1; instanceFieldsSize := 1;
                  directMethodsSize := 1; virtualMethodsSize := 1 |};
     staticFields := [ {| fieldIdx := 1; accessFlags := 8 |} ];
     instanceFields := [ {| fieldIdx := 99; accessFlags := 8 |} ];
     directMethods :=
       [ {| methodIdx := 1; methodAccessFlags := 8; codeOff := 100 |} ];
     virtualMethods :=
       [ {| methodIdx := 2; methodAccessFlags := 1; codeOff := 200 |} ] |}.

Lemma class_data_checked_witness :
  verifyClassDataItem0 classData (fileWith []) = Ok tt (fileWith [])
  /\ (forall k, (k < 1)%nat ->
        exists f, staticFields classData !! k = Some f
                  /\ fieldOk (hostValue five) true f).
Proof.
  assert (Hrun : verifyClassDataItem0 classData (fileWith [])
                 = Ok tt (fileWith [])) by (vm_compute; reflexivity).
  split; [exact Hrun|].
  assert (Hf : headerField off_fieldIdsSize (fileWith [])
               = Ok (hostValue five) (fileWith []))
    by (vm_compute; reflexivity).
  assert (Hm : headerField off_methodIdsSize (fileWith [])
               = Ok (hostValue five) (fileWith []))
    by (vm_compute; reflexivity).
  exact (proj1 (proj2 (class_data_checked classData (fileWith [])
                         (fileWith []) (hostValue five) (hostValue five)
                         Hf Hm Hrun))).
Defined.

Lemma instance_fields_are_not_checked_witness :
  verifyClassDataItem0 classData (fileWith [])
  = verifyClassDataItem0 (withoutInstanceFields classData) (fileWith [])
  /\ verifyFields 1 (instanceFields classData) false (fileWith [])
     = Reject BadIndex (fileWith []).
Proof.
  assert (Hf : headerField off_fieldIdsSize (fileWith [])
               = Ok (hostValue five) (fileWith []))
    by (vm_compute; reflexivity).
  assert (Hlen : (Z.to_nat (instanceFieldsSize (header classData))
                  <= length (instanceFields classData))%nat)
    by (vm_compute; constructor).
  split.
  - exact (instance_fields_are_not_checked classData (fileWith [])
             (hostValue five) Hf Hlen).
  - vm_compute. reflexivity.
Defined.

End DexItemsExample.

Module DebuggerMoreExample.
Import CString CStringFacts Debugger DebuggerMore DebuggerMoreFacts.

Definition someFrame : StackSaveArea :=
  {| method := {| registersSize := 5; insSize := 2; accessFlags := 0 |} |}.

Lemma slot_round_trip_witness :
  (untweakSlot (tweakSlot 0 "x") someFrame = 0 <-> 0 <> kSlot0Sub)
  /\ (untweakSlot (tweakSlot 1000 "x") someFrame = 1000
      <-> 1000 <> kSlot0Sub).
Proof.
  split.
  - exact (slot_round_trip 0 "x" someFrame eq_refl).
  - exact (slot_round_trip 1000 "x" someFrame eq_refl).
Defined.

Definition connected : Registry :=
  {| dbgRegistry := []; debuggerConnected := true |}.

Lemma object_ids_round_trip_witness :
  exists id g',
    registerObject connected 4096 kObjectId true = (id, g')
    /\ objectIdToObject id = 4096
    /\ Z.shiftr id 32 = kObjectId.
Proof.
  assert (Hobj : 0 < 4096 < 2 ^ 32) by lia.
  destruct (object_ids_round_trip connected 4096 kObjectId true Hobj
              (or_introl eq_refl))
    as (id & g' & E & Hback & Hkind & _).
  exists id, g'. split; [exact E|]. split; [exact Hback|exact Hkind].
Defined.

Definition noKnownClasses : KnownClasses :=
  {| classJavaLangString := 0; classJavaLangClass := 0;
     classJavaLangThread := 0; classJavaLangThreadGroup := 0 |}.

Definition someHeap : Z -> Object :=
  fun _ => {| clazz := 1; clazzDescriptor := "[I" |}.

Lemma signature_tags_consistent_witness :
  dvmDbgGetTagWidth (dvmDbgGetObjectTag noKnownClasses someHeap 4096
                       "Ljava/lang/Object;")
  = dvmDbgGetTagWidth (dvmDbgGetSignatureTag "Ljava/lang/Object;").
Proof.
  assert (Hknown : dvmDbgGetSignatureTag "Ljava/lang/Object;" <> -1)
    by (vm_compute; discriminate).
  destruct (signature_tags_consistent noKnownClasses someHeap 4096
              "Ljava/lang/Object;" Hknown)
    as (_ & _ & _ & _ & W & _).
  exact W.
Defined.

Definition someMethod : FrameMethod :=
  {| methodPtr := 8192; methodClazz := 4096; methodClazzIsInterface := false;
     methodIsNative := false; insns := 100 |}.

Definition someStack : list Frame :=
  [ {| framePtr := 512; isBreakFrame := true; frameMethod := someMethod;
       currentPc := 0 |};
    {| framePtr := 256; isBreakFrame := false; frameMethod := someMethod;
       currentPc := 103 |} ].

Lemma frames_by_number_match_count_witness :
  dvmDbgGetThreadFrameCount (Some someStack) = 1
  /\ dvmDbgGetThreadFrame connected (Some someStack) 1 = (None, connected).
Proof.
  assert (Hlen : Z.of_nat (length someStack) < 2 ^ 31)
    by (vm_compute; reflexivity).
  destruct (frames_by_number_match_count connected someStack 1 Hlen)
    as (Hcount & _ & Hnone & _).
  split; [exact Hcount|].
  apply Hnone. right. rewrite Hcount. vm_compute. discriminate.
Defined.

(** Line 10 at the addresses 0 to 2 and from 5 on, line 11 between. *)
Definition positionTable : list (Z * Z) := [(0, 10); (3, 11); (5, 10)].

Lemma address_set_is_the_line_witness :
  dvmAddressSetGet (dvmAddressSetForLine positionTable 8 10) 6 = true
  /\ dvmAddressSetGet (dvmAddressSetForLine positionTable 8 10) 3 = false.
Proof.
  assert (Hasc : ascendingFrom 0 positionTable)
    by (unfold positionTable; cbn [ascendingFrom]; lia).
  split.
  - apply (address_set_is_the_line positionTable 8 10 6 Hasc); try lia.
    split; [lia|reflexivity].
  - destruct (dvmAddressSetGet (dvmAddressSetForLine positionTable 8 10) 3)
      eqn:E; [|reflexivity].
    apply (address_set_is_the_line positionTable 8 10 3 Hasc) in E; try lia.
    destruct E as (_ & E). discriminate E.
Defined.

End DebuggerMoreExample.


(* --------------------------------------------------------------------- *)
(** ** The interning cache, the name stack and the attributes of
       ExpatParser.cpp                                                    *)
(* --------------------------------------------------------------------- *)

Module ExpatMoreFacts.
Import CString CStringFacts Expat ExpatMore ExpatFacts.

Section Interning.
Context `{CharType} `{Java}.

(** The bucket of a string, and what the cache holds for it: 0 when it
    holds nothing, or a NULL handle. *)
Definition bucketOf (s : string) : nat :=
  Z.to_nat (Z.land (hashString s) (BUCKET_COUNT - 1)).

Definition cached (buckets : list (list InternedString)) (s : string)
    : jstring :=
  findInternedString (default [] (buckets !! bucketOf s)) s (hashString s).

(** No entry of the cache holds a NULL handle. *)
Definition cacheOk (buckets : list (list InternedString)) : Prop :=
  Forall (Forall (fun e => interned e <> 0)) buckets.

Lemma bucketOf_range s : (bucketOf s < Z.to_nat BUCKET_COUNT)%nat.
Proof.
  unfold bucketOf, BUCKET_COUNT. change (128 - 1) with (Z.ones 7).
  rewrite Z.land_ones by lia.
  pose proof (Z.mod_pos_bound (hashString s) (2 ^ 7) ltac:(lia)). lia.
Qed.

Lemma find_app_found bucket extra s h :
  findInternedString bucket s h <> 0 ->
  findInternedString (bucket ++ extra) s h = findInternedString bucket s h.
Proof.
  induction bucket as [|e bucket IH]; cbn; [intros Hne; now destruct Hne|].
  destruct (negb (hash e =? h)); [exact IH|].
  destruct (strcmp s (bytes e) =? 0); [reflexivity|exact IH].
Qed.

Lemma find_app_new bucket s h j :
  Forall (fun e => interned e <> 0) bucket ->
  findInternedString bucket s h = 0 ->
  findInternedString (bucket ++ [{| interned := j; bytes := s; hash := h |}])
    s h = j.
Proof.
  induction bucket as [|e bucket IH]; cbn.
  - intros _ _. now rewrite Z.eqb_refl, strcmp_refl.
  - intros Hall. apply Forall_cons in Hall as (He & Hall).
    destruct (negb (hash e =? h)); [now apply IH|].
    destruct (strcmp s (bytes e) =? 0); [intros E; now destruct He|].
    now apply IH.
Qed.

Lemma cacheOk_bucket buckets i :
  cacheOk buckets ->
  Forall (fun e => interned e <> 0) (default [] (buckets !! i)).
Proof.
  intros Hok. destruct (buckets !! i) as [bucket|] eqn:E; cbn [default].
  - unfold cacheOk in Hok. rewrite Forall_forall in Hok.
    apply Hok. now apply list_elem_of_lookup_2 in E.
  - constructor.
Qed.

Lemma cacheOk_insert buckets i bucket :
  cacheOk buckets ->
  Forall (fun e => interned e <> 0) bucket ->
  cacheOk (<[i := bucket]> buckets).
Proof. intros Hok Hb. now apply Forall_insert. Qed.

(** A handle that the cache holds is the answer, whatever allocation
    would do. *)
Lemma internString_cached a buckets s :
  cached buckets s <> 0 ->
  internString a buckets (Some s) = (cached buckets s, buckets, false).
Proof.
  unfold cached, internString. fold (bucketOf s). intros Hc.
  destruct (default [] (buckets !! bucketOf s)) as [|e bucket] eqn:Eb.
  - now destruct Hc.
  - destruct (Z.eqb_spec (findInternedString (e :: bucket) s (hashString s))
                0) as [E0|_]; [now destruct Hc|reflexivity].
Qed.

(** A string that the cache does not hold: the new entry goes to the end
    of its bucket, unless something fails. *)
Lemma internString_miss a buckets s :
  cached buckets s = 0 ->
  internString a buckets (Some s)
  = if wrapperFails a || bucketFails a then (0, buckets, true)
    else (jniIntern s,
          <[bucketOf s :=
              default [] (buckets !! bucketOf s)
              ++ [{| interned := jniIntern s; bytes := s;
                     hash := hashString s |}]]> buckets,
          false).
Proof.
  unfold cached, internString. fold (bucketOf s). intros Hc.
  unfold newInternedString, expandInternedStringBucket,
    newInternedStringBucket.
  destruct (default [] (buckets !! bucketOf s)) as [|e bucket] eqn:Eb.
  - destruct (wrapperFails a), (bucketFails a); reflexivity.
  - rewrite Hc. cbn [Z.eqb negb].
    destruct (wrapperFails a), (bucketFails a); reflexivity.
Qed.

(** With the 128 buckets in place and no NULL handle in the cache:
    [internString] keeps the number of buckets; a handle the cache holds
    is returned, with the cache untouched; a string the cache does not
    hold gets the handle the runtime's intern gives and an entry of its
    own, unless an allocation or a JNI call fails, and then NULL is
    returned with an exception pending and the cache untouched; once a
    handle other than NULL was returned, interning the same bytes again
    returns it and leaves the cache alone, whatever allocation does then,
    and the cache still holds no NULL handle; a handle the cache held for
    other bytes is the one it keeps giving out; a NULL argument yields
    NULL and touches nothing. *)
Theorem interning_is_stable (a : Allocation)
    (buckets : list (list InternedString)) (s : string) (h : jstring)
    (buckets' : list (list InternedString)) (pending : bool) :
  length buckets = Z.to_nat BUCKET_COUNT ->
  cacheOk buckets ->
  internString a buckets (Some s) = (h, buckets', pending) ->
  length buckets' = length buckets
  /\ (cached buckets s <> 0 ->
      h = cached buckets s /\ buckets' = buckets /\ pending = false)
  /\ (cached buckets s = 0 -> wrapperFails a || bucketFails a = true ->
      h = 0 /\ buckets' = buckets /\ pending = true)
  /\ (cached buckets s = 0 -> wrapperFails a || bucketFails a = false ->
      h = jniIntern s /\ pending = false /\ cached buckets' s = jniIntern s)
  /\ (h <> 0 ->
      pending = false
      /\ cacheOk buckets'
      /\ forall a', internString a' buckets' (Some s) = (h, buckets', false))
  /\ (forall t a', cached buckets t <> 0 ->
        internString a' buckets' (Some t) = (cached buckets t, buckets', false))
  /\ (forall a', internString a' buckets None = (0, buckets, false)).
Proof.
  intros Hlen Hok E. pose proof (bucketOf_range s) as Hr.
  destruct (Z.eq_dec (cached buckets s) 0) as [Hc|Hc].
  - (* not in the cache *)
    rewrite (internString_miss a buckets s Hc) in E.
    destruct (wrapperFails a || bucketFails a) eqn:Hf.
    + (* something fails *)
      injection E as <- <- <-.
      split; [reflexivity|]. split; [intros Hne; now destruct Hne|].
      split; [now intros _ _|]. split; [discriminate|].
      split; [intros Hne; now destruct Hne|].
      split; [|reflexivity].
      intros t a' Ht. now apply internString_cached.
    + injection E as <- <- <-.
      set (entry := {| interned := jniIntern s; bytes := s;
                       hash := hashString s |}).
      set (bucket := default [] (buckets !! bucketOf s)).
      assert (Hnew : cached (<[bucketOf s := bucket ++ [entry]]> buckets) s
                     = jniIntern s).
      { unfold cached. rewrite list_lookup_insert_eq by lia. cbn [default].
        apply find_app_new; [now apply cacheOk_bucket|exact Hc]. }
      assert (Hkeep : forall t a', cached buckets t <> 0 ->
                internString a' (<[bucketOf s := bucket ++ [entry]]> buckets)
                  (Some t)
                = (cached buckets t,
                   <[bucketOf s := bucket ++ [entry]]> buckets, false)).
      { intros t a' Ht.
        assert (Hsame : cached (<[bucketOf s := bucket ++ [entry]]> buckets) t
                        = cached buckets t).
        { unfold cached in *.
          destruct (Nat.eq_dec (bucketOf t) (bucketOf s)) as [Eb|Nb].
          - rewrite Eb in *. rewrite list_lookup_insert_eq by lia.
            cbn [default]. now apply find_app_found.
          - now rewrite list_lookup_insert_ne by congruence. }
        rewrite <- Hsame. apply internString_cached. now rewrite Hsame. }
      split; [apply length_insert|].
      split; [intros Hne; now destruct Hne|].
      split; [discriminate|].
      split; [now intros _ _|].
      split; [|split; [exact Hkeep|reflexivity]].
      intros Hh. split; [reflexivity|]. split.
      * apply cacheOk_insert; [exact Hok|].
        apply Forall_app. split; [now apply cacheOk_bucket|].
        constructor; [exact Hh|constructor].
      * intros a'. rewrite <- Hnew at 1. apply internString_cached.
        now rewrite Hnew.
  - (* in the cache *)
    rewrite (internString_cached a buckets s Hc) in E.
    injection E as <- <- <-.
    split; [reflexivity|]. split; [now intros _|].
    split; [intros E0; now destruct Hc|].
    split; [intros E0; now destruct Hc|].
    split; [|split; [|reflexivity]].
    + intros _. split; [reflexivity|]. split; [exact Hok|].
      intros a'. now apply internString_cached.
    + intros t a' Ht. now apply internString_cached.
Qed.

(** On the runs the handlers are followed on, interning leaves no
    exception pending. *)
Lemma internString_allSucceed buckets s :
  snd (internString allSucceed buckets s) = false.
Proof.
  destruct s as [s|]; [|reflexivity]. unfold internString.
  destruct (default [] (buckets !! _)) as [|e bucket]; [reflexivity|].
  cbn [newInternedString expandInternedStringBucket allSucceed
       wrapperFails bucketFails].
  now destruct (negb _).
Qed.
End Interning.

(** *** The name stack *)

(** What is pushed last is popped first, also when the push had to
    double the array: a pop after a push yields the string pushed and
    the stack as it was before; the capacity doubles exactly when the
    stack was full; a pop from the empty stack yields NULL and leaves
    the stack alone. *)
Theorem name_stack_is_lifo (c : ParsingContext) (s : jstring) :
  stackOk c ->
  fst (stringStackPop (stringStackPush c s)) = s
  /\ stackContents (snd (stringStackPop (stringStackPush c s)))
     = stackContents c
  /\ stackOk (snd (stringStackPop (stringStackPush c s)))
  /\ capacity (stringStack (stringStackPush c s))
     = (if size (stringStack c) =? capacity (stringStack c)
        then capacity (stringStack c) * 2 else capacity (stringStack c))
  /\ size (stringStack (stringStackPush c s)) = size (stringStack c) + 1
  /\ (size (stringStack c) = 0 -> stringStackPop c = (0, c)).
Proof.
  intros Hok.
  destruct (push_spec c s Hok) as (Hok1 & Hc1 & _).
  destruct (pop_spec (stringStackPush c s) (stackContents c) s Hok1 Hc1)
    as (Hs & Hok2 & Hc2 & _).
  split; [exact Hs|]. split; [exact Hc2|]. split; [exact Hok2|].
  split; [|split].
  - unfold stringStackPush. cbn.
    now destruct (size (stringStack c) =? capacity (stringStack c)).
  - unfold stringStackPush. cbn.
    now destruct (size (stringStack c) =? capacity (stringStack c)).
  - intros E. unfold stringStackPop. now rewrite E.
Qed.

(** *** Attributes *)

(** The names of the attributes, in order. *)
Fixpoint names (attributes : list string) : list string :=
  match attributes with
  | name :: _ :: rest => name :: names rest
  | _ => []
  end.

Lemma names_lookup : forall attributes k,
  Nat.Even (length attributes) ->
  names attributes !! k = attributes !! (2 * k)%nat.
Proof.
  fix IH 1. intros [|name [|value rest]] k Hev.
  - reflexivity.
  - destruct Hev as [m Hm]. cbn in Hm. lia.
  - destruct k as [|k]; [reflexivity|].
    replace (2 * S k)%nat with (S (S (2 * k))) by lia. cbn.
    apply IH. destruct Hev as [m Hm]. cbn in Hm. exists (m - 1)%nat. lia.
Qed.

Lemma names_length attributes :
  Nat.Even (length attributes) ->
  (2 * length (names attributes) = length attributes)%nat.
Proof.
  revert attributes. fix IH 1. intros [|name [|value rest]] Hev.
  - reflexivity.
  - destruct Hev as [m Hm]. cbn in Hm. lia.
  - cbn. assert (Hr : Nat.Even (length rest)).
    { destruct Hev as [m Hm]. cbn in Hm. exists (m - 1)%nat. lia. }
    specialize (IH rest Hr). lia.
Qed.

(** [r] is the index of the first attribute whose name passes [test],
    or -1 when none does. *)
Definition firstMatch (attributes : list string)
    (test : ExpatElementName -> option bool) (r : Z) : Prop :=
  (r = -1 /\ forall k name, names attributes !! k = Some name ->
                test (init name) = Some false)
  \/ (0 <= r
      /\ (exists name, names attributes !! Z.to_nat r = Some name
                       /\ test (init name) = Some true)
      /\ forall k name, (k < Z.to_nat r)%nat ->
           names attributes !! k = Some name ->
           test (init name) = Some false).

Lemma attributeLoop_spec attributes test :
  Nat.Even (length attributes) ->
  (forall k name, names attributes !! k = Some name ->
     test (init name) <> None) ->
  forall n index,
    0 <= index -> (length (names attributes) < n + Z.to_nat index)%nat ->
    (Z.to_nat index <= length (names attributes))%nat ->
    (forall k name, (k < Z.to_nat index)%nat ->
       names attributes !! k = Some name -> test (init name) = Some false) ->
    exists r, attributeLoop n attributes index test = Some r
              /\ firstMatch attributes test r.
Proof.
  intros Hev Hdef. pose proof (names_length attributes Hev) as Hlen.
  induction n as [|n IH]; intros index Hi Hn Hmax Hbefore.
  - (* no rounds left: not reached *)
    exfalso. lia.
  - cbn [attributeLoop].
    destruct (Z.ltb_spec (Z.of_nat (length attributes)) (index * 2))
      as [Hpast|Hin].
    + (* beyond the terminator: not reached *)
      exfalso. lia.
    + replace (Z.to_nat (index * 2)) with (2 * Z.to_nat index)%nat by lia.
      rewrite <- names_lookup by exact Hev.
      destruct (names attributes !! Z.to_nat index) as [name|] eqn:Hname.
      * specialize (Hdef _ _ Hname).
        destruct (test (init name)) as [[|]|] eqn:Ht; [| |contradiction].
        -- exists index. split; [reflexivity|]. right.
           split; [exact Hi|]. split; [now exists name|exact Hbefore].
        -- apply lookup_lt_Some in Hname as Hlt.
           apply IH; [lia|lia|lia|].
           intros k name' Hk Hk'.
           destruct (Nat.eq_dec k (Z.to_nat index)) as [->|Hne].
           ++ rewrite Hname in Hk'. injection Hk' as <-. exact Ht.
           ++ apply (Hbefore k name'); [lia|exact Hk'].
      * exists (-1). split; [reflexivity|]. left. split; [reflexivity|].
        intros k name Hk. apply (Hbefore k name); [|exact Hk].
        apply lookup_ge_None in Hname. apply lookup_lt_Some in Hk. lia.
Qed.

(** What an attribute lookup by name returns: the value that follows
    the first matching name, or NULL when [r] is -1. *)
Definition valueAt (attributes : list string) (r : Z) : option string :=
  if r =? -1 then None else attributes !! Z.to_nat (2 * r + 1).

Lemma valueByIndex_spec attributes test r :
  Nat.Even (length attributes) -> firstMatch attributes test r ->
  (if r =? -1 then Some None else getAttributeValueByIndex attributes r)
  = Some (valueAt attributes r)
  /\ (r <> -1 -> exists value, valueAt attributes r = Some value).
Proof.
  intros Hev Hfirst. pose proof (names_length attributes Hev) as Hlen.
  unfold valueAt, getAttributeValueByIndex.
  destruct Hfirst as [(-> & _)|(Hr & (name & Hname & _) & _)].
  - split; [reflexivity|]. intros Hc. now contradiction Hc.
  - destruct (Z.eqb_spec r (-1)) as [->|_]; [lia|].
    apply lookup_lt_Some in Hname.
    rewrite Z.shiftl_mul_pow2 by lia. change (2 ^ 1) with 2.
    destruct (Z.ltb_spec (r * 2 + 1) 0); [lia|].
    destruct (Z.ltb_spec (Z.of_nat (length attributes)) (r * 2 + 1)); [lia|].
    cbn [orb]. replace (r * 2 + 1) with (2 * r + 1) by lia.
    split; [reflexivity|]. intros _.
    destruct (lookup_lt_is_Some_2 attributes (Z.to_nat (2 * r + 1)))
      as [value Hv]; [lia|].
    now exists value.
Qed.

(** On an array of names and values in which every name has a local
    name, the lookup by URI and local name and the lookup by qualified
    name each return the index of the first attribute whose name
    matches, or -1 when no name matches; the value lookups return the
    value that follows that name, or NULL when no name matches.  A NULL
    query string yields -1. *)
Theorem attribute_lookup_finds_first_match (attributes : list string)
    (uri localName qName : string) :
  Nat.Even (length attributes) ->
  (forall k name, names attributes !! k = Some name ->
     mLocalName (init name) <> None) ->
  (exists r,
     getAttributeIndex attributes (Some uri) (Some localName) = Some r
     /\ firstMatch attributes (fun e => matches e uri localName) r
     /\ getAttributeValue attributes (Some uri) (Some localName)
        = Some (valueAt attributes r)
     /\ (r <> -1 -> exists value, valueAt attributes r = Some value))
  /\ (exists r,
        getAttributeIndexForQName attributes (Some qName) = Some r
        /\ firstMatch attributes (fun e => matchesQName e qName) r
        /\ getAttributeValueForQName attributes (Some qName)
           = Some (valueAt attributes r)
        /\ (r <> -1 -> exists value, valueAt attributes r = Some value))
  /\ getAttributeIndex attributes None (Some localName) = Some (-1)
  /\ getAttributeIndex attributes (Some uri) None = Some (-1)
  /\ getAttributeIndexForQName attributes None = Some (-1).
Proof.
  intros Hev Hlocal. pose proof (names_length attributes Hev) as Hlen.
  assert (Hm : forall k name, names attributes !! k = Some name ->
                 matches (init name) uri localName <> None).
  { intros k name Hk. specialize (Hlocal k name Hk). unfold matches.
    destruct (strcmp uri (mUri (init name)) =? 0); [|discriminate].
    destruct (mLocalName (init name)); [discriminate|contradiction]. }
  assert (Hq : forall k name, names attributes !! k = Some name ->
                 matchesQName (init name) qName <> None).
  { intros k name Hk. specialize (Hlocal k name Hk). unfold matchesQName.
    destruct (mLocalName (init name)); [|contradiction].
    destruct (strrchr qName ":"); [|discriminate].
    destruct (prefixIsEmpty (init name)); [discriminate|].
    destruct (_ && _); discriminate. }
  split; [|split; [|now repeat split]].
  - destruct (attributeLoop_spec attributes
                (fun e => matches e uri localName) Hev Hm
                (S (length attributes)) 0 ltac:(lia) ltac:(lia) ltac:(lia))
      as (r & Hr & Hfirst); [intros k name Hk; lia|].
    exists r. unfold getAttributeValue, getAttributeIndex. rewrite Hr.
    destruct (valueByIndex_spec attributes _ r Hev Hfirst) as (Hv & Hex).
    now repeat split.
  - destruct (attributeLoop_spec attributes
                (fun e => matchesQName e qName) Hev Hq
                (S (length attributes)) 0 ltac:(lia) ltac:(lia) ltac:(lia))
      as (r & Hr & Hfirst); [intros k name Hk; lia|].
    exists r. unfold getAttributeValueForQName, getAttributeIndexForQName.
    rewrite Hr.
    destruct (valueByIndex_spec attributes _ r Hev Hfirst) as (Hv & Hex).
    now repeat split.
Qed.

End ExpatMoreFacts.

Module ExpatMoreExample.
Import CString Expat ExpatMore ExpatFacts ExpatMoreFacts.

#[local] Existing Instance ExpatExample.unsignedChar.
#[local] Existing Instance ExpatExample.quietJava.

Definition emptyCache : list (list InternedString) :=
  internedStrings (newParsingContext true).

Lemma emptyCache_ok : cacheOk emptyCache.
Proof. unfold cacheOk. repeat constructor. Qed.

Lemma interning_is_stable_witness :
  exists h buckets',
    internString allSucceed emptyCache (Some "html"%string)
    = (h, buckets', false)
    /\ h = jniIntern "html"%string
    /\ h <> 0
    /\ (forall a', internString a' buckets' (Some "html"%string)
                   = (h, buckets', false))
    /\ internString {| wrapperFails := true; bucketFails := false |}
         emptyCache (Some "html"%string) = (0, emptyCache, true).
Proof.
  destruct (internString allSucceed emptyCache (Some "html"%string))
    as [[h buckets'] pending] eqn:E.
  assert (Hlen : length emptyCache = Z.to_nat BUCKET_COUNT)
    by (vm_compute; reflexivity).
  assert (Hmiss : cached emptyCache "html" = 0) by (vm_compute; reflexivity).
  destruct (interning_is_stable allSucceed emptyCache "html" h buckets'
              pending Hlen emptyCache_ok E)
    as (_ & _ & _ & Hnew & Hagain & _).
  destruct (Hnew Hmiss eq_refl) as (Hh & Hp & _).
  assert (Hne : h <> 0) by (rewrite Hh; vm_compute; discriminate).
  destruct (Hagain Hne) as (_ & _ & Hstable).
  exists h, buckets'. rewrite Hp.
  split; [reflexivity|]. split; [exact Hh|]. split; [exact Hne|].
  split; [exact Hstable|]. vm_compute. reflexivity.
Defined.

(** Where the runtime's intern yields NULL, the entry made for a string
    is no hit: interning the same bytes again makes a second entry. *)
Lemma null_handle_is_cached_twice :
  let nullJava : Java :=
    {| jniIntern := fun _ => 0; listenerThrows := fun _ => false;
       emptyString := 1 |} in
  let entry := {| interned := 0; bytes := "a"%string;
                  hash := hashString "a"%string |} in
  exists i,
    internString (H0 := nullJava) allSucceed emptyCache (Some "a"%string)
    = (0, <[i := [entry]]> emptyCache, false)
    /\ internString (H0 := nullJava) allSucceed (<[i := [entry]]> emptyCache)
         (Some "a"%string)
       = (0, <[i := [entry; entry]]> emptyCache, false).
Proof.
  exists (bucketOf "a"%string). vm_compute. split; reflexivity.
Qed.

Lemma name_stack_is_lifo_witness :
  fst (stringStackPop (stringStackPush (newParsingContext true) 7)) = 7
  /\ stringStackPop (newParsingContext true) = (0, newParsingContext true).
Proof.
  assert (Hok : stackOk (newParsingContext true)).
  { unfold stackOk. simpl. lia. }
  destruct (name_stack_is_lifo (newParsingContext true) 7 Hok)
    as (Hpop & _ & _ & _ & _ & Hempty).
  split; [exact Hpop|]. apply Hempty. reflexivity.
Defined.

(** Two attributes: [id] without namespace and [lang] in the XML
    namespace. *)
Definition someAttributes : list string :=
  ["id"; "main"; "http://www.w3.org/XML/1998/namespace|lang|xml"; "en"]%string.

Lemma attribute_lookup_finds_first_match_witness :
  exists r,
    getAttributeIndexForQName someAttributes (Some "xml:lang"%string) = Some r
    /\ getAttributeValueForQName someAttributes (Some "xml:lang"%string)
       = Some (valueAt someAttributes r).
Proof.
  assert (Hev : Nat.Even (length someAttributes)) by (exists 2%nat; reflexivity).
  assert (Hlocal : forall k name, names someAttributes !! k = Some name ->
                     mLocalName (init name) <> None).
  { intros [|[|k]] name E; cbn in E; try discriminate E;
      injection E as <-; vm_compute; discriminate. }
  destruct (attribute_lookup_finds_first_match someAttributes
              "" "id" "xml:lang" Hev Hlocal)
    as (_ & (r & Hr & _ & Hv & _) & _).
  exists r. split; [exact Hr|exact Hv].
Defined.

End ExpatMoreExample.
